(** * ProcGraf-2025 (Hello3D/GrauB): the procedural track pipeline of Origem.cpp

    A shallow embedding of the four computations of [Origem.cpp] that carry
    the algorithmic content of the program:

    - [generateBSplinePoints]   (uniform cubic B-spline sampling),
    - [generateTrackMesh]       (ribbon extrusion: vertices and indices),
    - [exportAnimationPoints]   (the persisted point sequence),
    - the "Carro" block and the animation accumulator of [main]
      (placement frame, model matrix, fixed-step index update).

    The source computes in C++ [float].  The functions below are written
    once against an interface [Scalar] of the scalar operations they use.
    The statements on the program are made at the instance [Binary32.f32],
    IEEE-754 binary32 with round-to-nearest-even, built on the Standard
    Library's executable [SpecFloat] (precision 24, emax 128): the
    arithmetic the program runs, with its rounding, its overflow and its
    NaNs.  Statements that involve no arithmetic are made for every
    instance.  A second instance, exact real arithmetic [R], only serves to
    show that the double scaling of the car's matrix is no effect of
    rounding.

    The functions of libm ([atan2], [cos], [sin]) and GLM's degree-to-radian
    factor form the second interface [Trig].  GLM is an external library:
    its operators are transcribed here from their scalar definitions
    (column-major matrices, [m[c][r]]). *)

From Stdlib Require Import String Ascii ZArith List Bool Lia Lra Reals.
From Stdlib Require Import Floats.SpecFloat.
Import ListNotations.

(** ** IEEE-754 binary32 *)

Module Binary32.

Definition prec : Z := 24.
Definition emax : Z := 128.

Definition f32 : Type := spec_float.

(** [static_cast<float>(int)] and integer-valued literals ([1.0f], [90.0f]):
    the integer rounded to the nearest binary32 value. *)
Definition of_int (z : Z) : f32 := binary_normalize prec emax z 0 false.

Definition add : f32 -> f32 -> f32 := SFadd prec emax.
Definition sub : f32 -> f32 -> f32 := SFsub prec emax.
Definition mul : f32 -> f32 -> f32 := SFmul prec emax.
Definition div : f32 -> f32 -> f32 := SFdiv prec emax.
Definition sqrt : f32 -> f32 := SFsqrt prec emax.
Definition leb : f32 -> f32 -> bool := SFleb.
Definition ltb : f32 -> f32 -> bool := SFltb.

Definition is_zero (x : f32) : bool :=
  match x with S754_zero _ => true | _ => false end.

(** The sign bit is set and the value is not a NaN: [-0], a negative finite
    number or [-inf]. *)
Definition sign_negative (x : f32) : bool :=
  match x with
  | S754_zero s | S754_infinity s | S754_finite s _ _ => s
  | S754_nan => false
  end.

(** Zero or below: a zero of either sign, a negative finite number or
    [-inf]. *)
Definition at_most_zero (x : f32) : bool := is_zero x || sign_negative x.

(** Not a NaN, and the sign bit is [s]. *)
Definition has_sign (s : bool) (x : f32) : bool :=
  match x with
  | S754_zero s' | S754_infinity s' | S754_finite s' _ _ => Bool.eqb s s'
  | S754_nan => false
  end.

(** Two binary32 values denote the same number: they are identical, or they
    are the two zeros [+0] and [-0]. *)
Definition same_value (x y : f32) : Prop :=
  x = y \/ (is_zero x = true /\ is_zero y = true).

(** The binary32 value of the literal [0.01745329251994329576923690768489]
    (GLM's degrees-to-radians factor), bit pattern [0x3C8EFA35]. *)
Definition deg_to_rad : f32 := S754_finite false 9370165 (-29).

End Binary32.

(** ** The scalar interface *)

Class Scalar (F : Type) : Type := {
  of_int : Z -> F;
  fadd : F -> F -> F;
  fsub : F -> F -> F;
  fmul : F -> F -> F;
  fdiv : F -> F -> F;
  fsqrt : F -> F;
  fleb : F -> F -> bool;
  fltb : F -> F -> bool
}.

Class Trig (F : Type) : Type := {
  fatan2 : F -> F -> F;
  fcos : F -> F;
  fsin : F -> F;
  deg2rad : F
}.

Declare Scope scalar_scope.
Delimit Scope scalar_scope with fl.
Infix "+" := fadd : scalar_scope.
Infix "-" := fsub : scalar_scope.
Infix "*" := fmul : scalar_scope.
Infix "/" := fdiv : scalar_scope.
Infix "<=?" := fleb : scalar_scope.
Infix "<?" := fltb : scalar_scope.

#[export] Instance f32_scalar : Scalar Binary32.f32 := {
  of_int := Binary32.of_int;
  fadd := Binary32.add;
  fsub := Binary32.sub;
  fmul := Binary32.mul;
  fdiv := Binary32.div;
  fsqrt := Binary32.sqrt;
  fleb := Binary32.leb;
  fltb := Binary32.ltb
}.

Definition Rleb (x y : R) : bool := if Rle_dec x y then true else false.
Definition Rltb (x y : R) : bool := if Rlt_dec x y then true else false.

#[export] Instance R_scalar : Scalar R := {
  of_int := IZR;
  fadd := Rplus;
  fsub := Rminus;
  fmul := Rmult;
  fdiv := Rdiv;
  fsqrt := sqrt;
  fleb := Rleb;
  fltb := Rltb
}.

(** [atan2] over the reals, by quadrant. *)
Definition Ratan2 (y x : R) : R :=
  if Rlt_dec 0 x then atan (y / x)
  else if Rlt_dec x 0 then
         (if Rle_dec 0 y then atan (y / x) + PI else atan (y / x) - PI)%R
  else if Rlt_dec 0 y then (PI / 2)%R
  else if Rlt_dec y 0 then (- (PI / 2))%R
  else 0%R.

(** Over the reals [deg2rad] is GLM's literal
    [0.01745329251994329576923690768489] read exactly. *)
#[export] Instance R_trig : Trig R := {
  fatan2 := Ratan2;
  fcos := cos;
  fsin := sin;
  deg2rad := (1745329251994329576923690768489 / 100000000000000000000000000000000)%R
}.

(** Literals of the source. *)
Definition f0 {F} `{Scalar F} : F := of_int 0.
Definition f1 {F} `{Scalar F} : F := of_int 1.
(** [0.5f], exactly representable; written as the quotient [1/2]. *)
Definition f_half {F} `{Scalar F} : F := (of_int 1 / of_int 2)%fl.

(** ** Outcome of a call

    A C++ call returns normally or leaves by an exception; the embedding of
    a loop runs on fuel, and [OutOfFuel] says the loop was still running
    when the fuel ran out. *)
Inductive outcome (A : Type) : Type :=
| Returned (a : A)
| Thrown (what : string)
| OutOfFuel.
Arguments Returned {A} a.
Arguments Thrown {A} what.
Arguments OutOfFuel {A}.

Definition bind {A B : Type} (o : outcome A) (k : A -> outcome B) : outcome B :=
  match o with
  | Returned a => k a
  | Thrown w => Thrown w
  | OutOfFuel => OutOfFuel
  end.

(** ** GLM vectors and matrices (column-major) *)

Record vec3 (F : Type) : Type := mkvec3 { vx : F; vy : F; vz : F }.
Arguments mkvec3 {F} vx vy vz.
Arguments vx {F} v.
Arguments vy {F} v.
Arguments vz {F} v.

Record vec4 (F : Type) : Type := mkvec4 { wx : F; wy : F; wz : F; ww : F }.
Arguments mkvec4 {F} wx wy wz ww.
Arguments wx {F} v.
Arguments wy {F} v.
Arguments wz {F} v.
Arguments ww {F} v.

(** [glm::mat4x3]: four columns of three rows. *)
Record mat4x3 (F : Type) : Type := mkmat4x3 { g0 : vec3 F; g1 : vec3 F; g2 : vec3 F; g3 : vec3 F }.
Arguments mkmat4x3 {F} g0 g1 g2 g3.
Arguments g0 {F} m.
Arguments g1 {F} m.
Arguments g2 {F} m.
Arguments g3 {F} m.

(** [glm::mat4]: four columns of four rows. *)
Record mat4 (F : Type) : Type := mkmat4 { c0 : vec4 F; c1 : vec4 F; c2 : vec4 F; c3 : vec4 F }.
Arguments mkmat4 {F} c0 c1 c2 c3.
Arguments c0 {F} m.
Arguments c1 {F} m.
Arguments c2 {F} m.
Arguments c3 {F} m.

Section Glm.
Context {F : Type} `{Scalar F}.
Local Open Scope scalar_scope.

Definition vzero : vec3 F := mkvec3 f0 f0 f0.

Definition vadd (a b : vec3 F) : vec3 F :=
  mkvec3 (vx a + vx b) (vy a + vy b) (vz a + vz b).

Definition vsub (a b : vec3 F) : vec3 F :=
  mkvec3 (vx a - vx b) (vy a - vy b) (vz a - vz b).

Definition vscale (a : vec3 F) (k : F) : vec3 F :=
  mkvec3 (vx a * k) (vy a * k) (vz a * k).

(** [glm::dot]: [tmp = a * b; tmp.x + tmp.y + tmp.z]. *)
Definition dot (a b : vec3 F) : F :=
  vx a * vx b + vy a * vy b + vz a * vz b.

(** [glm::cross]. *)
Definition cross (a b : vec3 F) : vec3 F :=
  mkvec3 (vy a * vz b - vy b * vz a)
         (vz a * vx b - vz b * vx a)
         (vx a * vy b - vx b * vy a).

(** [glm::inversesqrt(x) = 1 / sqrt(x)] and
    [glm::normalize(v) = v * inversesqrt(dot(v, v))]. *)
Definition inversesqrt (x : F) : F := f1 / fsqrt x.
Definition normalize (v : vec3 F) : vec3 F := vscale v (inversesqrt (dot v v)).

(** [operator*(mat4x3, mat4)]. *)
Definition mat4x3_mul_col (m : mat4x3 F) (c : vec4 F) : vec3 F :=
  mkvec3
    (vx (g0 m) * wx c + vx (g1 m) * wy c + vx (g2 m) * wz c + vx (g3 m) * ww c)
    (vy (g0 m) * wx c + vy (g1 m) * wy c + vy (g2 m) * wz c + vy (g3 m) * ww c)
    (vz (g0 m) * wx c + vz (g1 m) * wy c + vz (g2 m) * wz c + vz (g3 m) * ww c).

Definition mat4x3_mul_mat4 (m1 : mat4x3 F) (m2 : mat4 F) : mat4x3 F :=
  mkmat4x3 (mat4x3_mul_col m1 (c0 m2)) (mat4x3_mul_col m1 (c1 m2))
           (mat4x3_mul_col m1 (c2 m2)) (mat4x3_mul_col m1 (c3 m2)).

(** [operator*(mat4x3, vec4)]. *)
Definition mat4x3_mul_vec4 (m : mat4x3 F) (v : vec4 F) : vec3 F :=
  mat4x3_mul_col m v.

End Glm.

(** ** [generateBSplinePoints] *)

Section BSpline.
Context {F : Type} `{Scalar F}.
Local Open Scope scalar_scope.

(** [const glm::mat4 BSplineMatrix(...)]: the sixteen scalars fill the
    matrix column by column. *)
Definition BSplineMatrix : mat4 F :=
  mkmat4
    (mkvec4 (of_int (-1) / of_int 6) (of_int 3 / of_int 6) (of_int (-3) / of_int 6) (of_int 1 / of_int 6))
    (mkvec4 (of_int 3 / of_int 6) (of_int (-6) / of_int 6) (of_int 3 / of_int 6) f0)
    (mkvec4 (of_int (-3) / of_int 6) f0 (of_int 3 / of_int 6) f0)
    (mkvec4 (of_int 1 / of_int 6) (of_int 4 / of_int 6) (of_int 1 / of_int 6) f0).

(** [glm::mat4x3 G(controlPoints[i], ..., controlPoints[i + 3])]; the loop
    guard [i + 3 < controlPoints.size()] keeps the four reads in range. *)
Definition geometry (controlPoints : list (vec3 F)) (i : nat) : mat4x3 F :=
  mkmat4x3 (nth i controlPoints vzero) (nth (i + 1) controlPoints vzero)
           (nth (i + 2) controlPoints vzero) (nth (i + 3) controlPoints vzero).

(** [G * BSplineMatrix * T] with [T = (t*t*t, t*t, t, 1)]. *)
Definition curve_point (G : mat4x3 F) (t : F) : vec3 F :=
  let T := mkvec4 (t * t * t) (t * t) t f1 in
  mat4x3_mul_vec4 (mat4x3_mul_mat4 G BSplineMatrix) T.

(** [for (float t = 0.0f; t <= 1.0f; t += step) curvePoints.push_back(...)]. *)
Fixpoint sample_loop (fuel : nat) (G : mat4x3 F) (step t : F)
    (curvePoints : list (vec3 F)) : outcome (list (vec3 F)) :=
  match fuel with
  | O => OutOfFuel
  | S fuel' =>
      if t <=? f1
      then sample_loop fuel' G step (t + step) (curvePoints ++ [curve_point G t])
      else Returned curvePoints
  end.

(** [for (size_t i = 0; i + 3 < controlPoints.size(); ++i)], over the
    window indices still to visit. *)
Fixpoint segment_loop (fuel : nat) (controlPoints : list (vec3 F)) (step : F)
    (windows : list nat) (curvePoints : list (vec3 F)) : outcome (list (vec3 F)) :=
  match windows with
  | [] => Returned curvePoints
  | i :: rest =>
      bind (sample_loop fuel (geometry controlPoints i) step f0 curvePoints)
           (segment_loop fuel controlPoints step rest)
  end.

(** [fuel] bounds the iterations of each run of the sampling loop. *)
Definition generateBSplinePoints (fuel : nat) (controlPoints : list (vec3 F))
    (pointsPerSegment : Z) : outcome (list (vec3 F)) :=
  if (length controlPoints <? 4)%nat then Returned []
  else
    let step := f1 / of_int pointsPerSegment in
    segment_loop fuel controlPoints step (seq 0 (length controlPoints - 3)) [].

End BSpline.

(** ** [generateTrackMesh] *)

(** [struct Vertex { float x, y, z; float s, t; float nx, ny, nz; }]. *)
Record Vertex (F : Type) : Type := mkVertex {
  vtx_x : F; vtx_y : F; vtx_z : F;
  vtx_s : F; vtx_t : F;
  vtx_nx : F; vtx_ny : F; vtx_nz : F
}.
Arguments mkVertex {F} _ _ _ _ _ _ _ _.
Arguments vtx_x {F} v.
Arguments vtx_y {F} v.
Arguments vtx_z {F} v.
Arguments vtx_s {F} v.
Arguments vtx_t {F} v.
Arguments vtx_nx {F} v.
Arguments vtx_ny {F} v.
Arguments vtx_nz {F} v.

(** [unsigned int]: arithmetic modulo [2^32]. *)
Definition uint32 (z : Z) : Z := z mod 2 ^ 32.

(** [v[i] = x] on a [std::vector]; the source only writes in range (an
    out-of-range write is undefined behaviour, modelled as no change). *)
Fixpoint vector_set {A : Type} (v : list A) (i : nat) (x : A) : list A :=
  match v, i with
  | [], _ => []
  | _ :: v', O => x :: v'
  | a :: v', S i' => a :: vector_set v' i' x
  end.

(** [for (size_t i = 0; i < n; ++i) body]. *)
Definition for_loop {S : Type} (n : nat) (body : nat -> S -> S) (init : S) : S :=
  fold_left (fun st i => body i st) (seq 0 n) init.

Section TrackMesh.
Context {F : Type} `{Scalar F} `{Trig F}.
Local Open Scope scalar_scope.

(** [glm::radians(degrees)]. *)
Definition radians (degrees : F) : F := degrees * deg2rad.

(** Body of the first loop: the offsets of point [i]. *)
Definition offsets_body (centerPoints : list (vec3 F)) (halfWidth : F) (n i : nat)
    (st : list (vec3 F) * list (vec3 F)) : list (vec3 F) * list (vec3 F) :=
  let '(innerPoints, outerPoints) := st in
  let A := nth i centerPoints vzero in
  let B := nth ((i + 1) mod n)%nat centerPoints vzero in
  let dx := vx B - vx A in
  let dy := vy B - vy A in
  let theta := fatan2 dy dx in
  let alpha := if dx <? f0
               then theta - radians (of_int 90)
               else theta + radians (of_int 90) in
  let cosA := fcos alpha in
  let sinA := fsin alpha in
  let offset := mkvec3 (cosA * halfWidth) (sinA * halfWidth) f0 in
  (vector_set innerPoints i (vadd A offset),
   vector_set outerPoints i (vsub A offset)).

(** Body of the second loop: the quad of edge [i -> (i + 1) % n]. *)
Definition quads_body (innerPoints outerPoints : list (vec3 F)) (n i : nat)
    (st : list (Vertex F) * list Z) : list (Vertex F) * list Z :=
  let '(vertices, indices) := st in
  let next := ((i + 1) mod n)%nat in
  let A := nth i outerPoints vzero in
  let B := nth next outerPoints vzero in
  let C := nth i innerPoints vzero in
  let D := nth next innerPoints vzero in
  let upNormal := mkvec3 f0 f0 f1 in
  let v0 := mkVertex (vx C) (vy C) (vz C) f0 f0 (vx upNormal) (vy upNormal) (vz upNormal) in
  let v1 := mkVertex (vx A) (vy A) (vz A) f1 f0 (vx upNormal) (vy upNormal) (vz upNormal) in
  let v2 := mkVertex (vx B) (vy B) (vz B) f1 f1 (vx upNormal) (vy upNormal) (vz upNormal) in
  let v3 := mkVertex (vx D) (vy D) (vz D) f0 f1 (vx upNormal) (vy upNormal) (vz upNormal) in
  let base := uint32 (Z.of_nat (length vertices)) in
  let vertices := (((vertices ++ [v0]) ++ [v1]) ++ [v2]) ++ [v3] in
  let indices := ((indices ++ [uint32 (base + 0)]) ++ [uint32 (base + 3)]) ++ [uint32 (base + 1)] in
  let indices := ((indices ++ [uint32 (base + 1)]) ++ [uint32 (base + 3)]) ++ [uint32 (base + 2)] in
  (vertices, indices).

(** The two output parameters are cleared first, so the result does not
    depend on what they held. *)
Definition generateTrackMesh (centerPoints : list (vec3 F)) (trackWidth : F)
    (vertices : list (Vertex F)) (indices : list Z) : list (Vertex F) * list Z :=
  let vertices : list (Vertex F) := [] in
  let indices : list Z := [] in
  let halfWidth := trackWidth * f_half in
  let n := length centerPoints in
  if (n <? 2)%nat then (vertices, indices)
  else
    let '(innerPoints, outerPoints) :=
      for_loop n (offsets_body centerPoints halfWidth n)
               (repeat vzero n, repeat vzero n) in
    for_loop n (quads_body innerPoints outerPoints n) (vertices, indices).

End TrackMesh.

(** ** [exportAnimationPoints] *)

Definition newline_char : ascii := ascii_of_nat 10.
Definition newline : string := String newline_char EmptyString.

Section ExportPoints.
Context {F : Type}.
(** [operator<<(std::ostream&, float)], the stream's default formatting. *)
Variable show_float : F -> string.

(** One pass of [for (const auto& p : points)]: [p.x], [p.z], [p.y]. *)
Definition write_point (file : string) (p : vec3 F) : string :=
  (((((file ++ show_float (vx p)) ++ " ") ++ show_float (vz p)) ++ " ")
     ++ show_float (vy p)) ++ newline.

(** The text written to the file, or [None] when the file could not be
    opened (the function then only reports on [std::cerr]). *)
Definition exportAnimationPoints (is_open : bool) (points : list (vec3 F)) : option string :=
  if negb is_open then None
  else Some (fold_left write_point points EmptyString).

(** The line of a point as the claim words it: [x], then [z], then [y]. *)
Definition point_line (p : vec3 F) : string :=
  show_float (vx p) ++ " " ++ show_float (vz p) ++ " " ++ show_float (vy p).

End ExportPoints.

(** Reading a text back: its lines, each ended by a newline character (a
    last piece without one counts when it is not empty). *)
Fixpoint has_newline (s : string) : bool :=
  match s with
  | EmptyString => false
  | String c s' => Ascii.eqb c newline_char || has_newline s'
  end.

Fixpoint lines_from (current text : string) : list string :=
  match text with
  | EmptyString => match current with EmptyString => [] | _ => [current] end
  | String c rest =>
      if Ascii.eqb c newline_char
      then current :: lines_from EmptyString rest
      else lines_from (current ++ String c EmptyString) rest
  end.

Definition lines (text : string) : list string := lines_from EmptyString text.

(** ** The "Carro" block of [main]: placement frame and model matrix *)

Record Frame (F : Type) : Type := mkFrame {
  fr_position : vec3 F;
  fr_forward : vec3 F;
  fr_right : vec3 F;
  fr_up : vec3 F
}.
Arguments mkFrame {F} _ _ _ _.
Arguments fr_position {F} f.
Arguments fr_forward {F} f.
Arguments fr_right {F} f.
Arguments fr_up {F} f.

(** The fields of [struct Object3D] the block reads. *)
Record Object3D (F : Type) : Type := mkObject3D {
  name : string;
  scale : vec3 F;
  position : vec3 F;
  angle : vec3 F;
  animationPositions : list (vec3 F)
}.
Arguments mkObject3D {F} _ _ _ _ _.
Arguments name {F} o.
Arguments scale {F} o.
Arguments position {F} o.
Arguments angle {F} o.
Arguments animationPositions {F} o.

(** [v[i]] with an [int] index: the index is converted to [size_t], so a
    negative one lands far out of range; a read out of range is undefined
    behaviour ([None]). *)
Definition vector_at {A : Type} (v : list A) (i : Z) : option A :=
  if (i <? 0)%Z then None else nth_error v (Z.to_nat i).

Section Carro.
Context {F : Type} `{Scalar F} `{Trig F}.
Local Open Scope scalar_scope.

Definition v4scale (v : vec4 F) (k : F) : vec4 F :=
  mkvec4 (wx v * k) (wy v * k) (wz v * k) (ww v * k).

Definition v4add (a b : vec4 F) : vec4 F :=
  mkvec4 (wx a + wx b) (wy a + wy b) (wz a + wz b) (ww a + ww b).

(** [glm::mat4(1.0f)]. *)
Definition mat4_identity : mat4 F :=
  mkmat4 (mkvec4 f1 f0 f0 f0) (mkvec4 f0 f1 f0 f0) (mkvec4 f0 f0 f1 f0) (mkvec4 f0 f0 f0 f1).

(** [operator*(mat4, mat4)]: column [j] of the product is
    [m1[0] * m2[j][0] + m1[1] * m2[j][1] + m1[2] * m2[j][2] + m1[3] * m2[j][3]]. *)
Definition mat4_mul_col (m : mat4 F) (c : vec4 F) : vec4 F :=
  v4add (v4add (v4add (v4scale (c0 m) (wx c)) (v4scale (c1 m) (wy c)))
               (v4scale (c2 m) (wz c)))
        (v4scale (c3 m) (ww c)).

Definition mat4_mul (m1 m2 : mat4 F) : mat4 F :=
  mkmat4 (mat4_mul_col m1 (c0 m2)) (mat4_mul_col m1 (c1 m2))
         (mat4_mul_col m1 (c2 m2)) (mat4_mul_col m1 (c3 m2)).

(** [glm::translate(m, v)]: [Result[3] = m[0]*v[0] + m[1]*v[1] + m[2]*v[2] + m[3]]. *)
Definition translate (m : mat4 F) (v : vec3 F) : mat4 F :=
  mkmat4 (c0 m) (c1 m) (c2 m)
         (v4add (v4add (v4add (v4scale (c0 m) (vx v)) (v4scale (c1 m) (vy v)))
                       (v4scale (c2 m) (vz v)))
                (c3 m)).

(** [glm::scale(m, v)]. *)
Definition glm_scale (m : mat4 F) (v : vec3 F) : mat4 F :=
  mkmat4 (v4scale (c0 m) (vx v)) (v4scale (c1 m) (vy v)) (v4scale (c2 m) (vz v)) (c3 m).

(** [glm::rotate(m, angle, v)]. *)
Definition rotate (m : mat4 F) (a : F) (v : vec3 F) : mat4 F :=
  let c := fcos a in
  let s := fsin a in
  let axis := normalize v in
  let temp := mkvec3 ((f1 - c) * vx axis) ((f1 - c) * vy axis) ((f1 - c) * vz axis) in
  let r00 := c + vx temp * vx axis in
  let r01 := vx temp * vy axis + s * vz axis in
  let r02 := vx temp * vz axis - s * vy axis in
  let r10 := vy temp * vx axis - s * vz axis in
  let r11 := c + vy temp * vy axis in
  let r12 := vy temp * vz axis + s * vx axis in
  let r20 := vz temp * vx axis + s * vy axis in
  let r21 := vz temp * vy axis - s * vx axis in
  let r22 := c + vz temp * vz axis in
  mkmat4
    (v4add (v4add (v4scale (c0 m) r00) (v4scale (c1 m) r01)) (v4scale (c2 m) r02))
    (v4add (v4add (v4scale (c0 m) r10) (v4scale (c1 m) r11)) (v4scale (c2 m) r12))
    (v4add (v4add (v4scale (c0 m) r20) (v4scale (c1 m) r21)) (v4scale (c2 m) r22))
    (c3 m).

Definition vec4_of (v : vec3 F) (w : F) : vec4 F := mkvec4 (vx v) (vy v) (vz v) w.

(** The frame of the car at [animationIndex]: [P], [C], [Np], [dir],
    [forward], [right], [upAxis].  The [int] operator [%] truncates toward
    zero ([Z.rem]). *)
Definition place (animationPositions : list (vec3 F)) (animationIndex : Z)
    : option (Frame F) :=
  let N := Z.of_nat (length animationPositions) in
  let idx := Z.rem animationIndex N in
  let prevIdx := Z.rem (idx - 1 + N) N in
  let nextIdx := Z.rem (idx + 1) N in
  match vector_at animationPositions prevIdx,
        vector_at animationPositions idx,
        vector_at animationPositions nextIdx with
  | Some P, Some C, Some Np =>
      let dir := normalize (vsub Np P) in
      let forward := dir in
      let right := normalize (cross forward (mkvec3 f0 f1 f0)) in
      let upAxis := cross right forward in
      Some (mkFrame C forward right upAxis)
  | _, _, _ => None
  end.

(** [rot]: the identity with its first three columns replaced. *)
Definition rotation_of (fr : Frame F) : mat4 F :=
  mkmat4 (vec4_of (fr_right fr) f0) (vec4_of (fr_up fr) f0)
         (vec4_of (fr_forward fr) f0) (c3 mat4_identity).

(** The first assignment to [model] in the "Carro" branch:
    [translate(mat4(1), C) * rot * scale(mat4(1), obj.scale)]. *)
Definition carro_TRS (obj : Object3D F) (fr : Frame F) : mat4 F :=
  mat4_mul (mat4_mul (translate mat4_identity (fr_position fr)) (rotation_of fr))
           (glm_scale mat4_identity (scale obj)).

(** The statements after the [if]/[else], run for every object. *)
Definition apply_angle_and_scale (obj : Object3D F) (model : mat4 F) : mat4 F :=
  let model := rotate model (radians (vx (angle obj))) (mkvec3 f1 f0 f0) in
  let model := rotate model (radians (vy (angle obj))) (mkvec3 f0 f1 f0) in
  let model := rotate model (radians (vz (angle obj))) (mkvec3 f0 f0 f1) in
  glm_scale model (scale obj).

(** The matrix sent to the shader as [model] for one object of [meshes]. *)
Definition model_matrix (obj : Object3D F) (animationIndex : Z) : option (mat4 F) :=
  if (String.eqb (name obj) "Carro" && (3 <=? length (animationPositions obj))%nat)%bool
  then
    match place (animationPositions obj) animationIndex with
    | Some fr => Some (apply_angle_and_scale obj (carro_TRS obj fr))
    | None => None
    end
  else Some (apply_angle_and_scale obj (translate mat4_identity (position obj))).

End Carro.

(** ** The animation accumulator of [main] *)

(** [int] converted to [size_t] (64 bits). *)
Definition to_size_t (z : Z) : Z := z mod 2 ^ 64.

Record AnimationState (F : Type) : Type := mkAnimationState {
  animationIndex : Z;
  animAccumulator : F
}.
Arguments mkAnimationState {F} _ _.
Arguments animationIndex {F} a.
Arguments animAccumulator {F} a.

Section Animation.
Context {F : Type} `{Scalar F}.
Local Open Scope scalar_scope.

Definition STEP_TIME : F := f1 / of_int 30.

(** [while (animAccumulator >= STEP_TIME) { animationIndex = (animationIndex + 1) % size; animAccumulator -= STEP_TIME; }] *)
Fixpoint step_loop (fuel : nat) (size : Z) (st : AnimationState F)
    : outcome (AnimationState F) :=
  match fuel with
  | O => OutOfFuel
  | S fuel' =>
      if STEP_TIME <=? animAccumulator st
      then step_loop fuel' size
             (mkAnimationState (to_size_t (animationIndex st + 1) mod size)
                               (animAccumulator st - STEP_TIME))
      else Returned st
  end.

(** One frame of the viewer: [animAccumulator += deltaTime] at the top of
    the render loop, then the update guarded by
    [!meshes["Carro"].animationPositions.empty()]. *)
Definition advance (fuel : nat) (st : AnimationState F) (deltaTime : F)
    (loopLength : nat) : outcome (AnimationState F) :=
  let st := mkAnimationState (animationIndex st) (animAccumulator st + deltaTime) in
  if (loopLength =? 0)%nat then Returned st
  else step_loop fuel (Z.of_nat loopLength) st.

End Animation.

(** ** The extrusion as the specification words it

    These definitions follow the specification's sentences, not the loops
    of the source; the theorems below compare the two. *)

Section TrackSpec.
Context {F : Type} `{Scalar F} `{Trig F}.
Local Open Scope scalar_scope.

(** [alpha = theta -/+ 90 degrees], by the sign of [B.x - A.x]. *)
Definition perpendicular_angle (A B : vec3 F) : F :=
  let theta := fatan2 (vy B - vy A) (vx B - vx A) in
  if (vx B - vx A) <? f0
  then theta - radians (of_int 90)
  else theta + radians (of_int 90).

(** [offset = width/2 . (cos alpha, sin alpha, 0)]; the half width is
    computed as [width * 0.5f]. *)
Definition edge_offset (width : F) (A B : vec3 F) : vec3 F :=
  let alpha := perpendicular_angle A B in
  mkvec3 (fcos alpha * (width * f_half)) (fsin alpha * (width * f_half)) f0.

Definition loop_point (loop : list (vec3 F)) (i : nat) : vec3 F :=
  nth i loop vzero.

Definition successor (loop : list (vec3 F)) (i : nat) : nat :=
  ((i + 1) mod length loop)%nat.

Definition inner_point (loop : list (vec3 F)) (width : F) (i : nat) : vec3 F :=
  vadd (loop_point loop i)
       (edge_offset width (loop_point loop i) (loop_point loop (successor loop i))).

Definition outer_point (loop : list (vec3 F)) (width : F) (i : nat) : vec3 F :=
  vsub (loop_point loop i)
       (edge_offset width (loop_point loop i) (loop_point loop (successor loop i))).

(** A vertex at [p] with texture coordinates [(u, v)] and normal [(0, 0, 1)]. *)
Definition track_vertex (p : vec3 F) (u v : F) : Vertex F :=
  mkVertex (vx p) (vy p) (vz p) u v f0 f0 f1.

(** The quad of edge [i]: inner[i], outer[i], outer[i+1], inner[i+1]. *)
Definition quad_vertices (loop : list (vec3 F)) (width : F) (i : nat) : list (Vertex F) :=
  [ track_vertex (inner_point loop width i) f0 f0;
    track_vertex (outer_point loop width i) f1 f0;
    track_vertex (outer_point loop width (successor loop i)) f1 f1;
    track_vertex (inner_point loop width (successor loop i)) f0 f1 ].

End TrackSpec.

(** The triangles [(v0, v3, v1)] and [(v1, v3, v2)] of the quad whose first
    vertex sits at position [base]. *)
Definition quad_triangles (base : Z) : list Z :=
  [base + 0; base + 3; base + 1; base + 1; base + 3; base + 2]%Z.

(** The same six entries as [unsigned int] values. *)
Definition quad_triangles_u32 (base : Z) : list Z :=
  map uint32 (quad_triangles (uint32 base)).

(** The [i]-th block of [c] consecutive entries of a buffer. *)
Definition chunk {A : Type} (c i : nat) (l : list A) : list A :=
  firstn c (skipn (c * i) l).

(** ** The number of samples per window

    The passes of the sampling loop depend on [step] alone, not on the
    control points. *)

Section SampleCount.
Context {F : Type} `{Scalar F}.
Local Open Scope scalar_scope.

Fixpoint sample_count (fuel : nat) (step t : F) : outcome nat :=
  match fuel with
  | O => OutOfFuel
  | S fuel' =>
      if t <=? f1
      then bind (sample_count fuel' step (t + step)) (fun c => Returned (S c))
      else Returned 0%nat
  end.

(** The parameters [t] visited by the loop, in order. *)
Fixpoint sample_params (fuel : nat) (step t : F) : list F :=
  match fuel with
  | O => []
  | S fuel' => if t <=? f1 then t :: sample_params fuel' step (t + step) else []
  end.

End SampleCount.

(** ** Several steps and several frames of the animation clock *)

Section AnimationRuns.
Context {F : Type} `{Scalar F}.
Local Open Scope scalar_scope.

(** The accumulator after [k] subtractions of [STEP_TIME]. *)
Fixpoint drained (k : nat) (a : F) : F :=
  match k with
  | O => a
  | S k' => drained k' (a - STEP_TIME)
  end.

(** The index after [k] passes of the update loop. *)
Fixpoint stepped_index (size : Z) (k : nat) (index : Z) : Z :=
  match k with
  | O => index
  | S k' => stepped_index size k' (to_size_t (index + 1) mod size)
  end.

(** Successive frames: the states after each call of [advance]. *)
Fixpoint frames (fuel : nat) (loopLength : nat) (deltaTimes : list F)
    (st : AnimationState F) : outcome (list (AnimationState F)) :=
  match deltaTimes with
  | [] => Returned []
  | dt :: rest =>
      bind (advance fuel st dt loopLength)
           (fun st' => bind (frames fuel loopLength rest st')
                            (fun sts => Returned (st' :: sts)))
  end.

End AnimationRuns.

(** ** The placement as the specification words it *)

Section PlacementSpec.
Context {F : Type} `{Scalar F}.

Definition worldUp : vec3 F := mkvec3 f0 f1 f0.

(** [loop[i mod N]]. *)
Definition cyclic_point (loop : list (vec3 F)) (i : Z) : vec3 F :=
  nth (Z.to_nat (i mod Z.of_nat (length loop))) loop vzero.

(** [normalize(loop[(idx + 1) mod N] - loop[(idx - 1 + N) mod N])] with
    [idx = index mod N]. *)
Definition tangent (loop : list (vec3 F)) (index : Z) : vec3 F :=
  let N := Z.of_nat (length loop) in
  let idx := (index mod N)%Z in
  normalize (vsub (cyclic_point loop (idx + 1)) (cyclic_point loop (idx - 1 + N))).

(** The determinant of the matrix with columns [a], [b], [c]: [+1] for a
    right-handed orthonormal basis, [-1] for a left-handed one. *)
Definition triple_product (a b c : vec3 F) : F := dot (cross a b) c.

End PlacementSpec.

(** ** Sample inputs

    Concrete inputs on which the statements below are instantiated. *)

(** A stand-in for libm at binary32 that reads every angle as [0]
    ([cos 0 = 1], [sin 0 = 0], [atan2 = 0]): exact for the sample runs with
    angle [0], and an arbitrary instance for the statements that hold for
    every [Trig]. *)
Definition sample_trig : Trig Binary32.f32 := {|
  fatan2 := fun _ _ => Binary32.of_int 0;
  fcos := fun _ => Binary32.of_int 1;
  fsin := fun _ => Binary32.of_int 0;
  deg2rad := Binary32.deg_to_rad
|}.

(** A formatting of binary32 values for the sample runs: sign, mantissa
    and exponent in binary digits. *)
Fixpoint show_positive (p : positive) : string :=
  match p with
  | xH => "1"
  | xO p' => show_positive p' ++ "0"
  | xI p' => show_positive p' ++ "1"
  end.

Definition show_Z (z : Z) : string :=
  match z with
  | Z0 => "0"
  | Zpos p => show_positive p
  | Zneg p => "-" ++ show_positive p
  end.

Definition show_f32 (x : Binary32.f32) : string :=
  match x with
  | S754_zero s => if s then "-0" else "0"
  | S754_infinity s => if s then "-inf" else "inf"
  | S754_nan => "nan"
  | S754_finite s m e => (if s then "-" else "") ++ show_positive m ++ "p" ++ show_Z e
  end.

(** A real point with integer coordinates. *)
Definition pointR (x y z : Z) : vec3 R := mkvec3 (IZR x) (IZR y) (IZR z).

(** Three points along the x axis of the viewer, closed into a loop. *)
Definition straight_loop_R : list (vec3 R) := [pointR 0 0 0; pointR 1 0 0; pointR 2 0 0].

(** The car as [generateSceneFile] writes it ([Scale 0.5 0.5 0.5],
    [Angle 0.0 0.0 0.0]), following [straight_loop_R]. *)
Definition carro_R : Object3D R :=
  mkObject3D "Carro" (mkvec3 (1 / 2) (1 / 2) (1 / 2))%R (pointR 0 0 0) (pointR 0 0 0)
             straight_loop_R.

(** A binary32 point with integer coordinates. *)
Definition point32 (x y z : Z) : vec3 Binary32.f32 :=
  mkvec3 (Binary32.of_int x) (Binary32.of_int y) (Binary32.of_int z).

(** The control points of the specification's scenario. *)
Definition scenario_points : list (vec3 Binary32.f32) :=
  [point32 0 0 0; point32 1 0 0; point32 2 0 0; point32 3 0 0; point32 2 1 0; point32 1 1 0].

(** The animation state at start-up: index [0], accumulator [0.0f]. *)
Definition initial_state : AnimationState Binary32.f32 :=
  mkAnimationState 0 (Binary32.of_int 0).

(** The binary32 value of [n / 4], exact for the small [n] used below. *)
Definition quarters (n : Z) : Binary32.f32 :=
  Binary32.div (Binary32.of_int n) (Binary32.of_int 4).

(** A binary32 column with entries in quarters. *)
Definition column32 (x y z w : Z) : vec4 Binary32.f32 :=
  mkvec4 (quarters x) (quarters y) (quarters z) (quarters w).

(** The binary32 counterparts of [straight_loop_R] and [carro_R]. *)
Definition straight_loop : list (vec3 Binary32.f32) :=
  [point32 0 0 0; point32 1 0 0; point32 2 0 0].

Definition carro : Object3D Binary32.f32 :=
  mkObject3D "Carro" (mkvec3 (quarters 2) (quarters 2) (quarters 2))
             (point32 0 0 0) (point32 0 0 0) straight_loop.

(** The loop of the specification's placement scenario. *)
Definition corner_loop : list (vec3 Binary32.f32) :=
  [point32 0 0 0; point32 1 0 0; point32 1 1 0].

(** The unit square in the sketch plane. *)
Definition square_loop : list (vec3 Binary32.f32) :=
  [point32 0 0 0; point32 1 0 0; point32 1 1 0; point32 0 1 0].

(** ** Tactics for the instance over the reals *)

(** Name the operations of the real instance by the functions of [Reals]. *)
Ltac real_ops :=
  change (@fadd R R_scalar) with Rplus in *;
  change (@fsub R R_scalar) with Rminus in *;
  change (@fmul R R_scalar) with Rmult in *;
  change (@fdiv R R_scalar) with Rdiv in *;
  change (@fsqrt R R_scalar) with sqrt in *;
  change (@of_int R R_scalar) with IZR in *;
  change (@f0 R R_scalar) with 0%R in *;
  change (@f1 R R_scalar) with 1%R in *.

(** Unfold the vector operations down to the coordinates. *)
Ltac vec_ops :=
  unfold triple_product, normalize, inversesqrt, dot, cross, vscale, vadd, vsub,
    worldUp, vzero in *;
  cbn [vx vy vz] in *; real_ops.

(** Evaluate the matrix operations down to the entries. *)
Ltac mat_ops :=
  cbv [carro_TRS rotate glm_scale translate mat4_mul mat4_mul_col v4add v4scale
       vec4_of rotation_of mat4_identity radians normalize inversesqrt dot vscale
       c0 c1 c2 c3 wx wy wz ww vx vy vz
       fr_position fr_forward fr_right fr_up scale angle];
  change (@fcos R R_trig) with cos;
  change (@fsin R R_trig) with sin;
  change (@fadd R R_scalar) with Rplus;
  change (@fsub R R_scalar) with Rminus;
  change (@fmul R R_scalar) with Rmult;
  change (@fdiv R R_scalar) with Rdiv;
  change (@fsqrt R R_scalar) with sqrt;
  change (@f0 R R_scalar) with 0%R;
  change (@f1 R R_scalar) with 1%R.


(** * GeometryObjects.hpp: meshes, and the OBJ files written and read

    The structures of [GeometryObjects.hpp], the two constructors of
    [Mesh], [OBJWriter::write] and the face statement of the OBJ reader in
    the constructor of [Object3D].  A read of a [std::vector] out of range
    is undefined behaviour and is [None] here; the calls into OpenGL only
    pass data on and are kept as the data passed. *)

From Stdlib Require DecimalString DecimalZ DecimalPos DecimalN DecimalFacts.

(** [operator==] on [float]. *)
Class ScalarEq (F : Type) : Type := {
  feqb : F -> F -> bool
}.

#[export] Instance f32_eq : ScalarEq Binary32.f32 := {
  feqb := SFeqb
}.

(** The entries [l[idx]] for the indices [idx] of a list, those in range. *)
Definition select {A : Type} (l : list A) (idxs : list Z) : list A :=
  flat_map (fun idx => match vector_at l idx with Some a => [a] | None => [] end) idxs.

(** A text made of lines, each ended by a newline character. *)
Definition unlines (ls : list string) : string :=
  fold_right (fun l text => l ++ newline ++ text)%string EmptyString ls.

(** [static_cast<int>] of a 64-bit value, and [operator<<] on an [int]
    (decimal digits, a leading [-] for a negative number). *)
Definition to_int (z : Z) : Z := (z + 2 ^ 31) mod 2 ^ 32 - 2 ^ 31.

Definition show_int (z : Z) : string := DecimalString.NilZero.string_of_int (Z.to_int z).

(** [std::find(first, last, value) - first]: the position of the first
    element [e] with [e == value], the length when there is none. *)
Fixpoint find_index {A : Type} (eq : A -> A -> bool) (l : list A) (value : A) : nat :=
  match l with
  | [] => 0
  | e :: l' => if eq e value then 0 else S (find_index eq l' value)
  end.

(** [index] is one plus the position of the first entry of [l] equal to
    [value], and one plus the length of [l] when no entry is. *)
Definition first_equal {A : Type} (eq : A -> A -> bool) (l : list A) (value : A)
    (index : Z) : Prop :=
  (1 <= index <= Z.of_nat (length l) + 1)%Z
  /\ (forall j e, (Z.of_nat j < index - 1)%Z -> nth_error l j = Some e ->
                  eq e value = false)
  /\ ((index <= Z.of_nat (length l))%Z ->
      exists e, nth_error l (Z.to_nat (index - 1)) = Some e /\ eq e value = true)
  /\ (index = Z.of_nat (length l) + 1 <-> Forall (fun e => eq e value = false) l)%Z.

Module GeometryObjects.

(** [struct Vec2 { float u, v; }] and [struct Vec3 { float x, y, z; }]. *)
Record Vec2 (F : Type) : Type := mkVec2 { u : F; v : F }.
Arguments mkVec2 {F} u v.
Arguments u {F} _.
Arguments v {F} _.

Record Vec3 (F : Type) : Type := mkVec3 { x : F; y : F; z : F }.
Arguments mkVec3 {F} x y z.
Arguments x {F} _.
Arguments y {F} _.
Arguments z {F} _.

(** [struct Face]: the data of the corners, one entry per corner in each
    of the three vectors. *)
Record Face (F : Type) : Type := mkFace {
  verts : list (Vec3 F);
  norms : list (Vec3 F);
  texts : list (Vec2 F)
}.
Arguments mkFace {F} verts norms texts.
Arguments verts {F} _.
Arguments norms {F} _.
Arguments texts {F} _.

Record Group (F : Type) : Type := mkGroup {
  name : string;
  mtlName : string;
  faces : list (Face F)
}.
Arguments mkGroup {F} name mtlName faces.
Arguments name {F} _.
Arguments mtlName {F} _.
Arguments faces {F} _.

(** [struct Mesh].  [VAO] stands for the vertex buffer the vertex-array
    object refers to: the vector handed to [setupGeometry]. *)
Record Mesh (F : Type) : Type := mkMesh {
  vertices : list (Vec3 F);
  mappings : list (Vec2 F);
  normals : list (Vec3 F);
  groups : list (Group F);
  VAO : list (Vertex F)
}.
Arguments mkMesh {F} vertices mappings normals groups VAO.
Arguments vertices {F} _.
Arguments mappings {F} _.
Arguments normals {F} _.
Arguments groups {F} _.
Arguments VAO {F} _.

Section Structures.
Context {F : Type}.

Definition empty_face : Face F := mkFace [] [] [].

Definition addVert (f : Face F) (p : Vec3 F) : Face F :=
  mkFace (verts f ++ [p]) (norms f) (texts f).
Definition addNorm (f : Face F) (n : Vec3 F) : Face F :=
  mkFace (verts f) (norms f ++ [n]) (texts f).
Definition addText (f : Face F) (t : Vec2 F) : Face F :=
  mkFace (verts f) (norms f) (texts f ++ [t]).

Definition addFace (g : Group F) (f : Face F) : Group F :=
  mkGroup (name g) (mtlName g) (faces g ++ [f]).

(** [currentGroup->addFace(face)] with [currentGroup == &groups.back()]. *)
Fixpoint addFace_back (gs : list (Group F)) (f : Face F) : list (Group F) :=
  match gs with
  | [] => []
  | [g] => [addFace g f]
  | g :: gs' => g :: addFace_back gs' f
  end.

(** [setupGeometry]: uploads [vertices] and describes their layout
    (position at 0, texture coordinates at 3 floats, normal at 5 floats);
    the result is the buffer the returned object reads from. *)
Definition setupGeometry (vertices : list (Vertex F)) : list (Vertex F) := vertices.

(** One pass of the loop of the first constructor: [vertices[i]],
    [mappings[i]] and [normals[i]] interleaved. *)
Definition interleave_body (vertices : list (Vec3 F)) (mappings : list (Vec2 F))
    (normals : list (Vec3 F)) (i : nat) (interleaved : option (list (Vertex F)))
    : option (list (Vertex F)) :=
  match interleaved, nth_error vertices i, nth_error mappings i, nth_error normals i with
  | Some l, Some p, Some t, Some n =>
      Some (l ++ [mkVertex (x p) (y p) (z p) (u t) (v t) (x n) (y n) (z n)])
  | _, _, _, _ => None
  end.

(** [Mesh(verts, maps, norms, groups_)]. *)
Definition Mesh_of_vectors (verts : list (Vec3 F)) (maps : list (Vec2 F))
    (norms : list (Vec3 F)) (groups_ : list (Group F)) : option (Mesh F) :=
  match for_loop (length verts) (interleave_body verts maps norms) (Some []) with
  | Some interleaved => Some (mkMesh verts maps norms groups_ (setupGeometry interleaved))
  | None => None
  end.

(** [for (size_t i = 0; i + 2 < size; i += 3)]: the values of [i] at which
    the body runs.  Every pass adds 3 to [i], so [size] passes are never
    used up. *)
Fixpoint triangle_starts (fuel i size : nat) : list nat :=
  match fuel with
  | O => []
  | S fuel' =>
      if (i + 2 <? size)%nat then i :: triangle_starts fuel' (i + 3) size else []
  end.

(** One pass of [for (int k = 0; k < 3; ++k)]: corner [idxs[i + k]]. *)
Definition corner_body (vertices : list (Vec3 F)) (mappings : list (Vec2 F))
    (normals : list (Vec3 F)) (idxs : list Z) (i k : nat) (face : option (Face F))
    : option (Face F) :=
  match face, nth_error idxs (i + k) with
  | Some face, Some idx =>
      match vector_at vertices idx, vector_at mappings idx, vector_at normals idx with
      | Some p, Some t, Some n => Some (addNorm (addText (addVert face p) t) n)
      | _, _, _ => None
      end
  | _, _ => None
  end.

(** One pass of the outer loop: the triangle starting at [idxs[i]] is added
    to the group. *)
Definition triangle_body (vertices : list (Vec3 F)) (mappings : list (Vec2 F))
    (normals : list (Vec3 F)) (idxs : list Z) (currentGroup : option (Group F))
    (i : nat) : option (Group F) :=
  match currentGroup, for_loop 3 (corner_body vertices mappings normals idxs i)
                               (Some empty_face) with
  | Some g, Some face => Some (addFace g face)
  | _, _ => None
  end.

(** The face whose corners are the entries of the three vectors at the
    indices [idxs]. *)
Definition face_of (vertices : list (Vec3 F)) (mappings : list (Vec2 F))
    (normals : list (Vec3 F)) (idxs : list Z) : Face F :=
  mkFace (select vertices idxs) (select normals idxs) (select mappings idxs).

(** [std::iota(idxs.begin(), idxs.end(), 0u)] on [size] entries. *)
Definition iota (size : nat) : list Z :=
  map (fun i => uint32 (Z.of_nat i)) (seq 0 size).

(** The three parallel vectors of an interleaved one. *)
Definition positions_of (interleavedVerts : list (Vertex F)) : list (Vec3 F) :=
  map (fun w => mkVec3 (vtx_x w) (vtx_y w) (vtx_z w)) interleavedVerts.
Definition mappings_of (interleavedVerts : list (Vertex F)) : list (Vec2 F) :=
  map (fun w => mkVec2 (vtx_s w) (vtx_t w)) interleavedVerts.
Definition normals_of (interleavedVerts : list (Vertex F)) : list (Vec3 F) :=
  map (fun w => mkVec3 (vtx_nx w) (vtx_ny w) (vtx_nz w)) interleavedVerts.

(** [Mesh(interleavedVerts, indices, groupName, mtlName)]. *)
Definition Mesh_of_interleaved (interleavedVerts : list (Vertex F)) (indices : list Z)
    (groupName mtlName : string) : option (Mesh F) :=
  let vertices := positions_of interleavedVerts in
  let mappings := mappings_of interleavedVerts in
  let normals := normals_of interleavedVerts in
  let idxs := match indices with
              | [] => iota (length interleavedVerts)
              | _ => indices
              end in
  match fold_left (triangle_body vertices mappings normals idxs)
                  (triangle_starts (length idxs) 0 (length idxs))
                  (Some (mkGroup groupName mtlName [])) with
  | Some g => Some (mkMesh vertices mappings normals [g] (setupGeometry interleavedVerts))
  | None => None
  end.

End Structures.

(** ** [OBJWriter::write] *)

Section Writer.
Context {F : Type} `{ScalarEq F}.
Local Open Scope string_scope.
(** [operator<<(std::ostream&, float)]. *)
Variable show_float : F -> string.

(** [Vec2::operator==] and [Vec3::operator==]. *)
Definition Vec2_eq (a other : Vec2 F) : bool :=
  feqb (u a) (u other) && feqb (v a) (v other).

Definition Vec3_eq (a other : Vec3 F) : bool :=
  feqb (x a) (x other) && feqb (y a) (y other) && feqb (z a) (z other).

Definition write_v (f : string) (p : Vec3 F) : string :=
  f ++ "v " ++ show_float (x p) ++ " " ++ show_float (y p) ++ " " ++ show_float (z p)
    ++ newline.

Definition write_vt (f : string) (uv : Vec2 F) : string :=
  f ++ "vt " ++ show_float (u uv) ++ " " ++ show_float (v uv) ++ newline.

Definition write_vn (f : string) (n : Vec3 F) : string :=
  f ++ "vn " ++ show_float (x n) ++ " " ++ show_float (y n) ++ " " ++ show_float (z n)
    ++ newline.

(** The three numbers written for a corner: one plus the position of the
    first equal entry of the mesh's vector.  The sum is the one on [int]
    as long as the position is below [2^31 - 1]; the theorems keep the
    vectors that short. *)
Definition corner_indices (mesh : Mesh F) (p : Vec3 F) (t : Vec2 F) (n : Vec3 F)
    : Z * Z * Z :=
  (to_int (Z.of_nat (find_index Vec3_eq (vertices mesh) p)) + 1,
   to_int (Z.of_nat (find_index Vec2_eq (mappings mesh) t)) + 1,
   to_int (Z.of_nat (find_index Vec3_eq (normals mesh) n)) + 1)%Z.

Definition corner_text (ix : Z * Z * Z) : string :=
  let '(vi, ti, ni) := ix in
  show_int vi ++ "/" ++ show_int ti ++ "/" ++ show_int ni ++ " ".

(** One pass of [for (size_t k = 0; k < face.verts.size(); ++k)]. *)
Definition write_corner (mesh : Mesh F) (face : Face F) (k : nat) (f : option string)
    : option string :=
  match f, nth_error (verts face) k, nth_error (texts face) k, nth_error (norms face) k with
  | Some f, Some p, Some t, Some n => Some (f ++ corner_text (corner_indices mesh p t n))
  | _, _, _, _ => None
  end.

Definition write_face (mesh : Mesh F) (f : option string) (face : Face F) : option string :=
  match f with
  | Some f =>
      match for_loop (length (verts face)) (write_corner mesh face) (Some (f ++ "f ")) with
      | Some f => Some (f ++ newline)
      | None => None
      end
  | None => None
  end.

Definition write_group (mesh : Mesh F) (f : option string) (grp : Group F) : option string :=
  match f with
  | Some f =>
      let f := if String.eqb (mtlName grp) "" then f
               else f ++ "usemtl " ++ mtlName grp ++ newline in
      fold_left (write_face mesh) (faces grp) (Some f)
  | None => None
  end.

(** What follows the first word on a [v], [vt] or [vn] line. *)
Definition v_fields (p : Vec3 F) : string :=
  " " ++ show_float (x p) ++ " " ++ show_float (y p) ++ " " ++ show_float (z p).

Definition vt_fields (uv : Vec2 F) : string :=
  " " ++ show_float (u uv) ++ " " ++ show_float (v uv).

(** A corner as it is written, without the space that follows it. *)
Definition corner_word (ix : Z * Z * Z) : string :=
  let '(vi, ti, ni) := ix in
  show_int vi ++ "/" ++ show_int ti ++ "/" ++ show_int ni.

(** The lines of the file, as a reader sees them. *)
Definition v_line (p : Vec3 F) : string :=
  "v " ++ show_float (x p) ++ " " ++ show_float (y p) ++ " " ++ show_float (z p).

Definition vt_line (uv : Vec2 F) : string :=
  "vt " ++ show_float (u uv) ++ " " ++ show_float (v uv).

Definition vn_line (n : Vec3 F) : string :=
  "vn " ++ show_float (x n) ++ " " ++ show_float (y n) ++ " " ++ show_float (z n).

(** The corners of a face: entry [k] of its three vectors. *)
Definition face_corners (face : Face F) : list (Vec3 F * (Vec2 F * Vec3 F)) :=
  combine (verts face) (combine (texts face) (norms face)).

Definition f_line (mesh : Mesh F) (face : Face F) : string :=
  "f " ++ fold_right append ""
            (map (fun '(p, (t, n)) => corner_text (corner_indices mesh p t n))
                 (face_corners face)).

Definition group_lines (mesh : Mesh F) (grp : Group F) : list string :=
  (if String.eqb (mtlName grp) "" then [] else ["usemtl " ++ mtlName grp])
  ++ map (f_line mesh) (faces grp).

Definition obj_lines (mesh : Mesh F) : list string :=
  map v_line (vertices mesh) ++ map vt_line (mappings mesh)
  ++ map vn_line (normals mesh) ++ flat_map (group_lines mesh) (groups mesh).

(** A face whose three vectors cover every corner. *)
Definition whole_face (face : Face F) : bool :=
  ((length (verts face) <=? length (texts face))
   && (length (verts face) <=? length (norms face)))%nat.

(** The text written to the file once it is open. *)
Definition OBJWriter_write (mesh : Mesh F) : option string :=
  let f := fold_left write_v (vertices mesh) "" in
  let f := fold_left write_vt (mappings mesh) f in
  let f := fold_left write_vn (normals mesh) f in
  fold_left (write_group mesh) (groups mesh) (Some f).

End Writer.

End GeometryObjects.

(** * The OBJ reader in the constructor of [Object3D] *)

(** How a statement ends: normally, by a C++ exception that nothing
    catches, or in undefined behaviour (a read outside a vector, a signed
    overflow). *)
Inductive behaviour (A : Type) : Type :=
| Normal (a : A)
| Exception (what : string)
| Undefined.
Arguments Normal {A} a.
Arguments Exception {A} what.
Arguments Undefined {A}.

Definition and_then {A B : Type} (b : behaviour A) (k : A -> behaviour B) : behaviour B :=
  match b with
  | Normal a => k a
  | Exception w => Exception w
  | Undefined => Undefined
  end.

Notation "x <- b ;; k" := (and_then b (fun x => k))
  (at level 61, b at next level, right associativity).
Notation "' pat <- b ;; k" := (and_then b (fun x => match x with pat => k end))
  (at level 61, pat pattern, b at next level, right associativity).

(** A read [v[i]] that must be in range. *)
Definition checked {A : Type} (o : option A) : behaviour A :=
  match o with
  | Some a => Normal a
  | None => Undefined
  end.

(** ** Text streams *)

(** [std::isspace] in the classic locale: space and the characters 9 to 13. *)
Definition isspace (c : ascii) : bool :=
  let n := nat_of_ascii c in
  ((n =? 32) || ((9 <=? n) && (n <=? 13)))%nat.

Definition isdigit (c : ascii) : bool :=
  let n := nat_of_ascii c in
  ((48 <=? n) && (n <=? 57))%nat.

Fixpoint skip_spaces (s : string) : string :=
  match s with
  | String c rest => if isspace c then skip_spaces rest else s
  | EmptyString => EmptyString
  end.

(** The characters up to the next space, and what follows them. *)
Fixpoint until_space (s : string) : string * string :=
  match s with
  | String c rest =>
      if isspace c then (EmptyString, s)
      else let '(word, rest') := until_space rest in (String c word, rest')
  | EmptyString => (EmptyString, EmptyString)
  end.

(** [ss >> word] on a [std::string]: leading spaces are skipped and the
    characters up to the next space are taken; the word is empty when the
    stream holds nothing more.  The second component is what the stream
    still holds. *)
Definition extract_word (s : string) : string * string :=
  until_space (skip_spaces s).

(** [while (ss >> tok) tokens.push_back(tok)]: the words of the stream.
    [tok] is the word being read. *)
Fixpoint words_from (tok : string) (s : string) : list string :=
  match s with
  | String c rest =>
      if isspace c
      then match tok with
           | EmptyString => words_from EmptyString rest
           | _ => tok :: words_from EmptyString rest
           end
      else words_from (tok ++ String c EmptyString) rest
  | EmptyString =>
      match tok with
      | EmptyString => []
      | _ => [tok]
      end
  end.

Definition words (s : string) : list string := words_from EmptyString s.

(** [str.find(c, pos)]. *)
Fixpoint find_char (c : ascii) (pos : nat) (str : string) : option nat :=
  match str with
  | EmptyString => None
  | String d rest =>
      match pos with
      | O => if Ascii.eqb d c then Some 0%nat
             else option_map S (find_char c 0 rest)
      | S pos' => option_map S (find_char c pos' rest)
      end
  end.

(** The digits at the head of a string, read in base ten after [acc];
    [None] when it does not start with a digit. *)
Fixpoint read_digits (s : string) (acc : Z) (seen : bool) : option Z :=
  match s with
  | String c rest =>
      if isdigit c
      then read_digits rest (10 * acc + (Z.of_nat (nat_of_ascii c) - 48)) true
      else if seen then Some acc else None
  | EmptyString => if seen then Some acc else None
  end.

(** The number a sequence of decimal digits denotes when read after [acc]. *)
Fixpoint uint_value (d : Decimal.uint) (acc : Z) : Z :=
  match d with
  | Decimal.Nil => acc
  | Decimal.D0 l => uint_value l (10 * acc + 0)
  | Decimal.D1 l => uint_value l (10 * acc + 1)
  | Decimal.D2 l => uint_value l (10 * acc + 2)
  | Decimal.D3 l => uint_value l (10 * acc + 3)
  | Decimal.D4 l => uint_value l (10 * acc + 4)
  | Decimal.D5 l => uint_value l (10 * acc + 5)
  | Decimal.D6 l => uint_value l (10 * acc + 6)
  | Decimal.D7 l => uint_value l (10 * acc + 7)
  | Decimal.D8 l => uint_value l (10 * acc + 8)
  | Decimal.D9 l => uint_value l (10 * acc + 9)
  end.

(** Every character of the string satisfies [test]. *)
Fixpoint all_chars (test : ascii -> bool) (s : string) : bool :=
  match s with
  | String c rest => test c && all_chars test rest
  | EmptyString => true
  end.

(** A character of a written [int]: a digit or the sign. *)
Definition int_char (c : ascii) : bool := isdigit c || Ascii.eqb c "-".

(** [std::stoi(str)]: spaces are skipped, a sign is read, then as many
    digits as there are; what follows them is ignored.
    [std::invalid_argument] when there is no digit, [std::out_of_range]
    when the number is not an [int]. *)
Definition stoi (str : string) : behaviour Z :=
  let s := skip_spaces str in
  let '(negative, s) :=
    match s with
    | String c rest =>
        if Ascii.eqb c "-" then (true, rest)
        else if Ascii.eqb c "+" then (false, rest)
        else (false, s)
    | EmptyString => (false, s)
    end in
  match read_digits s 0 false with
  | None => Exception "std::invalid_argument"
  | Some n =>
      let z := if negative then (- n)%Z else n in
      if ((- 2 ^ 31 <=? z) && (z <? 2 ^ 31))%Z then Normal z
      else Exception "std::out_of_range"
  end.

(** [str.substr(pos)] and [str.substr(pos, len)], for [pos <= str.size()]. *)
Definition substr_from (str : string) (pos : nat) : string :=
  substring pos (String.length str - pos) str.

Definition substr (str : string) (pos len : nat) : string :=
  substring pos len str.

(** [std::stoi(...) - 1] on [int]: the subtraction overflows at [INT_MIN]. *)
Definition stoi_minus_1 (str : string) : behaviour Z :=
  z <- stoi str ;;
  if (z =? - 2 ^ 31)%Z then Undefined else Normal (z - 1)%Z.

(** The parsing of one corner of a face, ["v"], ["v/t"], ["v//n"] or
    ["v/t/n"]: the three indices [vIdx], [tIdx], [nIdx], [-1] for one that
    is not given. *)
Definition corner_indices_of (vertStr : string) : behaviour (Z * Z * Z) :=
  let firstSlash := find_char "/" 0 vertStr in
  let secondSlash :=
    match firstSlash with
    | None => None
    | Some p => find_char "/" (p + 1) vertStr
    end in
  match firstSlash, secondSlash with
  | None, _ =>
      vIdx <- stoi_minus_1 vertStr ;;
      Normal (vIdx, -1, -1)%Z
  | Some p, None =>
      vIdx <- stoi_minus_1 (substr vertStr 0 p) ;;
      tIdx <- stoi_minus_1 (substr_from vertStr (p + 1)) ;;
      Normal (vIdx, tIdx, -1)%Z
  | Some p, Some q =>
      if (q =? p + 1)%nat
      then
        vIdx <- stoi_minus_1 (substr vertStr 0 p) ;;
        nIdx <- stoi_minus_1 (substr_from vertStr (q + 1)) ;;
        Normal (vIdx, -1, nIdx)%Z
      else
        vIdx <- stoi_minus_1 (substr vertStr 0 p) ;;
        tIdx <- stoi_minus_1 (substr vertStr (p + 1) (q - p - 1)) ;;
        nIdx <- stoi_minus_1 (substr_from vertStr (q + 1)) ;;
        Normal (vIdx, tIdx, nIdx)%Z
  end.

(** [glm::vec2]. *)
Record vec2 (F : Type) : Type := mkvec2 { ux : F; uy : F }.
Arguments mkvec2 {F} ux uy.
Arguments ux {F} _.
Arguments uy {F} _.

(** The triangles of a fan over the corners [c0, c1, ..., ck]:
    [(c0, ci, ci+1)] for [i = 1, ..., k - 1]. *)
Definition fan {A : Type} (l : list A) : list (list A) :=
  match l with
  | c0 :: rest =>
      map (fun i => match nth_error rest i, nth_error rest (S i) with
                    | Some a, Some b => [c0; a; b]
                    | _, _ => []
                    end)
          (seq 0 (length rest - 1))
  | [] => []
  end.

Module ObjReader.

(** The vectors the constructor fills while it reads the file. *)
Record state (F : Type) : Type := mkstate {
  raw_positions : list (vec3 F);
  raw_texcoords : list (vec2 F);
  raw_normals : list (vec3 F);
  positions : list (GeometryObjects.Vec3 F);
  texcoords : list (GeometryObjects.Vec2 F);
  normals : list (GeometryObjects.Vec3 F);
  groups : list (GeometryObjects.Group F)
}.
Arguments mkstate {F} _ _ _ _ _ _ _.
Arguments raw_positions {F} _.
Arguments raw_texcoords {F} _.
Arguments raw_normals {F} _.
Arguments positions {F} _.
Arguments texcoords {F} _.
Arguments normals {F} _.
Arguments groups {F} _.

Section Reader.
Context {F : Type} `{Scalar F}.
(** What [ss >> pos.x >> pos.y >> pos.z] and [ss >> uv.x >> uv.y] leave in
    [pos] and [uv], given what the stream holds after the first word of the
    line. *)
Variable extract_vec3 : string -> vec3 F.
Variable extract_vec2 : string -> vec2 F.

Definition Vec3_of (p : vec3 F) : GeometryObjects.Vec3 F :=
  GeometryObjects.mkVec3 (vx p) (vy p) (vz p).

Definition Vec2_of (t : vec2 F) : GeometryObjects.Vec2 F :=
  GeometryObjects.mkVec2 (ux t) (uy t).

(** [if (idx >= 0) value = raw[idx];], the value being zero otherwise. *)
Definition lookup {A B : Type} (raw : list A) (idx : Z) (convert : A -> B) (zero : B)
    : behaviour B :=
  if (0 <=? idx)%Z
  then a <- checked (vector_at raw idx) ;; Normal (convert a)
  else Normal zero.

(** The data of the corner [vertStr]: its indices parsed, then looked up
    in the vectors read so far. *)
Definition resolve_corner (st : state F) (vertStr : string)
    : behaviour (GeometryObjects.Vec3 F * GeometryObjects.Vec2 F * GeometryObjects.Vec3 F) :=
  '(vIdx, tIdx, nIdx) <- corner_indices_of vertStr ;;
  pV <- lookup (raw_positions st) vIdx Vec3_of (GeometryObjects.mkVec3 f0 f0 f0) ;;
  tV <- lookup (raw_texcoords st) tIdx Vec2_of (GeometryObjects.mkVec2 f0 f0) ;;
  nV <- lookup (raw_normals st) nIdx Vec3_of (GeometryObjects.mkVec3 f0 f0 f0) ;;
  Normal (pV, tV, nV).

(** The corner added to the vectors of the mesh and to the face. *)
Definition push_corner (st : state F) (face : GeometryObjects.Face F)
    (c : GeometryObjects.Vec3 F * GeometryObjects.Vec2 F * GeometryObjects.Vec3 F)
    : state F * GeometryObjects.Face F :=
  let '(pV, tV, nV) := c in
  (mkstate (raw_positions st) (raw_texcoords st) (raw_normals st)
           (positions st ++ [pV]) (texcoords st ++ [tV]) (normals st ++ [nV])
           (groups st),
   GeometryObjects.addNorm
     (GeometryObjects.addText (GeometryObjects.addVert face pV) tV) nV).

(** One pass of [for (int k = 0; k < 3; ++k)] on the corner [vertStr]. *)
Definition read_corner (vertStr : string)
    (acc : behaviour (state F * GeometryObjects.Face F))
    : behaviour (state F * GeometryObjects.Face F) :=
  '(st, face) <- acc ;;
  c <- resolve_corner st vertStr ;;
  Normal (push_corner st face c).

(** One pass of [for (size_t i = 1; i + 1 < tokens.size(); ++i)]: the
    triangle [tokens[0], tokens[i], tokens[i + 1]]. *)
Definition read_triangle (tokens : list string) (acc : behaviour (state F)) (i : nat)
    : behaviour (state F) :=
  st <- acc ;;
  t0 <- checked (nth_error tokens 0) ;;
  t1 <- checked (nth_error tokens i) ;;
  t2 <- checked (nth_error tokens (i + 1)) ;;
  '(st, face) <- fold_left (fun acc vertStr => read_corner vertStr acc) [t0; t1; t2]
                           (Normal (st, GeometryObjects.empty_face)) ;;
  Normal (mkstate (raw_positions st) (raw_texcoords st) (raw_normals st)
                  (positions st) (texcoords st) (normals st)
                  (GeometryObjects.addFace_back (groups st) face)).

(** The statement for a line of type ["f"]. *)
Definition read_face (rest : string) (st : state F) : behaviour (state F) :=
  let tokens := words rest in
  if (length tokens <? 3)%nat then Normal st
  else fold_left (read_triangle tokens) (seq 1 (length tokens - 2)) (Normal st).

(** The body of [while (std::getline(file, line))]. *)
Definition read_line (st : behaviour (state F)) (line : string) : behaviour (state F) :=
  st <- st ;;
  let '(type, rest) := extract_word line in
  if String.eqb type "v" then
    Normal (mkstate (raw_positions st ++ [extract_vec3 rest]) (raw_texcoords st)
                    (raw_normals st) (positions st) (texcoords st) (normals st)
                    (groups st))
  else if String.eqb type "vt" then
    Normal (mkstate (raw_positions st) (raw_texcoords st ++ [extract_vec2 rest])
                    (raw_normals st) (positions st) (texcoords st) (normals st)
                    (groups st))
  else if String.eqb type "vn" then
    Normal (mkstate (raw_positions st) (raw_texcoords st)
                    (raw_normals st ++ [extract_vec3 rest])
                    (positions st) (texcoords st) (normals st) (groups st))
  else if String.eqb type "usemtl" then
    let mtl := fst (extract_word rest) in
    Normal (mkstate (raw_positions st) (raw_texcoords st) (raw_normals st)
                    (positions st) (texcoords st) (normals st)
                    (groups st ++ [GeometryObjects.mkGroup mtl mtl []]))
  else if String.eqb type "f" then read_face rest st
  else Normal st.

(** The triangle of three corners added to the vectors of the mesh and, as
    a face, to the last group. *)
Definition add_triangle (st : state F)
    (cs : list (GeometryObjects.Vec3 F * GeometryObjects.Vec2 F * GeometryObjects.Vec3 F))
    : state F :=
  mkstate (raw_positions st) (raw_texcoords st) (raw_normals st)
          (positions st ++ map (fun c => fst (fst c)) cs)
          (texcoords st ++ map (fun c => snd (fst c)) cs)
          (normals st ++ map snd cs)
          (GeometryObjects.addFace_back (groups st)
             (GeometryObjects.mkFace (map (fun c => fst (fst c)) cs) (map snd cs)
                                     (map (fun c => snd (fst c)) cs))).

(** Two states hold the same [v], [vt] and [vn] entries. *)
Definition same_raw (st1 st2 : state F) : Prop :=
  raw_positions st1 = raw_positions st2
  /\ raw_texcoords st1 = raw_texcoords st2
  /\ raw_normals st1 = raw_normals st2.

(** The three vectors of the mesh hold three entries per face read, and
    there is a group to add faces to. *)
Definition three_per_face (st : state F) : Prop :=
  length (positions st) = (3 * length (flat_map GeometryObjects.faces (groups st)))%nat
  /\ length (texcoords st) = length (positions st)
  /\ length (normals st) = length (positions st)
  /\ groups st <> []
  /\ Forall (fun face => length (GeometryObjects.verts face) = 3%nat
                         /\ length (GeometryObjects.norms face) = 3%nat
                         /\ length (GeometryObjects.texts face) = 3%nat)
            (flat_map GeometryObjects.faces (groups st)).

(** The number of faces read so far. *)
Definition total_faces (st : state F) : nat :=
  length (flat_map GeometryObjects.faces (groups st)).

(** The state before the first line: one group named after the object. *)
Definition start (name : string) : state F :=
  mkstate [] [] [] [] [] [] [GeometryObjects.mkGroup name "" []].

(** The constructor of [Object3D] from the text of an opened OBJ file to
    its [mesh]. *)
Definition read_lines (name : string) (text : string) : behaviour (state F) :=
  fold_left read_line (lines text) (Normal (start name)).

Definition Object3D_mesh (name : string) (text : string)
    : behaviour (GeometryObjects.Mesh F) :=
  st <- read_lines name text ;;
  checked (GeometryObjects.Mesh_of_vectors (positions st) (texcoords st) (normals st)
                                           (groups st)).

End Reader.

End ObjReader.

(** ** A mesh written and read back *)

Section RoundTrip.
Context {F : Type} `{Scalar F} `{ScalarEq F}.
Variable show_float : F -> string.
Variable extract_vec3 : string -> vec3 F.
Variable extract_vec2 : string -> vec2 F.

(** The first entry of [l] equal to [value] ([value] itself if none is). *)
Definition first_match {A : Type} (eq : A -> A -> bool) (l : list A) (value : A) : A :=
  nth (find_index eq l value) l value.

(** What the reader gets from the [v], [vt] or [vn] line written for an
    entry of the mesh. *)
Definition reread_v (p : GeometryObjects.Vec3 F) : GeometryObjects.Vec3 F :=
  ObjReader.Vec3_of (extract_vec3 (GeometryObjects.v_fields show_float p)).

Definition reread_vt (t : GeometryObjects.Vec2 F) : GeometryObjects.Vec2 F :=
  ObjReader.Vec2_of (extract_vec2 (GeometryObjects.vt_fields show_float t)).

(** A face read back: every corner gets what is read from the line of the
    first entry equal to it. *)
Definition reread_face (mesh : GeometryObjects.Mesh F) (face : GeometryObjects.Face F)
    : GeometryObjects.Face F :=
  GeometryObjects.mkFace
    (map (fun p => reread_v (first_match GeometryObjects.Vec3_eq
                               (GeometryObjects.vertices mesh) p))
         (GeometryObjects.verts face))
    (map (fun n => reread_v (first_match GeometryObjects.Vec3_eq
                               (GeometryObjects.normals mesh) n))
         (GeometryObjects.norms face))
    (map (fun t => reread_vt (first_match GeometryObjects.Vec2_eq
                                (GeometryObjects.mappings mesh) t))
         (GeometryObjects.texts face)).

(** The reader has seen the [v], [vt] and [vn] lines written for a mesh. *)
Definition holds_lines_of (mesh : GeometryObjects.Mesh F) (st : ObjReader.state F) : Prop :=
  ObjReader.raw_positions st
  = map (fun q => extract_vec3 (GeometryObjects.v_fields show_float q))
        (GeometryObjects.vertices mesh)
  /\ ObjReader.raw_texcoords st
     = map (fun q => extract_vec2 (GeometryObjects.vt_fields show_float q))
           (GeometryObjects.mappings mesh)
  /\ ObjReader.raw_normals st
     = map (fun q => extract_vec3 (GeometryObjects.v_fields show_float q))
           (GeometryObjects.normals mesh).

(** A face of three corners, each equal to an entry of the mesh. *)
Definition triangle_found (mesh : GeometryObjects.Mesh F) (face : GeometryObjects.Face F)
    : bool :=
  ((length (GeometryObjects.verts face) =? 3)
   && (length (GeometryObjects.texts face) =? 3)
   && (length (GeometryObjects.norms face) =? 3))%nat
  && forallb (fun p => (find_index GeometryObjects.Vec3_eq
                          (GeometryObjects.vertices mesh) p
                        <? length (GeometryObjects.vertices mesh))%nat)
             (GeometryObjects.verts face)
  && forallb (fun t => (find_index GeometryObjects.Vec2_eq
                          (GeometryObjects.mappings mesh) t
                        <? length (GeometryObjects.mappings mesh))%nat)
             (GeometryObjects.texts face)
  && forallb (fun n => (find_index GeometryObjects.Vec3_eq
                          (GeometryObjects.normals mesh) n
                        <? length (GeometryObjects.normals mesh))%nat)
             (GeometryObjects.norms face).

End RoundTrip.

(** ** The Y/Z exchange of [key_callback] *)

(** [trackVerts.push_back({ v.x, v.z, v.y, v.s, v.t, v.nx, v.nz, v.ny })]. *)
Definition swap_yz {F : Type} (w : Vertex F) : Vertex F :=
  mkVertex (vtx_x w) (vtx_z w) (vtx_y w) (vtx_s w) (vtx_t w)
           (vtx_nx w) (vtx_nz w) (vtx_ny w).

(** The [j]-th triangle of the index buffer of [generateTrackMesh]:
    [(v0, v3, v1)] of quad [j / 2] for an even [j], [(v1, v3, v2)] for an
    odd one. *)
Definition track_triangle (j : nat) : list Z :=
  let base := (4 * Z.of_nat (j / 2))%Z in
  if Nat.even j then [base + 0; base + 3; base + 1]%Z
  else [base + 1; base + 3; base + 2]%Z.

(** ** Sample meshes *)

(** A binary32 vertex with integer coordinates. *)
Definition vertex32 (px py pz s t nx ny nz : Z) : Vertex Binary32.f32 :=
  mkVertex (Binary32.of_int px) (Binary32.of_int py) (Binary32.of_int pz)
           (Binary32.of_int s) (Binary32.of_int t)
           (Binary32.of_int nx) (Binary32.of_int ny) (Binary32.of_int nz).

(** One triangle in the plane [y = 0], its normal up. *)
Definition sample_triangle : list (Vertex Binary32.f32) :=
  [vertex32 0 0 0 0 0 0 1 0; vertex32 1 0 0 1 0 0 1 0; vertex32 0 0 1 0 1 0 1 0].

(** A stand-in for the extraction of [float]s from a stream, for files
    whose numbers are integers: the words of the stream read with [stoi],
    zero for a word that is missing or is no number. *)
Definition int_of_word (w : option string) : Binary32.f32 :=
  match w with
  | Some w => match stoi w with
              | Normal z => Binary32.of_int z
              | _ => Binary32.of_int 0
              end
  | None => Binary32.of_int 0
  end.

Definition sample_extract_vec3 (rest : string) : vec3 Binary32.f32 :=
  let ws := words rest in
  mkvec3 (int_of_word (nth_error ws 0)) (int_of_word (nth_error ws 1))
         (int_of_word (nth_error ws 2)).

Definition sample_extract_vec2 (rest : string) : vec2 Binary32.f32 :=
  let ws := words rest in
  mkvec2 (int_of_word (nth_error ws 0)) (int_of_word (nth_error ws 1)).

(** An OBJ file: a square of four vertices as one face of four corners. *)
Definition sample_obj : string :=
  unlines ["v 0 0 0"; "v 1 0 0"; "v 1 0 1"; "v 0 0 1"; "vn 0 1 0";
           "f 1//1 2//1 3//1 4//1"]%string.

Definition sample_mesh : GeometryObjects.Mesh Binary32.f32 :=
  GeometryObjects.mkMesh
    (GeometryObjects.positions_of sample_triangle)
    (GeometryObjects.mappings_of sample_triangle)
    (GeometryObjects.normals_of sample_triangle)
    [GeometryObjects.mkGroup "track" ""
       [GeometryObjects.face_of (GeometryObjects.positions_of sample_triangle)
                                (GeometryObjects.mappings_of sample_triangle)
                                (GeometryObjects.normals_of sample_triangle)
                                [0; 1; 2]%Z]]
    sample_triangle.

(** * The editor of [Origem.cpp] *)

(** [glm::min], [glm::max] and [glm::clamp] on scalars:
    [min(x, y) = (y < x) ? y : x], [max(x, y) = (x < y) ? y : x],
    [clamp(x, lo, hi) = min(max(x, lo), hi)]. *)
Section GlmCommon.
Context {F : Type} `{Scalar F}.
Local Open Scope scalar_scope.

Definition glm_min (x y : F) : F := if y <? x then y else x.
Definition glm_max (x y : F) : F := if x <? y then y else x.
Definition glm_clamp (x minVal maxVal : F) : F := glm_min (glm_max x minVal) maxVal.

End GlmCommon.

(** The globals of the editor. *)
Record Editor (F : Type) : Type := mkEditor {
  editorMode : bool;
  editorControlPoints : list (vec3 F);
  editorPointYellowLevels : list F;
  currentYellowLevel : F
}.
Arguments mkEditor {F} _ _ _ _.
Arguments editorMode {F} _.
Arguments editorControlPoints {F} _.
Arguments editorPointYellowLevels {F} _.
Arguments currentYellowLevel {F} _.

(** The keys [key_callback] tells apart, and the actions of GLFW. *)
Inductive Key : Type :=
| KEY_KP_ADD | KEY_EQUAL | KEY_KP_SUBTRACT | KEY_MINUS | KEY_SPACE | KEY_OTHER.

Inductive Action : Type := RELEASE | PRESS | REPEAT.

Definition is_press (action : Action) : bool :=
  match action with PRESS => true | _ => false end.

(** [v.back() = x] on a non-empty vector. *)
Fixpoint set_back {A : Type} (v : list A) (x : A) : list A :=
  match v with
  | [] => []
  | [_] => [x]
  | a :: v' => a :: set_back v' x
  end.

Section EditorKeys.
Context {F : Type} `{Scalar F}.
Local Open Scope scalar_scope.

(** [0.3f] and [5.0f]: the decimal literal [0.3] rounded to [float] is the
    quotient [3 / 10] rounded to [float]. *)
Definition yellowStep : F := of_int 3 / of_int 10.
Definition maxHeight : F := of_int 5.

(** The state at start-up: editor mode, no point, level [0.5f]. *)
Definition editor_start : Editor F := mkEditor true [] [] f_half.

(** [currentYellowLevel = level] and, when there is a point, the level of
    the last one. *)
Definition set_level (ed : Editor F) (level : F) : Editor F :=
  mkEditor (editorMode ed) (editorControlPoints ed)
           (match editorPointYellowLevels ed with
            | [] => []
            | levels => set_back levels level
            end)
           level.

(** The first block of [key_callback]: the keys [+] and [-] in the editor. *)
Definition adjust_height (ed : Editor F) (key : Key) (action : Action) : Editor F :=
  if editorMode ed && is_press action then
    match key with
    | KEY_KP_ADD | KEY_EQUAL =>
        set_level ed (glm_clamp (currentYellowLevel ed + yellowStep) f0 maxHeight)
    | KEY_KP_SUBTRACT | KEY_MINUS =>
        set_level ed (glm_clamp (currentYellowLevel ed - yellowStep) f0 maxHeight)
    | _ => ed
    end
  else ed.

(** The end of [mouse_button_callback] on a left click in the editor:
    [intersectPoint] is the point of the plane [z = 0] the callback has
    computed from the cursor; its [x] and [y] become a control point, with
    the current level. *)
Definition add_control_point (ed : Editor F) (intersectPoint : vec3 F) : Editor F :=
  if editorMode ed then
    mkEditor (editorMode ed)
             (editorControlPoints ed ++ [mkvec3 (vx intersectPoint) (vy intersectPoint) f0])
             (editorPointYellowLevels ed ++ [currentYellowLevel ed])
             (currentYellowLevel ed)
  else ed.

(** One pass of the loop that builds [ctrlPoints3D]: the point with its
    level as third coordinate. *)
Definition ctrl_point_body (points : list (vec3 F)) (levels : list F) (i : nat)
    (ctrlPoints3D : option (list (vec3 F))) : option (list (vec3 F)) :=
  match ctrlPoints3D, nth_error points i, nth_error levels i with
  | Some l, Some p, Some yl => Some (l ++ [mkvec3 (vx p) (vy p) yl])
  | _, _, _ => None
  end.

Definition ctrlPoints3D (points : list (vec3 F)) (levels : list F)
    : option (list (vec3 F)) :=
  for_loop (length points) (ctrl_point_body points levels) (Some []).

End EditorKeys.

(** A binary32 level within [[0, maxHeight]]. *)
Definition level_in_range (level : Binary32.f32) : bool :=
  Binary32.leb (Binary32.of_int 0) level && Binary32.leb level (Binary32.of_int 5).

(** Not a NaN. *)
Definition is_number (x : Binary32.f32) : bool :=
  match x with S754_nan => false | _ => true end.

(** A zero or a finite number. *)
Definition is_finite (x : Binary32.f32) : bool :=
  match x with S754_zero _ | S754_finite _ _ _ => true | _ => false end.

(** A value of the binary32 format: a zero, an infinity, a NaN, or a finite
    number with the mantissa and the exponent the format gives it (24
    digits, fewer for the subnormal numbers at the exponent [-149]).  Every
    [float] of the program is one. *)
Definition is_binary32 (x : Binary32.f32) : bool :=
  valid_binary Binary32.prec Binary32.emax x.

(** A zero, or a finite number of absolute value below [2 ^ B]. *)
Definition magnitude_below (B : Z) (x : Binary32.f32) : bool :=
  match x with
  | S754_zero _ => true
  | S754_finite _ m e => (Z.pos (digits2_pos m) + e <=? B)%Z
  | _ => false
  end.

(** A value of the format that is zero or of absolute value below
    [2 ^ B]. *)
Definition coordinate_below (B : Z) (x : Binary32.f32) : bool :=
  is_binary32 x && magnitude_below B x.

(** A point whose three coordinates are such values. *)
Definition point_below (B : Z) (p : vec3 Binary32.f32) : bool :=
  coordinate_below B (vx p) && coordinate_below B (vy p) && coordinate_below B (vz p).

(** Two points whose coordinates denote the same numbers: they agree up
    to the sign of a zero coordinate. *)
Definition same_point (p q : vec3 Binary32.f32) : Prop :=
  Binary32.same_value (vx p) (vx q)
  /\ Binary32.same_value (vy p) (vy q)
  /\ Binary32.same_value (vz p) (vz q).

(** The values of [pointsPerSegment] from 1 to 100 for which the binary32
    parameter of [for (float t = 0.0f; t <= 1.0f; t += step)], after
    [pointsPerSegment] additions of [step = 1.0f / pointsPerSegment], is
    above [1.0f]. *)
Definition overshooting_segments : list Z :=
  [10; 11; 14; 18; 20; 22; 24; 25; 26; 29; 30; 34; 36; 38; 42; 43; 52; 59; 68; 70;
   71; 72; 73; 76; 77; 78; 79; 84; 86; 87; 90; 96; 99]%Z.

(** The samples of one window for [pointsPerSegment] from 1 to 100. *)
Definition samples_per_window (pointsPerSegment : Z) : nat :=
  if existsb (Z.eqb pointsPerSegment) overshooting_segments
  then Z.to_nat pointsPerSegment
  else (Z.to_nat pointsPerSegment + 1)%nat.

(** Four control points on the x axis at [-3e38], [3e38], [-3e38] and
    [3e38], close to the largest binary32 number (about [3.4e38]). *)
Definition far_points : list (vec3 Binary32.f32) :=
  [ point32 (-300000000000000000000000000000000000000) 0 0;
    point32 300000000000000000000000000000000000000 0 0;
    point32 (-300000000000000000000000000000000000000) 0 0;
    point32 300000000000000000000000000000000000000 0 0 ].

(** The two vectors of the editor go together, and every level is within
    [[0, maxHeight]]. *)
Definition editor_ok (ed : Editor Binary32.f32) : Prop :=
  length (editorControlPoints ed) = length (editorPointYellowLevels ed)
  /\ level_in_range (currentYellowLevel ed) = true
  /\ Forall (fun level => level_in_range level = true) (editorPointYellowLevels ed).

(** What the user does in the editor. *)
Inductive EditorEvent (F : Type) : Type :=
| KeyEvent (key : Key) (action : Action)
| LeftClick (intersectPoint : vec3 F).
Arguments KeyEvent {F} key action.
Arguments LeftClick {F} intersectPoint.

Definition is_space (key : Key) : bool :=
  match key with KEY_SPACE => true | _ => false end.

(** The variables of the editor after the last block of [key_callback]:
    the space bar, with at least one control point, builds the scene and
    reads it back; when this returns, the editor is left for the viewer. *)
Definition leave_editor {F : Type} (ed : Editor F) (key : Key) (action : Action)
    : Editor F :=
  if is_space key && is_press action && editorMode ed
     && negb (length (editorControlPoints ed) =? 0)%nat
  then mkEditor false (editorControlPoints ed) (editorPointYellowLevels ed)
                (currentYellowLevel ed)
  else ed.

(** The variables of the editor after a call of [key_callback] or a left
    click, when the call returns. *)
Definition editor_event {F : Type} `{Scalar F} (ed : Editor F) (ev : EditorEvent F)
    : Editor F :=
  match ev with
  | KeyEvent key action => leave_editor (adjust_height ed key action) key action
  | LeftClick p => add_control_point ed p
  end.

(** ** [generateSceneFile] *)

Section SceneFile.
Context {F : Type} `{Scalar F}.
Variable show_float : F -> string.
Local Open Scope string_scope.

Definition config_block : list string :=
  ["Type GlobalConfig Config"; "LightPos 2.0 10.0 2.0"; "LightColor 1.0 1.0 1.0";
   "CameraPos 0.0 5.0 10.0"; "CameraFront 0.0 0.0 -1.0"; "Fov 45.0"; "NearPlane 0.1";
   "FarPlane 100.0"; "Sensitivity 0.1"; "CameraSpeed 0.008"; "AttConstant 0.2";
   "AttLinear 0.02"; "AttQuadratic 0.005"; "FogColor 0.5 0.5 0.5"; "FogStart 5.0";
   "FogEnd 50.0"; "End"].

Definition track_block (trackObj : string) : list string :=
  ["Type Mesh Track"; "Obj " ++ trackObj; "Mtl track.mtl"; "Scale 1.0 1.0 1.0";
   "Position 0.0 0.0 0.0"; "Rotation 0.0 1.0 0.0"; "Angle 0.0 0.0 0.0";
   "IncrementalAngle 0"; "End"].

Definition carro_block (carObj animFile : string) : list string :=
  ["Type Mesh Carro"; "Obj " ++ carObj; "Mtl car.mtl"; "Scale 0.5 0.5 0.5";
   "Position 0.0 0.0 0.0"; "Rotation 0.0 1.0 0.0"; "Angle 0.0 0.0 0.0";
   "IncrementalAngle 0"; "AnimationFile " ++ animFile; "End"].

(** One pass of the loop over the control points: [yl] is the stored level
    of point [i], [0.0f] when there is none. *)
Definition write_control_point (controlPoints : list (vec3 F)) (levels : list F)
    (i : nat) (file : string) : string :=
  match nth_error controlPoints i with
  | Some cp =>
      let yl := match nth_error levels i with
                | Some yl => yl
                | None => f0
                end in
      file ++ "ControlPoint " ++ show_float (vx cp) ++ " " ++ show_float (vy cp) ++ " "
           ++ show_float yl ++ newline
  | None => file
  end.

(** The line of a control point with its height. *)
Definition control_point_line (c : vec3 F) : string :=
  "ControlPoint " ++ show_float (vx c) ++ " " ++ show_float (vy c) ++ " "
                  ++ show_float (vz c).

(** The control point [i] with the level written for it. *)
Definition leveled_point (controlPoints : list (vec3 F)) (levels : list F) (i : nat)
    : vec3 F :=
  let cp := nth i controlPoints vzero in
  mkvec3 (vx cp) (vy cp) (nth i levels f0).

(** The text written to the scene file; [levels] is the global
    [editorPointYellowLevels]. *)
Definition generateSceneFile (trackObj carObj animFile : string)
    (controlPoints : list (vec3 F)) (levels : list F) : string :=
  let file := unlines config_block in
  let file := file ++ unlines (track_block trackObj) in
  let file := file ++ unlines (carro_block carObj animFile) in
  let file := file ++ unlines ["Type BSplineCurve Curve1"] in
  let file := for_loop (length controlPoints)
                       (write_control_point controlPoints levels) file in
  file ++ unlines ["PointsPerSegment 100"; "Color 1.0 0.0 0.0 1.0"; "End"].

End SceneFile.

(** An editor with four control points at heights 1, 2, 1, 2. *)
Definition sample_editor : Editor Binary32.f32 :=
  mkEditor true [point32 0 0 0; point32 4 0 0; point32 4 4 0; point32 0 4 0]
           [Binary32.of_int 1; Binary32.of_int 2; Binary32.of_int 1; Binary32.of_int 2]
           (Binary32.of_int 2).

(** ** The camera of the viewer *)

(** The globals [mouse_callback] reads and writes, with
    [globalConfig.cameraFront].  The cursor position is a [double] in the
    source and the other values are [float]s; here they are one type. *)
Record Camera (F : Type) : Type := mkCamera {
  firstMouse : bool;
  lastX : F;
  lastY : F;
  pitch : F;
  yaw : F;
  cameraFront : vec3 F
}.
Arguments mkCamera {F} _ _ _ _ _ _.
Arguments firstMouse {F} c.
Arguments lastX {F} c.
Arguments lastY {F} c.
Arguments pitch {F} c.
Arguments yaw {F} c.
Arguments cameraFront {F} c.

Section MouseLook.
Context {F : Type} `{Scalar F} `{Trig F}.
Local Open Scope scalar_scope.

(** GLFW passes the cursor position as [double]s: [D] stands for that
    type, with the conversion to [float] ([static_cast<float>] and the
    assignments [lastX = xpos]), the conversion of a [float] operand to
    [double], and the subtraction of [double]s. *)
Context {D : Type}.
Variable float_of_double : D -> F.
Variable double_of_float : F -> D.
Variable double_sub : D -> D -> D.

(** [mouse_callback(window, xpos, ypos)]; [sensitivity] is
    [globalConfig.sensitivity]. *)
Definition mouse_callback (editorMode : bool) (sensitivity : F) (cam : Camera F)
    (xpos ypos : D) : Camera F :=
  if negb editorMode then
    let lastX0 := if firstMouse cam then float_of_double xpos else lastX cam in
    let lastY0 := if firstMouse cam then float_of_double ypos else lastY cam in
    let offsetX := float_of_double (double_sub xpos (double_of_float lastX0)) * sensitivity in
    let offsetY := float_of_double (double_sub (double_of_float lastY0) ypos) * sensitivity in
    let pitch1 := pitch cam + offsetY in
    let yaw1 := yaw cam + offsetX in
    let pitch2 := if of_int 89 <? pitch1 then of_int 89 else pitch1 in
    let pitch3 := if pitch2 <? of_int (-89) then of_int (-89) else pitch2 in
    let front := mkvec3 (fcos (radians yaw1) * fcos (radians pitch3))
                        (fsin (radians pitch3))
                        (fsin (radians yaw1) * fcos (radians pitch3)) in
    mkCamera false (float_of_double xpos) (float_of_double ypos) pitch3 yaw1
             (normalize front)
  else cam.

End MouseLook.

(** A binary32 pitch within [[-89, 89]] degrees. *)
Definition pitch_in_range (p : Binary32.f32) : bool :=
  Binary32.leb (Binary32.of_int (-89)) p && Binary32.leb p (Binary32.of_int 89).

(** Two columns whose entries denote the same numbers. *)
Definition same_column (a b : vec4 Binary32.f32) : Prop :=
  Binary32.same_value (wx a) (wx b) /\ Binary32.same_value (wy a) (wy b)
  /\ Binary32.same_value (wz a) (wz b) /\ Binary32.same_value (ww a) (ww b).

(** * The scene file *)

(** [struct GlobalConfig]. *)
Module Config.

Record GlobalConfig (F : Type) : Type := mkGlobalConfig {
  lightPos : vec3 F;
  lightColor : vec3 F;
  cameraPos : vec3 F;
  cameraFront : vec3 F;
  fov : F;
  nearPlane : F;
  farPlane : F;
  sensitivity : F;
  cameraSpeed : F;
  attConstant : F;
  attLinear : F;
  attQuadratic : F;
  fogColor : vec3 F;
  fogStart : F;
  fogEnd : F
}.
Arguments mkGlobalConfig {F} _ _ _ _ _ _ _ _ _ _ _ _ _ _ _.
Arguments lightPos {F} _.
Arguments lightColor {F} _.
Arguments cameraPos {F} _.
Arguments cameraFront {F} _.
Arguments fov {F} _.
Arguments nearPlane {F} _.
Arguments farPlane {F} _.
Arguments sensitivity {F} _.
Arguments cameraSpeed {F} _.
Arguments attConstant {F} _.
Arguments attLinear {F} _.
Arguments attQuadratic {F} _.
Arguments fogColor {F} _.
Arguments fogStart {F} _.
Arguments fogEnd {F} _.

Definition with_lightPos {F : Type} (value : vec3 F) (g : GlobalConfig F)
    : GlobalConfig F :=
  mkGlobalConfig value (lightColor g) (cameraPos g) (cameraFront g) (fov g)
    (nearPlane g) (farPlane g) (sensitivity g) (cameraSpeed g) (attConstant g)
    (attLinear g) (attQuadratic g) (fogColor g) (fogStart g) (fogEnd g).
Definition with_lightColor {F : Type} (value : vec3 F) (g : GlobalConfig F)
    : GlobalConfig F :=
  mkGlobalConfig (lightPos g) value (cameraPos g) (cameraFront g) (fov g) (nearPlane g)
    (farPlane g) (sensitivity g) (cameraSpeed g) (attConstant g) (attLinear g)
    (attQuadratic g) (fogColor g) (fogStart g) (fogEnd g).
Definition with_cameraPos {F : Type} (value : vec3 F) (g : GlobalConfig F)
    : GlobalConfig F :=
  mkGlobalConfig (lightPos g) (lightColor g) value (cameraFront g) (fov g) (nearPlane g)
    (farPlane g) (sensitivity g) (cameraSpeed g) (attConstant g) (attLinear g)
    (attQuadratic g) (fogColor g) (fogStart g) (fogEnd g).
Definition with_cameraFront {F : Type} (value : vec3 F) (g : GlobalConfig F)
    : GlobalConfig F :=
  mkGlobalConfig (lightPos g) (lightColor g) (cameraPos g) value (fov g) (nearPlane g)
    (farPlane g) (sensitivity g) (cameraSpeed g) (attConstant g) (attLinear g)
    (attQuadratic g) (fogColor g) (fogStart g) (fogEnd g).
Definition with_fov {F : Type} (value : F) (g : GlobalConfig F) : GlobalConfig F :=
  mkGlobalConfig (lightPos g) (lightColor g) (cameraPos g) (cameraFront g) value
    (nearPlane g) (farPlane g) (sensitivity g) (cameraSpeed g) (attConstant g)
    (attLinear g) (attQuadratic g) (fogColor g) (fogStart g) (fogEnd g).
Definition with_nearPlane {F : Type} (value : F) (g : GlobalConfig F) : GlobalConfig F :=
  mkGlobalConfig (lightPos g) (lightColor g) (cameraPos g) (cameraFront g) (fov g) value
    (farPlane g) (sensitivity g) (cameraSpeed g) (attConstant g) (attLinear g)
    (attQuadratic g) (fogColor g) (fogStart g) (fogEnd g).
Definition with_farPlane {F : Type} (value : F) (g : GlobalConfig F) : GlobalConfig F :=
  mkGlobalConfig (lightPos g) (lightColor g) (cameraPos g) (cameraFront g) (fov g)
    (nearPlane g) value (sensitivity g) (cameraSpeed g) (attConstant g) (attLinear g)
    (attQuadratic g) (fogColor g) (fogStart g) (fogEnd g).
Definition with_sensitivity {F : Type} (value : F) (g : GlobalConfig F)
    : GlobalConfig F :=
  mkGlobalConfig (lightPos g) (lightColor g) (cameraPos g) (cameraFront g) (fov g)
    (nearPlane g) (farPlane g) value (cameraSpeed g) (attConstant g) (attLinear g)
    (attQuadratic g) (fogColor g) (fogStart g) (fogEnd g).
Definition with_cameraSpeed {F : Type} (value : F) (g : GlobalConfig F)
    : GlobalConfig F :=
  mkGlobalConfig (lightPos g) (lightColor g) (cameraPos g) (cameraFront g) (fov g)
    (nearPlane g) (farPlane g) (sensitivity g) value (attConstant g) (attLinear g)
    (attQuadratic g) (fogColor g) (fogStart g) (fogEnd g).
Definition with_attConstant {F : Type} (value : F) (g : GlobalConfig F)
    : GlobalConfig F :=
  mkGlobalConfig (lightPos g) (lightColor g) (cameraPos g) (cameraFront g) (fov g)
    (nearPlane g) (farPlane g) (sensitivity g) (cameraSpeed g) value (attLinear g)
    (attQuadratic g) (fogColor g) (fogStart g) (fogEnd g).
Definition with_attLinear {F : Type} (value : F) (g : GlobalConfig F) : GlobalConfig F :=
  mkGlobalConfig (lightPos g) (lightColor g) (cameraPos g) (cameraFront g) (fov g)
    (nearPlane g) (farPlane g) (sensitivity g) (cameraSpeed g) (attConstant g) value
    (attQuadratic g) (fogColor g) (fogStart g) (fogEnd g).
Definition with_attQuadratic {F : Type} (value : F) (g : GlobalConfig F)
    : GlobalConfig F :=
  mkGlobalConfig (lightPos g) (lightColor g) (cameraPos g) (cameraFront g) (fov g)
    (nearPlane g) (farPlane g) (sensitivity g) (cameraSpeed g) (attConstant g)
    (attLinear g) value (fogColor g) (fogStart g) (fogEnd g).
Definition with_fogColor {F : Type} (value : vec3 F) (g : GlobalConfig F)
    : GlobalConfig F :=
  mkGlobalConfig (lightPos g) (lightColor g) (cameraPos g) (cameraFront g) (fov g)
    (nearPlane g) (farPlane g) (sensitivity g) (cameraSpeed g) (attConstant g)
    (attLinear g) (attQuadratic g) value (fogStart g) (fogEnd g).
Definition with_fogStart {F : Type} (value : F) (g : GlobalConfig F) : GlobalConfig F :=
  mkGlobalConfig (lightPos g) (lightColor g) (cameraPos g) (cameraFront g) (fov g)
    (nearPlane g) (farPlane g) (sensitivity g) (cameraSpeed g) (attConstant g)
    (attLinear g) (attQuadratic g) (fogColor g) value (fogEnd g).
Definition with_fogEnd {F : Type} (value : F) (g : GlobalConfig F) : GlobalConfig F :=
  mkGlobalConfig (lightPos g) (lightColor g) (cameraPos g) (cameraFront g) (fov g)
    (nearPlane g) (farPlane g) (sensitivity g) (cameraSpeed g) (attConstant g)
    (attLinear g) (attQuadratic g) (fogColor g) (fogStart g) value.

End Config.

(** [struct BSplineCurve], without the names of its two GL buffers: [VAO]
    holds [curvePoints] and [controlPointsVAO] holds [controlPoints]. *)
Module Curve.

Record BSplineCurve (F : Type) : Type := mkBSplineCurve {
  name : string;
  controlPoints : list (vec3 F);
  curvePoints : list (vec3 F);
  pointsPerSegment : Z;
  color : vec4 F
}.
Arguments mkBSplineCurve {F} _ _ _ _ _.
Arguments name {F} _.
Arguments controlPoints {F} _.
Arguments curvePoints {F} _.
Arguments pointsPerSegment {F} _.
Arguments color {F} _.

End Curve.

(** [struct Object3D] as [readSceneFile] fills it, without [material] and
    [textureID], which are only handed to OpenGL. *)
Module SceneObject.

Record Object3D (F : Type) : Type := mkObject3D {
  name : string;
  objFilePath : string;
  mtlFilePath : string;
  mesh : GeometryObjects.Mesh F;
  scale : vec3 F;
  position : vec3 F;
  rotation : vec3 F;
  angle : vec3 F;
  incrementalAngle : Z;
  animationPositions : list (vec3 F)
}.
Arguments mkObject3D {F} _ _ _ _ _ _ _ _ _ _.
Arguments name {F} _.
Arguments objFilePath {F} _.
Arguments mtlFilePath {F} _.
Arguments mesh {F} _.
Arguments scale {F} _.
Arguments position {F} _.
Arguments rotation {F} _.
Arguments angle {F} _.
Arguments incrementalAngle {F} _.
Arguments animationPositions {F} _.

End SceneObject.

(** [std::unordered_map<std::string, V>] as the list of its entries:
    [insert] adds nothing when the key is there already. *)
Definition contains_key {V : Type} (key : string) (m : list (string * V)) : bool :=
  existsb (fun entry => String.eqb (fst entry) key) m.

Definition map_insert {V : Type} (key : string) (value : V) (m : list (string * V))
    : list (string * V) :=
  if contains_key key m then m else m ++ [(key, value)].

Definition map_find {V : Type} (key : string) (m : list (string * V)) : option V :=
  match find (fun entry => String.eqb (fst entry) key) m with
  | Some entry => Some (snd entry)
  | None => None
  end.

(** [ss >> word] into a [std::string] that holds [old]: when the stream
    has no word left the extraction fails and the string keeps [old]. *)
Definition extract_string (s old : string) : string * string :=
  let '(word, rest) := extract_word s in
  (match word with
   | EmptyString => old
   | _ => word
   end, rest).

Module SceneReader.

(** The local variables of [readSceneFile]. *)
Record locals (F : Type) : Type := mklocals {
  objectType : string;
  name : string;
  objFilePath : string;
  mtlFilePath : string;
  animFile : string;
  scale : vec3 F;
  position : vec3 F;
  rotation : vec3 F;
  angle : vec3 F;
  incrementalAngle : Z;
  tempControlPoints : list (vec3 F);
  pointsPerSegment : Z;
  color : vec4 F
}.
Arguments mklocals {F} _ _ _ _ _ _ _ _ _ _ _ _ _.
Arguments objectType {F} _.
Arguments name {F} _.
Arguments objFilePath {F} _.
Arguments mtlFilePath {F} _.
Arguments animFile {F} _.
Arguments scale {F} _.
Arguments position {F} _.
Arguments rotation {F} _.
Arguments angle {F} _.
Arguments incrementalAngle {F} _.
Arguments tempControlPoints {F} _.
Arguments pointsPerSegment {F} _.
Arguments color {F} _.

Definition with_objectType {F : Type} (value : string) (loc : locals F) : locals F :=
  mklocals value (name loc) (objFilePath loc) (mtlFilePath loc) (animFile loc)
    (scale loc) (position loc) (rotation loc) (angle loc) (incrementalAngle loc)
    (tempControlPoints loc) (pointsPerSegment loc) (color loc).
Definition with_name {F : Type} (value : string) (loc : locals F) : locals F :=
  mklocals (objectType loc) value (objFilePath loc) (mtlFilePath loc) (animFile loc)
    (scale loc) (position loc) (rotation loc) (angle loc) (incrementalAngle loc)
    (tempControlPoints loc) (pointsPerSegment loc) (color loc).
Definition with_objFilePath {F : Type} (value : string) (loc : locals F) : locals F :=
  mklocals (objectType loc) (name loc) value (mtlFilePath loc) (animFile loc)
    (scale loc) (position loc) (rotation loc) (angle loc) (incrementalAngle loc)
    (tempControlPoints loc) (pointsPerSegment loc) (color loc).
Definition with_mtlFilePath {F : Type} (value : string) (loc : locals F) : locals F :=
  mklocals (objectType loc) (name loc) (objFilePath loc) value (animFile loc)
    (scale loc) (position loc) (rotation loc) (angle loc) (incrementalAngle loc)
    (tempControlPoints loc) (pointsPerSegment loc) (color loc).
Definition with_animFile {F : Type} (value : string) (loc : locals F) : locals F :=
  mklocals (objectType loc) (name loc) (objFilePath loc) (mtlFilePath loc) value
    (scale loc) (position loc) (rotation loc) (angle loc) (incrementalAngle loc)
    (tempControlPoints loc) (pointsPerSegment loc) (color loc).
Definition with_scale {F : Type} (value : vec3 F) (loc : locals F) : locals F :=
  mklocals (objectType loc) (name loc) (objFilePath loc) (mtlFilePath loc)
    (animFile loc) value (position loc) (rotation loc) (angle loc)
    (incrementalAngle loc) (tempControlPoints loc) (pointsPerSegment loc) (color loc).
Definition with_position {F : Type} (value : vec3 F) (loc : locals F) : locals F :=
  mklocals (objectType loc) (name loc) (objFilePath loc) (mtlFilePath loc)
    (animFile loc) (scale loc) value (rotation loc) (angle loc) (incrementalAngle loc)
    (tempControlPoints loc) (pointsPerSegment loc) (color loc).
Definition with_rotation {F : Type} (value : vec3 F) (loc : locals F) : locals F :=
  mklocals (objectType loc) (name loc) (objFilePath loc) (mtlFilePath loc)
    (animFile loc) (scale loc) (position loc) value (angle loc) (incrementalAngle loc)
    (tempControlPoints loc) (pointsPerSegment loc) (color loc).
Definition with_angle {F : Type} (value : vec3 F) (loc : locals F) : locals F :=
  mklocals (objectType loc) (name loc) (objFilePath loc) (mtlFilePath loc)
    (animFile loc) (scale loc) (position loc) (rotation loc) value
    (incrementalAngle loc) (tempControlPoints loc) (pointsPerSegment loc) (color loc).
Definition with_incrementalAngle {F : Type} (value : Z) (loc : locals F) : locals F :=
  mklocals (objectType loc) (name loc) (objFilePath loc) (mtlFilePath loc)
    (animFile loc) (scale loc) (position loc) (rotation loc) (angle loc) value
    (tempControlPoints loc) (pointsPerSegment loc) (color loc).
Definition with_tempControlPoints {F : Type} (value : list (vec3 F)) (loc : locals F)
    : locals F :=
  mklocals (objectType loc) (name loc) (objFilePath loc) (mtlFilePath loc)
    (animFile loc) (scale loc) (position loc) (rotation loc) (angle loc)
    (incrementalAngle loc) value (pointsPerSegment loc) (color loc).
Definition with_pointsPerSegment {F : Type} (value : Z) (loc : locals F) : locals F :=
  mklocals (objectType loc) (name loc) (objFilePath loc) (mtlFilePath loc)
    (animFile loc) (scale loc) (position loc) (rotation loc) (angle loc)
    (incrementalAngle loc) (tempControlPoints loc) value (color loc).
Definition with_color {F : Type} (value : vec4 F) (loc : locals F) : locals F :=
  mklocals (objectType loc) (name loc) (objFilePath loc) (mtlFilePath loc)
    (animFile loc) (scale loc) (position loc) (rotation loc) (angle loc)
    (incrementalAngle loc) (tempControlPoints loc) (pointsPerSegment loc) value.

(** The four containers [readSceneFile] fills. *)
Record scene (F : Type) : Type := mkscene {
  meshes : list (string * SceneObject.Object3D F);
  meshList : list string;
  bSplineCurves : list (string * Curve.BSplineCurve F);
  globalConfig : Config.GlobalConfig F
}.
Arguments mkscene {F} _ _ _ _.
Arguments meshes {F} _.
Arguments meshList {F} _.
Arguments bSplineCurves {F} _.
Arguments globalConfig {F} _.

Section Reader.
Context {F : Type} `{Scalar F}.
(** The text of the file of a given name, for a file that can be opened. *)
Variable disk : string -> option string.
(** What [ss >> p.x >> p.y >> p.z] leaves in a fresh [glm::vec3 p], and
    [ss >> uv.x >> uv.y] in a fresh [glm::vec2 uv], given what the stream
    holds. *)
Variable extract_vec3 : string -> vec3 F.
Variable extract_vec2 : string -> vec2 F.
(** What the extraction of one, three or four [float]s, or of a [GLuint],
    leaves in a variable, given what the stream holds and what the
    variable held before. *)
Variable extract_float_into : string -> F -> F.
Variable extract_vec3_into : string -> vec3 F -> vec3 F.
Variable extract_vec4_into : string -> vec4 F -> vec4 F.
Variable extract_uint_into : string -> Z -> Z.

(** The values of the local variables before the first line. *)
Definition start_locals : locals F :=
  mklocals EmptyString EmptyString EmptyString EmptyString EmptyString
           (mkvec3 f1 f1 f1) (mkvec3 f0 f0 f0) (mkvec3 f0 f0 f0) (mkvec3 f0 f0 f0)
           0 [] 0 (mkvec4 f1 f1 f1 f1).

(** The [mesh] of the object the constructor of [Object3D] builds: the
    default when the OBJ file cannot be opened. *)
Definition load_mesh (name objPath : string) : behaviour (GeometryObjects.Mesh F) :=
  match disk objPath with
  | Some text => ObjReader.Object3D_mesh extract_vec3 extract_vec2 name text
  | None => Normal (GeometryObjects.mkMesh [] [] [] [] [])
  end.

(** [Object3D obj(name, objFilePath, mtlFilePath, scale, position,
    rotation, angle, incrementalAngle)]. *)
Definition Object3D_of (loc : locals F) : behaviour (SceneObject.Object3D F) :=
  mesh <- load_mesh (name loc) (objFilePath loc) ;;
  Normal (SceneObject.mkObject3D (name loc) (objFilePath loc) (mtlFilePath loc) mesh
            (scale loc) (position loc) (rotation loc) (angle loc)
            (incrementalAngle loc) []).

(** [if (!animFile.empty())]: one position per line of the animation
    file, none when the file cannot be opened. *)
Definition read_animation (animFile : string) (obj : SceneObject.Object3D F)
    : SceneObject.Object3D F :=
  match animFile with
  | EmptyString => obj
  | _ =>
      match disk animFile with
      | Some text =>
          SceneObject.mkObject3D
            (SceneObject.name obj) (SceneObject.objFilePath obj)
            (SceneObject.mtlFilePath obj) (SceneObject.mesh obj)
            (SceneObject.scale obj) (SceneObject.position obj)
            (SceneObject.rotation obj) (SceneObject.angle obj)
            (SceneObject.incrementalAngle obj)
            (SceneObject.animationPositions obj ++ map extract_vec3 (lines text))
      | None => obj
      end
  end.

(** The field [curvePoints] of [createBSplineCurve(controlPoints,
    pointsPerSegment)]; the parameter is an [int]. *)
Definition createBSplineCurve (fuel : nat) (controlPoints : list (vec3 F))
    (pointsPerSegment : Z) : outcome (list (vec3 F)) :=
  generateBSplinePoints fuel controlPoints pointsPerSegment.

(** How the body of the loop ends: with the variables and containers
    updated, by an exception or an undefined read of the constructor of
    [Object3D], or not at all. *)
Definition result : Type := outcome (behaviour (locals F * scene F)).

(** The branch for a line ["End"]. *)
Definition end_block (fuel : nat) (loc : locals F) (sc : scene F) : result :=
  if String.eqb (objectType loc) "GlobalConfig" then Returned (Normal (loc, sc))
  else if String.eqb (objectType loc) "Mesh" then
    match Object3D_of loc with
    | Normal obj =>
        let obj := read_animation (animFile loc) obj in
        Returned (Normal (loc, mkscene (map_insert (name loc) obj (meshes sc))
                                       (meshList sc ++ [name loc])
                                       (bSplineCurves sc) (globalConfig sc)))
    | Exception what => Returned (Exception what)
    | Undefined => Returned Undefined
    end
  else if String.eqb (objectType loc) "BSplineCurve" then
    bind (createBSplineCurve fuel (tempControlPoints loc) (to_int (pointsPerSegment loc)))
         (fun curvePoints =>
            let bc := Curve.mkBSplineCurve (name loc) (tempControlPoints loc) curvePoints
                                           (pointsPerSegment loc) (color loc) in
            Returned (Normal (with_tempControlPoints [] loc,
                              mkscene (meshes sc) (meshList sc)
                                      (map_insert (name loc) bc (bSplineCurves sc))
                                      (globalConfig sc))))
  else Returned (Normal (loc, sc)).

(** The body of [while (getline(file, line))]. *)
Definition read_line (fuel : nat) (acc : result) (line : string) : result :=
  match acc with
  | Returned (Normal (loc, sc)) =>
      let '(type, rest) := extract_word line in
      let g := globalConfig sc in
      let config (g' : Config.GlobalConfig F) : result :=
        Returned (Normal (loc, mkscene (meshes sc) (meshList sc) (bSplineCurves sc) g')) in
      let local (loc' : locals F) : result := Returned (Normal (loc', sc)) in
      if String.eqb type "Type" then
        let '(objectType', rest') := extract_string rest (objectType loc) in
        let '(name', _) := extract_string rest' (name loc) in
        local (with_name name' (with_objectType objectType' loc))
      else if String.eqb type "LightPos" then
        config (Config.with_lightPos (extract_vec3_into rest (Config.lightPos g)) g)
      else if String.eqb type "LightColor" then
        config (Config.with_lightColor (extract_vec3_into rest (Config.lightColor g)) g)
      else if String.eqb type "CameraPos" then
        config (Config.with_cameraPos (extract_vec3_into rest (Config.cameraPos g)) g)
      else if String.eqb type "CameraFront" then
        config (Config.with_cameraFront (extract_vec3_into rest (Config.cameraFront g)) g)
      else if String.eqb type "Fov" then
        config (Config.with_fov (extract_float_into rest (Config.fov g)) g)
      else if String.eqb type "NearPlane" then
        config (Config.with_nearPlane (extract_float_into rest (Config.nearPlane g)) g)
      else if String.eqb type "FarPlane" then
        config (Config.with_farPlane (extract_float_into rest (Config.farPlane g)) g)
      else if String.eqb type "Sensitivity" then
        config (Config.with_sensitivity (extract_float_into rest (Config.sensitivity g)) g)
      else if String.eqb type "CameraSpeed" then
        config (Config.with_cameraSpeed (extract_float_into rest (Config.cameraSpeed g)) g)
      else if String.eqb type "AttConstant" then
        config (Config.with_attConstant (extract_float_into rest (Config.attConstant g)) g)
      else if String.eqb type "AttLinear" then
        config (Config.with_attLinear (extract_float_into rest (Config.attLinear g)) g)
      else if String.eqb type "AttQuadratic" then
        config (Config.with_attQuadratic (extract_float_into rest (Config.attQuadratic g)) g)
      else if String.eqb type "FogColor" then
        config (Config.with_fogColor (extract_vec3_into rest (Config.fogColor g)) g)
      else if String.eqb type "FogStart" then
        config (Config.with_fogStart (extract_float_into rest (Config.fogStart g)) g)
      else if String.eqb type "FogEnd" then
        config (Config.with_fogEnd (extract_float_into rest (Config.fogEnd g)) g)
      else if String.eqb type "Obj" then
        local (with_objFilePath (fst (extract_string rest (objFilePath loc))) loc)
      else if String.eqb type "Mtl" then
        local (with_mtlFilePath (fst (extract_string rest (mtlFilePath loc))) loc)
      else if String.eqb type "Scale" then
        local (with_scale (extract_vec3_into rest (scale loc)) loc)
      else if String.eqb type "Position" then
        local (with_position (extract_vec3_into rest (position loc)) loc)
      else if String.eqb type "Rotation" then
        local (with_rotation (extract_vec3_into rest (rotation loc)) loc)
      else if String.eqb type "Angle" then
        local (with_angle (extract_vec3_into rest (angle loc)) loc)
      else if String.eqb type "IncrementalAngle" then
        local (with_incrementalAngle (extract_uint_into rest (incrementalAngle loc)) loc)
      else if String.eqb type "AnimationFile" then
        local (with_animFile (fst (extract_string rest (animFile loc))) loc)
      else if String.eqb type "ControlPoint" then
        local (with_tempControlPoints (tempControlPoints loc ++ [extract_vec3 rest]) loc)
      else if String.eqb type "PointsPerSegment" then
        local (with_pointsPerSegment (extract_uint_into rest (pointsPerSegment loc)) loc)
      else if String.eqb type "Color" then
        local (with_color (extract_vec4_into rest (color loc)) loc)
      else if String.eqb type "End" then end_block fuel loc sc
      else acc
  | _ => acc
  end.

(** [readSceneFile(sceneFilePath, &meshes, &meshList, &bSplineCurves,
    &globalConfig)]: the containers when it returns.  A scene file that
    cannot be opened leaves them as they are. *)
Definition readSceneFile (fuel : nat) (sceneFilePath : string) (sc : scene F)
    : outcome (behaviour (scene F)) :=
  match disk sceneFilePath with
  | None => Returned (Normal sc)
  | Some text =>
      match fold_left (read_line fuel) (lines text)
                      (Returned (Normal (start_locals, sc))) with
      | Returned (Normal (_, sc')) => Returned (Normal sc')
      | Returned (Exception what) => Returned (Exception what)
      | Returned Undefined => Returned Undefined
      | Thrown what => Thrown what
      | OutOfFuel => OutOfFuel
      end
  end.

End Reader.

End SceneReader.

(** ** The scene built when the space bar is pressed *)

(** The three files [key_callback] writes. *)
Record SceneFiles : Type := mkSceneFiles {
  track_obj : string;
  animation_txt : string;
  scene_txt : string
}.

Section BuildScene.
Context {F : Type} `{Scalar F} `{Trig F} `{ScalarEq F}.
Variable show_float : F -> string.
(** The files on disk and the extraction of numbers, as for
    [readSceneFile]. *)
Variable disk : string -> option string.
Variable extract_vec3 : string -> vec3 F.
Variable extract_vec2 : string -> vec2 F.
Variable extract_float_into : string -> F -> F.
Variable extract_vec3_into : string -> vec3 F -> vec3 F.
Variable extract_vec4_into : string -> vec4 F -> vec4 F.
Variable extract_uint_into : string -> Z -> Z.

(** The statements of [key_callback] from [ctrlPoints3D] to
    [generateSceneFile], for files that can be created: the curve of 50
    points per segment, the track of width [trackWidth] around it, its
    vertices with Y and Z exchanged, the mesh "track" written to [track.obj],
    the curve to [animation.txt], the scene to [Scene.txt].  [None] is a
    read out of range. *)
Definition build_scene (fuel : nat) (ed : Editor F) (trackWidth : F)
    : outcome (option SceneFiles) :=
  match ctrlPoints3D (editorControlPoints ed) (editorPointYellowLevels ed) with
  | None => Returned None
  | Some ctrl =>
      bind (generateBSplinePoints fuel ctrl 50) (fun curvePoints =>
        let '(vertices, indices) := generateTrackMesh curvePoints trackWidth [] [] in
        let trackVerts := map swap_yz vertices in
        match GeometryObjects.Mesh_of_interleaved trackVerts indices "track" "" with
        | None => Returned None
        | Some trackMesh =>
            match GeometryObjects.OBJWriter_write show_float trackMesh,
                  exportAnimationPoints show_float true curvePoints with
            | Some obj, Some anim =>
                Returned (Some (mkSceneFiles obj anim
                  (generateSceneFile show_float "track.obj" "car.obj" "animation.txt"
                     (editorControlPoints ed) (editorPointYellowLevels ed))))
            | _, _ => Returned None
            end
        end)
  end.

(** The disk once the three files are written. *)
Definition written (files : SceneFiles) (path : string) : option string :=
  if String.eqb path "track.obj" then Some (track_obj files)
  else if String.eqb path "animation.txt" then Some (animation_txt files)
  else if String.eqb path "Scene.txt" then Some (scene_txt files)
  else disk path.

(** The last block of [key_callback]: the space bar in the editor, with at
    least one control point, builds the scene, reads it back with
    [readSceneFile] into the containers [sc] and, when that returns, leaves
    the editor. *)
Definition press_space (fuel : nat) (ed : Editor F) (trackWidth : F)
    (sc : SceneReader.scene F)
    : outcome (behaviour (Editor F * SceneReader.scene F * option SceneFiles)) :=
  if editorMode ed && negb (length (editorControlPoints ed) =? 0)%nat then
    bind (build_scene fuel ed trackWidth) (fun files =>
      match files with
      | Some files =>
          bind (SceneReader.readSceneFile (written files) extract_vec3 extract_vec2
                  extract_float_into extract_vec3_into extract_vec4_into
                  extract_uint_into fuel "Scene.txt" sc)
               (fun read =>
                  match read with
                  | Normal sc' =>
                      Returned (Normal (mkEditor false (editorControlPoints ed)
                                                 (editorPointYellowLevels ed)
                                                 (currentYellowLevel ed),
                                        sc', Some files))
                  | Exception what => Returned (Exception what)
                  | Undefined => Returned Undefined
                  end)
      | None => Returned Undefined
      end)
  else Returned (Normal (ed, sc, None)).

(** The editor's part of [key_callback]: the height keys first, then the
    space bar.  (The callback also sets the flags of the keys W, A, S, D and
    closes the window on Escape; these touch no variable of the editor.) *)
Definition key_callback (fuel : nat) (ed : Editor F) (key : Key) (action : Action)
    (trackWidth : F) (sc : SceneReader.scene F)
    : outcome (behaviour (Editor F * SceneReader.scene F * option SceneFiles)) :=
  let ed := adjust_height ed key action in
  if is_space key && is_press action then press_space fuel ed trackWidth sc
  else Returned (Normal (ed, sc, None)).

(** The curve the space bar computes from the control points of the
    editor, and the vertices of the track around it as they are written to
    [track.obj] (empty when the computation does not get that far). *)
Definition editor_curve (fuel : nat) (ed : Editor F) : list (vec3 F) :=
  match ctrlPoints3D (editorControlPoints ed) (editorPointYellowLevels ed) with
  | Some ctrl =>
      match generateBSplinePoints fuel ctrl 50 with
      | Returned curvePoints => curvePoints
      | _ => []
      end
  | None => []
  end.

Definition editor_track (fuel : nat) (ed : Editor F) (trackWidth : F)
    : list (Vertex F) :=
  map swap_yz (fst (generateTrackMesh (editor_curve fuel ed) trackWidth [] [])).

End BuildScene.

(** No coordinate of the vertex is a NaN. *)
Definition vertex_is_number (w : Vertex Binary32.f32) : bool :=
  is_number (vtx_x w) && is_number (vtx_y w) && is_number (vtx_z w)
  && is_number (vtx_s w) && is_number (vtx_t w)
  && is_number (vtx_nx w) && is_number (vtx_ny w) && is_number (vtx_nz w).


(** What the stream holds after the word [ControlPoint] of the line
    [generateSceneFile] writes for a control point. *)
Definition control_point_fields {F : Type} (show_float : F -> string) (c : vec3 F)
    : string :=
  (" " ++ show_float (vx c) ++ " " ++ show_float (vy c) ++ " " ++ show_float (vz c))%string.

(** ** A sample scene on disk *)

(** Stand-ins for the extraction of numbers into a variable, for files
    whose numbers are integers: the first words of the stream read with
    [stoi]. *)
Definition sample_extract_float_into (rest : string) (old : Binary32.f32) : Binary32.f32 :=
  int_of_word (nth_error (words rest) 0).

Definition sample_extract_vec3_into (rest : string) (old : vec3 Binary32.f32)
    : vec3 Binary32.f32 :=
  sample_extract_vec3 rest.

Definition sample_extract_vec4_into (rest : string) (old : vec4 Binary32.f32)
    : vec4 Binary32.f32 :=
  let ws := words rest in
  mkvec4 (int_of_word (nth_error ws 0)) (int_of_word (nth_error ws 1))
         (int_of_word (nth_error ws 2)) (int_of_word (nth_error ws 3)).

Definition sample_extract_uint_into (rest : string) (old : Z) : Z :=
  match nth_error (words rest) 0 with
  | Some w => match stoi w with
              | Normal z => z
              | _ => 0%Z
              end
  | None => old
  end.

(** The files after the space bar: the scene of four control points, a
    track of one triangle, two animation points, and no [car.obj]. *)
Definition sample_disk (path : string) : option string :=
  if String.eqb path "Scene.txt" then
    Some (generateSceneFile show_f32 "track.obj" "car.obj" "animation.txt"
            (editorControlPoints sample_editor) (editorPointYellowLevels sample_editor))
  else if String.eqb path "track.obj" then
    GeometryObjects.OBJWriter_write show_f32 sample_mesh
  else if String.eqb path "animation.txt" then
    Some (unlines ["0 1 0"; "4 2 0"]%string)
  else None.

Definition sample_config : Config.GlobalConfig Binary32.f32 :=
  Config.mkGlobalConfig (point32 10 10 10) (point32 1 1 1) (point32 0 5 10)
                        (point32 0 0 (-1)) (Binary32.of_int 45) (Binary32.of_int 1)
                        (Binary32.of_int 100) (Binary32.of_int 1) (Binary32.of_int 1)
                        (Binary32.of_int 1) (Binary32.of_int 0) (Binary32.of_int 0)
                        (point32 0 0 0) (Binary32.of_int 5) (Binary32.of_int 50).

(** * Binary32 arithmetic: representations, rounding and magnitudes

    Facts on Stdlib's [SpecFloat] operations at precision 24 that the
    statements on the binary32 program rest on: the result of a rounded
    operation is again a value of the format, a product by [1.0f] is exact,
    and operations on values of bounded magnitude do not overflow. *)

Module Float32.
Import Binary32.

(** ** Binary digits *)

Lemma fexp_eq (z : Z) : fexp prec emax z = Z.max (z - 24) (-149).
Proof. reflexivity. Qed.

(** [2 ^ (d - 1) <= p < 2 ^ d] for the number [d] of binary digits of [p]. *)
Lemma digits2_pos_spec (p : positive) :
  (2 ^ (Z.pos (digits2_pos p) - 1) <= Z.pos p < 2 ^ Z.pos (digits2_pos p))%Z.
Proof.
  induction p as [p IH|p IH|]; cbn [digits2_pos].
  - rewrite Pos2Z.inj_succ.
    replace (Z.succ (Z.pos (digits2_pos p)) - 1)%Z with (Z.succ (Z.pos (digits2_pos p) - 1))
      by lia.
    rewrite !Z.pow_succ_r by lia. lia.
  - rewrite Pos2Z.inj_succ.
    replace (Z.succ (Z.pos (digits2_pos p)) - 1)%Z with (Z.succ (Z.pos (digits2_pos p) - 1))
      by lia.
    rewrite !Z.pow_succ_r by lia. lia.
  - cbn. lia.
Qed.

Lemma digits2_pos_le (p : positive) (k : Z) :
  (Z.pos p < 2 ^ k)%Z -> (Z.pos (digits2_pos p) <= k)%Z.
Proof.
  intros Hp. destruct (Z.le_gt_cases (Z.pos (digits2_pos p)) k) as [|Hgt]; [assumption|].
  pose proof (digits2_pos_spec p) as [Hlow _].
  assert (Hk : (0 <= k)%Z).
  { destruct (Z.le_gt_cases 0 k); [assumption|]. rewrite Z.pow_neg_r in Hp by lia. lia. }
  assert (2 ^ k <= 2 ^ (Z.pos (digits2_pos p) - 1))%Z by (apply Z.pow_le_mono_r; lia).
  lia.
Qed.

Lemma digits2_pos_ge (p : positive) (k : Z) :
  (2 ^ (k - 1) <= Z.pos p)%Z -> (k <= Z.pos (digits2_pos p))%Z.
Proof.
  intros Hp. destruct (Z.le_gt_cases k (Z.pos (digits2_pos p))) as [|Hgt]; [assumption|].
  pose proof (digits2_pos_spec p) as [_ Hup].
  assert (2 ^ Z.pos (digits2_pos p) <= 2 ^ (k - 1))%Z by (apply Z.pow_le_mono_r; lia).
  lia.
Qed.

Lemma Zdigits2_nonneg (m : Z) : (0 <= Zdigits2 m)%Z.
Proof. destruct m; cbn; lia. Qed.

Lemma Zdigits2_le (a b : Z) : (0 <= a <= b)%Z -> (Zdigits2 a <= Zdigits2 b)%Z.
Proof.
  intros [Ha Hab]. destruct a as [|p|p]; [apply Zdigits2_nonneg| |lia].
  destruct b as [|q|q]; try lia. cbn [Zdigits2].
  apply digits2_pos_ge. pose proof (digits2_pos_spec p). lia.
Qed.

Lemma Zdigits2_succ (a : Z) : (0 <= a)%Z -> (Zdigits2 (a + 1) <= Zdigits2 a + 1)%Z.
Proof.
  intros Ha. destruct a as [|p|p]; [cbn; lia| |lia].
  change (Z.pos p + 1)%Z with (Z.pos (p + 1)). cbn [Zdigits2].
  apply digits2_pos_le. pose proof (digits2_pos_spec p) as [_ Hup].
  rewrite Z.pow_add_r by lia. lia.
Qed.

(** A number of absolute value below [2 ^ k] has at most [k] digits. *)
Lemma Zdigits2_below (z k : Z) :
  (0 <= k)%Z -> (Z.abs z < 2 ^ k)%Z -> (Zdigits2 z <= k)%Z.
Proof.
  intros Hk Hz. destruct z as [|p|p]; cbn [Zdigits2]; [lia| |];
    apply digits2_pos_le; lia.
Qed.

(** The digits of a product. *)
Lemma digits2_pos_mul (p q : positive) :
  (Z.pos (digits2_pos p) + Z.pos (digits2_pos q) - 1 <= Z.pos (digits2_pos (p * q))
   <= Z.pos (digits2_pos p) + Z.pos (digits2_pos q))%Z.
Proof.
  pose proof (digits2_pos_spec p) as [Hpl Hpu].
  pose proof (digits2_pos_spec q) as [Hql Hqu].
  set (dp := Z.pos (digits2_pos p)) in *. set (dq := Z.pos (digits2_pos q)) in *.
  assert (Hdp : (1 <= dp)%Z) by (unfold dp; lia).
  assert (Hdq : (1 <= dq)%Z) by (unfold dq; lia).
  split.
  - apply digits2_pos_ge. rewrite Pos2Z.inj_mul.
    replace (dp + dq - 1 - 1)%Z with ((dp - 1) + (dq - 1))%Z by lia.
    rewrite Z.pow_add_r by lia.
    apply Z.mul_le_mono_nonneg; try assumption; apply Z.pow_nonneg; lia.
  - apply digits2_pos_le. rewrite Pos2Z.inj_mul, Z.pow_add_r by lia.
    apply Z.mul_lt_mono_nonneg; lia.
Qed.

(** The digits of a mantissa shifted to the left. *)
Lemma digits2_pos_iter_xO (p k : positive) :
  Z.pos (digits2_pos (Pos.iter xO p k)) = (Z.pos (digits2_pos p) + Z.pos k)%Z.
Proof.
  induction k as [|k IH] using Pos.peano_ind.
  - cbn [Pos.iter digits2_pos]. lia.
  - rewrite Pos.iter_succ. cbn [digits2_pos]. lia.
Qed.

(** [shl_align] keeps the magnitude and lowers the exponent to the target
    when that is below. *)
Lemma shl_align_spec (m : positive) (e t : Z) :
  (Z.pos (digits2_pos (fst (shl_align m e t))) + snd (shl_align m e t)
   = Z.pos (digits2_pos m) + e)%Z
  /\ snd (shl_align m e t) = Z.min e t.
Proof.
  unfold shl_align. destruct (t - e)%Z as [|d|d] eqn:Hd; cbn [fst snd].
  - lia.
  - lia.
  - rewrite digits2_pos_iter_xO. lia.
Qed.

(** ** Shifts to the right *)

Lemma shr_1_digits (r : shr_record) :
  (0 <= shr_m r)%Z ->
  (0 <= shr_m (shr_1 r))%Z
  /\ Zdigits2 (shr_m (shr_1 r)) = Z.max 0 (Zdigits2 (shr_m r) - 1).
Proof.
  destruct r as [[|[p|p|]|p] rb sb]; cbn [shr_1 shr_m Zdigits2 digits2_pos]; lia.
Qed.

Lemma iter_shr_1_digits (p : positive) (r : shr_record) :
  (0 <= shr_m r)%Z ->
  (0 <= shr_m (iter_pos shr_1 p r))%Z
  /\ Zdigits2 (shr_m (iter_pos shr_1 p r)) = Z.max 0 (Zdigits2 (shr_m r) - Z.pos p).
Proof.
  revert r. induction p as [p IH|p IH|]; intros r Hr; cbn [iter_pos].
  - destruct (shr_1_digits r Hr) as [H1 D1].
    destruct (IH _ H1) as [H2 D2]. destruct (IH _ H2) as [H3 D3].
    split; [assumption|]. rewrite D3, D2, D1. lia.
  - destruct (IH _ Hr) as [H2 D2]. destruct (IH _ H2) as [H3 D3].
    split; [assumption|]. rewrite D3, D2. lia.
  - destruct (shr_1_digits r Hr) as [H1 D1]. split; [assumption|]. rewrite D1. lia.
Qed.

Lemma shr_digits (r : shr_record) (e n : Z) :
  (0 <= shr_m r)%Z ->
  (0 <= shr_m (fst (shr r e n)))%Z
  /\ Zdigits2 (shr_m (fst (shr r e n))) = Z.max 0 (Zdigits2 (shr_m r) - Z.max 0 n)
  /\ snd (shr r e n) = (e + Z.max 0 n)%Z.
Proof.
  intros Hr. pose proof (Zdigits2_nonneg (shr_m r)) as Hd.
  destruct n as [|p|p]; cbn [shr fst snd].
  - repeat split; lia.
  - destruct (iter_shr_1_digits p r Hr) as [H1 D1]. repeat split; try assumption; lia.
  - repeat split; lia.
Qed.

Lemma shr_record_of_loc_m (m : Z) (l : location) : shr_m (shr_record_of_loc m l) = m.
Proof. destruct l as [|[| |]]; reflexivity. Qed.

(** A mantissa that is at least as long as the format asks for comes out
    of [shr_fexp] with the exponent of the format, and of the same
    magnitude unless it was shifted out. *)
Lemma shr_fexp_canonical (m e : Z) (l : location) :
  (0 <= m)%Z -> (e <= fexp prec emax (Zdigits2 m + e))%Z ->
  let m' := shr_m (fst (shr_fexp prec emax m e l)) in
  let e' := snd (shr_fexp prec emax m e l) in
  (0 <= m')%Z
  /\ fexp prec emax (Zdigits2 m' + e') = e'
  /\ (Zdigits2 m' + e' <= Z.max (Zdigits2 m + e) (-149))%Z.
Proof.
  intros Hm He. cbv zeta. unfold shr_fexp.
  pose proof (shr_digits (shr_record_of_loc m l) e
                (fexp prec emax (Zdigits2 m + e) - e)) as Hs.
  rewrite shr_record_of_loc_m in Hs. destruct (Hs Hm) as (H1 & D1 & E1).
  pose proof (Zdigits2_nonneg m) as Hd.
  rewrite fexp_eq in *. rewrite D1, E1.
  repeat split; [assumption|rewrite fexp_eq|]; lia.
Qed.

Lemma round_nearest_even_bounds (m : Z) (l : location) :
  (m <= round_nearest_even m l <= m + 1)%Z.
Proof.
  destruct l as [|[| |]]; cbn [round_nearest_even]; try lia.
  destruct (Z.even m); lia.
Qed.

(** ** The result of a rounding is a value of the format *)

Lemma binary_round_aux_canonical (s : bool) (m e : Z) :
  (0 <= m)%Z -> (e <= fexp prec emax (Zdigits2 m + e))%Z ->
  is_binary32 (binary_round_aux prec emax s m e loc_Exact) = true
  /\ forall B, (Zdigits2 m + e <= B)%Z -> (-149 <= B)%Z -> (B + 1 <= 128)%Z ->
       magnitude_below (B + 1) (binary_round_aux prec emax s m e loc_Exact) = true.
Proof.
  intros Hm He. unfold binary_round_aux.
  pose proof (shr_fexp_canonical m e loc_Exact Hm He) as H1. cbv zeta in H1.
  destruct (shr_fexp prec emax m e loc_Exact) as [r1 e1]. cbn [fst snd] in H1.
  destruct H1 as (Hm1 & C1 & M1).
  pose proof (round_nearest_even_bounds (shr_m r1) (loc_of_shr_record r1)) as Hr.
  set (m2 := round_nearest_even (shr_m r1) (loc_of_shr_record r1)) in *.
  assert (Hm2 : (0 <= m2)%Z) by lia.
  assert (D2 : (Zdigits2 (shr_m r1) <= Zdigits2 m2 <= Zdigits2 (shr_m r1) + 1)%Z).
  { split; [apply Zdigits2_le; lia|].
    transitivity (Zdigits2 (shr_m r1 + 1)); [apply Zdigits2_le; lia|].
    now apply Zdigits2_succ. }
  assert (He2 : (e1 <= fexp prec emax (Zdigits2 m2 + e1))%Z).
  { rewrite fexp_eq in *. lia. }
  pose proof (shr_fexp_canonical m2 e1 loc_Exact Hm2 He2) as H2. cbv zeta in H2.
  destruct (shr_fexp prec emax m2 e1 loc_Exact) as [r2 e2]. cbn [fst snd] in H2.
  destruct H2 as (Hm3 & C3 & M3).
  destruct (shr_m r2) as [|p|p] eqn:Ep; [split; [reflexivity|intros; reflexivity]| |lia].
  cbn [Zdigits2] in C3, M3.
  change (emax - prec)%Z with 104%Z.
  destruct (Z.leb_spec e2 104) as [Hle|Hgt].
  - split.
    + unfold is_binary32. cbn [valid_binary]. unfold bounded, canonical_mantissa.
      rewrite C3, Z.eqb_refl. cbn [andb]. change (emax - prec)%Z with 104%Z.
      now apply Z.leb_le.
    + intros B HB HB0 HB1. cbn [magnitude_below]. apply Z.leb_le. lia.
  - split; [reflexivity|].
    intros B HB HB0 HB1. rewrite fexp_eq in C3. lia.
Qed.

Lemma binary_round_canonical (s : bool) (m : positive) (e : Z) :
  is_binary32 (binary_round prec emax s m e) = true
  /\ forall B, (Z.pos (digits2_pos m) + e <= B)%Z -> (-149 <= B)%Z -> (B + 1 <= 128)%Z ->
       magnitude_below (B + 1) (binary_round prec emax s m e) = true.
Proof.
  unfold binary_round.
  pose proof (shl_align_spec m e (fexp prec emax (Z.pos (digits2_pos m) + e))) as [Hd He].
  destruct (shl_align m e (fexp prec emax (Z.pos (digits2_pos m) + e))) as [mz ez].
  cbn [fst snd] in Hd, He.
  assert (Hpre : (ez <= fexp prec emax (Zdigits2 (Z.pos mz) + ez))%Z).
  { cbn [Zdigits2]. rewrite Hd. lia. }
  destruct (binary_round_aux_canonical s (Z.pos mz) ez ltac:(lia) Hpre) as [Hv Hb].
  split; [assumption|]. intros B HB HB0 HB1. apply Hb; try assumption.
  cbn [Zdigits2]. lia.
Qed.

Lemma binary_normalize_canonical (m e : Z) (szero : bool) :
  is_binary32 (binary_normalize prec emax m e szero) = true
  /\ forall B, (Zdigits2 m + e <= B)%Z -> (-149 <= B)%Z -> (B + 1 <= 128)%Z ->
       magnitude_below (B + 1) (binary_normalize prec emax m e szero) = true.
Proof.
  destruct m as [|p|p]; cbn [binary_normalize Zdigits2].
  - split; [reflexivity|intros; reflexivity].
  - apply binary_round_canonical.
  - apply binary_round_canonical.
Qed.

(** Every integer literal and conversion is a value of the format. *)
Lemma of_int_binary32 (z : Z) : is_binary32 (of_int z) = true.
Proof. apply binary_normalize_canonical. Qed.

(** ** Products *)

Lemma magnitude_below_le (B B' : Z) (x : f32) :
  (B <= B')%Z -> magnitude_below B x = true -> magnitude_below B' x = true.
Proof.
  intros HB. destruct x as [s|s| |s m e]; cbn [magnitude_below]; try congruence.
  intros Hx. apply Z.leb_le in Hx. apply Z.leb_le. lia.
Qed.

Lemma magnitude_below_finite (B : Z) (x : f32) :
  magnitude_below B x = true -> is_finite x = true.
Proof. destruct x; cbn; congruence. Qed.

Lemma finite_canonical (s : bool) (m : positive) (e : Z) :
  is_binary32 (S754_finite s m e) = true ->
  fexp prec emax (Z.pos (digits2_pos m) + e) = e /\ (e <= 104)%Z.
Proof.
  unfold is_binary32. cbn [valid_binary]. unfold bounded, canonical_mantissa.
  intros Hv. apply andb_prop in Hv. destruct Hv as [Hc He].
  apply Z.eqb_eq in Hc. apply Z.leb_le in He. change (emax - prec)%Z with 104%Z in He.
  split; assumption.
Qed.

(** Every finite value of the format is below [2 ^ 128]. *)
Lemma finite_below_128 (x : f32) :
  is_binary32 x = true -> is_finite x = true -> magnitude_below 128 x = true.
Proof.
  destruct x as [s|s| |s m e]; try discriminate; try reflexivity.
  intros Hv _. apply finite_canonical in Hv. destruct Hv as [Hc He].
  cbn [magnitude_below]. apply Z.leb_le. rewrite fexp_eq in Hc. lia.
Qed.

Lemma mul_finite_canonical (sx sy : bool) (mx my : positive) (ex ey : Z) :
  is_binary32 (S754_finite sx mx ex) = true ->
  is_binary32 (S754_finite sy my ey) = true ->
  (0 <= Z.pos (mx * my))%Z
  /\ (ex + ey <= fexp prec emax (Zdigits2 (Z.pos (mx * my)) + (ex + ey)))%Z.
Proof.
  intros Hx Hy. split; [lia|].
  apply finite_canonical in Hx, Hy. destruct Hx as [Cx _], Hy as [Cy _].
  pose proof (digits2_pos_mul mx my) as [Hlow _].
  cbn [Zdigits2]. rewrite fexp_eq in *. lia.
Qed.

(** A product of two values of the format is a value of the format. *)
Lemma mul_binary32 (x y : f32) :
  is_binary32 x = true -> is_binary32 y = true -> is_binary32 (mul x y) = true.
Proof.
  intros Hx Hy.
  destruct x as [sx|sx| |sx mx ex], y as [sy|sy| |sy my ey]; try reflexivity.
  unfold mul. cbn [SFmul].
  destruct (mul_finite_canonical sx sy mx my ex ey Hx Hy) as [H0 Hpre].
  apply (binary_round_aux_canonical _ _ _ H0 Hpre).
Qed.

(** No overflow: the product of values below [2 ^ Bx] and [2 ^ By] is
    below [2 ^ (Bx + By + 1)]. *)
Lemma mul_below (Bx By : Z) (x y : f32) :
  is_binary32 x = true -> is_binary32 y = true ->
  magnitude_below Bx x = true -> magnitude_below By y = true ->
  (-149 <= Bx + By)%Z -> (Bx + By + 1 <= 128)%Z ->
  magnitude_below (Bx + By + 1) (mul x y) = true.
Proof.
  intros Hx Hy Mx My HB0 HB1.
  destruct x as [sx|sx| |sx mx ex], y as [sy|sy| |sy my ey]; try discriminate;
    try reflexivity.
  unfold mul. cbn [SFmul].
  destruct (mul_finite_canonical sx sy mx my ex ey Hx Hy) as [H0 Hpre].
  apply (binary_round_aux_canonical _ _ _ H0 Hpre); try assumption.
  cbn [magnitude_below] in Mx, My. apply Z.leb_le in Mx, My.
  pose proof (digits2_pos_mul mx my) as [_ Hup]. cbn [Zdigits2]. lia.
Qed.

(** A finite value times a zero is a zero. *)
Lemma mul_zero_r (x : f32) (s : bool) :
  is_finite x = true -> is_zero (mul x (S754_zero s)) = true.
Proof. destruct x; cbn; congruence. Qed.

Lemma mul_zero_l (x : f32) (s : bool) :
  is_finite x = true -> is_zero (mul (S754_zero s) x) = true.
Proof. destruct x; cbn; congruence. Qed.

(** ** The product by [1.0f] is exact *)

Lemma one_eq : of_int 1 = S754_finite false 8388608 (-23).
Proof. reflexivity. Qed.

Lemma mul_one_finite (s : bool) (m : positive) (e : Z) :
  is_binary32 (S754_finite s m e) = true ->
  binary_round_aux prec emax s (Z.pos (8388608 * m)) (e + -23) loc_Exact
  = S754_finite s m e.
Proof.
  intros Hv. apply finite_canonical in Hv. destruct Hv as [Hc He].
  unfold binary_round_aux.
  assert (H1 : shr_fexp prec emax (Z.pos (8388608 * m)) (e + -23) loc_Exact
               = ({| shr_m := Z.pos m; shr_r := false; shr_s := false |}, e)).
  { unfold shr_fexp.
    replace (fexp prec emax (Zdigits2 (Z.pos (8388608 * m)) + (e + -23)) - (e + -23))%Z
      with 23%Z.
    - cbn [shr_record_of_loc shr]. apply f_equal2; [reflexivity|lia].
    - cbn [Pos.mul Zdigits2 digits2_pos]. rewrite !Pos2Z.inj_succ.
      rewrite fexp_eq in *. lia. }
  rewrite H1. cbn [shr_m loc_of_shr_record round_nearest_even].
  assert (H2 : shr_fexp prec emax (Z.pos m) e loc_Exact
               = ({| shr_m := Z.pos m; shr_r := false; shr_s := false |}, e)).
  { unfold shr_fexp. cbn [Zdigits2]. rewrite Hc, Z.sub_diag. reflexivity. }
  rewrite H2. cbn [shr_m]. change (emax - prec)%Z with 104%Z.
  destruct (Z.leb_spec e 104); [reflexivity|lia].
Qed.

Lemma mul_one_l (x : f32) : is_binary32 x = true -> mul (of_int 1) x = x.
Proof.
  intros Hx. rewrite one_eq. destruct x as [s|s| |s m e]; try reflexivity.
  unfold mul. cbn [SFmul xorb]. rewrite (Z.add_comm (-23) e).
  now apply mul_one_finite.
Qed.

Lemma mul_one_r (x : f32) : is_binary32 x = true -> mul x (of_int 1) = x.
Proof.
  intros Hx. rewrite one_eq. destruct x as [s|s| |s m e]; try reflexivity;
    try (destruct s; reflexivity).
  unfold mul. cbn [SFmul]. rewrite xorb_false_r, (Pos.mul_comm m).
  now apply mul_one_finite.
Qed.

(** ** Sums *)

Lemma binary_normalize_sum (x y ez B : Z) (szero : bool) :
  (Zdigits2 x + ez <= B)%Z -> (Zdigits2 y + ez <= B)%Z ->
  (-150 <= B)%Z -> (B + 2 <= 128)%Z ->
  magnitude_below (B + 2) (binary_normalize prec emax (x + y) ez szero) = true.
Proof.
  intros Hx Hy HB0 HB1.
  replace (B + 2)%Z with (B + 1 + 1)%Z by lia.
  apply binary_normalize_canonical; try lia.
  assert (Hk : (0 <= B - ez)%Z) by (pose proof (Zdigits2_nonneg x); lia).
  assert (Hd : (Zdigits2 (x + y) <= B - ez + 1)%Z).
  { apply Zdigits2_below; [lia|].
    assert (Hax : (Z.abs x < 2 ^ (B - ez))%Z).
    { destruct x as [|p|p]; cbn [Zdigits2 Z.abs] in *.
      - apply Z.pow_pos_nonneg; lia.
      - pose proof (digits2_pos_spec p) as [_ Hu].
        apply Z.lt_le_trans with (1 := Hu). apply Z.pow_le_mono_r; lia.
      - pose proof (digits2_pos_spec p) as [_ Hu].
        apply Z.lt_le_trans with (1 := Hu). apply Z.pow_le_mono_r; lia. }
    assert (Hay : (Z.abs y < 2 ^ (B - ez))%Z).
    { destruct y as [|p|p]; cbn [Zdigits2 Z.abs] in *.
      - apply Z.pow_pos_nonneg; lia.
      - pose proof (digits2_pos_spec p) as [_ Hu].
        apply Z.lt_le_trans with (1 := Hu). apply Z.pow_le_mono_r; lia.
      - pose proof (digits2_pos_spec p) as [_ Hu].
        apply Z.lt_le_trans with (1 := Hu). apply Z.pow_le_mono_r; lia. }
    rewrite Z.pow_add_r by lia. lia. }
  lia.
Qed.

Lemma cond_Zopp_digits (s : bool) (p : positive) :
  Zdigits2 (cond_Zopp s (Z.pos p)) = Z.pos (digits2_pos p).
Proof. destruct s; reflexivity. Qed.

(** A sum of two values of the format is a value of the format. *)
Lemma add_binary32 (x y : f32) :
  is_binary32 x = true -> is_binary32 y = true -> is_binary32 (add x y) = true.
Proof.
  intros Hx Hy.
  destruct x as [sx|sx| |sx mx ex], y as [sy|sy| |sy my ey]; try reflexivity;
    try assumption; try (destruct sx, sy; reflexivity).
  unfold add. cbn [SFadd]. apply binary_normalize_canonical.
Qed.

(** No overflow: the sum of two values below [2 ^ B] is below
    [2 ^ (B + 2)]. *)
Lemma add_below (B : Z) (x y : f32) :
  magnitude_below B x = true -> magnitude_below B y = true ->
  (-150 <= B)%Z -> (B + 2 <= 128)%Z ->
  magnitude_below (B + 2) (add x y) = true.
Proof.
  intros Mx My HB0 HB1.
  destruct x as [sx|sx| |sx mx ex], y as [sy|sy| |sy my ey]; try discriminate;
    try (destruct sx, sy; reflexivity);
    try (apply (magnitude_below_le B); [lia|assumption]).
  unfold add. cbn [SFadd].
  cbn [magnitude_below] in Mx, My. apply Z.leb_le in Mx, My.
  pose proof (shl_align_spec mx ex (Z.min ex ey)) as [Dx Ex].
  pose proof (shl_align_spec my ey (Z.min ex ey)) as [Dy Ey].
  change (IntDef.Z.min ex ey) with (Z.min ex ey).
  apply binary_normalize_sum; try assumption; rewrite cond_Zopp_digits; lia.
Qed.

(** ** Zeros *)

Lemma add_zeros (x y : f32) :
  is_zero x = true -> is_zero y = true -> is_zero (add x y) = true.
Proof. destruct x as [[|]| | |], y as [[|]| | |]; cbn; congruence. Qed.

Lemma same_value_refl (x : f32) : same_value x x.
Proof. now left. Qed.

Lemma same_value_trans (x y z : f32) :
  same_value x y -> same_value y z -> same_value x z.
Proof.
  intros [->|[Hx Hy]] [->|[Hy' Hz]]; try (now left); right; split; assumption.
Qed.

(** Adding a zero changes at most the sign of a zero. *)
Lemma add_zero_r (x z : f32) : is_zero z = true -> same_value (add x z) x.
Proof.
  destruct z as [sz| | |]; try discriminate. intros _.
  destruct x as [sx|sx| |sx mx ex]; try (now left).
  right. split; [|reflexivity]. now destruct sx, sz.
Qed.

Lemma add_zero_l (x z : f32) : is_zero z = true -> same_value (add z x) x.
Proof.
  destruct z as [sz| | |]; try discriminate. intros _.
  destruct x as [sx|sx| |sx mx ex]; try (now left).
  right. split; [|reflexivity]. now destruct sx, sz.
Qed.

Lemma same_value_add_zero (x y z : f32) :
  is_zero z = true -> same_value x y -> same_value (add z x) y.
Proof.
  intros Hz Hxy. apply same_value_trans with (2 := Hxy). now apply add_zero_l.
Qed.

End Float32.
(** * Proofs *)

(** ** Loops over vectors *)

Lemma for_loop_S {S : Type} (n : nat) (body : nat -> S -> S) (init : S) :
  for_loop (Datatypes.S n) body init = body n (for_loop n body init).
Proof.
  unfold for_loop. rewrite seq_S, fold_left_app. reflexivity.
Qed.

Lemma vector_set_middle {A : Type} (l1 l2 : list A) (a x : A) (k : nat) :
  length l1 = k -> vector_set (l1 ++ a :: l2) k x = l1 ++ x :: l2.
Proof.
  intros <-. induction l1 as [|b l1 IH]; simpl; [reflexivity|]. now rewrite IH.
Qed.

Lemma flat_map_seq_S {A : Type} (f : nat -> list A) (k : nat) :
  flat_map f (seq 0 (S k)) = flat_map f (seq 0 k) ++ f k.
Proof.
  rewrite seq_S, flat_map_app. simpl. now rewrite app_nil_r.
Qed.

Lemma flat_map_seq_length {A : Type} (f : nat -> list A) (c k : nat) :
  (forall i, length (f i) = c) -> length (flat_map f (seq 0 k)) = (c * k)%nat.
Proof.
  intros Hf. induction k as [|k IH].
  - simpl. lia.
  - rewrite flat_map_seq_S, length_app, IH, Hf. lia.
Qed.

Lemma flat_map_seq_ext {A : Type} (f g : nat -> list A) (k : nat) :
  (forall i, (i < k)%nat -> f i = g i) ->
  flat_map f (seq 0 k) = flat_map g (seq 0 k).
Proof.
  induction k as [|k IH]; intros Hfg; [reflexivity|].
  rewrite !flat_map_seq_S, IH, Hfg by auto. reflexivity.
Qed.

Lemma nth_map_seq {A : Type} (f : nat -> A) (n i : nat) (d : A) :
  (i < n)%nat -> nth i (map f (seq 0 n)) d = f i.
Proof.
  intros Hi. rewrite (nth_indep _ d (f 0%nat)) by now rewrite length_map, length_seq.
  rewrite map_nth, seq_nth by exact Hi. reflexivity.
Qed.

Lemma chunk_flat_map_seq {A : Type} (f : nat -> list A) (c k i : nat) :
  (forall j, length (f j) = c) -> (i < k)%nat ->
  chunk c i (flat_map f (seq 0 k)) = f i.
Proof.
  intros Hf Hi. unfold chunk.
  replace k with (i + Datatypes.S (k - Datatypes.S i))%nat by lia.
  rewrite seq_app, flat_map_app. simpl.
  assert (Hlen : length (flat_map f (seq 0 i)) = (c * i)%nat)
    by now apply flat_map_seq_length.
  rewrite skipn_app, Hlen, Nat.sub_diag, skipn_all2 by lia. simpl.
  rewrite firstn_app, (Hf i), Nat.sub_diag, firstn_all2 by (rewrite Hf; lia).
  simpl. now rewrite app_nil_r.
Qed.

(** ** [generateTrackMesh]: what the two loops compute *)

Section TrackMeshProofs.
Context {F : Type} `{Scalar F} `{Trig F}.

(** One pass of the first loop writes the two offset points of [i]. *)
Lemma offsets_body_points (loop : list (vec3 F)) (width : F) (i : nat)
    (innerPoints outerPoints : list (vec3 F)) :
  offsets_body loop (fmul width f_half) (length loop) i (innerPoints, outerPoints)
  = (vector_set innerPoints i (inner_point loop width i),
     vector_set outerPoints i (outer_point loop width i)).
Proof. reflexivity. Qed.

(** After [k] passes of the first loop the first [k] slots hold the offset
    points and the remaining ones are untouched. *)
Lemma offsets_loop_prefix (loop : list (vec3 F)) (width : F) (k : nat) :
  let n := length loop in
  (k <= n)%nat ->
  for_loop k (offsets_body loop (fmul width f_half) n) (repeat vzero n, repeat vzero n)
  = (map (inner_point loop width) (seq 0 k) ++ repeat vzero (n - k),
     map (outer_point loop width) (seq 0 k) ++ repeat vzero (n - k)).
Proof.
  intros n. induction k as [|k IH]; intros Hk.
  - simpl. now rewrite Nat.sub_0_r.
  - rewrite for_loop_S, IH by lia.
    replace (n - k)%nat with (Datatypes.S (n - Datatypes.S k)) by lia.
    unfold n. rewrite offsets_body_points. simpl repeat.
    rewrite !vector_set_middle by now rewrite length_map, length_seq.
    rewrite !seq_S, !map_app, <- !app_assoc. reflexivity.
Qed.

Lemma offsets_loop_done (loop : list (vec3 F)) (width : F) :
  let n := length loop in
  for_loop n (offsets_body loop (fmul width f_half) n) (repeat vzero n, repeat vzero n)
  = (map (inner_point loop width) (seq 0 n), map (outer_point loop width) (seq 0 n)).
Proof.
  intros n. unfold n. rewrite offsets_loop_prefix by lia.
  rewrite Nat.sub_diag. simpl. now rewrite !app_nil_r.
Qed.

(** One pass of the second loop appends the quad of edge [i] and its two
    triangles, numbered from the vertex count before the pass. *)
Lemma quads_body_quad (loop : list (vec3 F)) (width : F) (i : nat)
    (vertices : list (Vertex F)) (indices : list Z) :
  let n := length loop in
  (i < n)%nat ->
  quads_body (map (inner_point loop width) (seq 0 n))
             (map (outer_point loop width) (seq 0 n)) n i (vertices, indices)
  = (vertices ++ quad_vertices loop width i,
     indices ++ quad_triangles_u32 (Z.of_nat (length vertices))).
Proof.
  intros n Hi.
  assert (Hn : (n <> 0)%nat) by lia.
  assert (Hs : ((i + 1) mod n < n)%nat) by now apply Nat.mod_upper_bound.
  unfold quads_body. rewrite !nth_map_seq by assumption.
  unfold quad_vertices, quad_triangles_u32, quad_triangles, track_vertex, successor.
  fold n. simpl. rewrite <- !app_assoc. reflexivity.
Qed.

Lemma quad_vertices_length (loop : list (vec3 F)) (width : F) (i : nat) :
  length (quad_vertices loop width i) = 4%nat.
Proof. reflexivity. Qed.

Lemma quads_loop_prefix (loop : list (vec3 F)) (width : F) (k : nat) :
  let n := length loop in
  (k <= n)%nat ->
  for_loop k (quads_body (map (inner_point loop width) (seq 0 n))
                         (map (outer_point loop width) (seq 0 n)) n) ([], [])
  = (flat_map (quad_vertices loop width) (seq 0 k),
     flat_map (fun i => quad_triangles_u32 (4 * Z.of_nat i)) (seq 0 k)).
Proof.
  intros n. induction k as [|k IH]; intros Hk; [reflexivity|].
  rewrite for_loop_S, IH by lia.
  unfold n. rewrite quads_body_quad by (fold n; lia).
  rewrite (flat_map_seq_length _ 4) by apply quad_vertices_length.
  rewrite !flat_map_seq_S. repeat f_equal. lia.
Qed.

(** The whole function, for a loop of at least two points. *)
Lemma generateTrackMesh_quads (loop : list (vec3 F)) (width : F)
    (vertices : list (Vertex F)) (indices : list Z) :
  (2 <= length loop)%nat ->
  generateTrackMesh loop width vertices indices
  = (flat_map (quad_vertices loop width) (seq 0 (length loop)),
     flat_map (fun i => quad_triangles_u32 (4 * Z.of_nat i)) (seq 0 (length loop))).
Proof.
  intros Hn. unfold generateTrackMesh.
  destruct (Nat.ltb_spec (length loop) 2) as [Hlt|_]; [lia|].
  rewrite offsets_loop_done. now apply quads_loop_prefix.
Qed.

Lemma generateTrackMesh_degenerate (loop : list (vec3 F)) (width : F)
    (vertices : list (Vertex F)) (indices : list Z) :
  (length loop < 2)%nat ->
  generateTrackMesh loop width vertices indices = ([], []).
Proof.
  intros Hn. unfold generateTrackMesh.
  destruct (Nat.ltb_spec (length loop) 2) as [_|Hge]; [reflexivity|lia].
Qed.

End TrackMeshProofs.

(** Without wrap-around the [unsigned int] entries are the plain offsets. *)
Lemma quad_triangles_u32_small (base : Z) :
  (0 <= base)%Z -> (base + 3 < 2 ^ 32)%Z ->
  quad_triangles_u32 base = quad_triangles base.
Proof.
  intros H0 H3. unfold quad_triangles_u32, quad_triangles, uint32. simpl map.
  rewrite (Z.mod_small base) by lia.
  rewrite !Z.mod_small by lia. reflexivity.
Qed.

Lemma quad_triangles_u32_range (base : Z) :
  Forall (fun ix => 0 <= ix < 2 ^ 32)%Z (quad_triangles_u32 base).
Proof.
  unfold quad_triangles_u32, quad_triangles, uint32. simpl map.
  repeat constructor; apply Z.mod_pos_bound; lia.
Qed.

(** ** Binary32: adding or subtracting [0.0f] *)

Lemma f32_f0 : @f0 Binary32.f32 _ = S754_zero false.
Proof. reflexivity. Qed.

(** [1 / 2] is the binary32 literal [0.5f]. *)
Lemma f32_f_half : @f_half Binary32.f32 _ = S754_finite false 8388608 (-24).
Proof. reflexivity. Qed.

Lemma f32_add_zero (x : Binary32.f32) :
  Binary32.same_value (Binary32.add x (S754_zero false)) x.
Proof.
  destruct x as [[|]|[|]| |[|] m e]; cbv; auto.
Qed.

Lemma f32_sub_zero (x : Binary32.f32) :
  Binary32.same_value (Binary32.sub x (S754_zero false)) x.
Proof.
  destruct x as [[|]|[|]| |[|] m e]; cbv; auto.
Qed.

(** ** The claims on [generateTrackMesh] *)

(** C1. For a closed centerline loop of [n >= 2] points and every width,
    the extrusion appends, for the edges [i = 0, ..., n-1] in order, exactly
    the four vertices inner[i], outer[i], outer[i+1 mod n], inner[i+1 mod n]
    with UVs (0,0), (1,0), (1,1), (0,1) and normal (0,0,1)
    ([quad_vertices]), where inner[i] = A + offset and outer[i] = A - offset,
    offset = (w/2) (cos a, sin a, 0), a = atan2(B.y-A.y, B.x-A.x) -/+ 90
    degrees by the sign of B.x - A.x; and the two triangles (v0,v3,v1),
    (v1,v3,v2) as [unsigned int] offsets from the position [4 i] of v0,
    which are the plain numbers [4 i + 0, 4 i + 3, ...] as long as [4 n]
    fits an [unsigned int].  The third coordinate of inner[i] and outer[i]
    is that of A (as binary32 numbers: [A.z + 0.0f] and [A.z - 0.0f]). *)
Theorem C1_extrusion_quads (T : Trig Binary32.f32)
    (loop : list (vec3 Binary32.f32)) (width : Binary32.f32)
    (vertices : list (Vertex Binary32.f32)) (indices : list Z) :
  let n := length loop in
  (2 <= n)%nat ->
  generateTrackMesh loop width vertices indices
  = (flat_map (quad_vertices loop width) (seq 0 n),
     flat_map (fun i => quad_triangles_u32 (4 * Z.of_nat i)) (seq 0 n))
  /\ ((4 * Z.of_nat n <= 2 ^ 32)%Z ->
      snd (generateTrackMesh loop width vertices indices)
      = flat_map (fun i => quad_triangles (4 * Z.of_nat i)) (seq 0 n))
  /\ (forall i, (i < n)%nat ->
        Binary32.same_value (vz (inner_point loop width i)) (vz (loop_point loop i))
        /\ Binary32.same_value (vz (outer_point loop width i)) (vz (loop_point loop i))).
Proof.
  intros n Hn. split; [|split].
  - now apply generateTrackMesh_quads.
  - intros Hsmall. rewrite generateTrackMesh_quads by exact Hn. fold n. cbn [snd].
    apply flat_map_seq_ext. intros i Hi.
    apply quad_triangles_u32_small; lia.
  - intros i _. unfold inner_point, outer_point, edge_offset, vadd, vsub. simpl.
    split; [apply f32_add_zero | apply f32_sub_zero].
Qed.

Lemma C1_extrusion_quads_witness :
  generateTrackMesh (H0 := sample_trig) square_loop (Binary32.of_int 2) [] []
  = (flat_map (quad_vertices (H0 := sample_trig) square_loop (Binary32.of_int 2)) (seq 0 4),
     flat_map (fun i => quad_triangles (4 * Z.of_nat i)) (seq 0 4)).
Proof.
  pose proof (C1_extrusion_quads sample_trig square_loop (Binary32.of_int 2) [] []) as H.
  cbv zeta in H. destruct H as (Hmesh & Hplain & _); [simpl; lia|].
  rewrite (surjective_pairing (generateTrackMesh _ _ _ _)).
  rewrite Hplain by (simpl; lia). rewrite Hmesh. reflexivity.
Defined.

(** C2. [generateTrackMesh] produces exactly [4 n] vertices and [6 n] index
    entries for a loop of [n >= 2] points, and empty sequences for [n < 2]. *)
Theorem C2_mesh_sizes {F : Type} `{Scalar F} `{Trig F}
    (loop : list (vec3 F)) (width : F)
    (vertices : list (Vertex F)) (indices : list Z) :
  let n := length loop in
  let mesh := generateTrackMesh loop width vertices indices in
  (if (n <? 2)%nat then mesh = ([], [])
   else length (fst mesh) = (4 * n)%nat /\ length (snd mesh) = (6 * n)%nat).
Proof.
  intros n mesh. destruct (Nat.ltb_spec n 2) as [Hlt|Hge].
  - now apply generateTrackMesh_degenerate.
  - unfold mesh. rewrite generateTrackMesh_quads by exact Hge. cbn [fst snd]. split.
    + now apply flat_map_seq_length.
    + now apply flat_map_seq_length.
Qed.

(** C9. Every entry of the index buffer produced by [generateTrackMesh] is
    below the final vertex count; and for a loop of [n >= 2] points (with
    [4 n] within the range of [unsigned int]) the six entries emitted for
    edge [i] are the offsets base+0, base+3, base+1, base+1, base+3, base+2
    with base = 4 i, the position of that quad's first vertex, so they all
    lie in [4 i .. 4 i + 3]. *)
Theorem C9_indices_in_bounds {F : Type} `{Scalar F} `{Trig F}
    (loop : list (vec3 F)) (width : F)
    (vertices : list (Vertex F)) (indices : list Z) :
  let n := length loop in
  let mesh := generateTrackMesh loop width vertices indices in
  Forall (fun ix => 0 <= ix < Z.of_nat (length (fst mesh)))%Z (snd mesh)
  /\ ((2 <= n)%nat /\ (4 * Z.of_nat n <= 2 ^ 32)%Z ->
      forall i, (i < n)%nat ->
        chunk 4 i (fst mesh) = quad_vertices loop width i
        /\ chunk 6 i (snd mesh) = quad_triangles (4 * Z.of_nat i)
        /\ Forall (fun ix => 4 * Z.of_nat i <= ix <= 4 * Z.of_nat i + 3)%Z
                  (chunk 6 i (snd mesh))).
Proof.
  intros n mesh. destruct (Nat.ltb_spec n 2) as [Hlt|Hge].
  - unfold mesh. rewrite generateTrackMesh_degenerate by exact Hlt. simpl. split.
    + constructor.
    + intros [Hn _]. lia.
  - unfold mesh. rewrite generateTrackMesh_quads by exact Hge. fold n. cbn [fst snd]. split.
    + rewrite (flat_map_seq_length _ 4) by apply quad_vertices_length.
      apply Forall_forall. intros ix Hix.
      apply in_flat_map in Hix. destruct Hix as (i & Hi & Hix).
      apply in_seq in Hi.
      destruct (Z.le_gt_cases (4 * Z.of_nat n) (2 ^ 32)) as [Hsmall|Hbig].
      * rewrite quad_triangles_u32_small in Hix by lia.
        unfold quad_triangles in Hix. cbn [In] in Hix.
        destruct Hix as [<-|[<-|[<-|[<-|[<-|[<-|[]]]]]]]; lia.
      * pose proof (quad_triangles_u32_range (4 * Z.of_nat i)) as Hr.
        rewrite Forall_forall in Hr. specialize (Hr ix Hix). lia.
    + intros [_ Hsmall] i Hi.
      rewrite (chunk_flat_map_seq _ 4) by (auto using quad_vertices_length).
      rewrite (chunk_flat_map_seq _ 6) by auto.
      rewrite quad_triangles_u32_small by lia.
      split; [reflexivity|]. split; [reflexivity|].
      unfold quad_triangles. repeat constructor; lia.
Qed.

Lemma C9_indices_in_bounds_witness :
  chunk 6 2 (snd (generateTrackMesh (H0 := sample_trig) square_loop (Binary32.of_int 2) [] []))
  = quad_triangles 8.
Proof.
  apply (proj2 (C9_indices_in_bounds (H0 := sample_trig) square_loop
                  (Binary32.of_int 2) [] [])).
  - split; simpl; lia.
  - simpl. lia.
Defined.

(** ** [generateBSplinePoints]: the sampling loops *)

Section BSplineProofs.
Context {F : Type} `{Scalar F}.

Lemma sample_count_S (fuel : nat) (step t : F) :
  sample_count (S fuel) step t
  = if fleb t f1
    then bind (sample_count fuel step (fadd t step)) (fun c => Returned (S c))
    else Returned 0%nat.
Proof. reflexivity. Qed.

(** The loop only appends: its result is the points it was given followed
    by one curve point per parameter it visits. *)
Lemma sample_loop_params (fuel : nat) (G : mat4x3 F) (step t : F)
    (curvePoints : list (vec3 F)) (c : nat) :
  sample_count fuel step t = Returned c ->
  sample_loop fuel G step t curvePoints
  = Returned (curvePoints ++ map (curve_point G) (sample_params fuel step t))
  /\ length (sample_params fuel step t) = c.
Proof.
  revert t curvePoints c. induction fuel as [|fuel IH]; intros t pts c; simpl.
  - discriminate.
  - destruct (fleb t f1) eqn:Ht.
    + destruct (sample_count fuel step (fadd t step)) as [c'| |] eqn:Hc; simpl; try discriminate.
      intros [= <-]. destruct (IH (fadd t step) (pts ++ [curve_point G t]) c' Hc) as [-> Hlen].
      rewrite <- app_assoc. simpl. now rewrite Hlen.
    + intros [= <-]. now rewrite app_nil_r.
Qed.

(** More fuel does not change a finished run. *)
Lemma sample_count_fuel (fuel extra : nat) (step t : F) (c : nat) :
  sample_count fuel step t = Returned c ->
  sample_count (fuel + extra) step t = Returned c
  /\ sample_params (fuel + extra) step t = sample_params fuel step t.
Proof.
  revert t c. induction fuel as [|fuel IH]; intros t c; simpl.
  - discriminate.
  - destruct (fleb t f1) eqn:Ht; [|auto].
    destruct (sample_count fuel step (fadd t step)) as [c'| |] eqn:Hc; simpl; try discriminate.
    intros [= <-]. destruct (IH _ _ Hc) as [-> ->]. auto.
Qed.

(** A run that never leaves the loop returns nothing, whatever the fuel. *)
Lemma sample_loop_out_of_fuel (fuel : nat) (G : mat4x3 F) (step t : F)
    (curvePoints : list (vec3 F)) :
  sample_count fuel step t = OutOfFuel ->
  sample_loop fuel G step t curvePoints = OutOfFuel.
Proof.
  revert t curvePoints. induction fuel as [|fuel IH]; intros t pts; simpl; [reflexivity|].
  destruct (fleb t f1); [|discriminate].
  destruct (sample_count fuel step (fadd t step)) eqn:Hc; simpl; try discriminate.
  intros _. now apply IH.
Qed.

Lemma sample_count_not_thrown (fuel : nat) (step t : F) (what : string) :
  sample_count fuel step t <> Thrown what.
Proof.
  revert t. induction fuel as [|fuel IH]; intros t; simpl; [discriminate|].
  destruct (fleb t f1); [|discriminate].
  specialize (IH (fadd t step)).
  destruct (sample_count fuel step (fadd t step)); simpl; congruence.
Qed.

(** Every window contributes the same number [c] of points. *)
Lemma segment_loop_windows (fuel : nat) (controlPoints : list (vec3 F)) (step : F)
    (windows : list nat) (curvePoints : list (vec3 F)) (c : nat) :
  sample_count fuel step f0 = Returned c ->
  segment_loop fuel controlPoints step windows curvePoints
  = Returned (curvePoints ++
              flat_map (fun i => map (curve_point (geometry controlPoints i))
                                     (sample_params fuel step f0)) windows).
Proof.
  intros Hc. revert curvePoints. induction windows as [|i rest IH]; intros pts; simpl.
  - now rewrite app_nil_r.
  - destruct (sample_loop_params fuel (geometry controlPoints i) step f0 pts c Hc) as [-> _].
    simpl. rewrite IH, <- app_assoc. reflexivity.
Qed.

Lemma flat_map_const_length {A B : Type} (f : A -> list B) (l : list A) (c : nat) :
  (forall a, length (f a) = c) -> length (flat_map f l) = (length l * c)%nat.
Proof.
  intros Hf. induction l as [|a l IH]; simpl; [reflexivity|].
  now rewrite length_app, IH, Hf.
Qed.

(** With [c] samples per window, [k >= 4] control points give
    [(k - 3) * c] curve points. *)
Lemma generateBSplinePoints_count (fuel : nat) (controlPoints : list (vec3 F))
    (pointsPerSegment : Z) (c : nat) :
  (4 <= length controlPoints)%nat ->
  sample_count fuel (fdiv f1 (of_int pointsPerSegment)) f0 = Returned c ->
  exists curvePoints,
    generateBSplinePoints fuel controlPoints pointsPerSegment = Returned curvePoints
    /\ length curvePoints = ((length controlPoints - 3) * c)%nat.
Proof.
  intros Hk Hc. unfold generateBSplinePoints.
  destruct (Nat.ltb_spec (length controlPoints) 4) as [Hlt|_]; [lia|].
  rewrite (segment_loop_windows _ _ _ _ _ c Hc). eexists. split; [reflexivity|].
  simpl. rewrite (flat_map_const_length _ _ c).
  - now rewrite length_seq.
  - intros i. rewrite length_map.
    now destruct (sample_loop_params fuel (geometry controlPoints i) _ f0 [] c Hc) as [_ ->].
Qed.

Lemma generateBSplinePoints_diverges (fuel : nat) (controlPoints : list (vec3 F))
    (pointsPerSegment : Z) :
  (4 <= length controlPoints)%nat ->
  sample_count fuel (fdiv f1 (of_int pointsPerSegment)) f0 = OutOfFuel ->
  generateBSplinePoints fuel controlPoints pointsPerSegment = OutOfFuel.
Proof.
  intros Hk Hc. unfold generateBSplinePoints.
  destruct (Nat.ltb_spec (length controlPoints) 4) as [Hlt|_]; [lia|].
  replace (length controlPoints - 3)%nat with (S (length controlPoints - 4)) by lia.
  simpl. now rewrite sample_loop_out_of_fuel.
Qed.

Lemma generateBSplinePoints_few (fuel : nat) (controlPoints : list (vec3 F))
    (pointsPerSegment : Z) :
  (length controlPoints < 4)%nat ->
  generateBSplinePoints fuel controlPoints pointsPerSegment = Returned [].
Proof.
  intros Hk. unfold generateBSplinePoints.
  now destruct (Nat.ltb_spec (length controlPoints) 4) as [_|Hge]; [|lia].
Qed.

(** The source has no [throw]: no run ends in an exception. *)
Lemma sample_loop_not_thrown (fuel : nat) (G : mat4x3 F) (step t : F)
    (curvePoints : list (vec3 F)) (what : string) :
  sample_loop fuel G step t curvePoints <> Thrown what.
Proof.
  revert t curvePoints. induction fuel as [|fuel IH]; intros t pts; simpl; [discriminate|].
  destruct (fleb t f1); [apply IH|discriminate].
Qed.

Lemma segment_loop_not_thrown (fuel : nat) (controlPoints : list (vec3 F)) (step : F)
    (windows : list nat) (curvePoints : list (vec3 F)) (what : string) :
  segment_loop fuel controlPoints step windows curvePoints <> Thrown what.
Proof.
  revert curvePoints. induction windows as [|i rest IH]; intros pts; simpl; [discriminate|].
  pose proof (sample_loop_not_thrown fuel (geometry controlPoints i) step f0 pts what) as Hs.
  destruct (sample_loop fuel (geometry controlPoints i) step f0 pts); simpl;
    [apply IH|congruence|discriminate].
Qed.

Lemma generateBSplinePoints_not_thrown (fuel : nat) (controlPoints : list (vec3 F))
    (pointsPerSegment : Z) (what : string) :
  generateBSplinePoints fuel controlPoints pointsPerSegment <> Thrown what.
Proof.
  unfold generateBSplinePoints.
  destruct (length controlPoints <? 4)%nat; [discriminate|apply segment_loop_not_thrown].
Qed.

(** The curve points, window by window, when the sampling loop visits the
    parameters [ts]. *)
Lemma generateBSplinePoints_params (fuel : nat) (controlPoints : list (vec3 F))
    (pointsPerSegment : Z) (c : nat) :
  (4 <= length controlPoints)%nat ->
  sample_count fuel (fdiv f1 (of_int pointsPerSegment)) f0 = Returned c ->
  generateBSplinePoints fuel controlPoints pointsPerSegment
  = Returned (flat_map (fun i => map (curve_point (geometry controlPoints i))
                                     (sample_params fuel (fdiv f1 (of_int pointsPerSegment)) f0))
                       (seq 0 (length controlPoints - 3))).
Proof.
  intros Hk Hc. unfold generateBSplinePoints.
  destruct (Nat.ltb_spec (length controlPoints) 4) as [Hlt|_]; [lia|].
  now rewrite (segment_loop_windows _ _ _ _ _ c Hc).
Qed.

End BSplineProofs.

(** ** Binary32 runs of the sampling loop *)

(** [step = 1.0f / 10]: ten additions of [0.1f] reach [0x3F800001], the
    successor of [1.0f], so the loop stops after the sample at
    [t = 0.9000001]. *)
Lemma f32_ten_steps_overshoot :
  let step := Binary32.div (Binary32.of_int 1) (Binary32.of_int 10) in
  sample_params 11 step (Binary32.of_int 0)
  = [ S754_zero false;
      S754_finite false 13421773 (-27); S754_finite false 13421773 (-26);
      S754_finite false 10066330 (-25); S754_finite false 13421773 (-25);
      S754_finite false 8388608 (-24); S754_finite false 10066330 (-24);
      S754_finite false 11744052 (-24); S754_finite false 13421774 (-24);
      S754_finite false 15099496 (-24) ]
  /\ Nat.iter 10 (fun t => Binary32.add t step) (Binary32.of_int 0)
     = S754_finite false 8388609 (-23)
  /\ sample_count 11 step (Binary32.of_int 0) = Returned 10%nat.
Proof. vm_compute. repeat split; reflexivity. Qed.

Lemma f32_four_steps :
  sample_count 6 (Binary32.div (Binary32.of_int 1) (Binary32.of_int 4)) (Binary32.of_int 0)
  = Returned 5%nat.
Proof. vm_compute. reflexivity. Qed.

Lemma f32_fifty_steps :
  sample_count 52 (Binary32.div (Binary32.of_int 1) (Binary32.of_int 50)) (Binary32.of_int 0)
  = Returned 51%nat.
Proof. vm_compute. reflexivity. Qed.

Lemma f32_hundred_steps :
  sample_count 102 (Binary32.div (Binary32.of_int 1) (Binary32.of_int 100)) (Binary32.of_int 0)
  = Returned 101%nat.
Proof. vm_compute. reflexivity. Qed.

(** [step = 1.0f / 0 = +inf]: one sample at [t = 0], then [t = +inf]. *)
Lemma f32_zero_segments :
  sample_count 2 (Binary32.div (Binary32.of_int 1) (Binary32.of_int 0)) (Binary32.of_int 0)
  = Returned 1%nat
  /\ Binary32.div (Binary32.of_int 1) (Binary32.of_int 0) = S754_infinity false.
Proof. vm_compute. split; reflexivity. Qed.

(** [step = 1.0f / 2^25]: at [t = 0.5f] the sum [t + step] lies halfway
    between [0.5f] and the next binary32 number and is rounded back to
    [0.5f]; from there the parameter no longer grows and the loop does not
    end. *)
Lemma f32_step_absorbed (fuel : nat) :
  let step := Binary32.div (Binary32.of_int 1) (Binary32.of_int (2 ^ 25)) in
  let half := Binary32.div (Binary32.of_int 1) (Binary32.of_int 2) in
  Binary32.add half step = half
  /\ sample_count fuel step half = OutOfFuel.
Proof.
  cbv zeta. split; [vm_compute; reflexivity|].
  induction fuel as [|fuel IH]; [reflexivity|].
  rewrite sample_count_S.
  replace (fleb (Binary32.div (Binary32.of_int 1) (Binary32.of_int 2)) f1) with true
    by (vm_compute; reflexivity).
  replace (fadd (Binary32.div (Binary32.of_int 1) (Binary32.of_int 2))
                (Binary32.div (Binary32.of_int 1) (Binary32.of_int (2 ^ 25))))
    with (Binary32.div (Binary32.of_int 1) (Binary32.of_int 2))
    by (vm_compute; reflexivity).
  now rewrite IH.
Qed.

(** ** Binary32: the sign of rounded results *)

Module Binary32Facts.
Import Binary32.

Lemma shr_1_nonneg (mrs : shr_record) :
  (0 <= shr_m mrs)%Z -> (0 <= shr_m (shr_1 mrs))%Z.
Proof.
  destruct mrs as [m r s]. destruct m as [|p|p]; simpl; intros Hm; try lia.
  destruct p; simpl; lia.
Qed.

Lemma iter_shr_1_nonneg (n : positive) (mrs : shr_record) :
  (0 <= shr_m mrs)%Z -> (0 <= shr_m (iter_pos shr_1 n mrs))%Z.
Proof.
  revert mrs. induction n as [n IH|n IH|]; intros mrs Hm; simpl.
  - apply IH, IH, shr_1_nonneg, Hm.
  - apply IH, IH, Hm.
  - apply shr_1_nonneg, Hm.
Qed.

Lemma shr_fexp_nonneg (m e : Z) (l : location) :
  (0 <= m)%Z -> (0 <= shr_m (fst (shr_fexp prec emax m e l)))%Z.
Proof.
  intros Hm. unfold shr_fexp, shr.
  assert (H0 : (0 <= shr_m (shr_record_of_loc m l))%Z)
    by (destruct l as [|[| |]]; exact Hm).
  destruct (fexp prec emax (Zdigits2 m + e) - e)%Z; simpl; auto.
  now apply iter_shr_1_nonneg.
Qed.

Lemma round_nearest_even_nonneg (m : Z) (l : location) :
  (0 <= m)%Z -> (0 <= round_nearest_even m l)%Z.
Proof.
  intros Hm. destruct l as [|[| |]]; simpl; try lia.
  destruct (Z.even m); lia.
Qed.

(** Rounding a non-negative mantissa gives a zero, a finite number or an
    infinity of the requested sign, never a NaN. *)
Lemma binary_round_aux_sign (s : bool) (m e : Z) (l : location) :
  (0 <= m)%Z -> has_sign s (binary_round_aux prec emax s m e l) = true.
Proof.
  intros Hm. unfold binary_round_aux.
  pose proof (shr_fexp_nonneg m e l Hm) as H1.
  destruct (shr_fexp prec emax m e l) as [mrs' e'] eqn:E1. simpl in H1.
  pose proof (shr_fexp_nonneg _ e' loc_Exact
                (round_nearest_even_nonneg _ (loc_of_shr_record mrs') H1)) as H2.
  destruct (shr_fexp prec emax (round_nearest_even (shr_m mrs') (loc_of_shr_record mrs')) e' loc_Exact)
    as [mrs'' e''] eqn:E2. simpl in H2.
  destruct (shr_m mrs'') as [|p|p]; try lia.
  - simpl. apply Bool.eqb_reflx.
  - destruct (e'' <=? emax - prec)%Z; simpl; apply Bool.eqb_reflx.
Qed.

Lemma binary_round_sign (s : bool) (m : positive) (e : Z) :
  has_sign s (binary_round prec emax s m e) = true.
Proof.
  unfold binary_round.
  destruct (shl_align m e (fexp prec emax (Z.pos (digits2_pos m) + e))) as [mz ez].
  now apply binary_round_aux_sign.
Qed.

(** A negative [int] converts to a negative binary32 number. *)
Lemma of_int_negative (z : Z) : (z < 0)%Z -> has_sign true (of_int z) = true.
Proof.
  destruct z as [|p|p]; try lia. intros _. apply binary_round_sign.
Qed.

Lemma div_core_nonneg (m1 e1 m2 e2 : Z) :
  (0 <= m1)%Z -> (0 < m2)%Z ->
  (0 <= fst (fst (SFdiv_core_binary prec emax m1 e1 m2 e2)))%Z.
Proof.
  intros H1 H2. unfold SFdiv_core_binary.
  set (sh := (e1 - e2 -
              Z.min (fexp prec emax (Zdigits2 m1 + e1 - (Zdigits2 m2 + e2))) (e1 - e2))%Z).
  set (m' := match sh with Z.pos _ => Z.shiftl m1 sh | 0%Z => m1 | Z.neg _ => 0%Z end).
  assert (Hm' : (0 <= m')%Z).
  { unfold m'. destruct sh; try lia. now apply Z.shiftl_nonneg. }
  pose proof (Z.div_pos m' m2 Hm' H2) as Hq. unfold Z.div in Hq.
  destruct (Z.div_eucl m' m2) as [q r]. exact Hq.
Qed.

Lemma of_int_one : of_int 1 = S754_finite false 8388608 (-23).
Proof. reflexivity. Qed.

(** [1.0f / y] for [y] of negative sign is again of negative sign. *)
Lemma one_div_negative (y : f32) :
  has_sign true y = true -> has_sign true (div (of_int 1) y) = true.
Proof.
  rewrite of_int_one.
  destruct y as [[|]|[|]| |[|] my ey]; try discriminate; intros _; try reflexivity.
  unfold div, SFdiv.
  pose proof (div_core_nonneg (Z.pos 8388608) (-23) (Z.pos my) ey) as Hq.
  destruct (SFdiv_core_binary prec emax (Z.pos 8388608) (-23) (Z.pos my) ey) as [[mz ez] lz].
  cbn [fst] in Hq. cbn [xorb]. apply binary_round_aux_sign, Hq; lia.
Qed.

(** Adding a number of negative sign to one that is zero or below stays
    zero or below. *)
Lemma add_negative (t step : f32) :
  at_most_zero t = true -> has_sign true step = true ->
  at_most_zero (add t step) = true.
Proof.
  unfold at_most_zero.
  destruct t as [st|[|]| |[|] mt et]; destruct step as [[|]|[|]| |[|] ms es];
    simpl; try discriminate; intros _ _; try reflexivity;
    try (destruct st; reflexivity).
  unfold add, SFadd.
  set (ez := Z.min et es).
  destruct (shl_align mt et ez) as [mt' et'], (shl_align ms es ez) as [ms' es'].
  simpl fst. simpl cond_Zopp. simpl Z.add.
  pose proof (binary_round_sign true (mt' + ms') ez) as Hr. simpl binary_normalize.
  destruct (binary_round prec emax true (mt' + ms') ez) as [[|]|[|]| |[|] m e];
    simpl in Hr |- *; try discriminate; reflexivity.
Qed.

Lemma at_most_zero_le_one (t : f32) :
  at_most_zero t = true -> leb t (of_int 1) = true.
Proof.
  rewrite of_int_one.
  unfold at_most_zero.
  destruct t as [[|]|[|]| |[|] m e]; simpl; try discriminate; reflexivity.
Qed.

(** With a step of negative sign the sampling loop never exits: [t] starts
    at [0] and can only stay or decrease, so [t <= 1.0f] holds forever. *)
Lemma sample_count_negative_step (fuel : nat) (step t : f32) :
  has_sign true step = true -> at_most_zero t = true ->
  sample_count fuel step t = OutOfFuel.
Proof.
  intros Hs. revert t. induction fuel as [|fuel IH]; intros t Ht; [reflexivity|].
  rewrite sample_count_S.
  change (fleb t f1) with (leb t (of_int 1)).
  rewrite (at_most_zero_le_one t Ht).
  change (fadd t step) with (add t step).
  now rewrite (IH (add t step) (add_negative t step Ht Hs)).
Qed.

End Binary32Facts.

(** ** The claims on the number of curve points *)

(** C3 (the failing input). With [pointsPerSegment = 10] the binary32 loop
    [for (t = 0; t <= 1; t += 0.1f)] visits ten parameters, not eleven: the
    tenth sum is [1.0000001f].  For [k >= 4] control points the function
    returns [(k - 3) * 10] points, not [(k - 3) * (10 + 1)]. *)
Theorem C3_ten_per_segment_drops_endpoint
    (controlPoints : list (vec3 Binary32.f32)) (fuel : nat) :
  (4 <= length controlPoints)%nat ->
  (11 <= fuel)%nat ->
  exists curvePoints,
    generateBSplinePoints fuel controlPoints 10 = Returned curvePoints
    /\ length curvePoints = ((length controlPoints - 3) * 10)%nat
    /\ length curvePoints <> ((length controlPoints - 3) * (10 + 1))%nat.
Proof.
  intros Hk Hfuel.
  destruct f32_ten_steps_overshoot as (_ & _ & Hc).
  apply (sample_count_fuel 11 (fuel - 11)) in Hc. destruct Hc as [Hc _].
  replace (11 + (fuel - 11))%nat with fuel in Hc by lia.
  destruct (generateBSplinePoints_count fuel controlPoints 10 10 Hk Hc) as (pts & Hr & Hlen).
  exists pts. repeat split; [exact Hr|exact Hlen|lia].
Qed.

Lemma C3_ten_per_segment_drops_endpoint_witness :
  exists curvePoints,
    generateBSplinePoints 11 scenario_points 10 = Returned curvePoints
    /\ length curvePoints = ((length scenario_points - 3) * 10)%nat
    /\ length curvePoints <> ((length scenario_points - 3) * (10 + 1))%nat.
Proof.
  apply (C3_ten_per_segment_drops_endpoint scenario_points 11).
  - simpl. lia.
  - lia.
Defined.

Lemma flat_map_singleton {A B : Type} (g : A -> B) (l : list A) :
  flat_map (fun a => [g a]) l = map g l.
Proof. induction l as [|a l IH]; simpl; [reflexivity|now rewrite IH]. Qed.

(** With [pointsPerSegment = 0] the step is [1.0f / 0 = +inf]: every
    window yields its sample at [t = 0] and no other. *)
Lemma generateBSplinePoints_zero_segments
    (controlPoints : list (vec3 Binary32.f32)) (fuel : nat) :
  (4 <= length controlPoints)%nat ->
  (2 <= fuel)%nat ->
  generateBSplinePoints fuel controlPoints 0
  = Returned (map (fun i => curve_point (geometry controlPoints i) f0)
                  (seq 0 (length controlPoints - 3))).
Proof.
  intros Hk Hfuel.
  destruct f32_zero_segments as [Hc _].
  assert (Hp : sample_params 2 (Binary32.div (Binary32.of_int 1) (Binary32.of_int 0))
                 (Binary32.of_int 0) = [Binary32.of_int 0])
    by (vm_compute; reflexivity).
  destruct (sample_count_fuel 2 (fuel - 2) _ _ _ Hc) as [Hc' Hp'].
  replace (2 + (fuel - 2))%nat with fuel in Hc', Hp' by lia.
  rewrite (generateBSplinePoints_params fuel controlPoints 0 1 Hk Hc').
  change (sample_params fuel (fdiv f1 (of_int 0)) f0)
    with (sample_params fuel (Binary32.div (Binary32.of_int 1) (Binary32.of_int 0))
            (Binary32.of_int 0)).
  rewrite Hp', Hp. cbn [map]. now rewrite flat_map_singleton.
Qed.

(** C8 (counterexample). [pointsPerSegment = 0] is not rejected: for the
    first four control points of the scenario the call returns, with two
    passes of fuel and with any more, and what it returns is the one curve
    point [(1, 0, 0)]. *)
Lemma C8_zero_segments_counterexample :
  generateBSplinePoints 2 (firstn 4 scenario_points) 0 = Returned [point32 1 0 0]
  /\ (forall fuel, (2 <= fuel)%nat ->
        generateBSplinePoints fuel (firstn 4 scenario_points) 0
        = Returned [point32 1 0 0]).
Proof.
  split; [vm_compute; reflexivity|].
  intros fuel Hfuel.
  rewrite generateBSplinePoints_zero_segments by (simpl; lia).
  vm_compute. reflexivity.
Qed.

(** C8 (amended). For at least four control points a call with
    [pointsPerSegment = 0] is not rejected: the step is [1.0f / 0 = +inf],
    each window yields the single sample at [t = 0], and the call returns
    those [k - 3] points. *)
Theorem C8_zero_segments_returns
    (controlPoints : list (vec3 Binary32.f32)) (fuel : nat) :
  (4 <= length controlPoints)%nat ->
  (2 <= fuel)%nat ->
  exists curvePoints,
    generateBSplinePoints fuel controlPoints 0 = Returned curvePoints
    /\ curvePoints = map (fun i => curve_point (geometry controlPoints i) f0)
                         (seq 0 (length controlPoints - 3))
    /\ length curvePoints = (length controlPoints - 3)%nat.
Proof.
  intros Hk Hfuel. rewrite generateBSplinePoints_zero_segments by assumption.
  eexists. split; [reflexivity|]. split; [reflexivity|].
  now rewrite length_map, length_seq.
Qed.

Lemma C8_zero_segments_returns_witness :
  exists curvePoints,
    generateBSplinePoints 2 scenario_points 0 = Returned curvePoints
    /\ curvePoints = map (fun i => curve_point (geometry scenario_points i) f0)
                         (seq 0 (length scenario_points - 3))
    /\ length curvePoints = (length scenario_points - 3)%nat.
Proof.
  apply (C8_zero_segments_returns scenario_points 2).
  - simpl. lia.
  - lia.
Defined.

(** ** The animation clock *)

Section AnimationProofs.
Context {F : Type} `{Scalar F}.

Lemma step_loop_S (fuel : nat) (size : Z) (st : AnimationState F) :
  step_loop (S fuel) size st
  = if fleb STEP_TIME (animAccumulator st)
    then step_loop fuel size
           (mkAnimationState (to_size_t (animationIndex st + 1) mod size)
                             (fsub (animAccumulator st) STEP_TIME))
    else Returned st.
Proof. reflexivity. Qed.

(** If the accumulator is at least [STEP_TIME] through [k] subtractions and
    below it after them, the loop makes exactly [k] passes. *)
Lemma step_loop_passes (k fuel : nat) (size : Z) (st : AnimationState F) :
  (forall j, (j < k)%nat -> fleb STEP_TIME (drained j (animAccumulator st)) = true) ->
  fleb STEP_TIME (drained k (animAccumulator st)) = false ->
  (k < fuel)%nat ->
  step_loop fuel size st
  = Returned (mkAnimationState (stepped_index size k (animationIndex st))
                               (drained k (animAccumulator st))).
Proof.
  revert fuel st. induction k as [|k IH]; intros fuel [index acc] Hge Hlt Hfuel;
    (destruct fuel as [|fuel]; [lia|]); rewrite step_loop_S; cbn [animAccumulator animationIndex] in *.
  - simpl in Hlt. rewrite Hlt. reflexivity.
  - pose proof (Hge 0%nat ltac:(lia)) as H0. simpl in H0. rewrite H0.
    rewrite IH; cbn [animAccumulator animationIndex].
    + reflexivity.
    + intros j Hj. apply (Hge (S j)). lia.
    + exact Hlt.
    + lia.
Qed.

End AnimationProofs.

(** From a non-negative index, [k >= 1] passes leave [(index + k) mod size]. *)
Lemma stepped_index_mod (size : Z) (k : nat) (index : Z) :
  (0 < size)%Z -> (0 <= index)%Z -> (index + Z.of_nat (S k) < 2 ^ 64)%Z ->
  stepped_index size (S k) index = ((index + Z.of_nat (S k)) mod size)%Z.
Proof.
  intros Hsize. revert index. induction k as [|k IH]; intros index Hidx Hmax.
  - simpl. unfold to_size_t. rewrite (Z.mod_small (index + 1) (2 ^ 64)) by lia. reflexivity.
  - change (stepped_index size (S (S k)) index)
      with (stepped_index size (S k) (to_size_t (index + 1) mod size)).
    unfold to_size_t. rewrite (Z.mod_small (index + 1) (2 ^ 64)) by lia.
    pose proof (Z.mod_pos_bound (index + 1) size Hsize) as Hb.
    pose proof (Z.mod_le (index + 1) size ltac:(lia) Hsize) as Hle.
    rewrite IH by lia.
    rewrite Zplus_mod_idemp_l. f_equal. lia.
Qed.

(** C7 (counterexample). With an empty loop the frame is not a no-op: the
    accumulator still receives [deltaTime]. *)
Lemma C7_empty_loop_counterexample :
  advance 1 initial_state (Binary32.of_int 1) 0
  = Returned (mkAnimationState 0 (Binary32.of_int 1))
  /\ advance 1 initial_state (Binary32.of_int 1) 0 <> Returned initial_state.
Proof.
  split; [reflexivity|]. vm_compute. discriminate.
Qed.

(** C7 (amended). One frame adds [deltaTime] to the accumulator.  For a
    loop of [loopLength > 0] points and an index [>= 0]: if the sum stays at
    or above [STEP_TIME = 1.0f / 30] through [k] subtractions of
    [STEP_TIME] and is below it after them (possibly [k > 1]), the frame
    returns the accumulator after these [k] subtractions and the index
    advanced [k] times modulo [loopLength].  For [loopLength = 0] the index
    is unchanged and the accumulator keeps the added [deltaTime].  From
    index 0 and accumulator 0, five frames with [deltaTime = 1/30] and
    [loopLength = 5] give the indices 1, 2, 3, 4, 0. *)
Theorem C7_advance_fixed_steps (st : AnimationState Binary32.f32)
    (deltaTime : Binary32.f32) (loopLength : nat) :
  let a0 := fadd (animAccumulator st) deltaTime in
  (forall k fuel,
      (0 < loopLength)%nat ->
      (0 <= animationIndex st)%Z ->
      (animationIndex st + Z.of_nat k < 2 ^ 64)%Z ->
      (forall j, (j < k)%nat -> fleb STEP_TIME (drained j a0) = true) ->
      fleb STEP_TIME (drained k a0) = false ->
      (k < fuel)%nat ->
      advance fuel st deltaTime loopLength
      = Returned (mkAnimationState
                    (if (k =? 0)%nat then animationIndex st
                     else (animationIndex st + Z.of_nat k) mod Z.of_nat loopLength)%Z
                    (drained k a0)))
  /\ (forall fuel,
        advance fuel st deltaTime 0 = Returned (mkAnimationState (animationIndex st) a0))
  /\ frames 2 5 [STEP_TIME; STEP_TIME; STEP_TIME; STEP_TIME; STEP_TIME] initial_state
     = Returned [ mkAnimationState 1 f0; mkAnimationState 2 f0; mkAnimationState 3 f0;
                  mkAnimationState 4 f0; mkAnimationState 0 f0 ].
Proof.
  intros a0. split; [|split].
  - intros k fuel HL Hidx Hmax Hge Hlt Hfuel. unfold advance.
    destruct (Nat.eqb_spec loopLength 0) as [->|_]; [lia|].
    rewrite (step_loop_passes k) by assumption.
    cbn [animationIndex animAccumulator]. f_equal. f_equal.
    destruct k as [|k]; [reflexivity|].
    cbn [Nat.eqb]. apply stepped_index_mod; lia.
  - intros fuel. reflexivity.
  - vm_compute. reflexivity.
Qed.

(** One frame of a quarter of a second makes seven passes: index
    [7 mod 5 = 2], and about half a step stays in the accumulator. *)
Lemma advance_several_steps :
  advance 8 initial_state (quarters 1) 5
  = Returned (mkAnimationState 2 (S754_finite false 8947852 (-29))).
Proof. vm_compute. reflexivity. Qed.

Lemma C7_advance_fixed_steps_witness :
  advance 2 initial_state STEP_TIME 5
  = Returned (mkAnimationState
                ((animationIndex initial_state + Z.of_nat 1) mod Z.of_nat 5)%Z
                (drained 1 (fadd (animAccumulator initial_state) STEP_TIME))).
Proof.
  apply (proj1 (C7_advance_fixed_steps initial_state STEP_TIME 5) 1%nat 2%nat).
  - lia.
  - simpl. lia.
  - simpl. lia.
  - intros j Hj. assert (j = 0%nat) as -> by lia. vm_compute. reflexivity.
  - vm_compute. reflexivity.
  - lia.
Defined.

(** ** [exportAnimationPoints] *)

Lemma string_app_assoc (a b c : string) : ((a ++ b) ++ c = a ++ (b ++ c))%string.
Proof. induction a as [|x a IH]; simpl; [reflexivity|now rewrite IH]. Qed.

Lemma string_app_empty (a : string) : (a ++ "" = a)%string.
Proof. induction a as [|x a IH]; simpl; [reflexivity|now rewrite IH]. Qed.

Lemma has_newline_app (a b : string) :
  has_newline (a ++ b) = has_newline a || has_newline b.
Proof.
  induction a as [|x a IH]; simpl; [reflexivity|]. now rewrite IH, orb_assoc.
Qed.

(** A newline-free piece followed by a newline closes the current line. *)
Lemma lines_from_line (current a rest : string) :
  has_newline a = false ->
  lines_from current (a ++ newline ++ rest)
  = (current ++ a)%string :: lines_from EmptyString rest.
Proof.
  revert current. induction a as [|x a IH]; intros current Ha; simpl in *.
  - now rewrite string_app_empty.
  - apply orb_false_iff in Ha. destruct Ha as [Hx Ha]. rewrite Hx.
    rewrite IH by exact Ha. now rewrite string_app_assoc.
Qed.

Section ExportProofs.
Context {F : Type}.
Variable show_float : F -> string.

(** The loop appends one terminated line per point. *)
Lemma write_points_text (points : list (vec3 F)) (file : string) :
  fold_left (write_point show_float) points file
  = (file ++ fold_right (fun p text => point_line show_float p ++ newline ++ text)
                        EmptyString points)%string.
Proof.
  revert file. induction points as [|p points IH]; intros file; simpl.
  - now rewrite string_app_empty.
  - rewrite IH. unfold write_point, point_line.
    now rewrite !string_app_assoc.
Qed.

Hypothesis show_float_one_line : forall x, has_newline (show_float x) = false.

Lemma point_line_one_line (p : vec3 F) :
  has_newline (point_line show_float p) = false.
Proof.
  unfold point_line. rewrite !has_newline_app, !show_float_one_line. reflexivity.
Qed.

Lemma lines_of_points (points : list (vec3 F)) :
  lines (fold_right (fun p text => point_line show_float p ++ newline ++ text)%string
                    EmptyString points)
  = map (point_line show_float) points.
Proof.
  unfold lines. induction points as [|p points IH]; [reflexivity|].
  cbn [fold_right map].
  rewrite lines_from_line by apply point_line_one_line. now rewrite IH.
Qed.

End ExportProofs.

(** C10. When the file opens, the export writes exactly one line per point,
    in input order, and line [i] holds the coordinates of point [i] in the
    order x, z, y (the second and third components swapped); the formatting
    of a [float] never contains a newline. *)
Theorem C10_export_lines {F : Type} (show_float : F -> string)
    (points : list (vec3 F)) :
  (forall x, has_newline (show_float x) = false) ->
  exists text,
    exportAnimationPoints show_float true points = Some text
    /\ lines text
       = map (fun p => show_float (vx p) ++ " " ++ show_float (vz p) ++ " "
                       ++ show_float (vy p))%string points
    /\ length (lines text) = length points.
Proof.
  intros Hshow. unfold exportAnimationPoints. simpl negb. cbv iota.
  eexists. split; [reflexivity|].
  rewrite write_points_text. simpl append.
  rewrite (lines_of_points show_float Hshow).
  split; [reflexivity|apply length_map].
Qed.

Lemma show_positive_one_line (p : positive) : has_newline (show_positive p) = false.
Proof.
  induction p as [p IH|p IH|]; simpl; [| |reflexivity];
    now rewrite has_newline_app, IH.
Qed.

Lemma show_f32_one_line (x : Binary32.f32) : has_newline (show_f32 x) = false.
Proof.
  destruct x as [[|]|[|]| |s m e]; try reflexivity.
  unfold show_f32. rewrite !has_newline_app, show_positive_one_line.
  assert (He : has_newline (show_Z e) = false).
  { destruct e as [|q|q]; simpl; [reflexivity|apply show_positive_one_line|].
    apply show_positive_one_line. }
  rewrite He. now destruct s.
Qed.

Lemma C10_export_lines_witness :
  exists text,
    exportAnimationPoints show_f32 true [point32 1 2 3; point32 4 5 6] = Some text
    /\ lines text
       = map (fun p => show_f32 (vx p) ++ " " ++ show_f32 (vz p) ++ " "
                       ++ show_f32 (vy p))%string [point32 1 2 3; point32 4 5 6]
    /\ length (lines text) = length [point32 1 2 3; point32 4 5 6].
Proof.
  apply (C10_export_lines show_f32 [point32 1 2 3; point32 4 5 6]).
  exact show_f32_one_line.
Defined.

(** The samples per window for every [pointsPerSegment] from 1 to 100. *)
Lemma f32_samples_per_window (pointsPerSegment : Z) :
  (1 <= pointsPerSegment <= 100)%Z ->
  sample_count 102 (Binary32.div (Binary32.of_int 1) (Binary32.of_int pointsPerSegment))
               (Binary32.of_int 0)
  = Returned (samples_per_window pointsPerSegment).
Proof.
  intros HP.
  assert (Hall : forallb
            (fun n => match sample_count 102
                              (Binary32.div (Binary32.of_int 1) (Binary32.of_int (Z.of_nat n)))
                              (Binary32.of_int 0) with
                      | Returned c => (c =? samples_per_window (Z.of_nat n))%nat
                      | _ => false
                      end)
            (seq 1 100) = true) by (vm_compute; reflexivity).
  rewrite forallb_forall in Hall.
  specialize (Hall (Z.to_nat pointsPerSegment)).
  rewrite Z2Nat.id in Hall by lia.
  destruct (sample_count 102 _ _) as [c| |]; try (discriminate Hall; apply in_seq; lia).
  f_equal. apply Nat.eqb_eq, Hall, in_seq. lia.
Qed.

(** ** The first curve point in binary32 *)

Section FirstPoint.
Import Binary32.

Lemma coordinate_below_split (B : Z) (x : f32) :
  coordinate_below B x = true <-> is_binary32 x = true /\ magnitude_below B x = true.
Proof. unfold coordinate_below. apply andb_true_iff. Qed.

Lemma coordinate_below_le (B B' : Z) (x : f32) :
  (B <= B')%Z -> coordinate_below B x = true -> coordinate_below B' x = true.
Proof.
  intros HB Hx. apply coordinate_below_split in Hx. destruct Hx as [Hv Hm].
  apply coordinate_below_split. split; [assumption|].
  now apply (Float32.magnitude_below_le B).
Qed.

Lemma coordinate_below_finite (B : Z) (x : f32) :
  coordinate_below B x = true -> is_finite x = true.
Proof.
  intros Hx. apply coordinate_below_split in Hx.
  apply (Float32.magnitude_below_finite B), Hx.
Qed.

Lemma coordinate_below_same (B : Z) (x y : f32) :
  same_value x y -> coordinate_below B y = true -> coordinate_below B x = true.
Proof.
  intros [->|[Hx _]] Hy; [assumption|]. now destruct x.
Qed.

Lemma mul_coordinate (Bx By : Z) (x y : f32) :
  (-149 <= Bx + By)%Z -> (Bx + By + 1 <= 128)%Z ->
  coordinate_below Bx x = true -> coordinate_below By y = true ->
  coordinate_below (Bx + By + 1) (mul x y) = true.
Proof.
  intros HB0 HB1 Hx Hy. apply coordinate_below_split in Hx, Hy.
  destruct Hx as [Vx Mx], Hy as [Vy My]. apply coordinate_below_split. split.
  - now apply Float32.mul_binary32.
  - now apply Float32.mul_below.
Qed.

Lemma add_coordinate (B : Z) (x y : f32) :
  (-150 <= B)%Z -> (B + 2 <= 128)%Z ->
  coordinate_below B x = true -> coordinate_below B y = true ->
  coordinate_below (B + 2) (add x y) = true.
Proof.
  intros HB0 HB1 Hx Hy. apply coordinate_below_split in Hx, Hy.
  destruct Hx as [Vx Mx], Hy as [Vy My]. apply coordinate_below_split. split.
  - now apply Float32.add_binary32.
  - now apply Float32.add_below.
Qed.

(** One entry of [G * BSplineMatrix]: four coordinates below [2 ^ B] times
    four matrix entries of absolute value at most [1] stay below
    [2 ^ (B + 8)]. *)
Lemma row_times_column (B : Z) (a0 a1 a2 a3 m0 m1 m2 m3 : f32) :
  (-148 <= B)%Z -> (B + 8 <= 128)%Z ->
  coordinate_below B a0 = true -> coordinate_below B a1 = true ->
  coordinate_below B a2 = true -> coordinate_below B a3 = true ->
  coordinate_below 1 m0 = true -> coordinate_below 1 m1 = true ->
  coordinate_below 1 m2 = true -> coordinate_below 1 m3 = true ->
  coordinate_below (B + 8) (add (add (add (mul a0 m0) (mul a1 m1)) (mul a2 m2)) (mul a3 m3))
  = true.
Proof.
  intros HB0 HB1 A0 A1 A2 A3 M0 M1 M2 M3.
  pose proof (mul_coordinate B 1 a0 m0 ltac:(lia) ltac:(lia) A0 M0) as P0.
  pose proof (mul_coordinate B 1 a1 m1 ltac:(lia) ltac:(lia) A1 M1) as P1.
  pose proof (mul_coordinate B 1 a2 m2 ltac:(lia) ltac:(lia) A2 M2) as P2.
  pose proof (mul_coordinate B 1 a3 m3 ltac:(lia) ltac:(lia) A3 M3) as P3.
  pose proof (add_coordinate (B + 1 + 1) _ _ ltac:(lia) ltac:(lia) P0 P1) as S1.
  pose proof (add_coordinate (B + 1 + 1 + 2) _ _ ltac:(lia) ltac:(lia) S1
                (coordinate_below_le (B + 1 + 1) (B + 1 + 1 + 2) _ ltac:(lia) P2)) as S2.
  pose proof (add_coordinate (B + 1 + 1 + 2 + 2) _ _ ltac:(lia) ltac:(lia) S2
                (coordinate_below_le (B + 1 + 1) (B + 1 + 1 + 2 + 2) _ ltac:(lia) P3)) as S3.
  revert S3. apply coordinate_below_le. lia.
Qed.

(** The entries of [BSplineMatrix]: values of the format, of absolute
    value at most [1]. *)
Lemma BSplineMatrix_entries :
  Forall (fun c => coordinate_below 1 (wx c) = true /\ coordinate_below 1 (wy c) = true
                   /\ coordinate_below 1 (wz c) = true /\ coordinate_below 1 (ww c) = true)
         [c0 (@BSplineMatrix f32 _); c1 (@BSplineMatrix f32 _);
          c2 (@BSplineMatrix f32 _); c3 (@BSplineMatrix f32 _)].
Proof. repeat constructor. Qed.

(** One coordinate of the sample at [t = 0]: the columns of
    [G * BSplineMatrix] that [T(0) = (0, 0, 0, 1)] multiplies by zero drop
    out, and so does the fourth control point, which the last column of
    [BSplineMatrix] multiplies by zero. *)
Lemma first_sample_coordinate (x0 x1 x2 x3 : f32) :
  coordinate_below 120 x0 = true -> coordinate_below 120 x1 = true ->
  coordinate_below 120 x2 = true -> coordinate_below 120 x3 = true ->
  let col c := add (add (add (mul x0 (wx c)) (mul x1 (wy c))) (mul x2 (wz c)))
                   (mul x3 (ww c)) in
  let M := @BSplineMatrix f32 _ in
  let r := add (add (add (mul (col (c0 M)) (mul (mul f0 f0) f0)) (mul (col (c1 M)) (mul f0 f0)))
                    (mul (col (c2 M)) f0))
               (mul (col (c3 M)) f1) in
  same_value r (add (add (mul x0 (div (of_int 1) (of_int 6)))
                         (mul x1 (div (of_int 4) (of_int 6))))
                    (mul x2 (div (of_int 1) (of_int 6))))
  /\ coordinate_below 128 r = true.
Proof.
  intros X0 X1 X2 X3 col M r.
  pose proof BSplineMatrix_entries as HM.
  repeat match goal with
         | HM : Forall _ (_ :: _) |- _ => inversion HM; subst; clear HM
         | HM : Forall _ [] |- _ => clear HM
         end.
  repeat match goal with H : _ /\ _ |- _ => destruct H end.
  assert (Hcol : forall c,
             coordinate_below 1 (wx c) = true -> coordinate_below 1 (wy c) = true ->
             coordinate_below 1 (wz c) = true -> coordinate_below 1 (ww c) = true ->
             coordinate_below 128 (col c) = true).
  { intros c C0 C1 C2 C3. apply (row_times_column 120); assumption || lia. }
  assert (A0 : coordinate_below 128 (col (c0 M)) = true) by (apply Hcol; assumption).
  assert (A1 : coordinate_below 128 (col (c1 M)) = true) by (apply Hcol; assumption).
  assert (A2 : coordinate_below 128 (col (c2 M)) = true) by (apply Hcol; assumption).
  assert (A3 : coordinate_below 128 (col (c3 M)) = true) by (apply Hcol; assumption).
  assert (Hr : same_value r (col (c3 M))).
  { unfold r. change (mul (mul f0 f0) f0) with (S754_zero false).
    change (mul f0 f0) with (S754_zero false). change (@f0 f32 _) with (S754_zero false).
    change (@f1 f32 _) with (of_int 1).
    rewrite (Float32.mul_one_r (col (c3 M)))
      by (apply coordinate_below_split in A3; apply A3).
    apply Float32.add_zero_l. apply Float32.add_zeros; [apply Float32.add_zeros|];
      apply Float32.mul_zero_r; eapply coordinate_below_finite; eassumption. }
  split.
  - apply Float32.same_value_trans with (1 := Hr).
    unfold col. cbn [c3 M BSplineMatrix wx wy wz ww].
    apply Float32.add_zero_r. apply Float32.mul_zero_r.
    eapply coordinate_below_finite; eassumption.
  - apply (coordinate_below_same _ _ _ Hr A3).
Qed.

Lemma point_below_split (B : Z) (p : vec3 f32) :
  point_below B p = true
  <-> coordinate_below B (vx p) = true /\ coordinate_below B (vy p) = true
      /\ coordinate_below B (vz p) = true.
Proof. unfold point_below. rewrite !andb_true_iff. tauto. Qed.

(** The sample at [t = 0] of a window whose control points lie below
    [2 ^ 120]. *)
Lemma first_sample (G : mat4x3 f32) :
  point_below 120 (g0 G) = true -> point_below 120 (g1 G) = true ->
  point_below 120 (g2 G) = true -> point_below 120 (g3 G) = true ->
  same_point (curve_point G f0)
    (vadd (vadd (vscale (g0 G) (fdiv (of_int 1) (of_int 6)))
                (vscale (g1 G) (fdiv (of_int 4) (of_int 6))))
          (vscale (g2 G) (fdiv (of_int 1) (of_int 6))))
  /\ point_below 128 (curve_point G f0) = true.
Proof.
  intros G0 G1 G2 G3. apply point_below_split in G0, G1, G2, G3.
  destruct G0 as (G0x & G0y & G0z), G1 as (G1x & G1y & G1z),
           G2 as (G2x & G2y & G2z), G3 as (G3x & G3y & G3z).
  pose proof (first_sample_coordinate _ _ _ _ G0x G1x G2x G3x) as [Sx Bx].
  pose proof (first_sample_coordinate _ _ _ _ G0y G1y G2y G3y) as [Sy By].
  pose proof (first_sample_coordinate _ _ _ _ G0z G1z G2z G3z) as [Sz Bz].
  split.
  - repeat split; assumption.
  - apply point_below_split. repeat split; assumption.
Qed.

End FirstPoint.

Lemma f32_first_parameter (fuel : nat) (step : Binary32.f32) (c : nat) :
  sample_count fuel step f0 = Returned c ->
  exists ts, sample_params fuel step f0 = f0 :: ts.
Proof.
  destruct fuel as [|fuel]; [discriminate|]. intros _. simpl.
  change (fleb f0 f1) with true. eexists. reflexivity.
Qed.

(** C4 (counterexample).  On four control points at [-3e38], [3e38],
    [-3e38], [3e38] of the x axis with [pointsPerSegment = 4] the call
    returns, but the x coordinate of the first point is a NaN: the second
    column of [G * BSplineMatrix], [0.5 P0 - P1 + 0.5 P2], overflows to
    [-inf], and [T(0)] multiplies it by zero.  The binary32 value of
    [(1/6) P0 + (4/6) P1 + (1/6) P2] is a finite number. *)
Lemma C4_overflow_counterexample :
  exists first rest,
    generateBSplinePoints 6 far_points 4 = Returned (first :: rest)
    /\ vx first = S754_nan
    /\ is_finite (vx (vadd (vadd (vscale (nth 0 far_points vzero) (fdiv (of_int 1) (of_int 6)))
                                 (vscale (nth 1 far_points vzero) (fdiv (of_int 4) (of_int 6))))
                           (vscale (nth 2 far_points vzero) (fdiv (of_int 1) (of_int 6)))))
       = true
    /\ first <> vadd (vadd (vscale (nth 0 far_points vzero) (fdiv (of_int 1) (of_int 6)))
                           (vscale (nth 1 far_points vzero) (fdiv (of_int 4) (of_int 6))))
                     (vscale (nth 2 far_points vzero) (fdiv (of_int 1) (of_int 6))).
Proof.
  eexists. eexists. split; [vm_compute; reflexivity|].
  split; [reflexivity|]. split; [vm_compute; reflexivity|]. vm_compute. discriminate.
Qed.

(** C4 (amended).  In binary32, for at least four control points of which
    the first four have coordinates of absolute value below [2 ^ 120], and a
    positive [pointsPerSegment]: whenever the sampling loop of a window
    comes to an end, as it does for every [pointsPerSegment] up to 100, the
    evaluation returns a curve whose first point (the first window's sample
    at [t = 0], [G * M * T(0)]) has finite coordinates and equals
    [(1/6) P0 + (4/6) P1 + (1/6) P2] as binary32 evaluates it (the quotients
    [1.0f/6.0f] and [4.0f/6.0f], the three products and the two sums rounded
    in turn), up to the sign of a zero coordinate. *)
Theorem C4_first_point (controlPoints : list (vec3 Binary32.f32)) (pointsPerSegment : Z) :
  (4 <= length controlPoints)%nat ->
  Forall (fun p => point_below 120 p = true) (firstn 4 controlPoints) ->
  (0 < pointsPerSegment)%Z ->
  let claimed :=
    vadd (vadd (vscale (nth 0 controlPoints vzero) (fdiv (of_int 1) (of_int 6)))
               (vscale (nth 1 controlPoints vzero) (fdiv (of_int 4) (of_int 6))))
         (vscale (nth 2 controlPoints vzero) (fdiv (of_int 1) (of_int 6))) in
  (forall fuel c,
      sample_count fuel (fdiv f1 (of_int pointsPerSegment)) (@f0 Binary32.f32 _) = Returned c ->
      exists first rest,
        generateBSplinePoints fuel controlPoints pointsPerSegment = Returned (first :: rest)
        /\ same_point first claimed
        /\ point_below 128 first = true)
  /\ ((pointsPerSegment <= 100)%Z ->
      forall fuel, (102 <= fuel)%nat ->
        exists first rest,
          generateBSplinePoints fuel controlPoints pointsPerSegment = Returned (first :: rest)
          /\ same_point first claimed
          /\ point_below 128 first = true).
Proof.
  intros Hk Hb HP claimed.
  assert (Hgen : forall fuel c,
      sample_count fuel (fdiv f1 (of_int pointsPerSegment)) (@f0 Binary32.f32 _) = Returned c ->
      exists first rest,
        generateBSplinePoints fuel controlPoints pointsPerSegment = Returned (first :: rest)
        /\ same_point first claimed
        /\ point_below 128 first = true).
  { intros fuel c Hc.
    rewrite (generateBSplinePoints_params fuel controlPoints pointsPerSegment c Hk Hc).
    destruct (f32_first_parameter fuel _ c Hc) as [ts ->].
    replace (length controlPoints - 3)%nat with (S (length controlPoints - 4)) by lia.
    cbn [seq flat_map map app]. unfold claimed. clear claimed.
    destruct controlPoints as [|p0 [|p1 [|p2 [|p3 rest]]]]; simpl in Hk; try lia.
    cbn [firstn] in Hb.
    inversion Hb as [|? ? H0 Hb1]; subst. inversion Hb1 as [|? ? H1 Hb2]; subst.
    inversion Hb2 as [|? ? H2 Hb3]; subst. inversion Hb3 as [|? ? H3 _]; subst.
    destruct (first_sample (geometry (p0 :: p1 :: p2 :: p3 :: rest) 0) H0 H1 H2 H3)
      as [Hs Hf].
    eexists. eexists. split; [reflexivity|]. split; [exact Hs|exact Hf]. }
  split; [exact Hgen|].
  intros HP100 fuel Hfuel.
  destruct (sample_count_fuel 102 (fuel - 102) _ _ _
              (f32_samples_per_window pointsPerSegment ltac:(lia))) as [Hc _].
  replace (102 + (fuel - 102))%nat with fuel in Hc by lia.
  exact (Hgen fuel _ Hc).
Qed.

Lemma C4_first_point_witness :
  exists first rest,
    generateBSplinePoints 102 scenario_points 4 = Returned (first :: rest)
    /\ same_point first
         (vadd (vadd (vscale (nth 0 scenario_points vzero) (fdiv (of_int 1) (of_int 6)))
                     (vscale (nth 1 scenario_points vzero) (fdiv (of_int 4) (of_int 6))))
               (vscale (nth 2 scenario_points vzero) (fdiv (of_int 1) (of_int 6))))
    /\ point_below 128 first = true.
Proof.
  destruct (C4_first_point scenario_points 4) as [_ Hsmall].
  - simpl. lia.
  - repeat constructor.
  - lia.
  - apply Hsmall; lia.
Defined.

(** The binary32 run of the specification's scenario: fifteen points, the
    first one [(1, 0, 0)], which is also the binary32 value of
    [(1/6) P0 + (4/6) P1 + (1/6) P2]. *)
Lemma scenario_run_f32 :
  exists curvePoints,
    generateBSplinePoints 6 scenario_points 4 = Returned curvePoints
    /\ length curvePoints = 15%nat
    /\ hd vzero curvePoints = point32 1 0 0
    /\ hd vzero curvePoints
       = vadd (vadd (vscale (nth 0 scenario_points vzero) (fdiv (of_int 1) (of_int 6)))
                    (vscale (nth 1 scenario_points vzero) (fdiv (of_int 4) (of_int 6))))
              (vscale (nth 2 scenario_points vzero) (fdiv (of_int 1) (of_int 6))).
Proof.
  eexists. split; [vm_compute; reflexivity|]. repeat split; vm_compute; reflexivity.
Qed.

(** ** Exact arithmetic: vectors over the reals *)

Section RealVectors.
Local Open Scope R_scope.

Lemma vec3_eq (a b : vec3 R) :
  vx a = vx b -> vy a = vy b -> vz a = vz b -> a = b.
Proof. destruct a, b; simpl; intros -> -> ->; reflexivity. Qed.

Lemma dot_self_nonneg (v : vec3 R) : 0 <= dot v v.
Proof. destruct v as [x y z]. vec_ops. nra. Qed.

Lemma dot_self_zero (v : vec3 R) : dot v v = 0 -> v = vzero.
Proof.
  destruct v as [x y z]. vec_ops. intros Hs.
  assert (x = 0) by nra. assert (y = 0) by nra. assert (z = 0) by nra.
  subst. reflexivity.
Qed.

Lemma normalize_dot (v w : vec3 R) :
  dot (normalize v) w = dot v w * (1 / sqrt (dot v v)).
Proof. destruct v, w. vec_ops. ring. Qed.

Lemma dot_comm (v w : vec3 R) : dot v w = dot w v.
Proof. destruct v, w. vec_ops. ring. Qed.

(** A non-zero vector normalizes to a unit vector. *)
Lemma normalize_unit (v : vec3 R) :
  v <> vzero -> dot (normalize v) (normalize v) = 1.
Proof.
  intros Hv.
  assert (Hs : 0 < dot v v).
  { destruct (Rle_lt_or_eq_dec _ _ (dot_self_nonneg v)) as [Hlt|Heq]; [exact Hlt|].
    exfalso. apply Hv, dot_self_zero. now symmetry. }
  rewrite normalize_dot, (dot_comm v), normalize_dot.
  pose proof (sqrt_lt_R0 _ Hs) as Hq.
  pose proof (sqrt_sqrt _ (Rlt_le _ _ Hs)) as Hqq.
  set (q := sqrt (dot v v)) in *. 
  replace (dot v v * (1 / q) * (1 / q)) with (dot v v / (q * q)) by (field; lra).
  rewrite Hqq. field. lra.
Qed.

Lemma normalize_zero : normalize (@vzero R _) = vzero.
Proof. apply vec3_eq; vec_ops; ring. Qed.

Lemma cross_zero_l (w : vec3 R) : cross vzero w = vzero.
Proof. destruct w. apply vec3_eq; vec_ops; ring. Qed.

Lemma cross_dot_l (a b : vec3 R) : dot (cross a b) a = 0.
Proof. destruct a, b. vec_ops. ring. Qed.

Lemma cross_dot_r (a b : vec3 R) : dot (cross a b) b = 0.
Proof. destruct a, b. vec_ops. ring. Qed.

(** Lagrange's identity. *)
Lemma cross_norm (a b : vec3 R) :
  dot (cross a b) (cross a b) = dot a a * dot b b - dot a b * dot a b.
Proof. destruct a, b. vec_ops. ring. Qed.

Lemma triple_product_swap (a b : vec3 R) :
  triple_product b a (cross a b) = - dot (cross a b) (cross a b).
Proof. destruct a, b. vec_ops. ring. Qed.

(** The frame built from a direction [d]: [forward = normalize d],
    [right = normalize (forward x worldUp)], [up = right x forward].  When
    [forward] is not parallel to [worldUp] the three are orthonormal, and
    [(forward, right, up)] has determinant [-1]. *)
Lemma frame_orthonormal (d : vec3 R) :
  let forward := normalize d in
  let right := normalize (cross forward worldUp) in
  let up := cross right forward in
  cross forward worldUp <> vzero ->
  dot forward forward = 1 /\ dot right right = 1 /\ dot up up = 1
  /\ dot forward right = 0 /\ dot forward up = 0 /\ dot right up = 0
  /\ triple_product forward right up = -1.
Proof.
  intros forward right up Hc.
  assert (Hd : d <> vzero).
  { intros ->. apply Hc. unfold forward. now rewrite normalize_zero, cross_zero_l. }
  assert (Hff : dot forward forward = 1) by now apply normalize_unit.
  assert (Hrr : dot right right = 1) by now apply normalize_unit.
  assert (Hrf : dot right forward = 0).
  { unfold right. rewrite normalize_dot, cross_dot_l. ring. }
  assert (Huu : dot up up = 1).
  { unfold up. rewrite cross_norm, Hrr, Hff, Hrf. ring. }
  repeat split.
  - exact Hff.
  - exact Hrr.
  - exact Huu.
  - now rewrite dot_comm.
  - rewrite dot_comm. apply cross_dot_r.
  - rewrite dot_comm. apply cross_dot_l.
  - unfold up. rewrite triple_product_swap. fold up. rewrite Huu. reflexivity.
Qed.

End RealVectors.

(** ** The placement block *)

Section PlacementProofs.
Context {F : Type} `{Scalar F}.

Lemma vector_at_cyclic (loop : list (vec3 F)) (i : Z) :
  loop <> [] ->
  vector_at loop (i mod Z.of_nat (length loop)) = Some (cyclic_point loop i).
Proof.
  intros Hne.
  assert (HN : (0 < Z.of_nat (length loop))%Z) by (destruct loop; simpl; [congruence|lia]).
  pose proof (Z.mod_pos_bound i _ HN) as Hb.
  unfold vector_at, cyclic_point.
  destruct (Z.ltb_spec (i mod Z.of_nat (length loop)) 0) as [Hneg|_]; [lia|].
  apply nth_error_nth'. lia.
Qed.

(** For a non-negative index the block reads the three points in range
    and builds the frame from them. *)
Lemma place_frame (loop : list (vec3 F)) (index : Z) :
  loop <> [] -> (0 <= index)%Z ->
  place loop index
  = Some (mkFrame (cyclic_point loop index)
                  (tangent loop index)
                  (normalize (cross (tangent loop index) worldUp))
                  (cross (normalize (cross (tangent loop index) worldUp))
                         (tangent loop index))).
Proof.
  intros Hne Hidx.
  assert (HN : (0 < Z.of_nat (length loop))%Z) by (destruct loop; simpl; [congruence|lia]).
  unfold place, tangent.
  set (N := Z.of_nat (length loop)) in *.
  pose proof (Z.mod_pos_bound index N HN) as Hb.
  rewrite (Z.rem_mod_nonneg index N) by lia.
  rewrite (Z.rem_mod_nonneg (index mod N - 1 + N) N) by lia.
  rewrite (Z.rem_mod_nonneg (index mod N + 1) N) by lia.
  unfold N. rewrite !vector_at_cyclic by exact Hne. fold N.
  replace (cyclic_point loop (index mod N)) with (cyclic_point loop index)
    by (unfold cyclic_point; fold N; now rewrite Z.mod_mod by lia).
  reflexivity.
Qed.

(** A negative index that is not a multiple of the length makes the block
    read [animationPositions[idx]] with [idx < 0]. *)
Lemma place_negative_index (loop : list (vec3 F)) (index : Z) :
  (Z.rem index (Z.of_nat (length loop)) < 0)%Z -> place loop index = None.
Proof.
  intros Hneg. unfold place.
  destruct (vector_at loop (Z.rem (Z.rem index (Z.of_nat (length loop)) - 1
                                   + Z.of_nat (length loop)) (Z.of_nat (length loop))));
    [|reflexivity].
  unfold vector_at at 1.
  destruct (Z.ltb_spec (Z.rem index (Z.of_nat (length loop))) 0); [reflexivity|lia].
Qed.

End PlacementProofs.

(** C5 (the failing input).  On the loop [(0,0,0), (1,0,0), (2,0,0)] at
    index 1, in binary32 (every step of this run is exact): forward =
    (1,0,0) is not parallel to worldUp, the placement returns position =
    loop[1] and the frame forward = (1,0,0), right = (0,0,1), up = (0,1,0);
    the three vectors have length 1 and are perpendicular to each other,
    but the determinant of (forward, right, up), which is also that of the
    columns (right, up, forward) of [rot], is [-1]: the basis is
    left-handed, and [rot] is a reflection, not a rotation. *)
Theorem C5_frame_left_handed :
  exists fr,
    place straight_loop 1 = Some fr
    /\ cross (fr_forward fr) worldUp = point32 0 0 1
    /\ fr_position fr = point32 1 0 0
    /\ fr_forward fr = point32 1 0 0
    /\ fr_right fr = point32 0 0 1
    /\ fr_up fr = point32 0 1 0
    /\ dot (fr_forward fr) (fr_forward fr) = Binary32.of_int 1
    /\ dot (fr_right fr) (fr_right fr) = Binary32.of_int 1
    /\ dot (fr_up fr) (fr_up fr) = Binary32.of_int 1
    /\ dot (fr_forward fr) (fr_right fr) = Binary32.of_int 0
    /\ dot (fr_forward fr) (fr_up fr) = Binary32.of_int 0
    /\ dot (fr_right fr) (fr_up fr) = Binary32.of_int 0
    /\ triple_product (fr_forward fr) (fr_right fr) (fr_up fr) = Binary32.of_int (-1)
    /\ triple_product (fr_right fr) (fr_up fr) (fr_forward fr) = Binary32.of_int (-1)
    /\ rotation_of fr
       = mkmat4 (column32 0 0 4 0) (column32 0 4 0 0) (column32 4 0 0 0) (column32 0 0 0 4).
Proof.
  eexists. split; [vm_compute; reflexivity|].
  repeat split; vm_compute; reflexivity.
Qed.

Lemma straight_loop_R_tangent :
  tangent straight_loop_R 1 = normalize (vsub (pointR 2 0 0) (pointR 0 0 0)).
Proof. reflexivity. Qed.

Lemma straight_loop_R_not_parallel :
  cross (tangent straight_loop_R 1) worldUp <> vzero.
Proof.
  rewrite straight_loop_R_tangent.
  intros Heq. apply (f_equal vz) in Heq. revert Heq.
  unfold pointR. vec_ops.
  set (q := sqrt _).
  assert (Hq : (0 < q)%R) by (apply sqrt_lt_R0; lra).
  assert (Hi : (0 < 1 / q)%R) by (apply Rdiv_lt_0_compat; lra).
  intros Heq. nra.
Qed.

(** ** The model matrix of the car *)

Section RealModelMatrix.
Local Open Scope R_scope.

(** A rotation by the angle [0] changes nothing, whatever the axis. *)
Lemma rotate_zero (m : mat4 R) (v : vec3 R) : rotate m 0 v = m.
Proof.
  destruct m as [[a0 a1 a2 a3] [b0 b1 b2 b3] [d0 d1 d2 d3] [e0 e1 e2 e3]].
  mat_ops. rewrite cos_0, sin_0. f_equal; f_equal; ring.
Qed.

Lemma radians_zero : radians (0 : R) = 0.
Proof. unfold radians. real_ops. ring. Qed.

(** With [obj.angle = (0, 0, 0)] the statements after the [if]/[else]
    reduce to the second [glm::scale]. *)
Lemma apply_angle_zero (obj : Object3D R) (model : mat4 R) :
  angle obj = vzero ->
  apply_angle_and_scale obj model = glm_scale model (scale obj).
Proof.
  intros Ha. unfold apply_angle_and_scale. rewrite Ha. cbn [vzero vx vy vz].
  change (@f0 R R_scalar) with 0. now rewrite radians_zero, !rotate_zero.
Qed.

(** The first column of [T * R * S] is [right * scale.x]. *)
Lemma carro_TRS_first_column (obj : Object3D R) (fr : Frame R) :
  c0 (carro_TRS obj fr)
  = mkvec4 (vx (fr_right fr) * vx (scale obj)) (vy (fr_right fr) * vx (scale obj))
           (vz (fr_right fr) * vx (scale obj)) 0.
Proof.
  destruct fr as [[px py pz] [fx fy fz] [rx ry rz] [ux uy uz]].
  destruct obj as [nm [sx sy sz] pos ang pts]. cbn [scale].
  mat_ops. f_equal; ring.
Qed.

(** For the car (three animation points at least, index [>= 0]) with
    [angle = 0] the matrix sent to the shader is [T * R * S] scaled once
    more. *)
Lemma carro_model_scaled_again (obj : Object3D R) (index : Z) :
  name obj = "Carro"%string ->
  (3 <= length (animationPositions obj))%nat ->
  (0 <= index)%Z ->
  angle obj = vzero ->
  exists fr,
    place (animationPositions obj) index = Some fr
    /\ fr_right fr = normalize (cross (tangent (animationPositions obj) index) worldUp)
    /\ model_matrix obj index
       = Some (glm_scale (carro_TRS obj fr) (scale obj)).
Proof.
  intros Hname Hlen Hidx Ha.
  assert (Hne : animationPositions obj <> [])
    by (destruct (animationPositions obj); simpl in Hlen; [lia|congruence]).
  eexists. split; [apply (place_frame _ index Hne Hidx)|]. split; [reflexivity|].
  unfold model_matrix. rewrite Hname.
  destruct (Nat.leb_spec 3 (length (animationPositions obj))) as [_|Hlt]; [|lia].
  cbn [String.eqb Ascii.eqb Bool.eqb andb].
  rewrite (place_frame _ index Hne Hidx). now rewrite apply_angle_zero.
Qed.

End RealModelMatrix.

(** C6 (the failing input).  The car as [generateSceneFile] writes it
    (scale 0.5, angle 0) on the loop [(0,0,0), (1,0,0), (2,0,0)] at index 1.
    The matrix sent to the shader is [T * R * S] scaled a second time, which
    differs from [T * R * S]; in binary32 (where every step of this run is
    exact) its columns are (0,0,1/4,0), (0,1/4,0,0), (1/4,0,0,0), (1,0,0,1),
    while [T * R * S] has (0,0,1/2,0), (0,1/2,0,0), (1/2,0,0,0), (1,0,0,1). *)
Theorem C6_carro_scaled_twice :
  (exists fr,
      place (animationPositions carro_R) 1 = Some fr
      /\ model_matrix carro_R 1 = Some (glm_scale (carro_TRS carro_R fr) (scale carro_R))
      /\ model_matrix carro_R 1 <> Some (carro_TRS carro_R fr))
  /\ (exists fr,
        place (animationPositions carro) 1 = Some fr
        /\ carro_TRS carro fr
           = mkmat4 (column32 0 0 2 0) (column32 0 2 0 0) (column32 2 0 0 0) (column32 4 0 0 4)
        /\ model_matrix (H0 := sample_trig) carro 1
           = Some (mkmat4 (column32 0 0 1 0) (column32 0 1 0 0) (column32 1 0 0 0)
                          (column32 4 0 0 4))).
Proof.
  split.
  - destruct (carro_model_scaled_again carro_R 1) as (fr & Hplace & Hright & Hmodel);
      [reflexivity|simpl; lia|lia|reflexivity|].
    exists fr. split; [exact Hplace|]. split; [exact Hmodel|].
    rewrite Hmodel. intros Heq.
    apply (f_equal (fun o => match o with Some m => c0 m | None => c0 mat4_identity end)) in Heq.
    unfold glm_scale in Heq. cbn [c0] in Heq.
    rewrite carro_TRS_first_column in Heq. unfold v4scale in Heq.
    cbn [wx wy wz ww scale carro_R vx] in Heq.
    change (@fmul R R_scalar) with Rmult in Heq.
    injection Heq as Hx Hy Hz _.
    pose proof (frame_orthonormal (vsub (pointR 2 0 0) (pointR 0 0 0))) as Hframe.
    cbv zeta in Hframe. rewrite <- straight_loop_R_tangent in Hframe.
    destruct (Hframe straight_loop_R_not_parallel) as (_ & Hrr & _).
    change (animationPositions carro_R) with straight_loop_R in Hright.
    rewrite <- Hright in Hrr. revert Hrr. destruct (fr_right fr) as [rx ry rz].
    cbn [vx vy vz] in *. vec_ops. intros Hrr. nra.
  - eexists. split; [vm_compute; reflexivity|]. split; vm_compute; reflexivity.
Qed.

(** ** Further properties of the pipeline *)

(** X1. Fewer than four control points give an empty curve, whatever
    [pointsPerSegment]. *)
Theorem X1_few_control_points {F : Type} `{Scalar F}
    (controlPoints : list (vec3 F)) (pointsPerSegment : Z) (fuel : nat) :
  (length controlPoints < 4)%nat ->
  generateBSplinePoints fuel controlPoints pointsPerSegment = Returned [].
Proof. apply generateBSplinePoints_few. Qed.

Lemma X1_few_control_points_witness :
  generateBSplinePoints 0 (firstn 3 scenario_points) 4 = Returned [].
Proof.
  apply (X1_few_control_points (firstn 3 scenario_points) 4 0). simpl. lia.
Defined.

(** X2. In binary32 with [pointsPerSegment = 4] ([step = 0.25f], exact)
    every window yields five samples: [k >= 4] control points give
    [(k - 3) * (4 + 1)] curve points. *)
Theorem X2_four_per_segment (controlPoints : list (vec3 Binary32.f32)) (fuel : nat) :
  (4 <= length controlPoints)%nat ->
  (6 <= fuel)%nat ->
  exists curvePoints,
    generateBSplinePoints fuel controlPoints 4 = Returned curvePoints
    /\ length curvePoints = ((length controlPoints - 3) * (4 + 1))%nat.
Proof.
  intros Hk Hfuel.
  destruct (sample_count_fuel 6 (fuel - 6) _ _ _ f32_four_steps) as [Hc _].
  replace (6 + (fuel - 6))%nat with fuel in Hc by lia.
  exact (generateBSplinePoints_count fuel controlPoints 4 5 Hk Hc).
Qed.

Lemma X2_four_per_segment_witness :
  exists curvePoints,
    generateBSplinePoints 6 scenario_points 4 = Returned curvePoints
    /\ length curvePoints = ((length scenario_points - 3) * (4 + 1))%nat.
Proof.
  apply (X2_four_per_segment scenario_points 6); simpl; lia.
Defined.

(** X3. In binary32, for every [pointsPerSegment = P] from 1 to 100 the
    evaluation of [k >= 4] control points returns, with
    [(k - 3) * (P + 1)] curve points, except for the 33 values of [P]
    listed in [overshooting_segments] (10, 11, 14, ...), for which the
    accumulated parameter steps over [1] and the curve has [(k - 3) * P]
    points. *)
Theorem X3_point_count_table (controlPoints : list (vec3 Binary32.f32))
    (pointsPerSegment : Z) (fuel : nat) :
  (4 <= length controlPoints)%nat ->
  (1 <= pointsPerSegment <= 100)%Z ->
  (102 <= fuel)%nat ->
  exists curvePoints,
    generateBSplinePoints fuel controlPoints pointsPerSegment = Returned curvePoints
    /\ length curvePoints
       = ((length controlPoints - 3)
          * (if existsb (Z.eqb pointsPerSegment) overshooting_segments
             then Z.to_nat pointsPerSegment
             else Z.to_nat pointsPerSegment + 1))%nat.
Proof.
  intros Hk HP Hfuel.
  destruct (sample_count_fuel 102 (fuel - 102) _ _ _ (f32_samples_per_window _ HP))
    as [Hc _].
  replace (102 + (fuel - 102))%nat with fuel in Hc by lia.
  exact (generateBSplinePoints_count fuel controlPoints pointsPerSegment _ Hk Hc).
Qed.

Lemma X3_point_count_table_witness :
  exists curvePoints,
    generateBSplinePoints 102 scenario_points 11 = Returned curvePoints
    /\ length curvePoints
       = ((length scenario_points - 3)
          * (if existsb (Z.eqb 11) overshooting_segments
             then Z.to_nat 11
             else Z.to_nat 11 + 1))%nat.
Proof.
  apply (X3_point_count_table scenario_points 11 102); simpl; lia.
Defined.

(** X4. In binary32 with [pointsPerSegment = 50] (the value [key_callback]
    passes) and [100] (the value written to the scene file) every window
    yields [pointsPerSegment + 1] samples. *)
Theorem X4_program_segment_counts (controlPoints : list (vec3 Binary32.f32)) (fuel : nat) :
  (4 <= length controlPoints)%nat ->
  (102 <= fuel)%nat ->
  (exists curvePoints,
     generateBSplinePoints fuel controlPoints 50 = Returned curvePoints
     /\ length curvePoints = ((length controlPoints - 3) * (50 + 1))%nat)
  /\ (exists curvePoints,
        generateBSplinePoints fuel controlPoints 100 = Returned curvePoints
        /\ length curvePoints = ((length controlPoints - 3) * (100 + 1))%nat).
Proof.
  intros Hk Hfuel. split.
  - destruct (sample_count_fuel 52 (fuel - 52) _ _ _ f32_fifty_steps) as [Hc _].
    replace (52 + (fuel - 52))%nat with fuel in Hc by lia.
    exact (generateBSplinePoints_count fuel controlPoints 50 51 Hk Hc).
  - destruct (sample_count_fuel 102 (fuel - 102) _ _ _ f32_hundred_steps) as [Hc _].
    replace (102 + (fuel - 102))%nat with fuel in Hc by lia.
    exact (generateBSplinePoints_count fuel controlPoints 100 101 Hk Hc).
Qed.

Lemma X4_program_segment_counts_witness :
  (exists curvePoints,
     generateBSplinePoints 102 scenario_points 50 = Returned curvePoints
     /\ length curvePoints = ((length scenario_points - 3) * (50 + 1))%nat)
  /\ (exists curvePoints,
        generateBSplinePoints 102 scenario_points 100 = Returned curvePoints
        /\ length curvePoints = ((length scenario_points - 3) * (100 + 1))%nat).
Proof.
  apply (X4_program_segment_counts scenario_points 102); simpl; lia.
Defined.

(** X5. Every vertex of the track mesh carries the normal (0, 0, 1) and
    texture coordinates in [{0, 1}]; on the unit square with width 2 the
    mesh has 16 vertices and 24 index entries. *)
Theorem X5_mesh_normals {F : Type} `{Scalar F} `{Trig F}
    (loop : list (vec3 F)) (width : F)
    (vertices : list (Vertex F)) (indices : list Z) :
  Forall (fun v => (vtx_nx v, vtx_ny v, vtx_nz v) = (f0, f0, f1)
                   /\ (vtx_s v = f0 \/ vtx_s v = f1)
                   /\ (vtx_t v = f0 \/ vtx_t v = f1))
         (fst (generateTrackMesh loop width vertices indices)).
Proof.
  destruct (Nat.ltb_spec (length loop) 2) as [Hlt|Hge].
  - rewrite generateTrackMesh_degenerate by exact Hlt. constructor.
  - rewrite generateTrackMesh_quads by exact Hge. cbn [fst].
    apply Forall_forall. intros v Hv.
    apply in_flat_map in Hv. destruct Hv as (i & _ & Hv).
    unfold quad_vertices, track_vertex in Hv. cbn [In] in Hv.
    destruct Hv as [<-|[<-|[<-|[<-|[]]]]]; cbn; auto.
Qed.

Lemma square_extrusion_sizes (T : Trig Binary32.f32) :
  let mesh := generateTrackMesh square_loop (Binary32.of_int 2) [] [] in
  length (fst mesh) = 16%nat /\ length (snd mesh) = 24%nat.
Proof.
  intros mesh. unfold mesh.
  rewrite generateTrackMesh_quads by (simpl; lia). split; reflexivity.
Qed.

(** X6. The specification's placement scenario in binary32: on the loop
    [(0,0,0), (1,0,0), (1,1,0)] at index 1 the position is (1,0,0) and
    forward is (1,1,0) normalized, both components [0x3F3504F3].  The
    squared lengths of forward, right and up are [1 - 2^-24], [1 - 2^-23]
    and [1 - 3 * 2^-24], the pairwise dot products are exactly 0, and the
    determinant of (forward, right, up) is [-(1 - 3 * 2^-24)]. *)
Theorem X6_placement_scenario :
  exists fr,
    place corner_loop 1 = Some fr
    /\ fr_position fr = point32 1 0 0
    /\ fr_forward fr
       = mkvec3 (S754_finite false 11863283 (-24)) (S754_finite false 11863283 (-24))
                (S754_zero false)
    /\ dot (fr_forward fr) (fr_forward fr) = S754_finite false 16777215 (-24)
    /\ dot (fr_right fr) (fr_right fr) = S754_finite false 16777214 (-24)
    /\ dot (fr_up fr) (fr_up fr) = S754_finite false 16777213 (-24)
    /\ dot (fr_forward fr) (fr_right fr) = S754_zero false
    /\ dot (fr_forward fr) (fr_up fr) = S754_zero false
    /\ dot (fr_right fr) (fr_up fr) = S754_zero false
    /\ triple_product (fr_forward fr) (fr_right fr) (fr_up fr)
       = S754_finite true 16777213 (-24).
Proof.
  eexists. split; [vm_compute; reflexivity|]. repeat split; vm_compute; reflexivity.
Qed.

(** X7. The placement treats the points as a closed loop: for an index
    [>= 0], going once around ([index + N]) gives the same frame. *)
Theorem X7_placement_periodic {F : Type} `{Scalar F}
    (loop : list (vec3 F)) (index : Z) :
  loop <> [] -> (0 <= index)%Z ->
  place loop (index + Z.of_nat (length loop)) = place loop index.
Proof.
  intros Hne Hidx.
  assert (HN : (0 < Z.of_nat (length loop))%Z) by (destruct loop; simpl; [congruence|lia]).
  rewrite !place_frame by (assumption || lia).
  assert (Hm : ((index + Z.of_nat (length loop)) mod Z.of_nat (length loop)
                = index mod Z.of_nat (length loop))%Z).
  { replace (index + Z.of_nat (length loop))%Z
      with (index + 1 * Z.of_nat (length loop))%Z by lia.
    apply Z.mod_add. lia. }
  unfold tangent, cyclic_point. now rewrite !Hm.
Qed.

Lemma X7_placement_periodic_witness :
  place corner_loop (1 + Z.of_nat (length corner_loop)) = place corner_loop 1.
Proof.
  apply (X7_placement_periodic corner_loop 1); [discriminate|lia].
Defined.

(** X9. The ribbon is closed: for [n >= 2] the last quad ends on the
    first quad's points, outer[0] and inner[0]. *)
Theorem X9_last_quad_closes {F : Type} `{Scalar F} `{Trig F}
    (loop : list (vec3 F)) (width : F)
    (vertices : list (Vertex F)) (indices : list Z) :
  let n := length loop in
  (2 <= n)%nat ->
  chunk 4 (n - 1) (fst (generateTrackMesh loop width vertices indices))
  = [ track_vertex (inner_point loop width (n - 1)) f0 f0;
      track_vertex (outer_point loop width (n - 1)) f1 f0;
      track_vertex (outer_point loop width 0) f1 f1;
      track_vertex (inner_point loop width 0) f0 f1 ].
Proof.
  intros n Hn. rewrite generateTrackMesh_quads by exact Hn. cbn [fst]. fold n.
  rewrite (chunk_flat_map_seq _ 4) by (auto using quad_vertices_length || lia).
  unfold quad_vertices, successor. fold n.
  replace (n - 1 + 1)%nat with n by lia. now rewrite Nat.Div0.mod_same.
Qed.

Lemma X9_last_quad_closes_witness :
  chunk 4 (4 - 1)
    (fst (generateTrackMesh (H0 := sample_trig) square_loop (Binary32.of_int 2) [] []))
  = [ track_vertex (inner_point (H0 := sample_trig) square_loop (Binary32.of_int 2) (4 - 1)) f0 f0;
      track_vertex (outer_point (H0 := sample_trig) square_loop (Binary32.of_int 2) (4 - 1)) f1 f0;
      track_vertex (outer_point (H0 := sample_trig) square_loop (Binary32.of_int 2) 0) f1 f1;
      track_vertex (inner_point (H0 := sample_trig) square_loop (Binary32.of_int 2) 0) f0 f1 ].
Proof.
  apply (X9_last_quad_closes (H0 := sample_trig) square_loop (Binary32.of_int 2) [] []).
  simpl. lia.
Defined.

(** * GeometryObjects.hpp *)

(** ** The constructors of [Mesh] *)

Lemma fold_left_none {A B : Type} (f : option A -> B -> option A) (l : list B) :
  (forall b, f None b = None) -> fold_left f l None = None.
Proof.
  intros Hf. induction l as [|b l IH]; simpl; [reflexivity|]. now rewrite Hf.
Qed.

Lemma for_loop_none {A : Type} (body : nat -> option A -> option A) (n : nat) :
  (forall i, body i None = None) -> for_loop n body None = None.
Proof.
  intros Hb. unfold for_loop. apply fold_left_none. intros b. apply Hb.
Qed.

Lemma vector_at_nth_error {A : Type} (l : list A) (i : nat) :
  vector_at l (Z.of_nat i) = nth_error l i.
Proof.
  unfold vector_at. destruct (Z.ltb_spec (Z.of_nat i) 0) as [Hlt|_]; [lia|].
  now rewrite Nat2Z.id.
Qed.

Lemma vector_at_in_range {A : Type} (l : list A) (idx : Z) :
  (0 <= idx < Z.of_nat (length l))%Z <-> vector_at l idx <> None.
Proof.
  unfold vector_at. destruct (Z.ltb_spec idx 0) as [Hlt|Hge].
  - split; [lia|congruence].
  - rewrite nth_error_Some. lia.
Qed.

Lemma vector_at_map {A B : Type} (f : A -> B) (l : list A) (idx : Z) :
  vector_at (map f l) idx = option_map f (vector_at l idx).
Proof.
  unfold vector_at. destruct (idx <? 0)%Z; [reflexivity|]. apply nth_error_map.
Qed.

Section MeshProofs.
Context {F : Type}.
Import GeometryObjects.

(** The loop over the index triples runs [size / 3] times, at
    [i = 0, 3, 6, ...]. *)
Lemma triangle_starts_from (fuel i size : nat) :
  ((size - i) / 3 <= fuel)%nat ->
  triangle_starts fuel i size
  = map (fun j => (i + 3 * j)%nat) (seq 0 ((size - i) / 3)).
Proof.
  revert i. induction fuel as [|fuel IH]; intros i Hfuel.
  - assert (Hz : ((size - i) / 3 = 0)%nat) by lia. now rewrite Hz.
  - cbn [triangle_starts]. destruct (Nat.ltb_spec (i + 2) size) as [Hlt|Hge].
    + assert (Hq : ((size - i) / 3 = S ((size - (i + 3)) / 3))%nat).
      { replace (size - i)%nat with (1 * 3 + (size - (i + 3)))%nat by lia.
        rewrite Nat.div_add_l by lia. lia. }
      rewrite Hq in *. rewrite IH by lia.
      cbn [seq map]. f_equal; [lia|].
      rewrite <- seq_shift, map_map. apply map_ext. intros j. lia.
    + assert (Hz : ((size - i) / 3 = 0)%nat) by (apply Nat.div_small; lia).
      now rewrite Hz.
Qed.

Lemma triangle_starts_all (size : nat) :
  triangle_starts size 0 size = map (fun j => (3 * j)%nat) (seq 0 (size / 3)).
Proof.
  rewrite triangle_starts_from; rewrite Nat.sub_0_r.
  - reflexivity.
  - apply Nat.Div0.div_le_upper_bound. lia.
Qed.


Lemma chunk3_entries {A : Type} (l : list A) (j : nat) :
  (3 * j + 2 < length l)%nat ->
  exists a b c,
    chunk 3 j l = [a; b; c]
    /\ nth_error l (3 * j + 0) = Some a
    /\ nth_error l (3 * j + 1) = Some b
    /\ nth_error l (3 * j + 2) = Some c.
Proof.
  intros Hj. unfold chunk.
  rewrite <- !nth_error_skipn.
  pose proof (length_skipn (3 * j) l) as Hlen.
  destruct (skipn (3 * j) l) as [|a [|b [|c r]]]; simpl in Hlen; try lia.
  exists a, b, c. repeat split.
Qed.

Lemma select_in_range {A B : Type} (f : A -> B) (W : list A) (idxs : list Z) :
  Forall (fun ix => 0 <= ix < Z.of_nat (length W))%Z idxs ->
  length (select (map f W) idxs) = length idxs.
Proof.
  induction 1 as [|ix idxs Hix _ IH]; [reflexivity|].
  unfold select in *. cbn [flat_map]. rewrite length_app, IH.
  apply vector_at_in_range in Hix. rewrite vector_at_map.
  destruct (vector_at W ix); [reflexivity|congruence].
Qed.

Lemma triangle_body_in_range (W : list (Vertex F)) (idxs : list Z)
    (g : Group F) (j : nat) :
  (3 * j + 2 < length idxs)%nat ->
  Forall (fun ix => 0 <= ix < Z.of_nat (length W))%Z (chunk 3 j idxs) ->
  triangle_body (positions_of W) (mappings_of W) (normals_of W) idxs (Some g) (3 * j)
  = Some (addFace g (face_of (positions_of W) (mappings_of W) (normals_of W)
                             (chunk 3 j idxs))).
Proof.
  intros Hj Hrange.
  destruct (chunk3_entries idxs j Hj) as (a & b & c & Hchunk & Ha & Hb & Hc).
  rewrite Hchunk in *.
  inversion Hrange as [|? ? Hra Hr1]; subst. inversion Hr1 as [|? ? Hrb Hr2]; subst.
  inversion Hr2 as [|? ? Hrc _]; subst.
  apply vector_at_in_range in Hra, Hrb, Hrc.
  unfold triangle_body, for_loop. cbn [seq fold_left].
  unfold corner_body, positions_of, mappings_of, normals_of, face_of, select.
  rewrite Ha, Hb, Hc. rewrite !vector_at_map. cbn [flat_map]. rewrite !vector_at_map.
  destruct (vector_at W a); [|congruence].
  destruct (vector_at W b); [|congruence].
  destruct (vector_at W c); [|congruence].
  reflexivity.
Qed.

Lemma triangle_body_out_of_range (W : list (Vertex F)) (idxs : list Z)
    (g : option (Group F)) (j : nat) :
  ~ Forall (fun ix => 0 <= ix < Z.of_nat (length W))%Z (chunk 3 j idxs) ->
  triangle_body (positions_of W) (mappings_of W) (normals_of W) idxs g (3 * j) = None.
Proof.
  intros Hbad. unfold triangle_body. destruct g as [g|]; [|reflexivity].
  destruct (Nat.lt_ge_cases (3 * j + 2) (length idxs)) as [Hj|Hj].
  - destruct (chunk3_entries idxs j Hj) as (a & b & c & Hchunk & Ha & Hb & Hc).
    rewrite Hchunk in Hbad.
    unfold for_loop. cbn [seq fold_left].
    unfold corner_body, positions_of, mappings_of, normals_of.
    rewrite Ha, Hb, Hc, !vector_at_map.
    destruct (vector_at W a) eqn:Ea; [|reflexivity].
    destruct (vector_at W b) eqn:Eb; [|reflexivity].
    destruct (vector_at W c) eqn:Ec; [|reflexivity].
    exfalso. apply Hbad.
    repeat (apply Forall_cons; [apply vector_at_in_range; congruence|]).
    apply Forall_nil.
  - unfold for_loop. cbn [seq fold_left]. unfold corner_body at 1.
    replace (nth_error idxs (3 * j + 2)) with (@None Z)
      by (symmetry; apply nth_error_None; lia).
    now destruct (corner_body _ _ _ _ _ _ _).
Qed.

Lemma triangles_fold (W : list (Vertex F)) (idxs : list Z) (g : Group F) (k : nat) :
  (3 * k <= length idxs)%nat ->
  (forall j, (j < k)%nat ->
     Forall (fun ix => 0 <= ix < Z.of_nat (length W))%Z (chunk 3 j idxs)) ->
  fold_left (triangle_body (positions_of W) (mappings_of W) (normals_of W) idxs)
            (map (fun j => (3 * j)%nat) (seq 0 k)) (Some g)
  = Some (mkGroup (name g) (mtlName g)
            (faces g ++ map (fun j => face_of (positions_of W) (mappings_of W)
                                              (normals_of W) (chunk 3 j idxs))
                            (seq 0 k))).
Proof.
  induction k as [|k IH]; intros Hk Hrange.
  - cbn [seq map fold_left]. rewrite app_nil_r. now destruct g.
  - rewrite seq_S, !map_app, fold_left_app, IH by (try lia; intros; apply Hrange; lia).
    cbn [map fold_left Nat.add].
    rewrite triangle_body_in_range by (try lia; apply Hrange; lia).
    unfold addFace. cbn [name mtlName faces]. now rewrite <- app_assoc.
Qed.

Lemma triangles_fold_none (W : list (Vertex F)) (idxs : list Z)
    (g : option (Group F)) (k j : nat) :
  (j < k)%nat ->
  ~ Forall (fun ix => 0 <= ix < Z.of_nat (length W))%Z (chunk 3 j idxs) ->
  fold_left (triangle_body (positions_of W) (mappings_of W) (normals_of W) idxs)
            (map (fun j => (3 * j)%nat) (seq 0 k)) g
  = None.
Proof.
  intros Hj Hbad.
  replace k with (j + S (k - S j))%nat by lia.
  rewrite seq_app, map_app, fold_left_app. cbn [seq map fold_left Nat.add].
  rewrite (triangle_body_out_of_range W idxs _ j Hbad).
  apply fold_left_none. reflexivity.
Qed.


Lemma skipn_nth_error {A : Type} (l : list A) (a : nat) (e : A) :
  nth_error l a = Some e -> skipn a l = e :: skipn (S a) l.
Proof.
  revert a. induction l as [|b l IH]; intros [|a] Ha; try discriminate.
  - injection Ha as ->. reflexivity.
  - cbn [nth_error] in Ha. now rewrite skipn_cons, (IH a Ha).
Qed.

(** The entries at [a, a + 1, ..., a + m - 1] are a block of the list. *)
Lemma select_block {A : Type} (l : list A) (a m : nat) :
  (a + m <= length l)%nat ->
  select l (map Z.of_nat (seq a m)) = firstn m (skipn a l).
Proof.
  revert a. induction m as [|m IH]; intros a Ham; [reflexivity|].
  destruct (nth_error l a) as [e|] eqn:Ea.
  2:{ apply nth_error_None in Ea. lia. }
  unfold select in *. cbn [seq map flat_map].
  rewrite vector_at_nth_error, Ea, (skipn_nth_error l a e Ea), IH by lia.
  reflexivity.
Qed.

Lemma firstn_seq_le (c a m : nat) :
  (c <= m)%nat -> firstn c (seq a m) = seq a c.
Proof.
  intros Hc. replace m with (c + (m - c))%nat by lia.
  rewrite seq_app, firstn_app, length_seq, Nat.sub_diag, firstn_O, app_nil_r.
  apply firstn_all2. rewrite length_seq. lia.
Qed.

Lemma chunk_map_seq {B : Type} (f : nat -> B) (c j n : nat) :
  (c * j + c <= n)%nat ->
  chunk c j (map f (seq 0 n)) = map f (seq (c * j) c).
Proof.
  intros Hj. unfold chunk.
  rewrite skipn_map, firstn_map, skipn_seq, firstn_seq_le by lia. reflexivity.
Qed.

Lemma iota_small (n : nat) :
  (Z.of_nat n <= 2 ^ 32)%Z -> iota n = map Z.of_nat (seq 0 n).
Proof.
  intros Hn. unfold iota. apply map_ext_in. intros i Hi. apply in_seq in Hi.
  unfold uint32. apply Z.mod_small. lia.
Qed.

(** Interleaving three vectors, entry by entry. *)
Lemma interleave_loop (verts : list (Vec3 F)) (maps : list (Vec2 F))
    (norms : list (Vec3 F)) (n a : nat) (acc : list (Vertex F)) :
  (a + n <= length verts)%nat -> (a + n <= length maps)%nat ->
  (a + n <= length norms)%nat ->
  fold_left (fun st i => interleave_body verts maps norms i st) (seq a n) (Some acc)
  = Some (acc ++ map (fun '(p, (t, m)) =>
                        mkVertex (x p) (y p) (z p) (u t) (v t) (x m) (y m) (z m))
                     (combine (firstn n (skipn a verts))
                              (combine (skipn a maps) (skipn a norms)))).
Proof.
  revert a acc. induction n as [|n IH]; intros a acc Hv Hm Hn.
  - cbn. now rewrite app_nil_r.
  - destruct (nth_error verts a) as [p|] eqn:Ep.
    2:{ apply nth_error_None in Ep. lia. }
    destruct (nth_error maps a) as [t|] eqn:Et.
    2:{ apply nth_error_None in Et. lia. }
    destruct (nth_error norms a) as [m|] eqn:Em.
    2:{ apply nth_error_None in Em. lia. }
    cbn [seq fold_left]. unfold interleave_body at 2. rewrite Ep, Et, Em.
    rewrite IH by lia.
    rewrite (skipn_nth_error verts a p Ep), (skipn_nth_error maps a t Et),
      (skipn_nth_error norms a m Em).
    cbn [firstn combine map]. now rewrite <- app_assoc.
Qed.

Lemma interleave_loop_short (verts : list (Vec3 F)) (maps : list (Vec2 F))
    (norms : list (Vec3 F)) (n i : nat) :
  (i < n)%nat -> (length maps <= i)%nat \/ (length norms <= i)%nat ->
  for_loop n (interleave_body verts maps norms) (Some []) = None.
Proof.
  intros Hi Hshort. unfold for_loop.
  replace n with (i + S (n - S i))%nat by lia.
  rewrite seq_app, fold_left_app. cbn [seq fold_left Nat.add].
  assert (Hnone : forall st, interleave_body verts maps norms i st = None).
  { intros st. unfold interleave_body.
    destruct st; [|reflexivity]. destruct (nth_error verts i); [|reflexivity].
    destruct Hshort as [Hs|Hs]; apply nth_error_None in Hs; rewrite Hs;
      [reflexivity|now destruct (nth_error maps i)]. }
  rewrite Hnone. apply fold_left_none. reflexivity.
Qed.

Lemma combine_parallel (W : list (Vertex F)) :
  map (fun '(p, (t, m)) => mkVertex (x p) (y p) (z p) (u t) (v t) (x m) (y m) (z m))
      (combine (positions_of W) (combine (mappings_of W) (normals_of W)))
  = W.
Proof.
  induction W as [|w W IH]; [reflexivity|].
  unfold positions_of, mappings_of, normals_of in *.
  cbn [map combine]. rewrite IH. now destruct w.
Qed.

(** The constructor on an index buffer whose triples are in range. *)
Lemma Mesh_of_interleaved_faces (W : list (Vertex F)) (indices : list Z)
    (groupName mtlName : string) :
  let idxs := match indices with
              | [] => iota (length W)
              | _ => indices
              end in
  (forall j, (j < length idxs / 3)%nat ->
     Forall (fun ix => 0 <= ix < Z.of_nat (length W))%Z (chunk 3 j idxs)) ->
  Mesh_of_interleaved W indices groupName mtlName
  = Some (mkMesh (positions_of W) (mappings_of W) (normals_of W)
            [mkGroup groupName mtlName
               (map (fun j => face_of (positions_of W) (mappings_of W) (normals_of W)
                                      (chunk 3 j idxs))
                    (seq 0 (length idxs / 3)))]
            W).
Proof.
  intros idxs Hrange. unfold Mesh_of_interleaved. fold idxs.
  rewrite triangle_starts_all.
  rewrite triangles_fold by (try assumption; apply Nat.Div0.mul_div_le).
  reflexivity.
Qed.

End MeshProofs.

Section MeshTheorems.
Context {F : Type}.
Import GeometryObjects.

(** X10. [Mesh(interleavedVerts, indices, groupName, mtlName)] with an index
    buffer (or, for an empty one, with the default [0, 1, 2, ...]) builds
    one group holding [size / 3] faces, [size] being the number of indices:
    face [j] has the three corners [idxs[3 j], idxs[3 j + 1], idxs[3 j + 2]]
    and a trailing one or two indices are not used.  The parallel vectors
    are the positions, texture coordinates and normals of the interleaved
    vertices, and the buffer handed to [setupGeometry] is the interleaved
    vector itself.  This holds when every index of these triples is below
    the number of vertices; an index out of range in one of them is a read
    past the end of the vectors (undefined behaviour). *)
Theorem X10_mesh_faces_from_indices (interleavedVerts : list (Vertex F))
    (indices : list Z) (groupName mtlName : string) :
  let idxs := match indices with
              | [] => iota (length interleavedVerts)
              | _ => indices
              end in
  let triangles := (length idxs / 3)%nat in
  let in_range :=
    Forall (fun ix => 0 <= ix < Z.of_nat (length interleavedVerts))%Z in
  let face j := face_of (positions_of interleavedVerts) (mappings_of interleavedVerts)
                        (normals_of interleavedVerts) (chunk 3 j idxs) in
  ((forall j, (j < triangles)%nat -> in_range (chunk 3 j idxs)) ->
   Mesh_of_interleaved interleavedVerts indices groupName mtlName
   = Some (mkMesh (positions_of interleavedVerts) (mappings_of interleavedVerts)
                  (normals_of interleavedVerts)
                  [mkGroup groupName mtlName (map face (seq 0 triangles))]
                  interleavedVerts)
   /\ forall j, (j < triangles)%nat ->
        length (verts (face j)) = 3%nat /\ length (norms (face j)) = 3%nat
        /\ length (texts (face j)) = 3%nat)
  /\ ((exists j, (j < triangles)%nat /\ ~ in_range (chunk 3 j idxs)) ->
      Mesh_of_interleaved interleavedVerts indices groupName mtlName = None).
Proof.
  intros idxs triangles in_range face.
  assert (Hk : (3 * triangles <= length idxs)%nat)
    by (apply Nat.Div0.mul_div_le).
  split.
  - intros Hrange. split.
    + now apply Mesh_of_interleaved_faces.
    + intros j Hj. specialize (Hrange j Hj).
      assert (Hlen : length (chunk 3 j idxs) = 3%nat).
      { destruct (chunk3_entries idxs j) as (a & b & c & -> & _); [lia|reflexivity]. }
      unfold face, face_of, positions_of, mappings_of, normals_of.
      cbn [verts norms texts]. rewrite !select_in_range by assumption.
      now rewrite Hlen.
  - intros (j & Hj & Hbad). unfold Mesh_of_interleaved. fold idxs.
    rewrite triangle_starts_all. fold triangles.
    now rewrite (triangles_fold_none interleavedVerts idxs _ triangles j Hj Hbad).
Qed.

(** X11. Without an index buffer the vertices are taken three at a time:
    for up to [2^32] vertices, [Mesh(interleavedVerts, {})] never reads out
    of range and face [j] holds the vertices [3 j, 3 j + 1, 3 j + 2]; a
    last one or two vertices belong to no face. *)
Theorem X11_mesh_faces_default (interleavedVerts : list (Vertex F))
    (groupName mtlName : string) :
  (Z.of_nat (length interleavedVerts) <= 2 ^ 32)%Z ->
  Mesh_of_interleaved interleavedVerts [] groupName mtlName
  = Some (mkMesh (positions_of interleavedVerts) (mappings_of interleavedVerts)
                 (normals_of interleavedVerts)
                 [mkGroup groupName mtlName
                    (map (fun j => mkFace (chunk 3 j (positions_of interleavedVerts))
                                          (chunk 3 j (normals_of interleavedVerts))
                                          (chunk 3 j (mappings_of interleavedVerts)))
                         (seq 0 (length interleavedVerts / 3)))]
                 interleavedVerts).
Proof.
  intros Hsize. set (n := length interleavedVerts).
  assert (Hk : (3 * (n / 3) <= n)%nat) by apply Nat.Div0.mul_div_le.
  assert (Hiota : length (iota n) = n)
    by (unfold iota; now rewrite length_map, length_seq).
  assert (Hchunk : forall j, (j < n / 3)%nat ->
            chunk 3 j (iota n) = map Z.of_nat (seq (3 * j) 3)).
  { intros j Hj. rewrite iota_small by exact Hsize. apply chunk_map_seq. lia. }
  unfold Mesh_of_interleaved. fold n. rewrite triangle_starts_all, Hiota.
  rewrite triangles_fold.
  - cbn [GeometryObjects.name GeometryObjects.mtlName faces app]. do 4 f_equal.
    apply map_ext_in. intros j Hj. apply in_seq in Hj.
    rewrite Hchunk by lia. unfold face_of, chunk.
    rewrite !select_block
      by (unfold positions_of, mappings_of, normals_of; rewrite length_map; fold n; lia).
    reflexivity.
  - lia.
  - intros j Hj. rewrite Hchunk by exact Hj.
    apply Forall_forall. intros ix Hix. apply in_map_iff in Hix.
    destruct Hix as (i & <- & Hi). apply in_seq in Hi. fold n. lia.
Qed.

(** X12. The two constructors agree: the parallel vectors and groups that
    [Mesh(interleavedVerts, ...)] stores, given to
    [Mesh(verts, maps, norms, groups)], are re-interleaved into the vertex
    buffer the mesh was built from, so the result is the same mesh. *)
Theorem X12_mesh_constructors_round_trip (interleavedVerts : list (Vertex F))
    (indices : list Z) (groupName mtlName : string) (mesh : Mesh F) :
  Mesh_of_interleaved interleavedVerts indices groupName mtlName = Some mesh ->
  Mesh_of_vectors (vertices mesh) (mappings mesh) (normals mesh) (groups mesh)
  = Some mesh
  /\ VAO mesh = interleavedVerts.
Proof.
  unfold Mesh_of_interleaved.
  destruct (fold_left _ _ _) as [g|]; [|discriminate].
  intros [= <-]. cbn [vertices mappings normals groups VAO]. split; [|reflexivity].
  unfold Mesh_of_vectors, for_loop.
  rewrite interleave_loop
    by (unfold positions_of, mappings_of, normals_of; rewrite !length_map; lia).
  rewrite !skipn_O, firstn_all, app_nil_l, combine_parallel. reflexivity.
Qed.

(** X13. [Mesh(verts, maps, norms, groups)] pairs entry [i] of the three
    vectors for every position [i]; it reads [mappings[i]] and [normals[i]]
    for each [i < verts.size()] without a check, so it is defined exactly
    when neither vector is shorter than [verts] (entries beyond
    [verts.size()] are ignored), and then uploads [verts.size()] vertices. *)
Theorem X13_mesh_of_vectors_bounds (verts : list (Vec3 F)) (maps : list (Vec2 F))
    (norms : list (Vec3 F)) (groups_ : list (Group F)) :
  (if ((length verts <=? length maps) && (length verts <=? length norms))%nat
   then exists mesh,
          Mesh_of_vectors verts maps norms groups_ = Some mesh
          /\ length (VAO mesh) = length verts
          /\ VAO mesh
             = map (fun '(p, (t, m)) =>
                      mkVertex (x p) (y p) (z p) (u t) (v t) (x m) (y m) (z m))
                   (combine verts (combine maps norms))
   else Mesh_of_vectors verts maps norms groups_ = None).
Proof.
  destruct (Nat.leb_spec (length verts) (length maps)) as [Hm|Hm];
    [destruct (Nat.leb_spec (length verts) (length norms)) as [Hn|Hn]|]; cbn [andb].
  - unfold Mesh_of_vectors, for_loop. rewrite interleave_loop by lia.
    rewrite !skipn_O, firstn_all, app_nil_l. eexists. split; [reflexivity|].
    cbn [VAO]. unfold setupGeometry. split; [|reflexivity].
    rewrite length_map, !length_combine. lia.
  - unfold Mesh_of_vectors.
    rewrite (interleave_loop_short verts maps norms (length verts) (length norms))
      by (auto; lia).
    reflexivity.
  - unfold Mesh_of_vectors.
    rewrite (interleave_loop_short verts maps norms (length verts) (length maps))
      by (auto; lia).
    reflexivity.
Qed.

End MeshTheorems.

Lemma X11_mesh_faces_default_witness :
  GeometryObjects.Mesh_of_interleaved (map swap_yz [mkVertex 0 1 2 3 4 5 6 7; mkVertex 1 1 2 3 4 5 6 7;
                                    mkVertex 2 1 2 3 4 5 6 7; mkVertex 3 1 2 3 4 5 6 7])%Z
                      [] "track" ""
  <> None.
Proof.
  rewrite X11_mesh_faces_default; [discriminate|]. simpl. lia.
Defined.

Lemma X12_mesh_constructors_round_trip_witness :
  exists mesh : GeometryObjects.Mesh Z,
    GeometryObjects.Mesh_of_vectors (GeometryObjects.vertices mesh) (GeometryObjects.mappings mesh) (GeometryObjects.normals mesh) (GeometryObjects.groups mesh)
    = Some mesh
    /\ GeometryObjects.VAO mesh = [mkVertex 0 1 2 3 4 5 6 7; mkVertex 1 1 2 3 4 5 6 7;
                   mkVertex 2 1 2 3 4 5 6 7]%Z.
Proof.
  eexists.
  apply (X12_mesh_constructors_round_trip
           [mkVertex 0 1 2 3 4 5 6 7; mkVertex 1 1 2 3 4 5 6 7;
            mkVertex 2 1 2 3 4 5 6 7]%Z [2; 1; 0]%Z "g" "m").
  reflexivity.
Defined.

Lemma quad_triangles_split (n : nat) :
  flat_map (fun i => quad_triangles (4 * Z.of_nat i)) (seq 0 n)
  = flat_map track_triangle (seq 0 (2 * n)).
Proof.
  induction n as [|n IH]; [reflexivity|].
  replace (2 * S n)%nat with (S (S (2 * n))) by lia.
  rewrite !flat_map_seq_S, IH, <- app_assoc. f_equal.
  unfold track_triangle.
  replace (S (2 * n)) with (1 + 2 * n)%nat by lia.
  rewrite Nat.even_add_mul_2, Nat.even_mul. cbn [Nat.even orb].
  replace ((1 + 2 * n) / 2)%nat with n
    by (apply Nat.div_unique with (r := 1%nat); lia).
  replace (2 * n / 2)%nat with n
    by (apply Nat.div_unique with (r := 0%nat); lia).
  reflexivity.
Qed.

Lemma track_triangle_length (j : nat) : length (track_triangle j) = 3%nat.
Proof. unfold track_triangle. now destruct (Nat.even j). Qed.

Lemma track_triangle_range (n j : nat) :
  (j < 2 * n)%nat ->
  Forall (fun ix => 0 <= ix < Z.of_nat (4 * n))%Z (track_triangle j).
Proof.
  intros Hj. assert (Hq : (j / 2 < n)%nat) by (apply Nat.Div0.div_lt_upper_bound; lia).
  unfold track_triangle. destruct (Nat.even j); repeat constructor; lia.
Qed.

Lemma vector_at_chunk {A : Type} (l : list A) (c i k : nat) :
  (k < c)%nat ->
  vector_at l (Z.of_nat c * Z.of_nat i + Z.of_nat k) = vector_at (chunk c i l) (Z.of_nat k).
Proof.
  intros Hk. rewrite <- Nat2Z.inj_mul, <- Nat2Z.inj_add, !vector_at_nth_error.
  unfold chunk. rewrite nth_error_firstn, nth_error_skipn.
  destruct (Nat.ltb_spec k c); [reflexivity|lia].
Qed.

Lemma chunk_map {A B : Type} (f : A -> B) (c i : nat) (l : list A) :
  chunk c i (map f l) = map f (chunk c i l).
Proof. unfold chunk. now rewrite skipn_map, firstn_map. Qed.

Section TrackMeshObject.
Context {F : Type} `{Scalar F} `{Trig F}.
Import GeometryObjects.

Lemma swapped_quad_normals (loop : list (vec3 F)) (width : F) (n : nat) :
  Forall (fun m => m = mkVec3 f0 f1 f0)
         (normals_of (map swap_yz (flat_map (quad_vertices loop width) (seq 0 n)))).
Proof.
  apply Forall_forall. intros m Hm. unfold normals_of in Hm.
  rewrite map_map in Hm. apply in_map_iff in Hm. destruct Hm as (w & <- & Hw).
  apply in_flat_map in Hw. destruct Hw as (i & _ & Hw).
  unfold quad_vertices, track_vertex in Hw. cbn [In] in Hw.
  destruct Hw as [<-|[<-|[<-|[<-|[]]]]]; reflexivity.
Qed.

Lemma track_face (W : list (Vertex F)) (i k0 k1 k2 : nat) :
  (k0 < 4)%nat -> (k1 < 4)%nat -> (k2 < 4)%nat ->
  face_of (positions_of W) (mappings_of W) (normals_of W)
          [4 * Z.of_nat i + Z.of_nat k0; 4 * Z.of_nat i + Z.of_nat k1;
           4 * Z.of_nat i + Z.of_nat k2]%Z
  = face_of (positions_of (chunk 4 i W)) (mappings_of (chunk 4 i W))
            (normals_of (chunk 4 i W)) [Z.of_nat k0; Z.of_nat k1; Z.of_nat k2].
Proof.
  intros H0' H1' H2'. unfold face_of, select, positions_of, mappings_of, normals_of.
  cbn [flat_map]. rewrite !vector_at_map.
  change 4%Z with (Z.of_nat 4).
  rewrite !vector_at_chunk by assumption. reflexivity.
Qed.

(** The mesh of the track: its faces are the triangles of the index
    buffer taken from the exchanged vertices. *)
Lemma track_mesh_faces (loop : list (vec3 F)) (width : F) :
  let n := length loop in
  let trackVerts := map swap_yz (fst (generateTrackMesh loop width [] [])) in
  let indices := snd (generateTrackMesh loop width [] []) in
  (2 <= n)%nat -> (4 * Z.of_nat n <= 2 ^ 32)%Z ->
  trackVerts = map swap_yz (flat_map (quad_vertices loop width) (seq 0 n))
  /\ length trackVerts = (4 * n)%nat
  /\ (forall j, (j < 2 * n)%nat -> chunk 3 j indices = track_triangle j)
  /\ Mesh_of_interleaved trackVerts indices "track" ""
     = Some (mkMesh (positions_of trackVerts) (mappings_of trackVerts)
               (normals_of trackVerts)
               [mkGroup "track" ""
                  (map (fun j => face_of (positions_of trackVerts) (mappings_of trackVerts)
                                         (normals_of trackVerts) (track_triangle j))
                       (seq 0 (2 * n)))]
               trackVerts).
Proof.
  intros n trackVerts indices Hn Hsmall.
  assert (Hverts : trackVerts = map swap_yz (flat_map (quad_vertices loop width) (seq 0 n))).
  { unfold trackVerts. now rewrite generateTrackMesh_quads by exact Hn. }
  assert (Hidx : indices = flat_map track_triangle (seq 0 (2 * n))).
  { unfold indices. rewrite generateTrackMesh_quads by exact Hn. cbn [snd]. fold n.
    rewrite <- quad_triangles_split. apply flat_map_seq_ext. intros i Hi.
    apply quad_triangles_u32_small; lia. }
  assert (HlenW : length trackVerts = (4 * n)%nat).
  { rewrite Hverts, length_map. now apply flat_map_seq_length. }
  assert (HlenI : length indices = (3 * (2 * n))%nat).
  { rewrite Hidx. apply flat_map_seq_length, track_triangle_length. }
  assert (Hdiv : (length indices / 3 = 2 * n)%nat).
  { rewrite HlenI. rewrite Nat.mul_comm. apply Nat.div_mul. lia. }
  assert (Hchunk : forall j, (j < 2 * n)%nat -> chunk 3 j indices = track_triangle j).
  { intros j Hj. rewrite Hidx. apply chunk_flat_map_seq; [apply track_triangle_length|exact Hj]. }
  assert (Hne : match indices with [] => iota (length trackVerts) | _ => indices end = indices).
  { destruct indices; [simpl in HlenI; lia|reflexivity]. }
  split; [exact Hverts|]. split; [exact HlenW|]. split; [exact Hchunk|].
  rewrite Mesh_of_interleaved_faces; rewrite Hne.
  - rewrite Hdiv. do 4 f_equal. apply map_ext_in. intros j Hj. apply in_seq in Hj.
    now rewrite Hchunk by lia.
  - rewrite Hdiv. intros j Hj. rewrite Hchunk, HlenW by exact Hj.
    now apply track_triangle_range.
Qed.

(** X14. The track as [key_callback] builds it: the vertices of
    [generateTrackMesh] with Y and Z exchanged, given to
    [Mesh(trackVerts, indices, "track", "")].  For a centerline of [n >= 2]
    points ([4 n] within [unsigned int]) the construction reads no index
    out of range and yields [4 n] vertices, every normal [(0, 1, 0)] (up,
    in the viewer's axes), and one group "track" of [2 n] triangles: for
    quad [i] the corners (v0, v3, v1) and (v1, v3, v2) of its four
    exchanged vertices. *)
Theorem X14_track_mesh (loop : list (vec3 F)) (width : F) :
  let n := length loop in
  let trackVerts := map swap_yz (fst (generateTrackMesh loop width [] [])) in
  let indices := snd (generateTrackMesh loop width [] []) in
  (2 <= n)%nat -> (4 * Z.of_nat n <= 2 ^ 32)%Z ->
  exists faces,
    Mesh_of_interleaved trackVerts indices "track" ""
    = Some (mkMesh (positions_of trackVerts) (mappings_of trackVerts)
                   (normals_of trackVerts) [mkGroup "track" "" faces] trackVerts)
    /\ length trackVerts = (4 * n)%nat
    /\ length faces = (2 * n)%nat
    /\ Forall (fun m => m = mkVec3 f0 f1 f0) (normals_of trackVerts)
    /\ forall i, (i < n)%nat ->
         let quad := map swap_yz (quad_vertices loop width i) in
         nth_error faces (2 * i)
         = Some (face_of (positions_of quad) (mappings_of quad) (normals_of quad)
                         [0; 3; 1]%Z)
         /\ nth_error faces (2 * i + 1)
            = Some (face_of (positions_of quad) (mappings_of quad) (normals_of quad)
                            [1; 3; 2]%Z).
Proof.
  intros n trackVerts indices Hn Hsmall.
  destruct (track_mesh_faces loop width Hn Hsmall) as (Hverts & HlenW & Hchunk & Hmesh).
  fold n trackVerts indices in Hverts, HlenW, Hchunk, Hmesh.
  eexists. split; [exact Hmesh|]. split; [exact HlenW|].
  split; [now rewrite length_map, length_seq|].
  split; [rewrite Hverts; apply swapped_quad_normals|].
  intros i Hi quad.
  assert (Hquad : chunk 4 i trackVerts = quad).
  { rewrite Hverts, chunk_map. unfold quad. f_equal.
    apply chunk_flat_map_seq; [apply quad_vertices_length|exact Hi]. }
  rewrite !nth_error_map, !nth_error_nth' with (d := 0%nat)
    by (rewrite length_seq; lia).
  rewrite !seq_nth by lia. cbn [Nat.add option_map].
  unfold track_triangle.
  replace (2 * i + 1)%nat with (1 + 2 * i)%nat by lia.
  rewrite Nat.even_add_mul_2, Nat.even_mul. cbn [Nat.even orb].
  replace ((1 + 2 * i) / 2)%nat with i
    by (apply Nat.div_unique with (r := 1%nat); lia).
  replace (2 * i / 2)%nat with i
    by (apply Nat.div_unique with (r := 0%nat); lia).
  rewrite <- Hquad. split.
  + f_equal. apply (track_face trackVerts i 0 3 1); lia.
  + f_equal. apply (track_face trackVerts i 1 3 2); lia.
Qed.

End TrackMeshObject.

Lemma X14_track_mesh_witness :
  exists mesh,
    GeometryObjects.Mesh_of_interleaved
      (map swap_yz (fst (generateTrackMesh (H0 := sample_trig) square_loop
                           (Binary32.of_int 2) [] [])))
      (snd (generateTrackMesh (H0 := sample_trig) square_loop (Binary32.of_int 2) [] []))
      "track" ""
    = Some mesh
    /\ length (GeometryObjects.vertices mesh) = 16%nat
    /\ length (flat_map GeometryObjects.faces (GeometryObjects.groups mesh)) = 8%nat.
Proof.
  destruct (X14_track_mesh (H0 := sample_trig) square_loop (Binary32.of_int 2))
    as (faces & Hmesh & Hverts & Hfaces & _); [simpl; lia|simpl; lia|].
  eexists. split; [exact Hmesh|].
  cbn [GeometryObjects.vertices GeometryObjects.groups GeometryObjects.faces flat_map].
  unfold GeometryObjects.positions_of. rewrite length_map, app_nil_r. split; assumption.
Defined.

(** ** [OBJWriter::write] *)

Lemma unlines_app (a b : list string) :
  unlines (a ++ b) = (unlines a ++ unlines b)%string.
Proof.
  induction a as [|l a IH]; [reflexivity|].
  cbn [app unlines fold_right] in *. fold (unlines (a ++ b)). fold (unlines a).
  now rewrite IH, !string_app_assoc.
Qed.

Lemma lines_unlines (ls : list string) :
  Forall (fun l => has_newline l = false) ls -> lines (unlines ls) = ls.
Proof.
  unfold lines. induction 1 as [|l ls Hl _ IH]; [reflexivity|].
  cbn [unlines fold_right]. fold (unlines ls).
  now rewrite lines_from_line, IH by exact Hl.
Qed.

Lemma fold_left_lines {A : Type} (line : A -> string) (write : string -> A -> string)
    (l : list A) (f : string) :
  (forall f a, write f a = (f ++ line a ++ newline)%string) ->
  fold_left write l f = (f ++ unlines (map line l))%string.
Proof.
  intros Hw. revert f. induction l as [|a l IH]; intros f.
  - cbn. now rewrite string_app_empty.
  - cbn [fold_left map unlines fold_right]. fold (unlines (map line l)).
    now rewrite IH, Hw, !string_app_assoc.
Qed.

Lemma find_index_le {A : Type} (eq : A -> A -> bool) (l : list A) (value : A) :
  (find_index eq l value <= length l)%nat.
Proof. induction l as [|e l IH]; simpl; [lia|]. destruct (eq e value); lia. Qed.

Lemma find_index_found {A : Type} (eq : A -> A -> bool) (l : list A) (value : A) :
  (find_index eq l value < length l)%nat ->
  exists e, nth_error l (find_index eq l value) = Some e /\ eq e value = true.
Proof.
  induction l as [|e l IH]; simpl; [lia|]. destruct (eq e value) eqn:E.
  - intros _. now exists e.
  - intros Hlt. apply IH. lia.
Qed.

Lemma find_index_first {A : Type} (eq : A -> A -> bool) (l : list A) (value : A)
    (j : nat) (e : A) :
  (j < find_index eq l value)%nat -> nth_error l j = Some e -> eq e value = false.
Proof.
  revert j. induction l as [|a l IH]; intros j; simpl; [lia|].
  destruct (eq a value) eqn:E; [lia|].
  destruct j as [|j]; simpl.
  - intros _ [= <-]. exact E.
  - intros Hj. apply IH. lia.
Qed.

Lemma find_index_absent {A : Type} (eq : A -> A -> bool) (l : list A) (value : A) :
  find_index eq l value = length l <-> Forall (fun e => eq e value = false) l.
Proof.
  induction l as [|a l IH]; simpl.
  - split; [constructor|reflexivity].
  - destruct (eq a value) eqn:E.
    + split; [discriminate|]. intros Hall. inversion Hall; congruence.
    + split.
      * intros [= Hl]. constructor; [exact E|now apply IH].
      * intros Hall. inversion Hall; subst. f_equal. now apply IH.
Qed.

Lemma to_int_small (z : Z) : (- 2 ^ 31 <= z < 2 ^ 31)%Z -> to_int z = z.
Proof. intros Hz. unfold to_int. rewrite Z.mod_small by lia. lia. Qed.

Lemma find_index_first_equal {A : Type} (eq : A -> A -> bool) (l : list A) (value : A) :
  (Z.of_nat (length l) < 2 ^ 31 - 1)%Z ->
  first_equal eq l value (to_int (Z.of_nat (find_index eq l value)) + 1).
Proof.
  intros Hsize. pose proof (find_index_le eq l value) as Hle.
  rewrite to_int_small by lia. unfold first_equal. repeat split.
  - lia.
  - lia.
  - intros j e Hj. apply find_index_first. lia.
  - intros Hlt. replace (Z.to_nat _) with (find_index eq l value) by lia.
    apply find_index_found. lia.
  - intros Hl. apply find_index_absent. lia.
  - intros Hall. apply find_index_absent in Hall. lia.
Qed.

Lemma string_of_uint_one_line (d : Decimal.uint) :
  has_newline (DecimalString.NilEmpty.string_of_uint d) = false.
Proof. induction d; simpl; auto. Qed.

Lemma show_int_one_line (z : Z) : has_newline (show_int z) = false.
Proof.
  unfold show_int. destruct (Z.to_int z) as [d|d]; simpl.
  - destruct d; simpl; auto using string_of_uint_one_line.
  - destruct d; simpl; auto using string_of_uint_one_line.
Qed.

Lemma has_newline_concat (ls : list string) :
  Forall (fun l => has_newline l = false) ls ->
  has_newline (fold_right append EmptyString ls) = false.
Proof.
  induction 1 as [|l ls Hl _ IH]; [reflexivity|].
  cbn [fold_right]. now rewrite has_newline_app, Hl, IH.
Qed.

Section WriterProofs.
Context {F : Type} `{ScalarEq F}.
Variable show_float : F -> string.
Import GeometryObjects.

Lemma write_corner_loop (mesh : Mesh F) (face : Face F) (n a : nat) (acc : string) :
  (a + n <= length (verts face))%nat -> (a + n <= length (texts face))%nat ->
  (a + n <= length (norms face))%nat ->
  fold_left (fun st k => write_corner mesh face k st) (seq a n) (Some acc)
  = Some (acc ++ fold_right append ""
                   (map (fun '(p, (t, m)) => corner_text (corner_indices mesh p t m))
                        (combine (firstn n (skipn a (verts face)))
                                 (combine (skipn a (texts face))
                                          (skipn a (norms face))))))%string.
Proof.
  revert a acc. induction n as [|n IH]; intros a acc Hv Ht Hn.
  - cbn. now rewrite string_app_empty.
  - destruct (nth_error (verts face) a) as [p|] eqn:Ep.
    2:{ apply nth_error_None in Ep. lia. }
    destruct (nth_error (texts face) a) as [t|] eqn:Et.
    2:{ apply nth_error_None in Et. lia. }
    destruct (nth_error (norms face) a) as [m|] eqn:Em.
    2:{ apply nth_error_None in Em. lia. }
    cbn [seq fold_left]. unfold write_corner at 2. rewrite Ep, Et, Em.
    rewrite IH by lia.
    rewrite (skipn_nth_error _ a p Ep), (skipn_nth_error _ a t Et),
      (skipn_nth_error _ a m Em).
    cbn [firstn combine map fold_right]. now rewrite string_app_assoc.
Qed.

Lemma write_face_line (mesh : Mesh F) (face : Face F) (f : string) :
  whole_face face = true ->
  write_face mesh (Some f) face = Some (f ++ f_line mesh face ++ newline)%string.
Proof.
  intros Hw. unfold whole_face in Hw. apply andb_prop in Hw. destruct Hw as [Ht Hn].
  apply Nat.leb_le in Ht, Hn.
  unfold write_face, for_loop. rewrite write_corner_loop by lia.
  rewrite !skipn_O, firstn_all. unfold f_line, face_corners.
  now rewrite !string_app_assoc.
Qed.

Lemma write_faces_lines (mesh : Mesh F) (fs : list (Face F)) (f : string) :
  forallb whole_face fs = true ->
  fold_left (write_face mesh) fs (Some f)
  = Some (f ++ unlines (map (f_line mesh) fs))%string.
Proof.
  revert f. induction fs as [|face fs IH]; intros f Hw.
  - cbn. now rewrite string_app_empty.
  - cbn [forallb] in Hw. apply andb_prop in Hw. destruct Hw as [Hface Hfs].
    cbn [fold_left map unlines fold_right]. fold (unlines (map (f_line mesh) fs)).
    rewrite write_face_line, IH by assumption. now rewrite !string_app_assoc.
Qed.

Lemma write_group_lines (mesh : Mesh F) (grp : Group F) (f : string) :
  forallb whole_face (faces grp) = true ->
  write_group mesh (Some f) grp = Some (f ++ unlines (group_lines mesh grp))%string.
Proof.
  intros Hw. unfold write_group, group_lines.
  rewrite write_faces_lines by exact Hw. rewrite unlines_app.
  destruct (String.eqb (mtlName grp) ""); cbn [unlines fold_right].
  - reflexivity.
  - now rewrite !string_app_assoc.
Qed.

Lemma write_groups_lines (mesh : Mesh F) (gs : list (Group F)) (f : string) :
  forallb (fun grp => forallb whole_face (faces grp)) gs = true ->
  fold_left (write_group mesh) gs (Some f)
  = Some (f ++ unlines (flat_map (group_lines mesh) gs))%string.
Proof.
  revert f. induction gs as [|grp gs IH]; intros f Hw.
  - cbn. now rewrite string_app_empty.
  - cbn [forallb] in Hw. apply andb_prop in Hw. destruct Hw as [Hg Hgs].
    cbn [fold_left flat_map]. rewrite write_group_lines, IH by assumption.
    now rewrite unlines_app, string_app_assoc.
Qed.

Lemma OBJWriter_write_text (mesh : Mesh F) :
  forallb (fun grp => forallb whole_face (faces grp)) (groups mesh) = true ->
  OBJWriter_write show_float mesh = Some (unlines (obj_lines show_float mesh)).
Proof.
  intros Hw. unfold OBJWriter_write, obj_lines.
  rewrite (fold_left_lines (v_line show_float) (write_v show_float))
    by (intros; unfold write_v, v_line; now rewrite !string_app_assoc).
  rewrite (fold_left_lines (vt_line show_float) (write_vt show_float))
    by (intros; unfold write_vt, vt_line; now rewrite !string_app_assoc).
  rewrite (fold_left_lines (vn_line show_float) (write_vn show_float))
    by (intros; unfold write_vn, vn_line; now rewrite !string_app_assoc).
  rewrite write_groups_lines by exact Hw.
  rewrite !unlines_app, !string_app_assoc. reflexivity.
Qed.

Lemma obj_lines_one_line (mesh : Mesh F) :
  (forall a, has_newline (show_float a) = false) ->
  Forall (fun grp => has_newline (mtlName grp) = false) (groups mesh) ->
  Forall (fun l => has_newline l = false) (obj_lines show_float mesh).
Proof.
  intros Hshow Hmtl.
  unfold obj_lines. rewrite !Forall_app. repeat split.
  - apply Forall_forall. intros l Hl. apply in_map_iff in Hl. destruct Hl as (p & <- & _).
    unfold v_line. now rewrite !has_newline_app, !Hshow.
  - apply Forall_forall. intros l Hl. apply in_map_iff in Hl. destruct Hl as (p & <- & _).
    unfold vt_line. now rewrite !has_newline_app, !Hshow.
  - apply Forall_forall. intros l Hl. apply in_map_iff in Hl. destruct Hl as (p & <- & _).
    unfold vn_line. now rewrite !has_newline_app, !Hshow.
  - apply Forall_forall. intros l Hl. apply in_flat_map in Hl. destruct Hl as (grp & Hgrp & Hl).
    rewrite Forall_forall in Hmtl. specialize (Hmtl grp Hgrp).
    unfold group_lines in Hl. apply in_app_or in Hl. destruct Hl as [Hl|Hl].
    + destruct (String.eqb (mtlName grp) ""); [destruct Hl|].
      destruct Hl as [<-|[]]. now rewrite has_newline_app, Hmtl.
    + apply in_map_iff in Hl. destruct Hl as (face & <- & _).
      unfold f_line. rewrite has_newline_app, has_newline_concat; [reflexivity|].
      apply Forall_forall. intros l Hl. apply in_map_iff in Hl.
      destruct Hl as ([p [t n]] & <- & _).
      unfold corner_text. destruct (corner_indices mesh p t n) as [[vi ti] ni].
      now rewrite !has_newline_app, !show_int_one_line.
Qed.

End WriterProofs.

Section WriterTheorems.
Context {F : Type} `{ScalarEq F}.
Import GeometryObjects.

(** X15. The three numbers [OBJWriter::write] puts out for a face corner
    are found by value: each is one plus the position of the first entry of
    the mesh's vector that compares equal (with [==] on [float]) to the
    corner's position, texture coordinate or normal, so the entry it names
    is equal to the corner's; and it is one past the last entry written
    exactly when no entry compares equal.  (Vectors of fewer than
    [2^31 - 1] entries, so that neither the conversion to [int] nor the
    addition of one leaves [int].) *)
Theorem X15_written_indices_first_equal (mesh : Mesh F)
    (p : Vec3 F) (t : Vec2 F) (n : Vec3 F) :
  (Z.of_nat (length (vertices mesh)) < 2 ^ 31 - 1)%Z ->
  (Z.of_nat (length (mappings mesh)) < 2 ^ 31 - 1)%Z ->
  (Z.of_nat (length (normals mesh)) < 2 ^ 31 - 1)%Z ->
  let '(vi, ti, ni) := corner_indices mesh p t n in
  first_equal Vec3_eq (vertices mesh) p vi
  /\ first_equal Vec2_eq (mappings mesh) t ti
  /\ first_equal Vec3_eq (normals mesh) n ni.
Proof.
  intros Hv Ht Hn. unfold corner_indices.
  repeat split; apply find_index_first_equal; assumption.
Qed.

(** X17. The file [OBJWriter::write] produces, for a mesh whose faces have
    a texture coordinate and a normal for every corner: one [v] line per
    entry of [vertices], then one [vt] line per entry of [mappings], then
    one [vn] line per entry of [normals], then for each group a [usemtl]
    line (only if the material name is not empty) and one [f] line per
    face, each corner written as [vi/ti/ni] followed by a space.  (The
    formatting of a [float] and the material names contain no newline; the
    vectors have fewer than [2^31 - 1] entries, so that the indices are
    computed within [int].) *)
Theorem X17_obj_file_lines (show_float : F -> string) (mesh : Mesh F) :
  (forall a, has_newline (show_float a) = false) ->
  Forall (fun grp => has_newline (mtlName grp) = false) (groups mesh) ->
  forallb (fun grp => forallb whole_face (faces grp)) (groups mesh) = true ->
  (Z.of_nat (length (vertices mesh)) < 2 ^ 31 - 1)%Z ->
  (Z.of_nat (length (mappings mesh)) < 2 ^ 31 - 1)%Z ->
  (Z.of_nat (length (normals mesh)) < 2 ^ 31 - 1)%Z ->
  exists text,
    OBJWriter_write show_float mesh = Some text
    /\ lines text
       = map (v_line show_float) (vertices mesh)
         ++ map (vt_line show_float) (mappings mesh)
         ++ map (vn_line show_float) (normals mesh)
         ++ flat_map (fun grp =>
                        (if String.eqb (mtlName grp) "" then []
                         else ["usemtl " ++ mtlName grp]%string)
                        ++ map (f_line mesh) (faces grp))
                     (groups mesh).
Proof.
  intros Hshow Hmtl Hwhole _ _ _. rewrite OBJWriter_write_text by exact Hwhole.
  eexists. split; [reflexivity|]. rewrite lines_unlines; [reflexivity|].
  now apply obj_lines_one_line.
Qed.

End WriterTheorems.

Lemma X15_written_indices_first_equal_witness :
  first_equal GeometryObjects.Vec3_eq (GeometryObjects.vertices sample_mesh)
              (GeometryObjects.mkVec3 (Binary32.of_int 0) (Binary32.of_int 0)
                                      (Binary32.of_int 1)) 3.
Proof.
  pose proof (X15_written_indices_first_equal sample_mesh
                (GeometryObjects.mkVec3 (Binary32.of_int 0) (Binary32.of_int 0)
                                        (Binary32.of_int 1))
                (GeometryObjects.mkVec2 (Binary32.of_int 0) (Binary32.of_int 1))
                (GeometryObjects.mkVec3 (Binary32.of_int 0) (Binary32.of_int 1)
                                        (Binary32.of_int 0))) as Hx.
  cbv beta iota zeta delta [GeometryObjects.corner_indices] in Hx.
  destruct Hx as (Hv & _); [simpl; lia|simpl; lia|simpl; lia|].
  exact Hv.
Defined.

Lemma X17_obj_file_lines_witness :
  exists text,
    GeometryObjects.OBJWriter_write show_f32 sample_mesh = Some text
    /\ length (lines text) = 10%nat.
Proof.
  destruct (X17_obj_file_lines show_f32 sample_mesh) as (text & Htext & Hlines).
  - exact show_f32_one_line.
  - repeat constructor.
  - reflexivity.
  - simpl. lia.
  - simpl. lia.
  - simpl. lia.
  - exists text. split; [exact Htext|]. rewrite Hlines. reflexivity.
Defined.

(** X16. In binary32 a NaN equals nothing, itself included: a face corner
    with a NaN coordinate is written with the position index
    [vertices.size() + 1], the number of no [v] line of the file (for fewer
    than [2^31 - 1] vertices). *)
Theorem X16_nan_corner_index (mesh : GeometryObjects.Mesh Binary32.f32)
    (p : GeometryObjects.Vec3 Binary32.f32) (t : GeometryObjects.Vec2 Binary32.f32)
    (n : GeometryObjects.Vec3 Binary32.f32) :
  (Z.of_nat (length (GeometryObjects.vertices mesh)) < 2 ^ 31 - 1)%Z ->
  GeometryObjects.x p = S754_nan \/ GeometryObjects.y p = S754_nan
  \/ GeometryObjects.z p = S754_nan ->
  fst (fst (GeometryObjects.corner_indices mesh p t n))
  = (Z.of_nat (length (GeometryObjects.vertices mesh)) + 1)%Z.
Proof.
  intros Hsize Hnan. unfold GeometryObjects.corner_indices. cbn [fst].
  pose proof (find_index_le GeometryObjects.Vec3_eq (GeometryObjects.vertices mesh) p).
  rewrite to_int_small by lia. f_equal. f_equal.
  apply find_index_absent, Forall_forall. intros e _.
  unfold GeometryObjects.Vec3_eq. cbn [feqb f32_eq].
  assert (Hcmp : forall a, SFeqb a S754_nan = false) by (intros a; now destruct a).
  destruct Hnan as [-> | [-> | ->]]; rewrite Hcmp;
    rewrite ?andb_false_r; reflexivity.
Qed.

Lemma X16_nan_corner_index_witness :
  fst (fst (GeometryObjects.corner_indices
              (GeometryObjects.mkMesh
                 [GeometryObjects.mkVec3 S754_nan (S754_zero false) (S754_zero false)]
                 [] [] [] [])
              (GeometryObjects.mkVec3 S754_nan (S754_zero false) (S754_zero false))
              (GeometryObjects.mkVec2 (S754_zero false) (S754_zero false))
              (GeometryObjects.mkVec3 (S754_zero false) (S754_zero false) (S754_zero false))))
  = 2%Z.
Proof.
  apply (X16_nan_corner_index
           (GeometryObjects.mkMesh
              [GeometryObjects.mkVec3 S754_nan (S754_zero false) (S754_zero false)]
              [] [] [] [])).
  - simpl. lia.
  - left. reflexivity.
Defined.

(** ** Reading numbers back *)

Lemma read_digits_uint (d : Decimal.uint) (acc : Z) (seen : bool) :
  d <> Decimal.Nil ->
  read_digits (DecimalString.NilEmpty.string_of_uint d) acc seen
  = Some (uint_value d acc).
Proof.
  revert acc seen. induction d; intros acc seen Hd; try congruence;
    cbn [DecimalString.NilEmpty.string_of_uint read_digits uint_value];
    (destruct d; [reflexivity|apply IHd; discriminate ..]).
Qed.

Lemma uint_value_pos (d : Decimal.uint) (p : positive) :
  uint_value d (Z.pos p) = Z.pos (Pos.of_uint_acc d p).
Proof.
  revert p. induction d; intros p; cbn [uint_value Pos.of_uint_acc];
    [reflexivity|rewrite <- IHd; f_equal; lia ..].
Qed.

Lemma uint_value_0 (d : Decimal.uint) : uint_value d 0 = Z.of_uint d.
Proof.
  unfold Z.of_uint. induction d; cbn [uint_value Pos.of_uint];
    [reflexivity|exact IHd|..];
    (change (10 * 0 + ?k)%Z with k; rewrite uint_value_pos; reflexivity).
Qed.

Lemma to_uint_head (p : positive) :
  exists c rest,
    DecimalString.NilEmpty.string_of_uint (Pos.to_uint p) = String c rest
    /\ isdigit c = true.
Proof.
  pose proof (DecimalPos.Unsigned.to_uint_nonnil p) as Hp.
  destruct (Pos.to_uint p); try congruence; cbn; eauto.
Qed.

Lemma string_of_uint_nonnil (d : Decimal.uint) :
  d <> Decimal.Nil ->
  DecimalString.NilZero.string_of_uint d = DecimalString.NilEmpty.string_of_uint d.
Proof. destruct d; [congruence|reflexivity ..]. Qed.

(** Reading back a written [int]. *)
Lemma stoi_show_int (z : Z) :
  (- 2 ^ 31 <= z < 2 ^ 31)%Z -> stoi (show_int z) = Normal z.
Proof.
  intros Hz. unfold show_int, stoi. destruct z as [|p|p].
  - reflexivity.
  - cbn [Z.to_int DecimalString.NilZero.string_of_int].
    pose proof (DecimalPos.Unsigned.to_uint_nonnil p) as Hp.
    rewrite string_of_uint_nonnil by exact Hp.
    destruct (to_uint_head p) as (c & rest & Hs & Hc). rewrite Hs.
    assert (Hspace : isspace c = false).
    { unfold isdigit, isspace in *. destruct (nat_of_ascii c =? 32)%nat eqn:E32.
      - apply Nat.eqb_eq in E32. rewrite E32 in Hc. discriminate.
      - apply andb_prop in Hc. destruct Hc as [Hlo _]. apply Nat.leb_le in Hlo.
        cbn [orb]. apply andb_false_intro2. apply Nat.leb_gt. lia. }
    assert (Hminus : Ascii.eqb c "-" = false).
    { apply Ascii.eqb_neq. intros ->. discriminate. }
    assert (Hplus : Ascii.eqb c "+" = false).
    { apply Ascii.eqb_neq. intros ->. discriminate. }
    cbn [skip_spaces]. rewrite Hspace, Hminus, Hplus, <- Hs.
    rewrite read_digits_uint, uint_value_0 by exact Hp.
    unfold Z.of_uint. rewrite DecimalPos.Unsigned.of_to. cbn [Z.of_N].
    destruct (Z.leb_spec (- 2 ^ 31) (Z.pos p)); [|lia].
    destruct (Z.ltb_spec (Z.pos p) (2 ^ 31)); [reflexivity|lia].
  - cbn [Z.to_int DecimalString.NilZero.string_of_int].
    pose proof (DecimalPos.Unsigned.to_uint_nonnil p) as Hp.
    rewrite string_of_uint_nonnil by exact Hp.
    cbn [skip_spaces]. change (isspace "-") with false. cbv iota.
    change (Ascii.eqb "-" "-") with true. cbv iota.
    rewrite read_digits_uint, uint_value_0 by exact Hp.
    unfold Z.of_uint. rewrite DecimalPos.Unsigned.of_to. cbn [Z.of_N Z.opp].
    destruct (Z.leb_spec (- 2 ^ 31) (Z.neg p)); [|lia].
    destruct (Z.ltb_spec (Z.neg p) (2 ^ 31)); [reflexivity|lia].
Qed.

Lemma all_chars_app (test : ascii -> bool) (a b : string) :
  all_chars test (a ++ b) = all_chars test a && all_chars test b.
Proof.
  induction a as [|c a IH]; [reflexivity|]. cbn [append all_chars].
  now rewrite IH, andb_assoc.
Qed.

Lemma all_chars_weaken (test test' : ascii -> bool) (s : string) :
  (forall c, test c = true -> test' c = true) ->
  all_chars test s = true -> all_chars test' s = true.
Proof.
  intros Himp. induction s as [|c s IH]; [reflexivity|]. cbn [all_chars].
  intros Hs. apply andb_prop in Hs. destruct Hs as [Hc Hs].
  now rewrite (Himp c Hc), IH.
Qed.

Lemma string_of_uint_digits (d : Decimal.uint) :
  all_chars isdigit (DecimalString.NilEmpty.string_of_uint d) = true.
Proof. induction d; cbn; auto. Qed.

Lemma show_int_chars (z : Z) : all_chars int_char (show_int z) = true.
Proof.
  assert (Hd : forall d, all_chars int_char (DecimalString.NilZero.string_of_uint d) = true).
  { intros d. destruct d; try reflexivity;
      (rewrite string_of_uint_nonnil by discriminate;
       apply (all_chars_weaken isdigit); [|apply string_of_uint_digits];
       intros c Hc; unfold int_char; now rewrite Hc). }
  unfold show_int. destruct (Z.to_int z) as [d|d];
    cbn [DecimalString.NilZero.string_of_int all_chars]; [apply Hd|].
  rewrite Hd. reflexivity.
Qed.

Lemma show_int_nonempty (z : Z) : show_int z <> EmptyString.
Proof.
  unfold show_int. destruct (Z.to_int z) as [d|d];
    cbn [DecimalString.NilZero.string_of_int]; [|discriminate].
  destruct d; discriminate.
Qed.

Lemma string_length_app (a b : string) :
  String.length (a ++ b) = (String.length a + String.length b)%nat.
Proof. induction a as [|c a IH]; [reflexivity|]. cbn. now rewrite IH. Qed.

Lemma find_char_skip (c : ascii) (a b : string) (pos : nat) :
  all_chars (fun d => negb (Ascii.eqb d c)) a = true ->
  (pos <= String.length a)%nat ->
  find_char c pos (a ++ String c b) = Some (String.length a).
Proof.
  revert pos. induction a as [|d a IH]; intros pos Ha Hpos.
  - cbn in *. assert (pos = 0%nat) as -> by lia. now rewrite Ascii.eqb_refl.
  - cbn [all_chars] in Ha. apply andb_prop in Ha. destruct Ha as [Hd Ha].
    apply negb_true_iff in Hd. cbn [append find_char String.length].
    destruct pos as [|pos].
    + rewrite Hd, IH by (try assumption; lia). reflexivity.
    + cbn [String.length] in Hpos. rewrite IH by (try assumption; lia). reflexivity.
Qed.

Lemma find_char_none (c : ascii) (a : string) (pos : nat) :
  all_chars (fun d => negb (Ascii.eqb d c)) a = true ->
  find_char c pos a = None.
Proof.
  revert pos. induction a as [|d a IH]; intros pos Ha; [reflexivity|].
  cbn [all_chars] in Ha. apply andb_prop in Ha. destruct Ha as [Hd Ha].
  apply negb_true_iff in Hd. cbn [find_char].
  destruct pos; [rewrite Hd|]; now rewrite IH.
Qed.

Lemma find_char_after (c : ascii) (a b : string) (k : nat) :
  find_char c (String.length a + k) (a ++ b)
  = option_map (Nat.add (String.length a)) (find_char c k b).
Proof.
  induction a as [|d a IH]; cbn [append String.length Nat.add find_char].
  - now destruct (find_char c k b).
  - rewrite IH. now destruct (find_char c k b).
Qed.

Lemma substring_prefix (a b : string) :
  substring 0 (String.length a) (a ++ b) = a.
Proof.
  induction a as [|c a IH]; cbn [append String.length substring].
  - now destruct b.
  - now rewrite IH.
Qed.

Lemma substring_skip (a b : string) (m : nat) :
  substring (String.length a) m (a ++ b) = substring 0 m b.
Proof. induction a as [|c a IH]; [reflexivity|]. cbn. exact IH. Qed.

Lemma substring_whole (a : string) : substring 0 (String.length a) a = a.
Proof.
  induction a as [|c a IH]; [reflexivity|]. cbn. now rewrite IH.
Qed.

Lemma int_char_not_slash (s : string) :
  all_chars int_char s = true ->
  all_chars (fun d => negb (Ascii.eqb d "/")) s = true.
Proof.
  apply all_chars_weaken. intros c Hc. apply negb_true_iff, Ascii.eqb_neq.
  intros ->. discriminate.
Qed.

Lemma int_char_not_space (s : string) :
  all_chars int_char s = true ->
  all_chars (fun d => negb (isspace d)) s = true.
Proof.
  apply all_chars_weaken. intros c Hc. apply negb_true_iff.
  unfold int_char, isdigit, isspace in *.
  destruct (Ascii.eqb c "-") eqn:Em.
  { apply Ascii.eqb_eq in Em. subst c. reflexivity. }
  rewrite orb_false_r in Hc. apply andb_prop in Hc. destruct Hc as [Hlo Hhi].
  apply Nat.leb_le in Hlo, Hhi.
  destruct (Nat.eqb_spec (nat_of_ascii c) 32); [lia|]. cbn [orb].
  apply andb_false_intro2. apply Nat.leb_gt. lia.
Qed.

(** Reading back a corner as [OBJWriter::write] puts it out. *)
Lemma corner_indices_of_written (vi ti ni : Z) :
  (- 2 ^ 31 < vi < 2 ^ 31)%Z -> (- 2 ^ 31 < ti < 2 ^ 31)%Z ->
  (- 2 ^ 31 < ni < 2 ^ 31)%Z ->
  corner_indices_of (show_int vi ++ "/" ++ show_int ti ++ "/" ++ show_int ni)
  = Normal (vi - 1, ti - 1, ni - 1)%Z.
Proof.
  intros Hv Ht Hn.
  pose proof (int_char_not_slash _ (show_int_chars vi)) as Sv.
  pose proof (int_char_not_slash _ (show_int_chars ti)) as St.
  pose proof (stoi_show_int vi) as Rv. pose proof (stoi_show_int ti) as Rt.
  pose proof (stoi_show_int ni) as Rn.
  pose proof (show_int_nonempty ti) as Hne.
  set (a := show_int vi) in *. set (b := show_int ti) in *. set (c := show_int ni) in *.
  set (la := String.length a). set (lb := String.length b).
  assert (Hb : (0 < lb)%nat) by (unfold lb; destruct b; [congruence|cbn; lia]).
  set (s := (a ++ "/" ++ b ++ "/" ++ c)%string).
  assert (H1 : find_char "/" 0 s = Some la).
  { apply (find_char_skip "/" a); [exact Sv|lia]. }
  assert (Hs2 : s = ((a ++ "/") ++ b ++ String "/" c)%string).
  { unfold s. now rewrite !string_app_assoc. }
  assert (Hla1 : String.length (a ++ "/") = (la + 1)%nat).
  { rewrite string_length_app. reflexivity. }
  assert (H2 : find_char "/" (la + 1) s = Some (la + 1 + lb)%nat).
  { rewrite Hs2. replace (la + 1)%nat with (String.length (a ++ "/") + 0)%nat at 1 by lia.
    rewrite find_char_after, (find_char_skip "/" b) by (try assumption; lia).
    cbn [option_map]. now rewrite Hla1. }
  assert (H3 : substr s 0 la = a) by apply substring_prefix.
  assert (H4 : substr s (la + 1) (la + 1 + lb - la - 1) = b).
  { unfold substr. rewrite Hs2, <- Hla1, substring_skip.
    replace (String.length (a ++ "/") + lb - la - 1)%nat with lb by lia.
    apply substring_prefix. }
  assert (H5 : substr_from s (la + 1 + lb + 1) = c).
  { assert (Hs3 : s = (((a ++ "/") ++ b ++ "/") ++ c)%string).
    { unfold s. now rewrite !string_app_assoc. }
    assert (Hl3 : String.length ((a ++ "/") ++ b ++ "/") = (la + 1 + lb + 1)%nat).
    { rewrite !string_length_app. cbn. lia. }
    unfold substr_from. rewrite Hs3 at 2. rewrite <- Hl3, substring_skip.
    replace (String.length s - _)%nat with (String.length c).
    - apply substring_whole.
    - rewrite Hs3, (string_length_app _ c). lia. }
  unfold corner_indices_of. fold s. rewrite H1. cbv beta iota. rewrite H2.
  destruct (Nat.eqb_spec (la + 1 + lb) (la + 1)) as [Heq|_]; [lia|].
  rewrite H3, H4, H5. unfold stoi_minus_1.
  rewrite Rv, Rt, Rn by lia. cbn [and_then].
  destruct (Z.eqb_spec vi (- 2 ^ 31)) as [Hmin|_]; [lia|].
  destruct (Z.eqb_spec ti (- 2 ^ 31)) as [Hmin|_]; [lia|].
  destruct (Z.eqb_spec ni (- 2 ^ 31)) as [Hmin|_]; [lia|].
  reflexivity.
Qed.

Lemma corner_indices_of_v (vi : Z) :
  (- 2 ^ 31 < vi < 2 ^ 31)%Z ->
  corner_indices_of (show_int vi) = Normal (vi - 1, -1, -1)%Z.
Proof.
  intros Hv. unfold corner_indices_of.
  rewrite (find_char_none "/" (show_int vi))
    by apply int_char_not_slash, show_int_chars.
  unfold stoi_minus_1. rewrite stoi_show_int by lia. cbn [and_then].
  destruct (Z.eqb_spec vi (- 2 ^ 31)); [lia|reflexivity].
Qed.

Lemma corner_indices_of_v_t (vi : Z) (t : string) :
  (- 2 ^ 31 < vi < 2 ^ 31)%Z ->
  all_chars (fun d => negb (Ascii.eqb d "/")) t = true ->
  corner_indices_of (show_int vi ++ "/" ++ t)
  = (tIdx <- stoi_minus_1 t ;; Normal (vi - 1, tIdx, -1)%Z).
Proof.
  intros Hv Ht.
  pose proof (int_char_not_slash _ (show_int_chars vi)) as Sv.
  pose proof (stoi_show_int vi) as Rv.
  set (a := show_int vi) in *. set (la := String.length a).
  set (s := (a ++ "/" ++ t)%string).
  assert (H1 : find_char "/" 0 s = Some la).
  { apply (find_char_skip "/" a); [exact Sv|lia]. }
  assert (Hs2 : s = ((a ++ "/") ++ t)%string).
  { unfold s. now rewrite !string_app_assoc. }
  assert (Hla1 : String.length (a ++ "/") = (la + 1)%nat).
  { rewrite string_length_app. reflexivity. }
  assert (H2 : find_char "/" (la + 1) s = None).
  { rewrite Hs2. replace (la + 1)%nat with (String.length (a ++ "/") + 0)%nat at 1 by lia.
    rewrite find_char_after, (find_char_none "/" t) by assumption. reflexivity. }
  assert (H3 : substr s 0 la = a) by apply substring_prefix.
  assert (H5 : substr_from s (la + 1) = t).
  { unfold substr_from. rewrite Hs2 at 2. rewrite <- Hla1, substring_skip.
    replace (String.length s - _)%nat with (String.length t).
    - apply substring_whole.
    - rewrite Hs2, (string_length_app _ t). lia. }
  unfold corner_indices_of. fold s. rewrite H1. cbv beta iota. rewrite H2, H3, H5.
  unfold stoi_minus_1 at 1. rewrite Rv by lia. cbn [and_then].
  destruct (Z.eqb_spec vi (- 2 ^ 31)); [lia|reflexivity].
Qed.

Lemma corner_indices_of_v_n (vi ni : Z) :
  (- 2 ^ 31 < vi < 2 ^ 31)%Z -> (- 2 ^ 31 < ni < 2 ^ 31)%Z ->
  corner_indices_of (show_int vi ++ "//" ++ show_int ni)
  = Normal (vi - 1, -1, ni - 1)%Z.
Proof.
  intros Hv Hn.
  pose proof (int_char_not_slash _ (show_int_chars vi)) as Sv.
  pose proof (stoi_show_int vi) as Rv. pose proof (stoi_show_int ni) as Rn.
  set (a := show_int vi) in *. set (c := show_int ni) in *.
  set (la := String.length a).
  set (s := (a ++ "//" ++ c)%string).
  assert (H1 : find_char "/" 0 s = Some la).
  { apply (find_char_skip "/" a); [exact Sv|lia]. }
  assert (Hs2 : s = ((a ++ "/") ++ String "/" c)%string).
  { unfold s. now rewrite !string_app_assoc. }
  assert (Hla1 : String.length (a ++ "/") = (la + 1)%nat).
  { rewrite string_length_app. reflexivity. }
  assert (H2 : find_char "/" (la + 1) s = Some (la + 1)%nat).
  { rewrite Hs2. replace (la + 1)%nat with (String.length (a ++ "/") + 0)%nat at 1 by lia.
    rewrite find_char_after. cbn [find_char option_map]. rewrite Ascii.eqb_refl.
    cbn [option_map]. rewrite Hla1. f_equal. lia. }
  assert (H3 : substr s 0 la = a) by apply substring_prefix.
  assert (H5 : substr_from s (la + 1 + 1) = c).
  { assert (Hs3 : s = ((a ++ "//") ++ c)%string).
    { unfold s. now rewrite !string_app_assoc. }
    assert (Hl3 : String.length (a ++ "//") = (la + 1 + 1)%nat).
    { rewrite !string_length_app. cbn. lia. }
    unfold substr_from. rewrite Hs3 at 2. rewrite <- Hl3, substring_skip.
    replace (String.length s - _)%nat with (String.length c).
    - apply substring_whole.
    - rewrite Hs3, (string_length_app _ c). lia. }
  unfold corner_indices_of. fold s. rewrite H1. cbv beta iota. rewrite H2.
  rewrite Nat.eqb_refl, H3, H5. unfold stoi_minus_1.
  rewrite Rv, Rn by lia. cbn [and_then].
  destruct (Z.eqb_spec vi (- 2 ^ 31)); [lia|].
  destruct (Z.eqb_spec ni (- 2 ^ 31)); [lia|reflexivity].
Qed.

(** X18. The four forms of a face corner of an OBJ file are read as the
    constructor of [Object3D] intends: for numbers within [int], ["v"]
    gives [(v - 1, -1, -1)], ["v/t"] gives [(v - 1, t - 1, -1)], ["v//n"]
    gives [(v - 1, -1, n - 1)] and ["v/t/n"] gives [(v - 1, t - 1, n - 1)]:
    the indices counted from zero, [-1] for one that is not given.  The
    last form is the one [OBJWriter::write] puts out, so what it writes for
    a corner is read back as the three positions it found. *)
Theorem X18_corner_forms (v t n : Z) :
  (- 2 ^ 31 < v < 2 ^ 31)%Z -> (- 2 ^ 31 < t < 2 ^ 31)%Z -> (- 2 ^ 31 < n < 2 ^ 31)%Z ->
  corner_indices_of (show_int v) = Normal (v - 1, -1, -1)%Z
  /\ corner_indices_of (show_int v ++ "/" ++ show_int t) = Normal (v - 1, t - 1, -1)%Z
  /\ corner_indices_of (show_int v ++ "//" ++ show_int n) = Normal (v - 1, -1, n - 1)%Z
  /\ corner_indices_of (show_int v ++ "/" ++ show_int t ++ "/" ++ show_int n)
     = Normal (v - 1, t - 1, n - 1)%Z.
Proof.
  intros Hv Ht Hn. split; [|split; [|split]].
  - now apply corner_indices_of_v.
  - rewrite corner_indices_of_v_t
      by (try assumption; apply int_char_not_slash, show_int_chars).
    unfold stoi_minus_1. rewrite stoi_show_int by lia. cbn [and_then].
    destruct (Z.eqb_spec t (- 2 ^ 31)); [lia|reflexivity].
  - now apply corner_indices_of_v_n.
  - now apply corner_indices_of_written.
Qed.

Lemma X18_corner_forms_witness :
  corner_indices_of "12/7/3" = Normal (11, 6, 2)%Z.
Proof.
  apply (X18_corner_forms 12 7 3); lia.
Defined.

(** The first [std::stoi] of a corner reads the characters before the
    first slash, or the whole corner when it has none. *)
Lemma corner_first_number (word : string) :
  stoi (match find_char "/" 0 word with
        | Some p => substr word 0 p
        | None => word
        end) = Exception "std::invalid_argument" ->
  corner_indices_of word = Exception "std::invalid_argument".
Proof.
  unfold corner_indices_of, stoi_minus_1.
  destruct (find_char "/" 0 word) as [p|]; intros Hs.
  - destruct (find_char "/" (p + 1) word) as [q|];
      [destruct (q =? p + 1)%nat|]; rewrite Hs; reflexivity.
  - rewrite Hs. reflexivity.
Qed.

Lemma stoi_empty : stoi EmptyString = Exception "std::invalid_argument".
Proof. reflexivity. Qed.

(** No number starts with a character that is not a digit, a sign or a
    space. *)
Lemma stoi_first_char (c : ascii) (rest : string) :
  isdigit c = false -> isspace c = false ->
  Ascii.eqb c "-" = false -> Ascii.eqb c "+" = false ->
  stoi (String c rest) = Exception "std::invalid_argument".
Proof.
  intros Hd Hs Hm Hp. unfold stoi. cbn [skip_spaces]. rewrite Hs, Hm, Hp.
  cbn [read_digits]. rewrite Hd. reflexivity.
Qed.

(** Nor with a sign that no digit follows. *)
Lemma stoi_sign (c : ascii) (rest : string) :
  Ascii.eqb c "-" || Ascii.eqb c "+" = true ->
  match rest with String d _ => isdigit d = false | EmptyString => True end ->
  stoi (String c rest) = Exception "std::invalid_argument".
Proof.
  intros Hc Hrest.
  assert (Hs : isspace c = false).
  { apply orb_prop in Hc. destruct Hc as [Hc|Hc]; apply Ascii.eqb_eq in Hc; subst c;
      reflexivity. }
  unfold stoi. cbn [skip_spaces]. rewrite Hs.
  assert (Hread : read_digits rest 0 false = None).
  { destruct rest as [|d rest']; [reflexivity|]. cbn [read_digits]. now rewrite Hrest. }
  destruct (Ascii.eqb c "-"); [now rewrite Hread|].
  cbn [orb] in Hc. rewrite Hc. now rewrite Hread.
Qed.

Lemma substr_head (c : ascii) (rest : string) (p : nat) :
  substr (String c rest) 0 (S p) = String c (substring 0 p rest).
Proof. reflexivity. Qed.

(** X19. A corner that does not give a number where [std::stoi] reads one
    makes it throw [std::invalid_argument], and the constructor catches
    nothing: a corner with a slash and no number after it, as in ["5/"]; a
    corner whose first character is not a digit, a sign or a space, as in
    ["x1"], ["a/5"] and ["/7"]; and a corner that starts with a sign that
    no digit follows, as in ["-"], ["+a"] and ["-/3"]. *)
Theorem X19_corner_without_number (v : Z) (c d : ascii) (rest : string) :
  (- 2 ^ 31 < v < 2 ^ 31)%Z ->
  corner_indices_of (show_int v ++ "/") = Exception "std::invalid_argument"
  /\ (isdigit c = false -> isspace c = false ->
      Ascii.eqb c "-" = false -> Ascii.eqb c "+" = false ->
      corner_indices_of (String c rest) = Exception "std::invalid_argument")
  /\ (Ascii.eqb c "-" || Ascii.eqb c "+" = true -> isdigit d = false ->
      corner_indices_of (String c EmptyString) = Exception "std::invalid_argument"
      /\ corner_indices_of (String c (String d rest)) = Exception "std::invalid_argument").
Proof.
  intros Hv. split; [|split].
  - change (show_int v ++ "/")%string with (show_int v ++ "/" ++ "")%string.
    rewrite corner_indices_of_v_t by (try assumption; reflexivity). reflexivity.
  - intros Hd Hs Hm Hp. apply corner_first_number.
    destruct (find_char "/" 0 (String c rest)) as [[|p]|].
    + apply stoi_empty.
    + rewrite substr_head. now apply stoi_first_char.
    + now apply stoi_first_char.
  - intros Hc Hd. split; apply corner_first_number.
    + destruct (find_char "/" 0 (String c EmptyString)) as [[|p]|].
      * apply stoi_empty.
      * rewrite substr_head. apply stoi_sign; [assumption|]. now destruct p.
      * now apply stoi_sign.
    + destruct (find_char "/" 0 (String c (String d rest))) as [[|[|p]]|].
      * apply stoi_empty.
      * rewrite substr_head. now apply stoi_sign.
      * rewrite substr_head. now apply stoi_sign.
      * now apply stoi_sign.
Qed.

Lemma X19_corner_without_number_witness :
  corner_indices_of "5/" = Exception "std::invalid_argument"
  /\ corner_indices_of "a/5" = Exception "std::invalid_argument"
  /\ corner_indices_of "-x" = Exception "std::invalid_argument".
Proof.
  destruct (X19_corner_without_number 5 "a" "x" "/5") as (H1 & H2 & _); [lia|].
  destruct (X19_corner_without_number 5 "-" "x" "") as (_ & _ & H3); [lia|].
  split; [exact H1|]. split; [now apply H2|].
  now apply H3.
Defined.

(** ** The OBJ reader *)

Lemma Forall2_nth_error_l {A B : Type} (R : A -> B -> Prop) (la : list A) (lb : list B)
    (i : nat) (a : A) :
  Forall2 R la lb -> nth_error la i = Some a ->
  exists b, nth_error lb i = Some b /\ R a b.
Proof.
  intros HR. revert i. induction HR as [|x y la lb Hxy _ IH]; intros [|i] Hi;
    try discriminate.
  - injection Hi as <-. now exists y.
  - now apply IH.
Qed.

Lemma Forall2_length_eq {A B : Type} (R : A -> B -> Prop) (la : list A) (lb : list B) :
  Forall2 R la lb -> length la = length lb.
Proof. induction 1; simpl; congruence. Qed.

Lemma fan_length {A : Type} (l : list A) : length (fan l) = (length l - 2)%nat.
Proof.
  destruct l as [|c0 rest]; [reflexivity|].
  unfold fan. rewrite length_map, length_seq. simpl. lia.
Qed.

Lemma fan_triangles {A : Type} (l : list A) :
  Forall (fun tri => length tri = 3%nat) (fan l).
Proof.
  destruct l as [|c0 rest]; [constructor|].
  unfold fan. apply Forall_forall. intros tri Htri.
  apply in_map_iff in Htri. destruct Htri as (i & <- & Hi). apply in_seq in Hi.
  destruct (nth_error rest i) eqn:E1.
  2:{ apply nth_error_None in E1. lia. }
  destruct (nth_error rest (S i)) eqn:E2; [reflexivity|].
  apply nth_error_None in E2. lia.
Qed.

Section ReaderProofs.
Context {F : Type} `{Scalar F}.
Variable extract_vec3 : string -> vec3 F.
Variable extract_vec2 : string -> vec2 F.
Import ObjReader.

Lemma resolve_corner_same_raw (st1 st2 : state F) (tok : string) :
  same_raw st1 st2 -> resolve_corner st1 tok = resolve_corner st2 tok.
Proof.
  intros (Hp & Ht & Hn). unfold resolve_corner. now rewrite Hp, Ht, Hn.
Qed.

Lemma add_triangle_same_raw (st : state F) cs : same_raw (add_triangle st cs) st.
Proof. repeat split. Qed.

Lemma add_triangles_same_raw (tris : list (list _)) (st : state F) :
  same_raw (fold_left add_triangle tris st) st.
Proof.
  revert st. induction tris as [|cs tris IH]; intros st; [repeat split|].
  cbn [fold_left]. destruct (IH (add_triangle st cs)) as (Hp & Ht & Hn).
  repeat split; [rewrite Hp|rewrite Ht|rewrite Hn]; reflexivity.
Qed.

Lemma read_triangle_resolved (tokens : list string) (st : state F) (i : nat)
    (t0 t1 t2 : string) c0 c1 c2 :
  nth_error tokens 0 = Some t0 -> nth_error tokens i = Some t1 ->
  nth_error tokens (i + 1) = Some t2 ->
  resolve_corner st t0 = Normal c0 -> resolve_corner st t1 = Normal c1 ->
  resolve_corner st t2 = Normal c2 ->
  read_triangle tokens (Normal st) i = Normal (add_triangle st [c0; c1; c2]).
Proof.
  intros H0' H1' H2' R0 R1 R2.
  destruct c0 as [[p0 u0] n0], c1 as [[p1 u1] n1], c2 as [[p2 u2] n2].
  unfold read_triangle. cbn [and_then]. rewrite H0', H1', H2'.
  cbn [checked and_then fold_left]. unfold read_corner. cbn [and_then].
  rewrite R0. cbn [and_then push_corner].
  rewrite (resolve_corner_same_raw _ st t1) by (repeat split). rewrite R1.
  cbn [and_then push_corner].
  rewrite (resolve_corner_same_raw _ st t2) by (repeat split). rewrite R2.
  cbn [and_then push_corner raw_positions raw_texcoords raw_normals positions
       texcoords normals groups].
  unfold add_triangle. cbn [map fst snd]. rewrite <- !app_assoc. reflexivity.
Qed.

Lemma read_face_fan (rest : string) (st : state F) corners :
  Forall2 (fun tok c => resolve_corner st tok = Normal c) (words rest) corners ->
  read_face rest st = Normal (fold_left add_triangle (fan corners) st).
Proof.
  intros Hres. unfold read_face. set (tokens := words rest) in *.
  pose proof (Forall2_length_eq _ _ _ Hres) as Hlen.
  destruct (Nat.ltb_spec (length tokens) 3) as [Hshort|Hlong].
  - assert (Hfan : fan corners = []).
    { pose proof (fan_length corners) as Hf. rewrite <- Hlen in Hf.
      destruct (fan corners); [reflexivity|simpl in Hf; lia]. }
    now rewrite Hfan.
  - destruct tokens as [|t0 trest] eqn:Etok; [simpl in Hlong; lia|].
    destruct corners as [|c0 crest]; [inversion Hres|].
    inversion Hres as [|? ? ? ? R0 Hrest]; subst.
    cbn [length] in *. unfold fan.
    replace (S (length trest) - 2)%nat with (length crest - 1)%nat by lia.
    assert (Hk : (length crest - 1 <= length crest - 1)%nat) by lia.
    revert Hk. generalize (length crest - 1)%nat at 1 3 4 as k.
    induction k as [|k IH]; intros Hk; [reflexivity|].
    rewrite !seq_S, map_app, !fold_left_app, IH by lia.
    cbn [map fold_left Nat.add].
    destruct (nth_error trest k) as [t1|] eqn:E1.
    2:{ apply nth_error_None in E1. lia. }
    destruct (nth_error trest (S k)) as [t2|] eqn:E2.
    2:{ apply nth_error_None in E2. lia. }
    destruct (Forall2_nth_error_l _ _ _ _ _ Hrest E1) as (c1 & Ec1 & R1).
    destruct (Forall2_nth_error_l _ _ _ _ _ Hrest E2) as (c2 & Ec2 & R2).
    rewrite Ec1, Ec2.
    apply read_triangle_resolved with (t0 := t0) (t1 := t1) (t2 := t2).
    + reflexivity.
    + exact E1.
    + replace (S k + 1)%nat with (S (S k)) by lia. exact E2.
    + rewrite <- R0. apply resolve_corner_same_raw, add_triangles_same_raw.
    + rewrite <- R1. apply resolve_corner_same_raw, add_triangles_same_raw.
    + rewrite <- R2. apply resolve_corner_same_raw, add_triangles_same_raw.
Qed.

Lemma and_then_normal {A B : Type} (b : behaviour A) (k : A -> behaviour B) (r : B) :
  and_then b k = Normal r -> exists a, b = Normal a /\ k a = Normal r.
Proof. destruct b as [a| |]; try discriminate. intros Hk. now exists a. Qed.

Lemma addFace_back_faces (gs : list (GeometryObjects.Group F))
    (face : GeometryObjects.Face F) :
  gs <> [] ->
  flat_map GeometryObjects.faces (GeometryObjects.addFace_back gs face)
  = flat_map GeometryObjects.faces gs ++ [face]
  /\ GeometryObjects.addFace_back gs face <> []
  /\ length (GeometryObjects.addFace_back gs face) = length gs.
Proof.
  induction gs as [|g gs IH]; [congruence|]. intros _.
  destruct gs as [|g' gs].
  - cbn. rewrite !app_nil_r. repeat split. discriminate.
  - destruct IH as (IH1 & IH2 & IH3); [discriminate|].
    change (GeometryObjects.addFace_back (g :: g' :: gs) face)
      with (g :: GeometryObjects.addFace_back (g' :: gs) face).
    cbn [flat_map length]. rewrite IH1, IH3, app_assoc. repeat split. discriminate.
Qed.

Lemma add_triangle_three (st : state F) cs :
  length cs = 3%nat -> three_per_face st -> three_per_face (add_triangle st cs).
Proof.
  intros Hcs (Hp & Ht & Hn & Hg & Hall).
  destruct (addFace_back_faces (groups st)
              (GeometryObjects.mkFace (map (fun c => fst (fst c)) cs) (map snd cs)
                                      (map (fun c => snd (fst c)) cs)) Hg)
    as (Hfaces & Hne & _).
  unfold three_per_face, add_triangle.
  cbn [positions texcoords normals groups].
  rewrite Hfaces, !length_app, !length_map, Hcs. cbn [length].
  split; [lia|]. split; [lia|]. split; [lia|]. split; [exact Hne|].
  apply Forall_app. split; [exact Hall|]. constructor; [|constructor].
  cbn [GeometryObjects.verts GeometryObjects.norms GeometryObjects.texts].
  now rewrite !length_map.
Qed.

Lemma read_corner_push (tok : string) (st st' : state F) face face' :
  read_corner tok (Normal (st, face)) = Normal (st', face') ->
  exists c, resolve_corner st tok = Normal c /\ (st', face') = push_corner st face c.
Proof.
  unfold read_corner. cbn [and_then]. intros Hr.
  apply and_then_normal in Hr. destruct Hr as (c & Hc & Hr).
  exists c. split; [exact Hc|]. now injection Hr.
Qed.

(** Whatever the corners are, a triangle that is read adds three entries
    and one face. *)
Lemma read_triangle_three (tokens : list string) (i : nat)
    (acc : behaviour (state F)) (st' : state F) :
  read_triangle tokens acc i = Normal st' ->
  exists st cs, acc = Normal st /\ length cs = 3%nat /\ st' = add_triangle st cs.
Proof.
  unfold read_triangle. intros Hr.
  apply and_then_normal in Hr. destruct Hr as (st & Hacc & Hr).
  apply and_then_normal in Hr. destruct Hr as (t0 & _ & Hr).
  apply and_then_normal in Hr. destruct Hr as (t1 & _ & Hr).
  apply and_then_normal in Hr. destruct Hr as (t2 & _ & Hr).
  apply and_then_normal in Hr. destruct Hr as ([st3 face3] & Hfold & Hr).
  cbn [fold_left] in Hfold.
  destruct (read_corner t0 _) as [[st1 face1]| |] eqn:E0;
    [|cbn in Hfold; discriminate ..].
  destruct (read_corner t1 _) as [[st2 face2]| |] eqn:E1;
    [|cbn in Hfold; discriminate ..].
  apply read_corner_push in E0, E1, Hfold.
  destruct E0 as ([[p0 u0] n0] & _ & E0), E1 as ([[p1 u1] n1] & _ & E1),
    Hfold as ([[p2 u2] n2] & _ & E2).
  cbn [push_corner] in E0, E1, E2.
  injection E0 as -> ->. injection E1 as -> ->. injection E2 as -> ->.
  exists st, [(p0, u0, n0); (p1, u1, n1); (p2, u2, n2)].
  split; [exact Hacc|]. split; [reflexivity|].
  injection Hr as <-. unfold add_triangle.
  cbn [raw_positions raw_texcoords raw_normals positions texcoords normals groups
       map fst snd].
  rewrite <- !app_assoc. reflexivity.
Qed.

Lemma read_triangles_three (tokens : list string) (passes : list nat)
    (acc : behaviour (state F)) (st' : state F) :
  fold_left (read_triangle tokens) passes acc = Normal st' ->
  exists st, acc = Normal st /\ (three_per_face st -> three_per_face st').
Proof.
  revert acc. induction passes as [|i passes IH]; intros acc Hr.
  - cbn in Hr. exists st'. split; [exact Hr|auto].
  - cbn [fold_left] in Hr. apply IH in Hr. destruct Hr as (st1 & Hr & Hinv).
    apply read_triangle_three in Hr. destruct Hr as (st & cs & Hacc & Hcs & ->).
    exists st. split; [exact Hacc|]. intros Hst. apply Hinv.
    now apply add_triangle_three.
Qed.

Lemma read_line_three (acc : behaviour (state F)) (line : string) (st' : state F) :
  read_line extract_vec3 extract_vec2 acc line = Normal st' ->
  exists st, acc = Normal st /\ (three_per_face st -> three_per_face st').
Proof.
  unfold read_line. intros Hr.
  apply and_then_normal in Hr. destruct Hr as (st & Hacc & Hr).
  exists st. split; [exact Hacc|].
  destruct (extract_word line) as [type rest].
  destruct (String.eqb type "v"); [injection Hr as <-; now unfold three_per_face|].
  destruct (String.eqb type "vt"); [injection Hr as <-; now unfold three_per_face|].
  destruct (String.eqb type "vn"); [injection Hr as <-; now unfold three_per_face|].
  destruct (String.eqb type "usemtl").
  { injection Hr as <-. unfold three_per_face.
    cbn [positions texcoords normals groups].
    rewrite flat_map_app. cbn [flat_map GeometryObjects.faces].
    rewrite !app_nil_r. intros (Hp & Ht & Hn & Hg & Hall).
    repeat split; try assumption. now destruct (groups st). }
  destruct (String.eqb type "f"); [|injection Hr as <-; auto].
  unfold read_face in Hr.
  destruct (length (words rest) <? 3)%nat; [injection Hr as <-; auto|].
  apply read_triangles_three in Hr. destruct Hr as (st0 & [= <-] & Hinv). exact Hinv.
Qed.

Lemma read_lines_three (ls : list string) (acc : behaviour (state F)) (st' : state F) :
  fold_left (read_line extract_vec3 extract_vec2) ls acc = Normal st' ->
  exists st, acc = Normal st /\ (three_per_face st -> three_per_face st').
Proof.
  revert acc. induction ls as [|l ls IH]; intros acc Hr.
  - cbn in Hr. exists st'. split; [exact Hr|auto].
  - cbn [fold_left] in Hr. apply IH in Hr. destruct Hr as (st1 & Hr & Hinv).
    apply read_line_three in Hr. destruct Hr as (st & Hacc & Hinv0).
    exists st. split; [exact Hacc|auto].
Qed.

End ReaderProofs.

Section ReaderTheorems.
Context {F : Type} `{Scalar F}.
Variable extract_vec3 : string -> vec3 F.
Variable extract_vec2 : string -> vec2 F.
Import ObjReader.

(** X20. A face corner given by a single number [v] (within [int]) is
    looked up at position [v - 1] of the [v] lines read so far.  A number
    that is zero or negative (the relative indices of the OBJ format) is
    not an error: the corner silently gets the position [(0, 0, 0)].  A
    number above the count of [v] lines read so far is a read past the end
    of the vector (undefined behaviour).  Texture coordinate and normal,
    not given, are zero. *)
Theorem X20_corner_index_bounds (st : state F) (v : Z) :
  (- 2 ^ 31 < v < 2 ^ 31)%Z ->
  resolve_corner st (show_int v)
  = if (v <=? 0)%Z
    then Normal (GeometryObjects.mkVec3 f0 f0 f0, GeometryObjects.mkVec2 f0 f0,
                 GeometryObjects.mkVec3 f0 f0 f0)
    else match nth_error (raw_positions st) (Z.to_nat (v - 1)) with
         | Some p => Normal (GeometryObjects.mkVec3 (vx p) (vy p) (vz p),
                             GeometryObjects.mkVec2 f0 f0,
                             GeometryObjects.mkVec3 f0 f0 f0)
         | None => Undefined
         end.
Proof.
  intros Hv. unfold resolve_corner. rewrite corner_indices_of_v by exact Hv.
  cbn [and_then]. unfold lookup at 1.
  destruct (Z.leb_spec v 0) as [Hle|Hgt].
  - destruct (Z.leb_spec 0 (v - 1)); [lia|]. reflexivity.
  - destruct (Z.leb_spec 0 (v - 1)); [|lia].
    unfold vector_at. destruct (Z.ltb_spec (v - 1) 0); [lia|].
    destruct (nth_error (raw_positions st) (Z.to_nat (v - 1))); reflexivity.
Qed.

(** X21. A line [f c0 c1 ... ck] is read as a triangle fan: when every
    corner resolves, the triangles [(c0, ci, ci+1)], [i = 1 .. k - 1], are
    added in this order, each as one face of three corners to the current
    (last) group and as three entries to each vector of the mesh; a line of
    [m >= 3] corners adds [m - 2] faces and [3 (m - 2)] vertices, and a
    line of fewer than three corners adds nothing. *)
Theorem X21_face_fan (rest : string) (st : state F)
    (corners : list (GeometryObjects.Vec3 F * GeometryObjects.Vec2 F
                     * GeometryObjects.Vec3 F)) :
  Forall2 (fun tok c => resolve_corner st tok = Normal c) (words rest) corners ->
  groups st <> [] ->
  let st' := fold_left add_triangle (fan corners) st in
  let m := length (words rest) in
  read_face rest st = Normal st'
  /\ length (fan corners) = (m - 2)%nat
  /\ Forall (fun tri => length tri = 3%nat) (fan corners)
  /\ total_faces st' = (total_faces st + (m - 2))%nat
  /\ length (positions st') = (length (positions st) + 3 * (m - 2))%nat
  /\ length (texcoords st') = (length (texcoords st) + 3 * (m - 2))%nat
  /\ length (normals st') = (length (normals st) + 3 * (m - 2))%nat.
Proof.
  intros Hres Hg st' m.
  pose proof (Forall2_length_eq _ _ _ Hres) as Hlen. fold m in Hlen.
  split; [now apply read_face_fan|].
  split; [rewrite fan_length; lia|].
  split; [apply fan_triangles|].
  assert (Hm : (m - 2 = length (fan corners))%nat) by (rewrite fan_length; lia).
  rewrite Hm. unfold st'.
  pose proof (fan_triangles corners) as Htri.
  clear Hres Hlen Hm st' m. revert st Hg.
  induction (fan corners) as [|cs tris IH]; intros st Hg.
  - cbn. repeat split; lia.
  - inversion Htri as [|? ? Hcs Htris]; subst.
    destruct (addFace_back_faces (groups st)
                (GeometryObjects.mkFace (map (fun c => fst (fst c)) cs) (map snd cs)
                                        (map (fun c => snd (fst c)) cs)) Hg)
      as (Hfaces & Hne & _).
    cbn [fold_left length].
    destruct (IH Htris (add_triangle st cs) Hne) as (I1 & I2 & I3 & I4).
    rewrite I1, I2, I3, I4. unfold total_faces, add_triangle.
    cbn [positions texcoords normals groups].
    rewrite Hfaces, !length_app, !length_map, Hcs. cbn [length]. repeat split; lia.
Qed.

(** X22. Reading an OBJ text keeps the three vectors of the mesh aligned:
    when the lines are read to the end, [positions], [texcoords] and
    [normals] hold exactly three entries per face read, every face has
    three corners, and so [Mesh(positions, texcoords, normals, groups)]
    reads nothing out of range: the mesh of the object has as many vertices
    in its buffer as [3 * faces], which is the count [main] draws as
    triangles.  An exception or an undefined read while the lines are read
    is the outcome of the constructor. *)
Theorem X22_object_three_vertices_per_face (name text : string) :
  match read_lines extract_vec3 extract_vec2 name text with
  | Normal st =>
      exists mesh,
        Object3D_mesh extract_vec3 extract_vec2 name text = Normal mesh
        /\ GeometryObjects.vertices mesh = positions st
        /\ GeometryObjects.groups mesh = groups st
        /\ length (GeometryObjects.VAO mesh) = length (GeometryObjects.vertices mesh)
        /\ length (GeometryObjects.vertices mesh)
           = (3 * length (flat_map GeometryObjects.faces (GeometryObjects.groups mesh)))%nat
        /\ Forall (fun face => length (GeometryObjects.verts face) = 3%nat
                               /\ length (GeometryObjects.norms face) = 3%nat
                               /\ length (GeometryObjects.texts face) = 3%nat)
                  (flat_map GeometryObjects.faces (GeometryObjects.groups mesh))
  | Exception what =>
      Object3D_mesh extract_vec3 extract_vec2 name text = Exception what
  | Undefined => Object3D_mesh extract_vec3 extract_vec2 name text = Undefined
  end.
Proof.
  unfold Object3D_mesh.
  destruct (read_lines extract_vec3 extract_vec2 name text) as [st| |] eqn:Hread;
    [|reflexivity ..].
  unfold read_lines in Hread. apply read_lines_three in Hread.
  destruct Hread as (st0 & [= <-] & Hinv).
  destruct Hinv as (Hp & Ht & Hn & Hg & Hall).
  { unfold three_per_face, start. cbn. repeat split; try discriminate. constructor. }
  cbn [and_then]. unfold GeometryObjects.Mesh_of_vectors, for_loop.
  rewrite interleave_loop by lia.
  rewrite !skipn_O, firstn_all, app_nil_l. cbn [checked].
  eexists. split; [reflexivity|].
  cbn [GeometryObjects.vertices GeometryObjects.groups GeometryObjects.VAO].
  unfold GeometryObjects.setupGeometry.
  rewrite length_map, !length_combine. repeat split; try assumption. lia.
Qed.

End ReaderTheorems.

Lemma X20_corner_index_bounds_witness :
  ObjReader.resolve_corner
    (ObjReader.mkstate [point32 7 8 9] [] [] [] [] [] []) "-1"
  = Normal (GeometryObjects.mkVec3 (Binary32.of_int 0) (Binary32.of_int 0)
                                   (Binary32.of_int 0),
            GeometryObjects.mkVec2 (Binary32.of_int 0) (Binary32.of_int 0),
            GeometryObjects.mkVec3 (Binary32.of_int 0) (Binary32.of_int 0)
                                   (Binary32.of_int 0)).
Proof.
  pose proof (X20_corner_index_bounds
                (ObjReader.mkstate [point32 7 8 9] [] [] [] [] [] []) (-1)) as Hx.
  exact (Hx ltac:(lia)).
Defined.

Lemma X21_face_fan_witness :
  exists st',
    ObjReader.read_face " 1 2 3 4"
      (ObjReader.mkstate [point32 0 0 0; point32 1 0 0; point32 1 0 1; point32 0 0 1]
                         [] [] [] [] [] [GeometryObjects.mkGroup "Track" "" []])
    = Normal st'
    /\ ObjReader.total_faces st' = 2%nat
    /\ length (ObjReader.positions st') = 6%nat.
Proof.
  pose proof (X21_face_fan " 1 2 3 4"
    (ObjReader.mkstate [point32 0 0 0; point32 1 0 0; point32 1 0 1; point32 0 0 1]
                       [] [] [] [] [] [GeometryObjects.mkGroup "Track" "" []])
    (map (fun p => (ObjReader.Vec3_of p,
                    GeometryObjects.mkVec2 (Binary32.of_int 0) (Binary32.of_int 0),
                    GeometryObjects.mkVec3 (Binary32.of_int 0) (Binary32.of_int 0)
                                           (Binary32.of_int 0)))
         [point32 0 0 0; point32 1 0 0; point32 1 0 1; point32 0 0 1])) as Hfan.
  cbv zeta in Hfan.
  destruct Hfan as (Hread & _ & _ & Hfaces & Hpos & _).
  - repeat constructor.
  - discriminate.
  - eexists. split; [exact Hread|]. split; [exact Hfaces|exact Hpos].
Defined.

(** ** A mesh written and read back *)

Lemma until_space_word (w r : string) :
  all_chars (fun c => negb (isspace c)) w = true ->
  until_space (w ++ String " " r) = (w, String " " r).
Proof.
  induction w as [|c w IH]; intros Hw; [reflexivity|].
  cbn [all_chars] in Hw. apply andb_prop in Hw. destruct Hw as [Hc Hw].
  apply negb_true_iff in Hc. cbn [append until_space]. now rewrite Hc, IH.
Qed.

Lemma extract_word_word (w r : string) :
  all_chars (fun c => negb (isspace c)) w = true -> w <> EmptyString ->
  extract_word (w ++ String " " r) = (w, String " " r).
Proof.
  intros Hw Hne. unfold extract_word. destruct w as [|c w]; [congruence|].
  pose proof Hw as Hw'. cbn [all_chars] in Hw'. apply andb_prop in Hw'.
  destruct Hw' as [Hc _]. apply negb_true_iff in Hc.
  cbn [append skip_spaces]. rewrite Hc.
  now apply (until_space_word (String c w)).
Qed.

Lemma words_from_word (tok w r : string) :
  all_chars (fun c => negb (isspace c)) w = true -> (tok ++ w)%string <> EmptyString ->
  words_from tok (w ++ String " " r) = (tok ++ w)%string :: words_from EmptyString r.
Proof.
  revert tok. induction w as [|c w IH]; intros tok Hw Hne.
  - rewrite string_app_empty in *. cbn. destruct tok; [congruence|reflexivity].
  - cbn [all_chars] in Hw. apply andb_prop in Hw. destruct Hw as [Hc Hw].
    apply negb_true_iff in Hc. cbn [append words_from]. rewrite Hc.
    rewrite IH; [now rewrite string_app_assoc|exact Hw|].
    rewrite string_app_assoc. cbn. now destruct tok.
Qed.

Lemma words_spaced (ws : list string) :
  Forall (fun w => all_chars (fun c => negb (isspace c)) w = true /\ w <> EmptyString) ws ->
  words (fold_right append EmptyString (map (fun w => w ++ " ")%string ws)) = ws.
Proof.
  unfold words. induction 1 as [|w ws [Hw Hne] _ IH]; [reflexivity|].
  cbn [map fold_right]. rewrite string_app_assoc.
  change (" " ++ ?r)%string with (String " " r).
  now rewrite words_from_word, IH.
Qed.

Lemma corner_text_word (ix : Z * Z * Z) :
  GeometryObjects.corner_text ix = (GeometryObjects.corner_word ix ++ " ")%string.
Proof.
  destruct ix as [[vi ti] ni]. unfold GeometryObjects.corner_text,
    GeometryObjects.corner_word. now rewrite !string_app_assoc.
Qed.

Lemma corner_word_chars (ix : Z * Z * Z) :
  all_chars (fun c => negb (isspace c)) (GeometryObjects.corner_word ix) = true
  /\ GeometryObjects.corner_word ix <> EmptyString.
Proof.
  destruct ix as [[vi ti] ni]. unfold GeometryObjects.corner_word. split.
  - rewrite !all_chars_app.
    rewrite (int_char_not_space _ (show_int_chars vi)),
      (int_char_not_space _ (show_int_chars ti)),
      (int_char_not_space _ (show_int_chars ni)).
    reflexivity.
  - pose proof (show_int_nonempty vi). destruct (show_int vi); [congruence|discriminate].
Qed.

Section RoundTripProofs.
Context {F : Type} `{Scalar F} `{ScalarEq F}.
Variable show_float : F -> string.
Variable extract_vec3 : string -> vec3 F.
Variable extract_vec2 : string -> vec2 F.
Import ObjReader.

Lemma read_v_lines (vs : list (GeometryObjects.Vec3 F)) (st : state F) :
  fold_left (read_line extract_vec3 extract_vec2)
            (map (GeometryObjects.v_line show_float) vs) (Normal st)
  = Normal (mkstate (raw_positions st
                     ++ map (fun p => extract_vec3 (GeometryObjects.v_fields show_float p)) vs)
                    (raw_texcoords st) (raw_normals st)
                    (positions st) (texcoords st) (normals st) (groups st)).
Proof.
  revert st. induction vs as [|p vs IH]; intros st.
  - cbn. rewrite app_nil_r. now destruct st.
  - cbn [map fold_left]. unfold read_line at 2. cbn [and_then].
    change (GeometryObjects.v_line show_float p)
      with ("v" ++ String " " (show_float (GeometryObjects.x p) ++ " "
                               ++ show_float (GeometryObjects.y p) ++ " "
                               ++ show_float (GeometryObjects.z p)))%string.
    rewrite extract_word_word by (reflexivity || discriminate).
    cbn [String.eqb Ascii.eqb Bool.eqb].
    rewrite IH. cbn [raw_positions raw_texcoords raw_normals positions texcoords
                     normals groups map].
    now rewrite <- app_assoc.
Qed.

Lemma read_vt_lines (ts : list (GeometryObjects.Vec2 F)) (st : state F) :
  fold_left (read_line extract_vec3 extract_vec2)
            (map (GeometryObjects.vt_line show_float) ts) (Normal st)
  = Normal (mkstate (raw_positions st)
                    (raw_texcoords st
                     ++ map (fun t => extract_vec2 (GeometryObjects.vt_fields show_float t)) ts)
                    (raw_normals st)
                    (positions st) (texcoords st) (normals st) (groups st)).
Proof.
  revert st. induction ts as [|t ts IH]; intros st.
  - cbn. rewrite app_nil_r. now destruct st.
  - cbn [map fold_left]. unfold read_line at 2. cbn [and_then].
    change (GeometryObjects.vt_line show_float t)
      with ("vt" ++ String " " (show_float (GeometryObjects.u t) ++ " "
                                ++ show_float (GeometryObjects.v t)))%string.
    rewrite extract_word_word by (reflexivity || discriminate).
    cbn [String.eqb Ascii.eqb Bool.eqb].
    rewrite IH. cbn [raw_positions raw_texcoords raw_normals positions texcoords
                     normals groups map].
    now rewrite <- app_assoc.
Qed.

Lemma read_vn_lines (ns : list (GeometryObjects.Vec3 F)) (st : state F) :
  fold_left (read_line extract_vec3 extract_vec2)
            (map (GeometryObjects.vn_line show_float) ns) (Normal st)
  = Normal (mkstate (raw_positions st) (raw_texcoords st)
                    (raw_normals st
                     ++ map (fun p => extract_vec3 (GeometryObjects.v_fields show_float p)) ns)
                    (positions st) (texcoords st) (normals st) (groups st)).
Proof.
  revert st. induction ns as [|p ns IH]; intros st.
  - cbn. rewrite app_nil_r. now destruct st.
  - cbn [map fold_left]. unfold read_line at 2. cbn [and_then].
    change (GeometryObjects.vn_line show_float p)
      with ("vn" ++ String " " (show_float (GeometryObjects.x p) ++ " "
                                ++ show_float (GeometryObjects.y p) ++ " "
                                ++ show_float (GeometryObjects.z p)))%string.
    rewrite extract_word_word by (reflexivity || discriminate).
    cbn [String.eqb Ascii.eqb Bool.eqb].
    rewrite IH. cbn [raw_positions raw_texcoords raw_normals positions texcoords
                     normals groups map].
    now rewrite <- app_assoc.
Qed.

Lemma lookup_found {A B C : Type} (eq : A -> A -> bool) (l : list A) (value : A)
    (g : A -> B) (convert : B -> C) (zero : C) :
  (Z.of_nat (length l) < 2 ^ 31 - 1)%Z ->
  (find_index eq l value < length l)%nat ->
  lookup (map g l) (to_int (Z.of_nat (find_index eq l value)) + 1 - 1) convert zero
  = Normal (convert (g (first_match eq l value))).
Proof.
  intros Hsize Hfound. rewrite to_int_small by lia.
  replace (Z.of_nat (find_index eq l value) + 1 - 1)%Z
    with (Z.of_nat (find_index eq l value)) by lia.
  unfold lookup. destruct (Z.leb_spec 0 (Z.of_nat (find_index eq l value))); [|lia].
  rewrite vector_at_nth_error, nth_error_map.
  unfold first_match. rewrite (nth_error_nth' l value Hfound). reflexivity.
Qed.

Lemma resolve_written (mesh : GeometryObjects.Mesh F) (st : state F)
    (p : GeometryObjects.Vec3 F) (t : GeometryObjects.Vec2 F) (n : GeometryObjects.Vec3 F) :
  holds_lines_of show_float extract_vec3 extract_vec2 mesh st ->
  (Z.of_nat (length (GeometryObjects.vertices mesh)) < 2 ^ 31 - 1)%Z ->
  (Z.of_nat (length (GeometryObjects.mappings mesh)) < 2 ^ 31 - 1)%Z ->
  (Z.of_nat (length (GeometryObjects.normals mesh)) < 2 ^ 31 - 1)%Z ->
  (find_index GeometryObjects.Vec3_eq (GeometryObjects.vertices mesh) p
   < length (GeometryObjects.vertices mesh))%nat ->
  (find_index GeometryObjects.Vec2_eq (GeometryObjects.mappings mesh) t
   < length (GeometryObjects.mappings mesh))%nat ->
  (find_index GeometryObjects.Vec3_eq (GeometryObjects.normals mesh) n
   < length (GeometryObjects.normals mesh))%nat ->
  resolve_corner st
    (GeometryObjects.corner_word (GeometryObjects.corner_indices mesh p t n))
  = Normal (reread_v show_float extract_vec3
              (first_match GeometryObjects.Vec3_eq (GeometryObjects.vertices mesh) p),
            reread_vt show_float extract_vec2
              (first_match GeometryObjects.Vec2_eq (GeometryObjects.mappings mesh) t),
            reread_v show_float extract_vec3
              (first_match GeometryObjects.Vec3_eq (GeometryObjects.normals mesh) n)).
Proof.
  intros (Hp & Ht & Hn) Sv St Sn Fp Ft Fn.
  unfold resolve_corner, GeometryObjects.corner_indices, GeometryObjects.corner_word.
  rewrite corner_indices_of_written by (rewrite to_int_small; lia).
  cbn [and_then]. rewrite Hp, Ht, Hn.
  rewrite (lookup_found GeometryObjects.Vec3_eq (GeometryObjects.vertices mesh) p)
    by assumption.
  cbn [and_then].
  rewrite (lookup_found GeometryObjects.Vec2_eq (GeometryObjects.mappings mesh) t)
    by assumption.
  cbn [and_then].
  rewrite (lookup_found GeometryObjects.Vec3_eq (GeometryObjects.normals mesh) n)
    by assumption.
  reflexivity.
Qed.

Lemma holds_lines_same_raw (mesh : GeometryObjects.Mesh F) (st st' : state F) :
  same_raw st' st -> holds_lines_of show_float extract_vec3 extract_vec2 mesh st -> holds_lines_of show_float extract_vec3 extract_vec2 mesh st'.
Proof.
  intros (Rp & Rt & Rn) (Hp & Ht & Hn). unfold holds_lines_of.
  now rewrite Rp, Rt, Rn.
Qed.

Lemma read_f_line (mesh : GeometryObjects.Mesh F) (face : GeometryObjects.Face F)
    (st : state F) :
  holds_lines_of show_float extract_vec3 extract_vec2 mesh st ->
  (Z.of_nat (length (GeometryObjects.vertices mesh)) < 2 ^ 31 - 1)%Z ->
  (Z.of_nat (length (GeometryObjects.mappings mesh)) < 2 ^ 31 - 1)%Z ->
  (Z.of_nat (length (GeometryObjects.normals mesh)) < 2 ^ 31 - 1)%Z ->
  triangle_found mesh face = true ->
  read_line extract_vec3 extract_vec2 (Normal st) (GeometryObjects.f_line mesh face)
  = Normal (mkstate (raw_positions st) (raw_texcoords st) (raw_normals st)
              (positions st
               ++ GeometryObjects.verts (reread_face show_float extract_vec3 extract_vec2
                                                     mesh face))
              (texcoords st
               ++ GeometryObjects.texts (reread_face show_float extract_vec3 extract_vec2
                                                     mesh face))
              (normals st
               ++ GeometryObjects.norms (reread_face show_float extract_vec3 extract_vec2
                                                     mesh face))
              (GeometryObjects.addFace_back (groups st)
                 (reread_face show_float extract_vec3 extract_vec2 mesh face))).
Proof.
  intros Hraw Sv St Sn Hfound.
  unfold triangle_found in Hfound. rewrite !andb_true_iff in Hfound.
  destruct Hfound as (((((Lv & Lt) & Ln) & Fv) & Ft) & Fn).
  apply Nat.eqb_eq in Lv, Lt, Ln.
  destruct face as [verts norms texts]. cbn [GeometryObjects.verts GeometryObjects.texts
    GeometryObjects.norms] in *.
  destruct verts as [|p0 [|p1 [|p2 [|]]]]; try discriminate.
  destruct texts as [|t0 [|t1 [|t2 [|]]]]; try discriminate.
  destruct norms as [|n0 [|n1 [|n2 [|]]]]; try discriminate.
  cbn [forallb] in Fv, Ft, Fn. rewrite !andb_true_iff in Fv, Ft, Fn.
  destruct Fv as (Fv0 & Fv1 & Fv2 & _), Ft as (Ft0 & Ft1 & Ft2 & _),
    Fn as (Fn0 & Fn1 & Fn2 & _).
  apply Nat.ltb_lt in Fv0, Fv1, Fv2, Ft0, Ft1, Ft2, Fn0, Fn1, Fn2.
  unfold read_line. cbn [and_then].
  unfold GeometryObjects.f_line, GeometryObjects.face_corners.
  cbn [GeometryObjects.verts GeometryObjects.texts GeometryObjects.norms combine map
       fold_right].
  set (ix0 := GeometryObjects.corner_indices mesh p0 t0 n0).
  set (ix1 := GeometryObjects.corner_indices mesh p1 t1 n1).
  set (ix2 := GeometryObjects.corner_indices mesh p2 t2 n2).
  set (rest := (GeometryObjects.corner_text ix0 ++ GeometryObjects.corner_text ix1
                ++ GeometryObjects.corner_text ix2 ++ "")%string).
  change ("f " ++ rest)%string with ("f" ++ String " " rest)%string.
  rewrite extract_word_word by (reflexivity || discriminate).
  cbn [String.eqb Ascii.eqb Bool.eqb].
  assert (Hwords : words (String " " rest)
                   = [GeometryObjects.corner_word ix0; GeometryObjects.corner_word ix1;
                      GeometryObjects.corner_word ix2]).
  { change (words (String " " rest)) with (words rest). unfold rest.
    rewrite !corner_text_word.
    apply (words_spaced [GeometryObjects.corner_word ix0; GeometryObjects.corner_word ix1;
                         GeometryObjects.corner_word ix2]).
    repeat constructor; apply corner_word_chars. }
  rewrite (read_face_fan (String " " rest) st
             [(reread_v show_float extract_vec3
                 (first_match GeometryObjects.Vec3_eq (GeometryObjects.vertices mesh) p0),
               reread_vt show_float extract_vec2
                 (first_match GeometryObjects.Vec2_eq (GeometryObjects.mappings mesh) t0),
               reread_v show_float extract_vec3
                 (first_match GeometryObjects.Vec3_eq (GeometryObjects.normals mesh) n0));
              (reread_v show_float extract_vec3
                 (first_match GeometryObjects.Vec3_eq (GeometryObjects.vertices mesh) p1),
               reread_vt show_float extract_vec2
                 (first_match GeometryObjects.Vec2_eq (GeometryObjects.mappings mesh) t1),
               reread_v show_float extract_vec3
                 (first_match GeometryObjects.Vec3_eq (GeometryObjects.normals mesh) n1));
              (reread_v show_float extract_vec3
                 (first_match GeometryObjects.Vec3_eq (GeometryObjects.vertices mesh) p2),
               reread_vt show_float extract_vec2
                 (first_match GeometryObjects.Vec2_eq (GeometryObjects.mappings mesh) t2),
               reread_v show_float extract_vec3
                 (first_match GeometryObjects.Vec3_eq (GeometryObjects.normals mesh) n2))]).
  - reflexivity.
  - rewrite Hwords. repeat constructor; apply resolve_written; assumption.
Qed.

Lemma read_f_lines (mesh : GeometryObjects.Mesh F) (fs : list (GeometryObjects.Face F))
    (st : state F) :
  holds_lines_of show_float extract_vec3 extract_vec2 mesh st ->
  (Z.of_nat (length (GeometryObjects.vertices mesh)) < 2 ^ 31 - 1)%Z ->
  (Z.of_nat (length (GeometryObjects.mappings mesh)) < 2 ^ 31 - 1)%Z ->
  (Z.of_nat (length (GeometryObjects.normals mesh)) < 2 ^ 31 - 1)%Z ->
  forallb (triangle_found mesh) fs = true ->
  let back := reread_face show_float extract_vec3 extract_vec2 mesh in
  fold_left (read_line extract_vec3 extract_vec2)
            (map (GeometryObjects.f_line mesh) fs) (Normal st)
  = Normal (mkstate (raw_positions st) (raw_texcoords st) (raw_normals st)
              (positions st ++ flat_map (fun face => GeometryObjects.verts (back face)) fs)
              (texcoords st ++ flat_map (fun face => GeometryObjects.texts (back face)) fs)
              (normals st ++ flat_map (fun face => GeometryObjects.norms (back face)) fs)
              (fold_left GeometryObjects.addFace_back (map back fs) (groups st))).
Proof.
  intros Hraw Sv St Sn Hfound back. revert st Hraw.
  induction fs as [|face fs IH]; intros st Hraw.
  - cbn. rewrite !app_nil_r. now destruct st.
  - cbn [forallb] in Hfound. apply andb_prop in Hfound. destruct Hfound as [Hface Hfs].
    cbn [map fold_left flat_map].
    rewrite read_f_line by assumption.
    rewrite IH by (try assumption; revert Hraw; apply holds_lines_same_raw; repeat split).
    cbn [raw_positions raw_texcoords raw_normals positions texcoords normals groups].
    now rewrite <- !app_assoc.
Qed.

Lemma addFace_back_single (gname mname : string) (faces fs0 : list (GeometryObjects.Face F)) :
  fold_left GeometryObjects.addFace_back faces [GeometryObjects.mkGroup gname mname fs0]
  = [GeometryObjects.mkGroup gname mname (fs0 ++ faces)].
Proof.
  revert fs0. induction faces as [|face faces IH]; intros fs0.
  - cbn. now rewrite app_nil_r.
  - cbn [fold_left GeometryObjects.addFace_back]. unfold GeometryObjects.addFace.
    cbn [GeometryObjects.name GeometryObjects.mtlName GeometryObjects.faces].
    now rewrite IH, <- app_assoc.
Qed.

Lemma triangle_found_whole (mesh : GeometryObjects.Mesh F) (face : GeometryObjects.Face F) :
  triangle_found mesh face = true -> GeometryObjects.whole_face face = true.
Proof.
  unfold triangle_found, GeometryObjects.whole_face. rewrite !andb_true_iff.
  intros (((((Lv & Lt) & Ln) & _) & _) & _). apply Nat.eqb_eq in Lv, Lt, Ln.
  rewrite Lv, Lt, Ln. split; reflexivity.
Qed.

Lemma reread_face_lengths (mesh : GeometryObjects.Mesh F) (fs : list (GeometryObjects.Face F)) :
  forallb (triangle_found mesh) fs = true ->
  let back := reread_face show_float extract_vec3 extract_vec2 mesh in
  length (flat_map (fun face => GeometryObjects.verts (back face)) fs) = (3 * length fs)%nat
  /\ length (flat_map (fun face => GeometryObjects.texts (back face)) fs) = (3 * length fs)%nat
  /\ length (flat_map (fun face => GeometryObjects.norms (back face)) fs) = (3 * length fs)%nat.
Proof.
  intros Hfound back. induction fs as [|face fs IH]; [repeat split|].
  cbn [forallb] in Hfound. apply andb_prop in Hfound. destruct Hfound as [Hface Hfs].
  destruct (IH Hfs) as (I1 & I2 & I3).
  unfold triangle_found in Hface. rewrite !andb_true_iff in Hface.
  destruct Hface as (((((Lv & Lt) & Ln) & _) & _) & _). apply Nat.eqb_eq in Lv, Lt, Ln.
  cbn [flat_map length]. rewrite !length_app, I1, I2, I3.
  unfold back, reread_face.
  cbn [GeometryObjects.verts GeometryObjects.texts GeometryObjects.norms].
  rewrite !length_map, Lv, Lt, Ln. repeat split; lia.
Qed.

End RoundTripProofs.

Section RoundTripTheorem.
Context {F : Type} `{Scalar F} `{ScalarEq F}.
Variable show_float : F -> string.
Variable extract_vec3 : string -> vec3 F.
Variable extract_vec2 : string -> vec2 F.

(** Reading the lines [OBJWriter::write] puts out for a mesh of one group
    of triangles found in the mesh. *)
Lemma written_obj_read_back (mesh : GeometryObjects.Mesh F)
    (groupName name : string) (fs : list (GeometryObjects.Face F)) :
  (forall a, has_newline (show_float a) = false) ->
  GeometryObjects.groups mesh = [GeometryObjects.mkGroup groupName "" fs] ->
  (Z.of_nat (length (GeometryObjects.vertices mesh)) < 2 ^ 31 - 1)%Z ->
  (Z.of_nat (length (GeometryObjects.mappings mesh)) < 2 ^ 31 - 1)%Z ->
  (Z.of_nat (length (GeometryObjects.normals mesh)) < 2 ^ 31 - 1)%Z ->
  forallb (triangle_found mesh) fs = true ->
  let back := reread_face show_float extract_vec3 extract_vec2 mesh in
  exists object,
    ObjReader.Object3D_mesh extract_vec3 extract_vec2 name
      (unlines (GeometryObjects.obj_lines show_float mesh)) = Normal object
    /\ GeometryObjects.groups object = [GeometryObjects.mkGroup name "" (map back fs)]
    /\ GeometryObjects.vertices object
       = flat_map (fun face => GeometryObjects.verts (back face)) fs
    /\ GeometryObjects.mappings object
       = flat_map (fun face => GeometryObjects.texts (back face)) fs
    /\ GeometryObjects.normals object
       = flat_map (fun face => GeometryObjects.norms (back face)) fs
    /\ length (GeometryObjects.VAO object) = (3 * length fs)%nat.
Proof.
  intros Hshow Hgroups Sv St Sn Hfound back.
  assert (Hlines : lines (unlines (GeometryObjects.obj_lines show_float mesh))
                   = GeometryObjects.obj_lines show_float mesh).
  { apply lines_unlines. unfold GeometryObjects.obj_lines.
    rewrite Hgroups. cbn [flat_map]. unfold GeometryObjects.group_lines.
    cbn [GeometryObjects.mtlName GeometryObjects.faces String.eqb app].
    rewrite app_nil_r, !Forall_app. repeat split.
    - apply Forall_forall. intros l Hl. apply in_map_iff in Hl. destruct Hl as (p & <- & _).
      unfold GeometryObjects.v_line. now rewrite !has_newline_app, !Hshow.
    - apply Forall_forall. intros l Hl. apply in_map_iff in Hl. destruct Hl as (p & <- & _).
      unfold GeometryObjects.vt_line. now rewrite !has_newline_app, !Hshow.
    - apply Forall_forall. intros l Hl. apply in_map_iff in Hl. destruct Hl as (p & <- & _).
      unfold GeometryObjects.vn_line. now rewrite !has_newline_app, !Hshow.
    - apply Forall_forall. intros l Hl. apply in_map_iff in Hl.
      destruct Hl as (face & <- & _).
      unfold GeometryObjects.f_line. rewrite has_newline_app, has_newline_concat;
        [reflexivity|].
      apply Forall_forall. intros l Hl. apply in_map_iff in Hl.
      destruct Hl as ([p [t n]] & <- & _).
      unfold GeometryObjects.corner_text.
      destruct (GeometryObjects.corner_indices mesh p t n) as [[vi ti] ni].
      now rewrite !has_newline_app, !show_int_one_line. }
  assert (Hread : ObjReader.read_lines extract_vec3 extract_vec2 name
                    (unlines (GeometryObjects.obj_lines show_float mesh))
                  = Normal (ObjReader.mkstate
                      (map (fun q => extract_vec3 (GeometryObjects.v_fields show_float q))
                           (GeometryObjects.vertices mesh))
                      (map (fun q => extract_vec2 (GeometryObjects.vt_fields show_float q))
                           (GeometryObjects.mappings mesh))
                      (map (fun q => extract_vec3 (GeometryObjects.v_fields show_float q))
                           (GeometryObjects.normals mesh))
                      (flat_map (fun face => GeometryObjects.verts (back face)) fs)
                      (flat_map (fun face => GeometryObjects.texts (back face)) fs)
                      (flat_map (fun face => GeometryObjects.norms (back face)) fs)
                      [GeometryObjects.mkGroup name "" (map back fs)])).
  { unfold ObjReader.read_lines. rewrite Hlines. unfold GeometryObjects.obj_lines.
    rewrite Hgroups. cbn [flat_map]. unfold GeometryObjects.group_lines.
    cbn [GeometryObjects.mtlName GeometryObjects.faces String.eqb app].
    rewrite app_nil_r, !fold_left_app.
    rewrite (read_v_lines show_float), (read_vt_lines show_float),
      (read_vn_lines show_float).
    rewrite (read_f_lines show_float) by (try assumption; repeat split).
    cbn [ObjReader.raw_positions ObjReader.raw_texcoords ObjReader.raw_normals
         ObjReader.positions ObjReader.texcoords ObjReader.normals ObjReader.groups
         ObjReader.start app].
    now rewrite addFace_back_single. }
  destruct (reread_face_lengths show_float extract_vec3 extract_vec2 mesh fs Hfound)
    as (L1 & L2 & L3).
  fold back in L1, L2, L3.
  unfold ObjReader.Object3D_mesh. rewrite Hread. cbn [and_then].
  cbn [ObjReader.positions ObjReader.texcoords ObjReader.normals ObjReader.groups].
  unfold GeometryObjects.Mesh_of_vectors, for_loop.
  rewrite interleave_loop by lia.
  rewrite !skipn_O, firstn_all, app_nil_l. cbn [checked].
  eexists. split; [reflexivity|].
  cbn [GeometryObjects.vertices GeometryObjects.groups GeometryObjects.VAO
       GeometryObjects.mappings GeometryObjects.normals].
  unfold GeometryObjects.setupGeometry.
  rewrite length_map, !length_combine. repeat split. lia.
Qed.

(** X23. A mesh written by [OBJWriter::write] and read back by the
    constructor of [Object3D], as [key_callback] and [readSceneFile] do
    with [track.obj].  For a mesh of one group without material name whose
    faces are triangles with every corner equal to an entry of the mesh
    (vectors below [2^31 - 1] entries, [float]s formatted without newline), the
    file is written, and it is read to the end without exception or
    undefined read; the object read has one group, named after the object,
    with the same number of faces in the same order, and three vertices
    per face.  Each corner holds what the reader extracts from the [v],
    [vt] and [vn] lines written for the first entries of the mesh equal to
    the corner's position, texture coordinate and normal. *)
Theorem X23_obj_written_and_read_back (mesh : GeometryObjects.Mesh F)
    (groupName name : string) (fs : list (GeometryObjects.Face F)) :
  (forall a, has_newline (show_float a) = false) ->
  GeometryObjects.groups mesh = [GeometryObjects.mkGroup groupName "" fs] ->
  (Z.of_nat (length (GeometryObjects.vertices mesh)) < 2 ^ 31 - 1)%Z ->
  (Z.of_nat (length (GeometryObjects.mappings mesh)) < 2 ^ 31 - 1)%Z ->
  (Z.of_nat (length (GeometryObjects.normals mesh)) < 2 ^ 31 - 1)%Z ->
  forallb (triangle_found mesh) fs = true ->
  let back := reread_face show_float extract_vec3 extract_vec2 mesh in
  exists text object,
    GeometryObjects.OBJWriter_write show_float mesh = Some text
    /\ ObjReader.Object3D_mesh extract_vec3 extract_vec2 name text = Normal object
    /\ GeometryObjects.groups object = [GeometryObjects.mkGroup name "" (map back fs)]
    /\ GeometryObjects.vertices object
       = flat_map (fun face => GeometryObjects.verts (back face)) fs
    /\ GeometryObjects.mappings object
       = flat_map (fun face => GeometryObjects.texts (back face)) fs
    /\ GeometryObjects.normals object
       = flat_map (fun face => GeometryObjects.norms (back face)) fs
    /\ length (GeometryObjects.VAO object) = (3 * length fs)%nat.
Proof.
  intros Hshow Hgroups Sv St Sn Hfound back.
  assert (Hwhole : forallb (fun grp => forallb GeometryObjects.whole_face
                                               (GeometryObjects.faces grp))
                           (GeometryObjects.groups mesh) = true).
  { rewrite Hgroups. cbn [forallb GeometryObjects.faces]. rewrite andb_true_r.
    apply forallb_forall. intros face Hface.
    rewrite forallb_forall in Hfound. eapply triangle_found_whole; eauto. }
  destruct (written_obj_read_back mesh groupName name fs Hshow Hgroups Sv St Sn Hfound)
    as (object & Hread & Hobject).
  exists (unlines (GeometryObjects.obj_lines show_float mesh)), object.
  split; [now apply OBJWriter_write_text|]. split; [exact Hread|exact Hobject].
Qed.

End RoundTripTheorem.

Lemma X23_obj_written_and_read_back_witness :
  exists text object,
    GeometryObjects.OBJWriter_write show_f32 sample_mesh = Some text
    /\ ObjReader.Object3D_mesh sample_extract_vec3 sample_extract_vec2 "Track" text
       = Normal object
    /\ length (GeometryObjects.VAO object) = 3%nat.
Proof.
  destruct (X23_obj_written_and_read_back show_f32 sample_extract_vec3 sample_extract_vec2
              sample_mesh "track" "Track"
              [GeometryObjects.face_of (GeometryObjects.positions_of sample_triangle)
                                       (GeometryObjects.mappings_of sample_triangle)
                                       (GeometryObjects.normals_of sample_triangle)
                                       [0; 1; 2]%Z])
    as (text & object & Hw & Hr & _ & _ & _ & _ & Hlen).
  - exact show_f32_one_line.
  - reflexivity.
  - simpl. lia.
  - simpl. lia.
  - simpl. lia.
  - vm_compute. reflexivity.
  - exists text, object. split; [exact Hw|]. split; [exact Hr|exact Hlen].
Defined.

(** * The editor *)

(** ** Comparisons of binary32 numbers *)

Lemma SFcompare_antisym (a b : spec_float) (c : comparison) :
  SFcompare a b = Some c -> SFcompare b a = Some (CompOpp c).
Proof.
  destruct a as [sa|sa| |sa ma ea], b as [sb|sb| |sb mb eb]; cbn [SFcompare];
    try discriminate; intros [= <-];
    try (destruct sa; reflexivity); try (destruct sb; reflexivity);
    try (destruct sa, sb; reflexivity).
  rewrite (Z.compare_antisym ea eb).
  change (PosDef.Pos.compare_cont Eq mb ma) with (Pos.compare mb ma).
  change (PosDef.Pos.compare_cont Eq ma mb) with (Pos.compare ma mb).
  rewrite (Pos.compare_antisym ma mb).
  destruct sa, sb; try reflexivity;
    destruct (ea ?= eb)%Z; cbn [CompOpp]; try reflexivity;
    destruct (ma ?= mb)%positive; reflexivity.
Qed.

Lemma SFcompare_numbers (a b : spec_float) :
  is_number a = true -> is_number b = true -> exists c, SFcompare a b = Some c.
Proof.
  destruct a, b; cbn; try discriminate; eauto.
Qed.

(** For numbers, [not (a < b)] is [b <= a]. *)
Lemma not_ltb_leb (a b : spec_float) :
  is_number a = true -> is_number b = true ->
  SFltb a b = false -> SFleb b a = true.
Proof.
  intros Ha Hb. destruct (SFcompare_numbers a b Ha Hb) as (c & Hc).
  unfold SFltb, SFleb. rewrite Hc, (SFcompare_antisym a b c Hc).
  destruct c; cbn; congruence.
Qed.

Lemma ltb_leb (a b : spec_float) : SFltb a b = true -> SFleb a b = true.
Proof. unfold SFltb, SFleb. destruct (SFcompare a b) as [[| |]|]; congruence. Qed.

Lemma binary_normalize_number (m e : Z) (szero : bool) :
  is_number (binary_normalize Binary32.prec Binary32.emax m e szero) = true.
Proof.
  unfold binary_normalize. destruct m as [|p|p]; [reflexivity| |].
  - pose proof (Binary32Facts.binary_round_sign false p e) as Hs.
    now destruct (binary_round Binary32.prec Binary32.emax false p e).
  - pose proof (Binary32Facts.binary_round_sign true p e) as Hs.
    now destruct (binary_round Binary32.prec Binary32.emax true p e).
Qed.

(** A sum or a difference of two numbers that are not infinite is a
    number. *)
Lemma add_number (a b : spec_float) :
  is_finite a = true -> is_finite b = true -> is_number (Binary32.add a b) = true.
Proof.
  destruct a as [sa|sa| |sa ma ea], b as [sb|sb| |sb mb eb]; try discriminate;
    intros _ _; unfold Binary32.add, SFadd; try reflexivity.
  - now destruct sa, sb.
  - apply binary_normalize_number.
Qed.

Lemma sub_number (a b : spec_float) :
  is_finite a = true -> is_finite b = true -> is_number (Binary32.sub a b) = true.
Proof.
  destruct a as [sa|sa| |sa ma ea], b as [sb|sb| |sb mb eb]; try discriminate;
    intros _ _; unfold Binary32.sub, SFsub; try reflexivity.
  - now destruct sa, sb.
  - apply binary_normalize_number.
Qed.

Lemma level_in_range_finite (x : Binary32.f32) :
  level_in_range x = true -> is_finite x = true.
Proof.
  unfold level_in_range. destruct x as [s|[|]| |s m e]; try reflexivity;
    intros Hx; apply andb_prop in Hx; destruct Hx as [H0 H5]; discriminate.
Qed.

(** [clamp(x, 0, maxHeight)] of a number is within [[0, maxHeight]]. *)
Lemma clamp_in_range (x : Binary32.f32) :
  is_number x = true ->
  level_in_range (glm_clamp x (Binary32.of_int 0) (Binary32.of_int 5)) = true.
Proof.
  intros Hx. unfold glm_clamp, glm_max, glm_min.
  change (@fltb Binary32.f32 f32_scalar) with SFltb.
  destruct (SFltb x (Binary32.of_int 0)) eqn:E0.
  - reflexivity.
  - assert (H0 : SFleb (Binary32.of_int 0) x = true)
      by (apply not_ltb_leb; auto).
    destruct (SFltb (Binary32.of_int 5) x) eqn:E5.
    + reflexivity.
    + assert (H5 : SFleb x (Binary32.of_int 5) = true)
        by (apply not_ltb_leb; auto).
      unfold level_in_range, Binary32.leb. now rewrite H0, H5.
Qed.

Lemma yellowStep_f32 :
  @yellowStep Binary32.f32 _ = S754_finite false 10066330 (-25).
Proof. reflexivity. Qed.

Lemma set_back_length {A : Type} (l : list A) (a : A) :
  length (set_back l a) = length l.
Proof.
  induction l as [|b l IH]; [reflexivity|]. destruct l; [reflexivity|].
  change (set_back (b :: a0 :: l) a) with (b :: set_back (a0 :: l) a).
  cbn [length] in *. now rewrite IH.
Qed.

Lemma set_back_Forall {A : Type} (P : A -> Prop) (l : list A) (a : A) :
  P a -> Forall P l -> Forall P (set_back l a).
Proof.
  intros Ha. induction 1 as [|b l Hb Hl IH]; [constructor|].
  destruct l; [now constructor|].
  change (set_back (b :: a0 :: l) a) with (b :: set_back (a0 :: l) a).
  now constructor.
Qed.

Lemma set_level_ok (ed : Editor Binary32.f32) (level : Binary32.f32) :
  editor_ok ed -> level_in_range level = true -> editor_ok (set_level ed level).
Proof.
  intros (Hlen & Hcur & Hall) Hlevel. unfold editor_ok, set_level.
  cbn [editorControlPoints editorPointYellowLevels currentYellowLevel].
  destruct (editorPointYellowLevels ed) as [|l ls] eqn:E.
  - repeat split; auto.
  - rewrite set_back_length. repeat split; auto.
    now apply set_back_Forall.
Qed.

Lemma editor_event_ok (ed : Editor Binary32.f32) (ev : EditorEvent Binary32.f32) :
  editor_ok ed -> editor_ok (editor_event ed ev).
Proof.
  intros Hok. pose proof Hok as (Hlen & Hcur & Hall).
  pose proof (level_in_range_finite _ Hcur) as Hfin.
  destruct ev as [key action|p]; cbn [editor_event].
  - assert (Hadj : editor_ok (adjust_height ed key action)).
    { unfold adjust_height. destruct (editorMode ed && is_press action); [|exact Hok].
      destruct key; try exact Hok;
        apply set_level_ok; try exact Hok; apply clamp_in_range;
        rewrite yellowStep_f32;
        (apply add_number || apply sub_number); auto. }
    unfold leave_editor.
    destruct (is_space key && is_press action && editorMode (adjust_height ed key action)
              && negb (length (editorControlPoints (adjust_height ed key action)) =? 0)%nat);
      exact Hadj.
  - unfold add_control_point. destruct (editorMode ed); [|exact Hok].
    unfold editor_ok.
    cbn [editorControlPoints editorPointYellowLevels currentYellowLevel].
    rewrite !length_app, Hlen. repeat split; auto.
    apply Forall_app. split; [exact Hall|]. now constructor.
Qed.

Section ControlPoints.
Context {F : Type} `{Scalar F}.

Lemma ctrl_points_loop (points : list (vec3 F)) (levels : list F) (n a : nat)
    (acc : list (vec3 F)) :
  (a + n <= length points)%nat -> (a + n <= length levels)%nat ->
  fold_left (fun st i => ctrl_point_body points levels i st) (seq a n) (Some acc)
  = Some (acc ++ map (fun '(p, yl) => mkvec3 (vx p) (vy p) yl)
                     (combine (firstn n (skipn a points)) (skipn a levels))).
Proof.
  revert a acc. induction n as [|n IH]; intros a acc Hp Hl.
  - cbn. now rewrite app_nil_r.
  - destruct (nth_error points a) as [p|] eqn:Ep.
    2:{ apply nth_error_None in Ep. lia. }
    destruct (nth_error levels a) as [yl|] eqn:El.
    2:{ apply nth_error_None in El. lia. }
    cbn [seq fold_left]. unfold ctrl_point_body at 2. rewrite Ep, El.
    rewrite IH by lia.
    rewrite (skipn_nth_error points a p Ep), (skipn_nth_error levels a yl El).
    cbn [firstn combine map]. now rewrite <- app_assoc.
Qed.

Lemma ctrlPoints3D_aligned (points : list (vec3 F)) (levels : list F) :
  length points = length levels ->
  ctrlPoints3D points levels
  = Some (map (fun '(p, yl) => mkvec3 (vx p) (vy p) yl) (combine points levels)).
Proof.
  intros Hlen. unfold ctrlPoints3D, for_loop.
  rewrite ctrl_points_loop by lia.
  now rewrite !skipn_O, firstn_all, app_nil_l.
Qed.

Lemma ctrlPoints3D_short (points : list (vec3 F)) (levels : list F) :
  (length levels < length points)%nat -> ctrlPoints3D points levels = None.
Proof.
  intros Hshort. unfold ctrlPoints3D, for_loop.
  replace (length points) with (length levels + S (length points - S (length levels)))%nat
    by lia.
  rewrite seq_app, fold_left_app. cbn [seq fold_left Nat.add].
  assert (Hnone : forall st, ctrl_point_body points levels (length levels) st = None).
  { intros st. unfold ctrl_point_body. destruct st; [|reflexivity].
    destruct (nth_error points (length levels)); [|reflexivity].
    replace (nth_error levels (length levels)) with (@None F); [reflexivity|].
    symmetry. apply nth_error_None. lia. }
  rewrite Hnone. apply fold_left_none. reflexivity.
Qed.

End ControlPoints.

(** X24. Whatever the user does in the editor, starting from the initial
    state: after any sequence of key events and left clicks (the space bar
    leaving the editor once the scene is built), the vectors
    [editorControlPoints] and [editorPointYellowLevels] have the same
    length, [currentYellowLevel] and every stored level are binary32
    numbers within [[0, maxHeight]] = [[0, 5]], and so the loop that builds
    [ctrlPoints3D] (which reads [editorPointYellowLevels[i]] for every
    control point without a check) stays in range; it yields one point per
    control point, with the level as third coordinate. *)
Theorem X24_editor_levels_aligned (events : list (EditorEvent Binary32.f32)) :
  let ed := fold_left editor_event events editor_start in
  length (editorPointYellowLevels ed) = length (editorControlPoints ed)
  /\ level_in_range (currentYellowLevel ed) = true
  /\ Forall (fun level => level_in_range level = true) (editorPointYellowLevels ed)
  /\ ctrlPoints3D (editorControlPoints ed) (editorPointYellowLevels ed)
     = Some (map (fun '(p, yl) => mkvec3 (vx p) (vy p) yl)
                 (combine (editorControlPoints ed) (editorPointYellowLevels ed))).
Proof.
  intros ed.
  assert (Hok : editor_ok ed).
  { assert (Hstart : editor_ok (@editor_start Binary32.f32 _)).
    { unfold editor_ok, editor_start. cbn. repeat split; constructor. }
    unfold ed. revert Hstart. generalize (@editor_start Binary32.f32 _).
    induction events as [|ev events IH]; intros ed0 Hed0; [exact Hed0|].
    cbn [fold_left]. apply IH. now apply editor_event_ok. }
  destruct Hok as (Hlen & Hcur & Hall).
  repeat split; auto. now apply ctrlPoints3D_aligned.
Qed.

(** ** The scene file *)

Section SceneFileProofs.
Context {F : Type} `{Scalar F}.
Variable show_float : F -> string.

Lemma write_control_points (controlPoints : list (vec3 F)) (levels : list F)
    (k : nat) (file : string) :
  (k <= length controlPoints)%nat ->
  for_loop k (write_control_point show_float controlPoints levels) file
  = (file ++ unlines (map (fun i => control_point_line show_float
                                      (leveled_point controlPoints levels i))
                          (seq 0 k)))%string.
Proof.
  induction k as [|k IH]; intros Hk.
  - cbn. now rewrite string_app_empty.
  - rewrite for_loop_S, IH by lia. rewrite seq_S, map_app, unlines_app.
    cbn [Nat.add map unlines fold_right].
    unfold write_control_point, control_point_line, leveled_point.
    destruct (nth_error controlPoints k) as [cp|] eqn:Ecp.
    2:{ apply nth_error_None in Ecp. lia. }
    rewrite (nth_error_nth _ _ vzero Ecp). cbn [vx vy vz].
    assert (Hyl : match nth_error levels k with Some yl => yl | None => f0 end
                  = nth k levels f0).
    { destruct (nth_error levels k) as [yl|] eqn:El.
      - now rewrite (nth_error_nth _ _ f0 El).
      - apply nth_error_None in El. now rewrite nth_overflow. }
    rewrite Hyl, !string_app_assoc. reflexivity.
Qed.

Lemma generateSceneFile_lines (trackObj carObj animFile : string)
    (controlPoints : list (vec3 F)) (levels : list F) :
  generateSceneFile show_float trackObj carObj animFile controlPoints levels
  = unlines (config_block ++ track_block trackObj ++ carro_block carObj animFile
             ++ ["Type BSplineCurve Curve1"%string]
             ++ map (fun i => control_point_line show_float
                                (leveled_point controlPoints levels i))
                    (seq 0 (length controlPoints))
             ++ ["PointsPerSegment 100"; "Color 1.0 0.0 0.0 1.0"; "End"]%string).
Proof.
  unfold generateSceneFile. rewrite write_control_points by lia.
  rewrite !unlines_app, !string_app_assoc. reflexivity.
Qed.

End SceneFileProofs.


Lemma leveled_points_aligned {F : Type} `{Scalar F} (points : list (vec3 F))
    (levels : list F) :
  length points = length levels ->
  map (leveled_point points levels) (seq 0 (length points))
  = map (fun '(p, yl) => mkvec3 (vx p) (vy p) yl) (combine points levels).
Proof.
  revert levels. induction points as [|p points IH]; intros [|yl levels] Hlen;
    try discriminate; [reflexivity|].
  cbn [length seq map combine]. f_equal.
  rewrite <- seq_shift, map_map. injection Hlen as Hlen. rewrite <- (IH levels Hlen).
  apply map_ext. reflexivity.
Qed.

Lemma track_faces_whole {F : Type} (W : list (Vertex F)) (n : nat) :
  length W = (4 * n)%nat ->
  forallb GeometryObjects.whole_face
    (map (fun j => GeometryObjects.face_of (GeometryObjects.positions_of W)
                     (GeometryObjects.mappings_of W) (GeometryObjects.normals_of W)
                     (track_triangle j))
         (seq 0 (2 * n))) = true.
Proof.
  intros HW. apply forallb_forall. intros face Hface.
  apply in_map_iff in Hface. destruct Hface as (j & <- & Hj). apply in_seq in Hj.
  pose proof (track_triangle_range n j ltac:(lia)) as Hr. rewrite <- HW in Hr.
  unfold GeometryObjects.whole_face, GeometryObjects.face_of,
    GeometryObjects.positions_of, GeometryObjects.mappings_of,
    GeometryObjects.normals_of.
  cbn [GeometryObjects.verts GeometryObjects.texts GeometryObjects.norms].
  rewrite !select_in_range by exact Hr. now rewrite Nat.leb_refl.
Qed.


(** ** Binary32: numbers that stay numbers *)

Lemma sub_finite_number (a b : spec_float) :
  is_number a = true -> is_finite b = true -> is_number (Binary32.sub a b) = true.
Proof.
  destruct a as [sa|sa| |sa ma ea]; try discriminate; intros _ Hb.
  - apply sub_number; [reflexivity|assumption].
  - destruct b; try discriminate; reflexivity.
  - apply sub_number; [reflexivity|assumption].
Qed.

Lemma add_finite_number (a b : spec_float) :
  is_finite a = true -> is_number b = true -> is_number (Binary32.add a b) = true.
Proof.
  destruct b as [sb|sb| |sb mb eb]; try discriminate; intros Ha _.
  - apply add_number; [assumption|reflexivity].
  - destruct a; try discriminate; reflexivity.
  - apply add_number; [assumption|reflexivity].
Qed.

Lemma mul_finite_number (a b : spec_float) :
  is_finite a = true -> is_finite b = true -> is_number (Binary32.mul a b) = true.
Proof.
  destruct a as [sa|sa| |sa ma ea], b as [sb|sb| |sb mb eb]; try discriminate;
    intros _ _; try reflexivity.
  unfold Binary32.mul, SFmul.
  pose proof (Binary32Facts.binary_round_aux_sign (xorb sa sb) (Z.pos (ma * mb))
                (ea + eb) loc_Exact ltac:(lia)) as Hs.
  now destruct (binary_round_aux _ _ _ _ _ _).
Qed.

(** For numbers, [not (b <= a)] is [a < b]. *)
Lemma leb_false_ltb (a b : spec_float) :
  is_number a = true -> is_number b = true -> SFleb b a = false -> SFltb a b = true.
Proof.
  intros Ha Hb Hle. destruct (SFltb a b) eqn:Hlt; [reflexivity|].
  rewrite (not_ltb_leb a b Ha Hb Hlt) in Hle. discriminate.
Qed.

(** ** The animation clock *)

(** X8. In binary32, when the update loop is entered with an accumulator
    that is a number and returns, the accumulator it leaves is a number
    below [STEP_TIME], and an index that was within the loop is still
    within it. *)
Theorem X8_step_loop_exit (fuel : nat) (size : Z)
    (st st' : AnimationState Binary32.f32) :
  (0 < size)%Z ->
  (0 <= animationIndex st < size)%Z ->
  is_number (animAccumulator st) = true ->
  step_loop fuel size st = Returned st' ->
  is_number (animAccumulator st') = true
  /\ Binary32.ltb (animAccumulator st') STEP_TIME = true
  /\ (0 <= animationIndex st' < size)%Z.
Proof.
  intros Hsize. revert st.
  induction fuel as [|fuel IH]; intros st Hidx Hnum; [discriminate|].
  rewrite step_loop_S. destruct (fleb STEP_TIME (animAccumulator st)) eqn:Hge.
  - apply IH.
    + cbn [animationIndex]. now apply Z.mod_pos_bound.
    + cbn [animAccumulator]. apply sub_finite_number; [assumption|reflexivity].
  - intros [= <-]. split; [assumption|]. split; [|assumption].
    apply leb_false_ltb; [assumption|reflexivity|exact Hge].
Qed.

Lemma X8_step_loop_exit_witness :
  is_number (animAccumulator (mkAnimationState 1 (Binary32.of_int 0))) = true
  /\ Binary32.ltb (animAccumulator (mkAnimationState 1 (Binary32.of_int 0))) STEP_TIME = true
  /\ (0 <= animationIndex (mkAnimationState 1 (Binary32.of_int 0)) < 5)%Z.
Proof.
  apply (X8_step_loop_exit 2 5 (mkAnimationState 0 STEP_TIME)
           (mkAnimationState 1 (Binary32.of_int 0))).
  - lia.
  - simpl. lia.
  - reflexivity.
  - vm_compute. reflexivity.
Defined.

(** ** The camera *)

(** The two [if]s of [mouse_callback] bring every number into
    [[-89, 89]]. *)
Lemma pitch_clamped (p : Binary32.f32) :
  is_number p = true ->
  let p2 := if Binary32.ltb (Binary32.of_int 89) p then Binary32.of_int 89 else p in
  let p3 := if Binary32.ltb p2 (Binary32.of_int (-89)) then Binary32.of_int (-89) else p2 in
  pitch_in_range p3 = true.
Proof.
  intros Hp. cbv zeta. unfold Binary32.ltb.
  destruct (SFltb (Binary32.of_int 89) p) eqn:E89.
  - reflexivity.
  - assert (H89 : SFleb p (Binary32.of_int 89) = true)
      by (apply not_ltb_leb; auto).
    destruct (SFltb p (Binary32.of_int (-89))) eqn:E89'.
    + reflexivity.
    + assert (H89' : SFleb (Binary32.of_int (-89)) p = true)
        by (apply not_ltb_leb; auto).
      unfold pitch_in_range, Binary32.leb. now rewrite H89, H89'.
Qed.

Lemma pitch_in_range_finite (p : Binary32.f32) :
  pitch_in_range p = true -> is_finite p = true.
Proof.
  unfold pitch_in_range. destruct p as [s|[|]| |s m e]; try reflexivity;
    intros Hp; apply andb_prop in Hp; destruct Hp as [H0 H1]; discriminate.
Qed.

(** X27. The mouse look of the viewer in binary32, whatever the
    conversions between [double] and [float] and the functions of libm.
    When the stored pitch is finite, the sensitivity is finite and the
    vertical cursor movement converts to a finite [float], the pitch after
    [mouse_callback] is within [[-89, 89]] degrees (and so finite again: the
    range is kept from call to call); the callback clears [firstMouse] and
    stores the cursor position; in the editor it changes nothing. *)
Theorem X27_pitch_in_range {D : Type} (T : Trig Binary32.f32)
    (float_of_double : D -> Binary32.f32) (double_of_float : Binary32.f32 -> D)
    (double_sub : D -> D -> D)
    (sensitivity : Binary32.f32) (cam : Camera Binary32.f32) (xpos ypos : D) :
  is_finite (pitch cam) = true ->
  is_finite sensitivity = true ->
  is_finite (float_of_double
               (double_sub (double_of_float (if firstMouse cam then float_of_double ypos
                                             else lastY cam))
                           ypos)) = true ->
  let cam' := mouse_callback float_of_double double_of_float double_sub false
                sensitivity cam xpos ypos in
  pitch_in_range (pitch cam') = true
  /\ is_finite (pitch cam') = true
  /\ firstMouse cam' = false
  /\ lastX cam' = float_of_double xpos
  /\ lastY cam' = float_of_double ypos
  /\ mouse_callback float_of_double double_of_float double_sub true
       sensitivity cam xpos ypos = cam.
Proof.
  intros Hp Hs Hd cam'.
  assert (Hr : pitch_in_range (pitch cam') = true).
  { unfold cam', mouse_callback. cbn [negb pitch].
    apply pitch_clamped. apply add_finite_number; [assumption|].
    now apply mul_finite_number. }
  split; [exact Hr|]. split; [now apply pitch_in_range_finite|].
  repeat split.
Qed.

Lemma X27_pitch_in_range_witness :
  pitch_in_range
    (pitch (mouse_callback (H0 := sample_trig)
              (fun d : Binary32.f32 => d) (fun x => x) Binary32.sub false
              (Binary32.div (Binary32.of_int 1) (Binary32.of_int 10))
              (mkCamera true (Binary32.of_int 0) (Binary32.of_int 0) (Binary32.of_int 0)
                        (Binary32.of_int (-90)) (point32 0 0 (-1)))
              (Binary32.of_int 400) (Binary32.of_int 300))) = true.
Proof.
  apply (X27_pitch_in_range sample_trig (fun d : Binary32.f32 => d) (fun x => x)
           Binary32.sub (Binary32.div (Binary32.of_int 1) (Binary32.of_int 10))
           (mkCamera true (Binary32.of_int 0) (Binary32.of_int 0) (Binary32.of_int 0)
                     (Binary32.of_int (-90)) (point32 0 0 (-1)))
           (Binary32.of_int 400) (Binary32.of_int 300));
    vm_compute; reflexivity.
Defined.

(** ** The model matrix of an object that is not animated *)

Section StaticModelMatrix.
Variable T : Trig Binary32.f32.

(** Name the operations of the binary32 instance. *)
Ltac f32_ops :=
  change (@fmul Binary32.f32 f32_scalar) with Binary32.mul in *;
  change (@fadd Binary32.f32 f32_scalar) with Binary32.add in *;
  change (@fsub Binary32.f32 f32_scalar) with Binary32.sub in *;
  change (@f1 Binary32.f32 f32_scalar) with (Binary32.of_int 1) in *;
  change (@f0 Binary32.f32 f32_scalar) with (S754_zero false) in *.

(** A sum of products with [0.0f] is a zero. *)
Ltac zero_sum :=
  repeat first [ reflexivity
               | apply Float32.add_zeros
               | apply Float32.mul_zero_l; assumption
               | apply Float32.mul_zero_r; assumption ].

(** A sum whose terms are zeros but one has the value of that one. *)
Ltac same_sum :=
  repeat first [ apply Float32.same_value_refl
               | eapply Float32.same_value_trans;
                 [apply Float32.add_zero_r; solve [zero_sum]|]
               | eapply Float32.same_value_trans;
                 [apply Float32.add_zero_l; solve [zero_sum]|] ].

(** [glm::translate] of the identity puts the vector in the last column. *)
Lemma translate_origin (p : vec3 Binary32.f32) :
  point_below 128 p = true ->
  same_column (c3 (translate mat4_identity p)) (vec4_of p f1).
Proof.
  intros Hp. apply point_below_split in Hp. destruct Hp as (Hx & Hy & Hz).
  pose proof (coordinate_below_finite _ _ Hx) as Fx.
  pose proof (coordinate_below_finite _ _ Hy) as Fy.
  pose proof (coordinate_below_finite _ _ Hz) as Fz.
  apply coordinate_below_split in Hx, Hy, Hz.
  destruct Hx as [Vx _], Hy as [Vy _], Hz as [Vz _].
  destruct p as [px py pz]. cbn [vx vy vz] in *.
  unfold same_column, translate, mat4_identity, v4add, v4scale, vec4_of.
  cbn [c0 c1 c2 c3 wx wy wz ww vx vy vz]. f32_ops.
  rewrite (Float32.mul_one_l px Vx), (Float32.mul_one_l py Vy), (Float32.mul_one_l pz Vz).
  repeat split; same_sum.
Qed.

(** A rotation by an angle of cosine [1] and sine [0] about a coordinate
    axis leaves the columns of the identity as they are. *)
Lemma rotate_identity_columns (m : mat4 Binary32.f32) (a : Binary32.f32)
    (axis : vec3 Binary32.f32) :
  In axis [mkvec3 f1 f0 f0; mkvec3 f0 f1 f0; mkvec3 f0 f0 f1] ->
  fcos a = f1 -> fsin a = f0 ->
  c0 m = c0 mat4_identity -> c1 m = c1 mat4_identity -> c2 m = c2 mat4_identity ->
  rotate m a axis = m.
Proof.
  intros Haxis Hc Hs H0 H1 H2. destruct m as [m0 m1 m2 m3]. cbn [c0 c1 c2] in *.
  subst m0 m1 m2. unfold rotate. rewrite Hc, Hs.
  destruct Haxis as [<-|[<-|[<-|[]]]]; vm_compute; reflexivity.
Qed.

(** With the angles [0] and a libm that is exact there, the rotations
    change nothing. *)
Lemma apply_zero_angle (obj : Object3D Binary32.f32) (p : vec3 Binary32.f32) :
  angle obj = vzero ->
  fcos (radians f0) = f1 -> fsin (radians f0) = f0 ->
  apply_angle_and_scale obj (translate mat4_identity p)
  = glm_scale (translate mat4_identity p) (scale obj).
Proof.
  intros Ha Hc Hs. unfold apply_angle_and_scale. rewrite Ha. cbn [vzero vx vy vz].
  assert (R : forall axis, In axis [mkvec3 f1 f0 f0; mkvec3 f0 f1 f0; mkvec3 f0 f0 f1] ->
                rotate (translate mat4_identity p) (radians f0) axis
                = translate mat4_identity p).
  { intros axis Hin. apply rotate_identity_columns; auto. }
  rewrite (R (mkvec3 f1 f0 f0)) by (left; reflexivity).
  rewrite (R (mkvec3 f0 f1 f0)) by (right; left; reflexivity).
  rewrite (R (mkvec3 f0 f0 f1)) by (right; right; left; reflexivity).
  reflexivity.
Qed.

(** X28. An object that is not the animated car (another name, or fewer
    than three animation points), in binary32 with finite coordinates of
    [obj.position].  Whatever the angles, the scale and the functions of
    libm, the last column of the matrix sent to the shader is
    [(position, 1)]: the origin of the object lands on [obj.position]
    without a rounding error.  With the angles [0], a libm that gives
    [cos 0 = 1] and [sin 0 = 0] and a finite scale, the other three columns
    are the scale on the diagonal.  (Equalities of numbers: a zero may have
    either sign.) *)
Theorem X28_static_model_matrix (obj : Object3D Binary32.f32) (animationIndex : Z) :
  (String.eqb (name obj) "Carro" && (3 <=? length (animationPositions obj))%nat)%bool
    = false ->
  point_below 128 (position obj) = true ->
  exists model,
    model_matrix obj animationIndex = Some model
    /\ same_column (c3 model) (vec4_of (position obj) f1)
    /\ (angle obj = vzero ->
        fcos (radians f0) = f1 -> fsin (radians f0) = f0 ->
        point_below 128 (scale obj) = true ->
        same_column (c0 model) (mkvec4 (vx (scale obj)) f0 f0 f0)
        /\ same_column (c1 model) (mkvec4 f0 (vy (scale obj)) f0 f0)
        /\ same_column (c2 model) (mkvec4 f0 f0 (vz (scale obj)) f0)).
Proof.
  intros Hstatic Hp. unfold model_matrix. rewrite Hstatic.
  eexists. split; [reflexivity|]. split.
  - change (c3 (apply_angle_and_scale obj (translate mat4_identity (position obj))))
      with (c3 (translate mat4_identity (position obj))).
    now apply translate_origin.
  - intros Ha Hc Hs Hscale. rewrite apply_zero_angle by assumption.
    apply point_below_split in Hscale. destruct Hscale as (Hx & Hy & Hz).
    pose proof (coordinate_below_finite _ _ Hx) as Fx.
    pose proof (coordinate_below_finite _ _ Hy) as Fy.
    pose proof (coordinate_below_finite _ _ Hz) as Fz.
    apply coordinate_below_split in Hx, Hy, Hz.
    destruct Hx as [Vx _], Hy as [Vy _], Hz as [Vz _].
    destruct (scale obj) as [sx sy sz]. cbn [vx vy vz] in *.
    unfold same_column, glm_scale, translate, mat4_identity, v4scale.
    cbn [c0 c1 c2 c3 wx wy wz ww vx vy vz]. f32_ops.
    rewrite (Float32.mul_one_l sx Vx), (Float32.mul_one_l sy Vy), (Float32.mul_one_l sz Vz).
    repeat split;
      try apply Float32.same_value_refl;
      right; (split; [now apply Float32.mul_zero_l|reflexivity]).
Qed.

End StaticModelMatrix.

(** The track as [generateSceneFile] describes it (scale 1, position and
    angle 0) is drawn where its vertices are. *)
Lemma X28_static_model_matrix_witness :
  exists model,
    model_matrix (H0 := sample_trig)
      (mkObject3D "Track" (point32 1 1 1) (point32 0 0 0) (point32 0 0 0) []) 0
    = Some model
    /\ same_column (c3 model) (vec4_of (point32 0 0 0) f1)
    /\ same_column (c0 model) (mkvec4 (Binary32.of_int 1) f0 f0 f0).
Proof.
  destruct (X28_static_model_matrix sample_trig
              (mkObject3D "Track" (point32 1 1 1) (point32 0 0 0) (point32 0 0 0) []) 0
              eq_refl eq_refl) as (model & Hm & H3 & Hz).
  exists model. split; [exact Hm|]. split; [exact H3|].
  now destruct (Hz eq_refl eq_refl eq_refl eq_refl) as (H0 & _).
Defined.

(** ** The car runs on the track *)

Lemma nth_error_chunk {A : Type} (l : list A) (c i k : nat) :
  (k < c)%nat -> nth_error l (c * i + k) = nth_error (chunk c i l) k.
Proof.
  intros Hk. unfold chunk. rewrite nth_error_firstn, nth_error_skipn.
  destruct (Nat.ltb_spec k c); [reflexivity|lia].
Qed.

(** X29. The track and the animation are built from the same curve
    points, in binary32 and whatever the functions of libm.  For a curve of
    [n >= 2] points, point [i] = [A]: the vertices [4 i] and [4 i + 1] of
    the track (Y and Z exchanged, as [key_callback] does) are [A] plus and
    [A] minus one offset in the plane of the sketch, both at the height
    [A.z]; and line [i] of [animation.txt] holds [A.x], [A.z], [A.y], the
    point between them: the car runs between the two borders, at the
    height of the track. *)
Theorem X29_car_between_borders (T : Trig Binary32.f32)
    (show_float : Binary32.f32 -> string) (curvePoints : list (vec3 Binary32.f32))
    (trackWidth : Binary32.f32) (vertices : list (Vertex Binary32.f32))
    (indices : list Z) (i : nat) :
  (forall a, has_newline (show_float a) = false) ->
  (2 <= length curvePoints)%nat ->
  (i < length curvePoints)%nat ->
  let trackVerts :=
    map swap_yz (fst (generateTrackMesh curvePoints trackWidth vertices indices)) in
  let A := nth i curvePoints vzero in
  let offset := edge_offset trackWidth A (nth ((i + 1) mod length curvePoints) curvePoints vzero) in
  exists inner outer text,
    nth_error trackVerts (4 * i) = Some inner
    /\ nth_error trackVerts (4 * i + 1) = Some outer
    /\ exportAnimationPoints show_float true curvePoints = Some text
    /\ nth_error (lines text) i
       = Some (show_float (vx A) ++ " " ++ show_float (vz A) ++ " "
               ++ show_float (vy A))%string
    /\ vtx_x inner = Binary32.add (vx A) (vx offset)
    /\ vtx_x outer = Binary32.sub (vx A) (vx offset)
    /\ vtx_z inner = Binary32.add (vy A) (vy offset)
    /\ vtx_z outer = Binary32.sub (vy A) (vy offset)
    /\ Binary32.same_value (vtx_y inner) (vz A)
    /\ Binary32.same_value (vtx_y outer) (vz A).
Proof.
  intros Hshow Hn Hi trackVerts A offset.
  assert (Hq : chunk 4 i trackVerts = map swap_yz (quad_vertices curvePoints trackWidth i)).
  { unfold trackVerts. rewrite generateTrackMesh_quads by exact Hn. cbn [fst].
    rewrite chunk_map. f_equal.
    apply chunk_flat_map_seq; [intros j; apply quad_vertices_length|exact Hi]. }
  exists (swap_yz (track_vertex (inner_point curvePoints trackWidth i) f0 f0)),
         (swap_yz (track_vertex (outer_point curvePoints trackWidth i) f1 f0)),
         (fold_left (write_point show_float) curvePoints EmptyString).
  split.
  { replace (4 * i)%nat with (4 * i + 0)%nat by lia.
    rewrite nth_error_chunk, Hq by lia. reflexivity. }
  split.
  { rewrite nth_error_chunk, Hq by lia. reflexivity. }
  split; [reflexivity|].
  split.
  { rewrite write_points_text. cbn [append].
    rewrite (lines_of_points show_float Hshow), nth_error_map.
    rewrite (nth_error_nth' curvePoints vzero Hi). reflexivity. }
  repeat split; try reflexivity.
  - apply f32_add_zero.
  - apply f32_sub_zero.
Qed.

Lemma X29_car_between_borders_witness :
  exists inner outer text,
    nth_error (map swap_yz (fst (generateTrackMesh (H0 := sample_trig) straight_loop
                                   (Binary32.of_int 1) [] []))) 4
      = Some inner
    /\ nth_error (map swap_yz (fst (generateTrackMesh (H0 := sample_trig) straight_loop
                                      (Binary32.of_int 1) [] []))) 5
       = Some outer
    /\ exportAnimationPoints show_f32 true straight_loop = Some text
    /\ nth_error (lines text) 1 = Some "100000000000000000000000p-10111 0 0"%string
    /\ Binary32.same_value (vtx_y inner) (Binary32.of_int 0).
Proof.
  destruct (X29_car_between_borders sample_trig show_f32 straight_loop (Binary32.of_int 1)
              [] [] 1 show_f32_one_line ltac:(simpl; lia) ltac:(simpl; lia))
    as (inner & outer & text & H1 & H2 & H3 & H4 & _ & _ & _ & _ & H5 & _).
  exists inner, outer, text. repeat split; assumption.
Defined.


(** ** Reading the scene file *)

Section SceneReaderProofs.
Context {F : Type} `{Scalar F}.
Variable disk : string -> option string.
Variable extract_vec3 : string -> vec3 F.
Variable extract_vec2 : string -> vec2 F.
Variable extract_float_into : string -> F -> F.
Variable extract_vec3_into : string -> vec3 F -> vec3 F.
Variable extract_vec4_into : string -> vec4 F -> vec4 F.
Variable extract_uint_into : string -> Z -> Z.
Import SceneReader.

Local Abbreviation read_line :=
  (SceneReader.read_line disk extract_vec3 extract_vec2 extract_float_into
     extract_vec3_into extract_vec4_into extract_uint_into).
Local Abbreviation end_block :=
  (SceneReader.end_block disk extract_vec3 extract_vec2).

(** The block of the global configuration: every setting is read into the
    field of its name, and nothing else changes but [objectType] and
    [name]. *)
Lemma read_config_block (fuel : nat) (loc : locals F) (sc : scene F) :
  let g := globalConfig sc in
  fold_left (read_line fuel) config_block (Returned (Normal (loc, sc)))
  = Returned (Normal
      (mklocals "GlobalConfig" "Config" (objFilePath loc) (mtlFilePath loc)
                (animFile loc) (scale loc) (position loc) (rotation loc) (angle loc)
                (incrementalAngle loc) (tempControlPoints loc) (pointsPerSegment loc)
                (color loc),
       mkscene (meshes sc) (meshList sc) (bSplineCurves sc)
         (Config.mkGlobalConfig
            (extract_vec3_into " 2.0 10.0 2.0" (Config.lightPos g))
            (extract_vec3_into " 1.0 1.0 1.0" (Config.lightColor g))
            (extract_vec3_into " 0.0 5.0 10.0" (Config.cameraPos g))
            (extract_vec3_into " 0.0 0.0 -1.0" (Config.cameraFront g))
            (extract_float_into " 45.0" (Config.fov g))
            (extract_float_into " 0.1" (Config.nearPlane g))
            (extract_float_into " 100.0" (Config.farPlane g))
            (extract_float_into " 0.1" (Config.sensitivity g))
            (extract_float_into " 0.008" (Config.cameraSpeed g))
            (extract_float_into " 0.2" (Config.attConstant g))
            (extract_float_into " 0.02" (Config.attLinear g))
            (extract_float_into " 0.005" (Config.attQuadratic g))
            (extract_vec3_into " 0.5 0.5 0.5" (Config.fogColor g))
            (extract_float_into " 5.0" (Config.fogStart g))
            (extract_float_into " 50.0" (Config.fogEnd g))))).
Proof. vm_compute. reflexivity. Qed.

(** The lines of a [Mesh] block before its [End]. *)
Lemma read_track_fields (fuel : nat) (loc : locals F) (sc : scene F) :
  fold_left (read_line fuel)
    ["Type Mesh Track"; "Obj track.obj"; "Mtl track.mtl"; "Scale 1.0 1.0 1.0";
     "Position 0.0 0.0 0.0"; "Rotation 0.0 1.0 0.0"; "Angle 0.0 0.0 0.0";
     "IncrementalAngle 0"]%string
    (Returned (Normal (loc, sc)))
  = Returned (Normal
      (mklocals "Mesh" "Track" "track.obj" "track.mtl" (animFile loc)
                (extract_vec3_into " 1.0 1.0 1.0" (scale loc))
                (extract_vec3_into " 0.0 0.0 0.0" (position loc))
                (extract_vec3_into " 0.0 1.0 0.0" (rotation loc))
                (extract_vec3_into " 0.0 0.0 0.0" (angle loc))
                (extract_uint_into " 0" (incrementalAngle loc))
                (tempControlPoints loc) (pointsPerSegment loc) (color loc),
       sc)).
Proof. vm_compute. reflexivity. Qed.

Lemma read_carro_fields (fuel : nat) (loc : locals F) (sc : scene F) :
  fold_left (read_line fuel)
    ["Type Mesh Carro"; "Obj car.obj"; "Mtl car.mtl"; "Scale 0.5 0.5 0.5";
     "Position 0.0 0.0 0.0"; "Rotation 0.0 1.0 0.0"; "Angle 0.0 0.0 0.0";
     "IncrementalAngle 0"; "AnimationFile animation.txt"]%string
    (Returned (Normal (loc, sc)))
  = Returned (Normal
      (mklocals "Mesh" "Carro" "car.obj" "car.mtl" "animation.txt"
                (extract_vec3_into " 0.5 0.5 0.5" (scale loc))
                (extract_vec3_into " 0.0 0.0 0.0" (position loc))
                (extract_vec3_into " 0.0 1.0 0.0" (rotation loc))
                (extract_vec3_into " 0.0 0.0 0.0" (angle loc))
                (extract_uint_into " 0" (incrementalAngle loc))
                (tempControlPoints loc) (pointsPerSegment loc) (color loc),
       sc)).
Proof. vm_compute. reflexivity. Qed.

Lemma read_end_line (fuel : nat) (loc : locals F) (sc : scene F) :
  fold_left (read_line fuel) ["End"%string] (Returned (Normal (loc, sc)))
  = end_block fuel loc sc.
Proof. reflexivity. Qed.

(** [End] of a [Mesh] block whose OBJ file is read to the end (or cannot
    be opened). *)
Lemma end_block_mesh (fuel : nat) (loc : locals F) (sc : scene F)
    (m : GeometryObjects.Mesh F) :
  objectType loc = "Mesh"%string ->
  load_mesh disk extract_vec3 extract_vec2 (name loc) (objFilePath loc) = Normal m ->
  end_block fuel loc sc
  = Returned (Normal
      (loc,
       mkscene
         (map_insert (name loc)
            (read_animation disk extract_vec3 (animFile loc)
               (SceneObject.mkObject3D (name loc) (objFilePath loc) (mtlFilePath loc) m
                  (scale loc) (position loc) (rotation loc) (angle loc)
                  (incrementalAngle loc) []))
            (meshes sc))
         (meshList sc ++ [name loc]) (bSplineCurves sc) (globalConfig sc))).
Proof.
  intros Htype Hmesh. unfold SceneReader.end_block, Object3D_of.
  rewrite Htype, Hmesh. reflexivity.
Qed.

(** [End] of a [BSplineCurve] block whose curve is computed. *)
Lemma end_block_curve (fuel : nat) (loc : locals F) (sc : scene F)
    (curvePoints : list (vec3 F)) :
  objectType loc = "BSplineCurve"%string ->
  generateBSplinePoints fuel (tempControlPoints loc) (to_int (pointsPerSegment loc))
  = Returned curvePoints ->
  end_block fuel loc sc
  = Returned (Normal
      (with_tempControlPoints [] loc,
       mkscene (meshes sc) (meshList sc)
         (map_insert (name loc)
            (Curve.mkBSplineCurve (name loc) (tempControlPoints loc) curvePoints
                                  (pointsPerSegment loc) (color loc))
            (bSplineCurves sc))
         (globalConfig sc))).
Proof.
  intros Htype Hcurve. unfold SceneReader.end_block, createBSplineCurve.
  rewrite Htype, Hcurve. reflexivity.
Qed.

(** The [ControlPoint] lines add one point each. *)
Lemma read_control_points (show_float : F -> string) (fuel : nat)
    (cs : list (vec3 F)) (loc : locals F) (sc : scene F) :
  fold_left (read_line fuel) (map (control_point_line show_float) cs)
            (Returned (Normal (loc, sc)))
  = Returned (Normal
      (with_tempControlPoints
         (tempControlPoints loc
          ++ map (fun c => extract_vec3 (control_point_fields show_float c)) cs) loc,
       sc)).
Proof.
  revert loc. induction cs as [|c cs IH]; intros loc.
  - cbn. rewrite app_nil_r. now destruct loc.
  - cbn [map fold_left]. unfold SceneReader.read_line at 2.
    change (control_point_line show_float c)
      with ("ControlPoint" ++ String " " (show_float (vx c) ++ " " ++ show_float (vy c)
                                          ++ " " ++ show_float (vz c)))%string.
    rewrite extract_word_word by (reflexivity || discriminate).
    cbn [String.eqb Ascii.eqb Bool.eqb].
    rewrite IH. unfold with_tempControlPoints.
    cbn [objectType name objFilePath mtlFilePath animFile scale position rotation angle
         incrementalAngle tempControlPoints pointsPerSegment color].
    rewrite <- app_assoc. reflexivity.
Qed.

Lemma read_curve_head (fuel : nat) (loc : locals F) (sc : scene F) :
  fold_left (read_line fuel) ["Type BSplineCurve Curve1"%string]
            (Returned (Normal (loc, sc)))
  = Returned (Normal
      (mklocals "BSplineCurve" "Curve1" (objFilePath loc) (mtlFilePath loc)
                (animFile loc) (scale loc) (position loc) (rotation loc) (angle loc)
                (incrementalAngle loc) (tempControlPoints loc) (pointsPerSegment loc)
                (color loc),
       sc)).
Proof. vm_compute. reflexivity. Qed.

Lemma read_curve_tail (fuel : nat) (loc : locals F) (sc : scene F) :
  fold_left (read_line fuel) ["PointsPerSegment 100"; "Color 1.0 0.0 0.0 1.0"]%string
            (Returned (Normal (loc, sc)))
  = Returned (Normal
      (mklocals (objectType loc) (name loc) (objFilePath loc) (mtlFilePath loc)
                (animFile loc) (scale loc) (position loc) (rotation loc) (angle loc)
                (incrementalAngle loc) (tempControlPoints loc)
                (extract_uint_into " 100" (pointsPerSegment loc))
                (extract_vec4_into " 1.0 0.0 0.0 1.0" (color loc)),
       sc)).
Proof. vm_compute. reflexivity. Qed.

End SceneReaderProofs.

(** The scene file of [generateSceneFile], line by line. *)
Lemma generated_scene_lines {F : Type} `{Scalar F} (show_float : F -> string)
    (controlPoints : list (vec3 F)) (levels : list F) :
  (forall a, has_newline (show_float a) = false) ->
  lines (generateSceneFile show_float "track.obj" "car.obj" "animation.txt"
           controlPoints levels)
  = config_block
    ++ ["Type Mesh Track"; "Obj track.obj"; "Mtl track.mtl"; "Scale 1.0 1.0 1.0";
        "Position 0.0 0.0 0.0"; "Rotation 0.0 1.0 0.0"; "Angle 0.0 0.0 0.0";
        "IncrementalAngle 0"]%string
    ++ ["End"%string]
    ++ ["Type Mesh Carro"; "Obj car.obj"; "Mtl car.mtl"; "Scale 0.5 0.5 0.5";
        "Position 0.0 0.0 0.0"; "Rotation 0.0 1.0 0.0"; "Angle 0.0 0.0 0.0";
        "IncrementalAngle 0"; "AnimationFile animation.txt"]%string
    ++ ["End"%string]
    ++ ["Type BSplineCurve Curve1"%string]
    ++ map (control_point_line show_float)
           (map (leveled_point controlPoints levels) (seq 0 (length controlPoints)))
    ++ ["PointsPerSegment 100"; "Color 1.0 0.0 0.0 1.0"]%string
    ++ ["End"%string].
Proof.
  intros Hshow. rewrite generateSceneFile_lines, <- map_map.
  rewrite lines_unlines; [reflexivity|].
  rewrite !Forall_app. repeat split; try (repeat constructor).
  apply Forall_forall. intros l Hl. apply in_map_iff in Hl. destruct Hl as (c & <- & _).
  unfold control_point_line. now rewrite !has_newline_app, !Hshow.
Qed.

(** Reduce the fields read off an explicit state. *)
Ltac scene_fields :=
  cbn [SceneReader.objectType SceneReader.name SceneReader.objFilePath
       SceneReader.mtlFilePath SceneReader.animFile SceneReader.scale
       SceneReader.position SceneReader.rotation SceneReader.angle
       SceneReader.incrementalAngle SceneReader.tempControlPoints
       SceneReader.pointsPerSegment SceneReader.color SceneReader.with_tempControlPoints
       SceneReader.start_locals SceneReader.meshes SceneReader.meshList
       SceneReader.bSplineCurves SceneReader.globalConfig app].

Section GeneratedScene.
Context {F : Type} `{Scalar F}.
Variable disk : string -> option string.
Variable show_float : F -> string.
Variable extract_vec3 : string -> vec3 F.
Variable extract_vec2 : string -> vec2 F.
Variable extract_float_into : string -> F -> F.
Variable extract_vec3_into : string -> vec3 F -> vec3 F.
Variable extract_vec4_into : string -> vec4 F -> vec4 F.
Variable extract_uint_into : string -> Z -> Z.

(** The scene file of [generateSceneFile] read into empty containers, when
    the two OBJ files are read without fault and the curve is computed. *)
Lemma generated_scene_read (fuel : nat) (config : Config.GlobalConfig F)
    (trackMesh carMesh : GeometryObjects.Mesh F) (animation : string)
    (controlPoints : list (vec3 F)) (levels : list F) (curvePoints : list (vec3 F)) :
  (forall a, has_newline (show_float a) = false) ->
  disk "Scene.txt"
  = Some (generateSceneFile show_float "track.obj" "car.obj" "animation.txt"
            controlPoints levels) ->
  SceneReader.load_mesh disk extract_vec3 extract_vec2 "Track" "track.obj"
  = Normal trackMesh ->
  SceneReader.load_mesh disk extract_vec3 extract_vec2 "Carro" "car.obj" = Normal carMesh ->
  disk "animation.txt" = Some animation ->
  let points :=
    map (fun i => extract_vec3 (control_point_fields show_float
                                  (leveled_point controlPoints levels i)))
        (seq 0 (length controlPoints)) in
  generateBSplinePoints fuel points (to_int (extract_uint_into " 100" 0))
  = Returned curvePoints ->
  exists track carro curve,
    SceneReader.readSceneFile disk extract_vec3 extract_vec2 extract_float_into
      extract_vec3_into extract_vec4_into extract_uint_into fuel "Scene.txt"
      (SceneReader.mkscene [] [] [] config)
    = Returned (Normal
        (SceneReader.mkscene
           [("Track"%string, track); ("Carro"%string, carro)]
           ["Track"; "Carro"]%string
           [("Curve1"%string, curve)]
           (Config.mkGlobalConfig
              (extract_vec3_into " 2.0 10.0 2.0" (Config.lightPos config))
              (extract_vec3_into " 1.0 1.0 1.0" (Config.lightColor config))
              (extract_vec3_into " 0.0 5.0 10.0" (Config.cameraPos config))
              (extract_vec3_into " 0.0 0.0 -1.0" (Config.cameraFront config))
              (extract_float_into " 45.0" (Config.fov config))
              (extract_float_into " 0.1" (Config.nearPlane config))
              (extract_float_into " 100.0" (Config.farPlane config))
              (extract_float_into " 0.1" (Config.sensitivity config))
              (extract_float_into " 0.008" (Config.cameraSpeed config))
              (extract_float_into " 0.2" (Config.attConstant config))
              (extract_float_into " 0.02" (Config.attLinear config))
              (extract_float_into " 0.005" (Config.attQuadratic config))
              (extract_vec3_into " 0.5 0.5 0.5" (Config.fogColor config))
              (extract_float_into " 5.0" (Config.fogStart config))
              (extract_float_into " 50.0" (Config.fogEnd config)))))
    /\ SceneObject.name track = "Track"%string
    /\ SceneObject.mesh track = trackMesh
    /\ SceneObject.scale track = extract_vec3_into " 1.0 1.0 1.0" (mkvec3 f1 f1 f1)
    /\ SceneObject.animationPositions track = []
    /\ SceneObject.name carro = "Carro"%string
    /\ SceneObject.mesh carro = carMesh
    /\ SceneObject.scale carro
       = extract_vec3_into " 0.5 0.5 0.5" (SceneObject.scale track)
    /\ SceneObject.animationPositions carro = map extract_vec3 (lines animation)
    /\ Curve.name curve = "Curve1"%string
    /\ Curve.controlPoints curve = points
    /\ Curve.pointsPerSegment curve = extract_uint_into " 100" 0
    /\ Curve.curvePoints curve = curvePoints.
Proof.
  intros Hshow Hscene Hload Hcar Hanim points Hrun.
  unfold SceneReader.readSceneFile. rewrite Hscene, (generated_scene_lines _ _ _ Hshow).
  rewrite !fold_left_app.
  rewrite read_config_block. scene_fields.
  rewrite read_track_fields. scene_fields.
  rewrite read_end_line.
  erewrite end_block_mesh; [|reflexivity|exact Hload]. scene_fields.
  rewrite read_carro_fields. scene_fields.
  rewrite read_end_line.
  erewrite end_block_mesh; [|reflexivity|exact Hcar]. scene_fields.
  rewrite read_curve_head. scene_fields.
  rewrite read_control_points. scene_fields.
  rewrite read_curve_tail. scene_fields.
  rewrite read_end_line.
  erewrite end_block_curve; [|reflexivity|].
  2:{ scene_fields. rewrite map_map. exact Hrun. }
  scene_fields.
  unfold SceneReader.read_animation. rewrite Hanim.
  cbn [map_insert contains_key existsb fst String.eqb Ascii.eqb Bool.eqb orb app
       SceneObject.name SceneObject.objFilePath SceneObject.mtlFilePath SceneObject.mesh
       SceneObject.scale SceneObject.position SceneObject.rotation SceneObject.angle
       SceneObject.incrementalAngle SceneObject.animationPositions].
  do 3 eexists. split; [reflexivity|].
  cbn [SceneObject.name SceneObject.mesh SceneObject.scale
       SceneObject.animationPositions Curve.name Curve.controlPoints
       Curve.pointsPerSegment Curve.curvePoints app].
  unfold points. rewrite map_map.
  repeat split; reflexivity.
Qed.

End GeneratedScene.

(** In binary32 the curve of 100 points per segment has 101 points per
    window. *)
Lemma debug_curve_count (fuel : nat) (points : list (vec3 Binary32.f32)) :
  (102 <= fuel)%nat ->
  exists curvePoints,
    generateBSplinePoints fuel points 100 = Returned curvePoints
    /\ length curvePoints = (101 * (length points - 3))%nat.
Proof.
  intros Hfuel. destruct (Nat.lt_ge_cases (length points) 4) as [Hlt|Hge].
  - exists []. split; [apply generateBSplinePoints_few; lia|simpl; lia].
  - destruct (sample_count_fuel 102 (fuel - 102) _ _ _ f32_hundred_steps) as [Hc _].
    replace (102 + (fuel - 102))%nat with fuel in Hc by lia.
    destruct (generateBSplinePoints_count fuel points 100 101 ltac:(lia) Hc)
      as (curvePoints & Hrun & Hlen).
    exists curvePoints. split; [exact Hrun|lia].
Qed.

(** X30. The scene file [generateSceneFile] writes, read by
    [readSceneFile] at the first press of the space bar (empty
    containers), in binary32.  With [track.obj] the file
    [OBJWriter::write] produced for a mesh of one group of triangles found
    in the mesh (vectors below [2^31 - 1] entries), a car file that is
    absent or read without fault, and a
    library that reads [" 100"] as 100: the call returns; every setting of
    the configuration block is read into the field of its name;
    [meshes] holds "Track" and "Carro" and [bSplineCurves] holds "Curve1".
    The track has the faces of the mesh written and no animation; the car
    has one animation position per line of [animation.txt] and the scale
    read from its own line; the curve has one control point per
    [ControlPoint] line and [101 (k - 3)] curve points for [k] control
    points (none below four). *)
Theorem X30_generated_scene_read_back
    (disk : string -> option string) (show_float : Binary32.f32 -> string)
    (extract_vec3 : string -> vec3 Binary32.f32)
    (extract_vec2 : string -> vec2 Binary32.f32)
    (extract_float_into : string -> Binary32.f32 -> Binary32.f32)
    (extract_vec3_into : string -> vec3 Binary32.f32 -> vec3 Binary32.f32)
    (extract_vec4_into : string -> vec4 Binary32.f32 -> vec4 Binary32.f32)
    (extract_uint_into : string -> Z -> Z)
    (fuel : nat) (config : Config.GlobalConfig Binary32.f32)
    (trackMesh carMesh : GeometryObjects.Mesh Binary32.f32) (groupName : string)
    (fs : list (GeometryObjects.Face Binary32.f32)) (animation : string)
    (controlPoints : list (vec3 Binary32.f32)) (levels : list Binary32.f32) :
  (forall a, has_newline (show_float a) = false) ->
  (forall old, extract_uint_into " 100"%string old = 100%Z) ->
  (102 <= fuel)%nat ->
  disk "Scene.txt"%string
  = Some (generateSceneFile show_float "track.obj" "car.obj" "animation.txt"
            controlPoints levels) ->
  disk "track.obj"%string = GeometryObjects.OBJWriter_write show_float trackMesh ->
  GeometryObjects.groups trackMesh = [GeometryObjects.mkGroup groupName "" fs] ->
  (Z.of_nat (length (GeometryObjects.vertices trackMesh)) < 2 ^ 31 - 1)%Z ->
  (Z.of_nat (length (GeometryObjects.mappings trackMesh)) < 2 ^ 31 - 1)%Z ->
  (Z.of_nat (length (GeometryObjects.normals trackMesh)) < 2 ^ 31 - 1)%Z ->
  forallb (triangle_found trackMesh) fs = true ->
  disk "animation.txt"%string = Some animation ->
  SceneReader.load_mesh disk extract_vec3 extract_vec2 "Carro"%string "car.obj"%string = Normal carMesh ->
  let k := length controlPoints in
  let back := reread_face show_float extract_vec3 extract_vec2 trackMesh in
  exists track carro curve,
    SceneReader.readSceneFile disk extract_vec3 extract_vec2 extract_float_into
      extract_vec3_into extract_vec4_into extract_uint_into fuel "Scene.txt"
      (SceneReader.mkscene [] [] [] config)
    = Returned (Normal
        (SceneReader.mkscene
           [("Track"%string, track); ("Carro"%string, carro)]
           ["Track"; "Carro"]%string
           [("Curve1"%string, curve)]
           (Config.mkGlobalConfig
              (extract_vec3_into " 2.0 10.0 2.0"%string (Config.lightPos config))
              (extract_vec3_into " 1.0 1.0 1.0"%string (Config.lightColor config))
              (extract_vec3_into " 0.0 5.0 10.0"%string (Config.cameraPos config))
              (extract_vec3_into " 0.0 0.0 -1.0"%string (Config.cameraFront config))
              (extract_float_into " 45.0"%string (Config.fov config))
              (extract_float_into " 0.1"%string (Config.nearPlane config))
              (extract_float_into " 100.0"%string (Config.farPlane config))
              (extract_float_into " 0.1"%string (Config.sensitivity config))
              (extract_float_into " 0.008"%string (Config.cameraSpeed config))
              (extract_float_into " 0.2"%string (Config.attConstant config))
              (extract_float_into " 0.02"%string (Config.attLinear config))
              (extract_float_into " 0.005"%string (Config.attQuadratic config))
              (extract_vec3_into " 0.5 0.5 0.5"%string (Config.fogColor config))
              (extract_float_into " 5.0"%string (Config.fogStart config))
              (extract_float_into " 50.0"%string (Config.fogEnd config)))))
    /\ SceneObject.name track = "Track"%string
    /\ GeometryObjects.groups (SceneObject.mesh track)
       = [GeometryObjects.mkGroup "Track" "" (map back fs)]
    /\ length (GeometryObjects.VAO (SceneObject.mesh track)) = (3 * length fs)%nat
    /\ SceneObject.scale track = extract_vec3_into " 1.0 1.0 1.0"%string (mkvec3 f1 f1 f1)
    /\ SceneObject.animationPositions track = []
    /\ SceneObject.name carro = "Carro"%string
    /\ SceneObject.mesh carro = carMesh
    /\ SceneObject.scale carro
       = extract_vec3_into " 0.5 0.5 0.5"%string (SceneObject.scale track)
    /\ SceneObject.animationPositions carro = map extract_vec3 (lines animation)
    /\ Curve.name curve = "Curve1"%string
    /\ Curve.controlPoints curve
       = map (fun i => extract_vec3 (control_point_fields show_float
                                       (leveled_point controlPoints levels i)))
             (seq 0 k)
    /\ Curve.pointsPerSegment curve = 100%Z
    /\ length (Curve.curvePoints curve) = (101 * (k - 3))%nat.
Proof.
  intros Hshow Huint Hfuel Hscene Htrack Hgroups Sv St Sn Hfound Hanim Hcar k back.
  assert (Hwhole : forallb (fun grp => forallb GeometryObjects.whole_face
                                               (GeometryObjects.faces grp))
                           (GeometryObjects.groups trackMesh) = true).
  { rewrite Hgroups. cbn [forallb GeometryObjects.faces]. rewrite andb_true_r.
    apply forallb_forall. intros face Hface.
    rewrite forallb_forall in Hfound. eapply triangle_found_whole; eauto. }
  destruct (written_obj_read_back show_float extract_vec3 extract_vec2 trackMesh
              groupName "Track" fs Hshow Hgroups Sv St Sn Hfound)
    as (object & Hread & Hog & _ & _ & _ & Hovao).
  assert (Hload : SceneReader.load_mesh disk extract_vec3 extract_vec2 "Track" "track.obj"
                  = Normal object).
  { unfold SceneReader.load_mesh.
    now rewrite Htrack, (OBJWriter_write_text show_float trackMesh Hwhole). }
  set (points := map (fun i => extract_vec3 (control_point_fields show_float
                                               (leveled_point controlPoints levels i)))
                     (seq 0 k)).
  destruct (debug_curve_count fuel points Hfuel) as (curvePoints & Hrun & Hlen).
  assert (Hpl : length points = k) by (unfold points; now rewrite length_map, length_seq).
  rewrite Hpl in Hlen.
  destruct (generated_scene_read disk show_float extract_vec3 extract_vec2
              extract_float_into extract_vec3_into extract_vec4_into extract_uint_into
              fuel config object carMesh animation controlPoints levels curvePoints
              Hshow Hscene Hload Hcar Hanim)
    as (track & carro & curve & Hfile & Htn & Htm & Hts & Hta & Hcn & Hcm & Hcs & Hca
        & Hvn & Hvc & Hvp & Hvq).
  { rewrite Huint. exact Hrun. }
  exists track, carro, curve. rewrite Htm, Hvp, Hvq, Huint.
  repeat split; assumption.
Qed.


Lemma X30_generated_scene_read_back_witness :
  exists track carro curve config,
    SceneReader.readSceneFile sample_disk sample_extract_vec3 sample_extract_vec2
      sample_extract_float_into sample_extract_vec3_into sample_extract_vec4_into
      sample_extract_uint_into 102 "Scene.txt" (SceneReader.mkscene [] [] [] sample_config)
    = Returned (Normal
        (SceneReader.mkscene [("Track"%string, track); ("Carro"%string, carro)]
                             ["Track"; "Carro"]%string [("Curve1"%string, curve)] config))
    /\ length (GeometryObjects.VAO (SceneObject.mesh track)) = 3%nat
    /\ SceneObject.animationPositions carro = [point32 0 1 0; point32 4 2 0]
    /\ length (Curve.controlPoints curve) = 4%nat
    /\ length (Curve.curvePoints curve) = 101%nat.
Proof.
  destruct (X30_generated_scene_read_back sample_disk show_f32 sample_extract_vec3
              sample_extract_vec2 sample_extract_float_into sample_extract_vec3_into
              sample_extract_vec4_into sample_extract_uint_into 102 sample_config
              sample_mesh (GeometryObjects.mkMesh [] [] [] [] []) "track"
              [GeometryObjects.face_of (GeometryObjects.positions_of sample_triangle)
                                       (GeometryObjects.mappings_of sample_triangle)
                                       (GeometryObjects.normals_of sample_triangle)
                                       [0; 1; 2]%Z]
              (unlines ["0 1 0"; "4 2 0"]%string)
              (editorControlPoints sample_editor) (editorPointYellowLevels sample_editor))
    as (track & carro & curve & Hrun & _ & _ & Hvao & _ & _ & _ & _ & _ & Hanim & _
        & Hctrl & _ & Hcurve).
  - exact show_f32_one_line.
  - intros old. reflexivity.
  - lia.
  - reflexivity.
  - reflexivity.
  - reflexivity.
  - simpl. lia.
  - simpl. lia.
  - simpl. lia.
  - vm_compute. reflexivity.
  - reflexivity.
  - reflexivity.
  - exists track, carro, curve. eexists. split; [exact Hrun|].
    split; [exact Hvao|]. split; [rewrite Hanim; reflexivity|].
    split; [rewrite Hctrl; reflexivity|exact Hcurve].
Defined.

(** ** The space bar *)

Lemma SFeqb_number (a : spec_float) : is_number a = true -> SFeqb a a = true.
Proof.
  destruct a as [s|s| |s m e]; try discriminate; intros _; unfold SFeqb;
    cbn [SFcompare]; try (destruct s; reflexivity).
  rewrite Z.compare_refl.
  change (PosDef.Pos.compare_cont Eq m m) with (Pos.compare m m).
  rewrite Pos.compare_refl. now destruct s.
Qed.

Lemma find_index_in {A : Type} (eq : A -> A -> bool) (l : list A) (value e : A) :
  In e l -> eq e value = true -> (find_index eq l value < length l)%nat.
Proof.
  induction l as [|a l IH]; simpl; [tauto|]. intros [->|Hin] He.
  - rewrite He. lia.
  - destruct (eq a value); [lia|]. specialize (IH Hin He). lia.
Qed.

Lemma select_in {A : Type} (l : list A) (idxs : list Z) (p : A) :
  In p (select l idxs) -> In p l.
Proof.
  unfold select. intros Hin. apply in_flat_map in Hin. destruct Hin as (ix & _ & Hp).
  unfold vector_at in Hp. destruct (ix <? 0)%Z; [destruct Hp|].
  destruct (nth_error l (Z.to_nat ix)) eqn:E; [|destruct Hp].
  destruct Hp as [<-|[]]. eapply nth_error_In; eauto.
Qed.

(** A triangle over vertices without NaN is found in the mesh, corner by
    corner. *)
Lemma numbers_triangle_found (W : list (Vertex Binary32.f32))
    (groups : list (GeometryObjects.Group Binary32.f32)) (idxs : list Z) :
  forallb vertex_is_number W = true ->
  length idxs = 3%nat ->
  Forall (fun ix => 0 <= ix < Z.of_nat (length W))%Z idxs ->
  triangle_found
    (GeometryObjects.mkMesh (GeometryObjects.positions_of W)
       (GeometryObjects.mappings_of W) (GeometryObjects.normals_of W) groups W)
    (GeometryObjects.face_of (GeometryObjects.positions_of W)
       (GeometryObjects.mappings_of W) (GeometryObjects.normals_of W) idxs) = true.
Proof.
  intros Hnum Hlen Hrange. rewrite forallb_forall in Hnum.
  assert (Hw : forall w, In w W ->
             is_number (vtx_x w) = true /\ is_number (vtx_y w) = true
             /\ is_number (vtx_z w) = true /\ is_number (vtx_s w) = true
             /\ is_number (vtx_t w) = true /\ is_number (vtx_nx w) = true
             /\ is_number (vtx_ny w) = true /\ is_number (vtx_nz w) = true).
  { intros w Hin. specialize (Hnum w Hin). unfold vertex_is_number in Hnum.
    rewrite !andb_true_iff in Hnum. tauto. }
  unfold triangle_found, GeometryObjects.face_of.
  cbn [GeometryObjects.verts GeometryObjects.texts GeometryObjects.norms
       GeometryObjects.vertices GeometryObjects.mappings GeometryObjects.normals].
  unfold GeometryObjects.positions_of, GeometryObjects.mappings_of,
    GeometryObjects.normals_of.
  rewrite !select_in_range, Hlen by exact Hrange.
  cbn [Nat.eqb andb].
  rewrite !andb_true_iff. repeat split.
  - apply forallb_forall. intros p Hp. apply Nat.ltb_lt.
    apply (find_index_in _ _ _ p); [now apply select_in in Hp|].
    apply select_in, in_map_iff in Hp. destruct Hp as (w & <- & Hin).
    destruct (Hw w Hin) as (Hx & Hy & Hz & _).
    unfold GeometryObjects.Vec3_eq. cbn [feqb f32_eq GeometryObjects.x GeometryObjects.y
                                         GeometryObjects.z].
    now rewrite !SFeqb_number.
  - apply forallb_forall. intros p Hp. apply Nat.ltb_lt.
    apply (find_index_in _ _ _ p); [now apply select_in in Hp|].
    apply select_in, in_map_iff in Hp. destruct Hp as (w & <- & Hin).
    destruct (Hw w Hin) as (_ & _ & _ & Hs & Ht & _).
    unfold GeometryObjects.Vec2_eq. cbn [feqb f32_eq GeometryObjects.u GeometryObjects.v].
    now rewrite !SFeqb_number.
  - apply forallb_forall. intros p Hp. apply Nat.ltb_lt.
    apply (find_index_in _ _ _ p); [now apply select_in in Hp|].
    apply select_in, in_map_iff in Hp. destruct Hp as (w & <- & Hin).
    destruct (Hw w Hin) as (_ & _ & _ & _ & _ & Hx & Hy & Hz).
    unfold GeometryObjects.Vec3_eq. cbn [feqb f32_eq GeometryObjects.x GeometryObjects.y
                                         GeometryObjects.z].
    now rewrite !SFeqb_number.
Qed.

(** X25. The space bar with [k >= 4] control points, in binary32, from the
    files written to the viewer.  With the levels aligned, fewer than
    [2^31 - 1] vertices, no NaN among the vertices of the track, a car
    file that is absent or read without fault and a library that reads
    [" 100"] as 100: the curve of 50 segments per window has
    [n = 51 (k - 3)] points; the program writes [animation.txt] with [n]
    lines, [track.obj] with [14 n] lines ([4 n] each of [v], [vt], [vn] and
    [2 n] faces) and a scene file of [40 + k] lines whose [ControlPoint]
    lines are the control points with their levels; [readSceneFile] then
    returns with the track of [2 n] triangles ([6 n] vertices to draw) and
    no animation, the car with [n] animation positions, and the curve
    "Curve1" of [k] control points and [101 (k - 3)] points; and the editor
    is left. *)
Theorem X25_scene_files (T : Trig Binary32.f32)
    (show_float : Binary32.f32 -> string) (disk : string -> option string)
    (extract_vec3 : string -> vec3 Binary32.f32)
    (extract_vec2 : string -> vec2 Binary32.f32)
    (extract_float_into : string -> Binary32.f32 -> Binary32.f32)
    (extract_vec3_into : string -> vec3 Binary32.f32 -> vec3 Binary32.f32)
    (extract_vec4_into : string -> vec4 Binary32.f32 -> vec4 Binary32.f32)
    (extract_uint_into : string -> Z -> Z)
    (fuel : nat) (ed : Editor Binary32.f32) (trackWidth : Binary32.f32)
    (config : Config.GlobalConfig Binary32.f32)
    (carMesh : GeometryObjects.Mesh Binary32.f32) :
  (forall a, has_newline (show_float a) = false) ->
  (forall old, extract_uint_into " 100"%string old = 100%Z) ->
  editorMode ed = true ->
  length (editorPointYellowLevels ed) = length (editorControlPoints ed) ->
  let k := length (editorControlPoints ed) in
  (4 <= k)%nat -> (204 * Z.of_nat (k - 3) < 2 ^ 31 - 1)%Z -> (102 <= fuel)%nat ->
  forallb vertex_is_number (editor_track (H0 := T) fuel ed trackWidth) = true ->
  SceneReader.load_mesh disk extract_vec3 extract_vec2 "Carro"%string "car.obj"%string
  = Normal carMesh ->
  exists files ctrl track carro curve config',
    press_space (H0 := T) show_float disk extract_vec3 extract_vec2 extract_float_into
      extract_vec3_into extract_vec4_into extract_uint_into fuel ed trackWidth
      (SceneReader.mkscene [] [] [] config)
    = Returned (Normal
        (mkEditor false (editorControlPoints ed) (editorPointYellowLevels ed)
                  (currentYellowLevel ed),
         SceneReader.mkscene [("Track"%string, track); ("Carro"%string, carro)]
                             ["Track"; "Carro"]%string [("Curve1"%string, curve)] config',
         Some files))
    /\ ctrlPoints3D (editorControlPoints ed) (editorPointYellowLevels ed) = Some ctrl
    /\ length (lines (animation_txt files)) = (51 * (k - 3))%nat
    /\ length (lines (track_obj files)) = (14 * (51 * (k - 3)))%nat
    /\ lines (scene_txt files)
       = config_block ++ track_block "track.obj" ++ carro_block "car.obj" "animation.txt"
         ++ ["Type BSplineCurve Curve1"%string]
         ++ map (control_point_line show_float) ctrl
         ++ ["PointsPerSegment 100"; "Color 1.0 0.0 0.0 1.0"; "End"]%string
    /\ length (lines (scene_txt files)) = (40 + k)%nat
    /\ length (flat_map GeometryObjects.faces
                 (GeometryObjects.groups (SceneObject.mesh track)))
       = (2 * (51 * (k - 3)))%nat
    /\ length (GeometryObjects.VAO (SceneObject.mesh track)) = (6 * (51 * (k - 3)))%nat
    /\ SceneObject.animationPositions track = []
    /\ SceneObject.mesh carro = carMesh
    /\ length (SceneObject.animationPositions carro) = (51 * (k - 3))%nat
    /\ length (Curve.controlPoints curve) = k
    /\ length (Curve.curvePoints curve) = (101 * (k - 3))%nat.
Proof.
  intros Hshow Huint Hmode Hlen k Hk Hsmall Hfuel Hnum Hcar.
  set (ctrl := map (fun '(p, yl) => mkvec3 (vx p) (vy p) yl)
                   (combine (editorControlPoints ed) (editorPointYellowLevels ed))).
  assert (Hctrl : ctrlPoints3D (editorControlPoints ed) (editorPointYellowLevels ed)
                  = Some ctrl) by (apply ctrlPoints3D_aligned; lia).
  assert (Hlc : length ctrl = k).
  { unfold ctrl. rewrite length_map, length_combine. fold k. lia. }
  destruct (sample_count_fuel 52 (fuel - 52) _ _ _ f32_fifty_steps) as [Hc _].
  replace (52 + (fuel - 52))%nat with fuel in Hc by lia.
  assert (Hk4 : (4 <= length ctrl)%nat) by (rewrite Hlc; exact Hk).
  destruct (generateBSplinePoints_count fuel ctrl 50 51 Hk4 Hc)
    as (curve & Hcurve & Hn).
  rewrite Hlc in Hn.
  set (n := length curve) in *.
  assert (Hn2 : (2 <= n)%nat) by lia.
  assert (Hn32 : (4 * Z.of_nat n <= 2 ^ 32)%Z) by lia.
  destruct (track_mesh_faces (H0 := T) curve trackWidth Hn2 Hn32)
    as (_ & HlenW & _ & Hmesh).
  unfold editor_track, editor_curve in Hnum. rewrite Hctrl, Hcurve in Hnum.
  set (W := map swap_yz (fst (generateTrackMesh (H0 := T) curve trackWidth [] []))) in *.
  fold n in HlenW, Hmesh.
  set (fs := map (fun j => GeometryObjects.face_of (GeometryObjects.positions_of W)
                             (GeometryObjects.mappings_of W)
                             (GeometryObjects.normals_of W) (track_triangle j))
                 (seq 0 (2 * n))) in *.
  set (mesh := GeometryObjects.mkMesh _ _ _ _ W) in Hmesh.
  assert (Hfs : length fs = (2 * n)%nat) by (unfold fs; now rewrite length_map, length_seq).
  assert (Hfound : forallb (triangle_found mesh) fs = true).
  { apply forallb_forall. intros face Hface. unfold fs in Hface.
    apply in_map_iff in Hface. destruct Hface as (j & <- & Hj). apply in_seq in Hj.
    apply numbers_triangle_found; [exact Hnum|apply track_triangle_length|].
    rewrite HlenW. apply track_triangle_range. lia. }
  assert (Hwhole : forallb (fun grp => forallb GeometryObjects.whole_face
                                               (GeometryObjects.faces grp))
                           (GeometryObjects.groups mesh) = true).
  { unfold mesh. cbn [GeometryObjects.groups GeometryObjects.faces forallb].
    rewrite andb_true_r. now apply track_faces_whole. }
  pose proof (OBJWriter_write_text show_float mesh Hwhole) as Hobj.
  (* the three files *)
  set (files := mkSceneFiles
                  (unlines (GeometryObjects.obj_lines show_float mesh))
                  (fold_left (write_point show_float) curve EmptyString)
                  (generateSceneFile show_float "track.obj" "car.obj" "animation.txt"
                     (editorControlPoints ed) (editorPointYellowLevels ed))).
  assert (Hbuild : build_scene (H0 := T) show_float fuel ed trackWidth
                   = Returned (Some files)).
  { unfold build_scene. rewrite Hctrl, Hcurve. cbn [bind].
    rewrite (surjective_pairing (generateTrackMesh curve trackWidth [] [])).
    fold W. rewrite Hmesh, Hobj.
    unfold exportAnimationPoints. cbn [negb]. reflexivity. }
  assert (Hanim : lines (animation_txt files) = map (point_line show_float) curve).
  { cbn [animation_txt files]. rewrite write_points_text. cbn [append].
    apply (lines_of_points show_float Hshow). }
  (* the scene read back *)
  assert (Sv : (Z.of_nat (length (GeometryObjects.vertices mesh)) < 2 ^ 31 - 1)%Z).
  { unfold mesh. cbn [GeometryObjects.vertices]. unfold GeometryObjects.positions_of.
    rewrite length_map, HlenW. lia. }
  assert (St : (Z.of_nat (length (GeometryObjects.mappings mesh)) < 2 ^ 31 - 1)%Z).
  { unfold mesh. cbn [GeometryObjects.mappings]. unfold GeometryObjects.mappings_of.
    rewrite length_map, HlenW. lia. }
  assert (Sn : (Z.of_nat (length (GeometryObjects.normals mesh)) < 2 ^ 31 - 1)%Z).
  { unfold mesh. cbn [GeometryObjects.normals]. unfold GeometryObjects.normals_of.
    rewrite length_map, HlenW. lia. }
  destruct (written_obj_read_back show_float extract_vec3 extract_vec2 mesh
              "track" "Track" fs Hshow eq_refl Sv St Sn Hfound)
    as (object & Hread & Hog & _ & _ & _ & Hovao).
  set (points := map (fun i => extract_vec3 (control_point_fields show_float
                        (leveled_point (editorControlPoints ed)
                                       (editorPointYellowLevels ed) i)))
                     (seq 0 (length (editorControlPoints ed)))).
  destruct (debug_curve_count fuel points Hfuel) as (curvePoints & Hrun & Hlcp).
  assert (Hpl : length points = k) by (unfold points; now rewrite length_map, length_seq).
  rewrite Hpl in Hlcp.
  destruct (generated_scene_read (written disk files) show_float extract_vec3 extract_vec2
              extract_float_into extract_vec3_into extract_vec4_into extract_uint_into
              fuel config object carMesh (animation_txt files)
              (editorControlPoints ed) (editorPointYellowLevels ed) curvePoints
              Hshow eq_refl)
    as (track & carro & curve1 & Hfile & _ & Htm & _ & Hta & _ & Hcm & _ & Hca
        & _ & Hvc & _ & Hvq).
  { unfold SceneReader.load_mesh, written. cbn [String.eqb Ascii.eqb Bool.eqb track_obj files].
    exact Hread. }
  { unfold SceneReader.load_mesh, written. cbn [String.eqb Ascii.eqb Bool.eqb].
    exact Hcar. }
  { reflexivity. }
  { rewrite Huint. exact Hrun. }
  exists files, ctrl, track, carro, curve1. eexists.
  split.
  { unfold press_space. rewrite Hmode.
    destruct (Nat.eqb_spec (length (editorControlPoints ed)) 0) as [Hz|_];
      [fold k in Hz; lia|].
    cbn [andb negb]. rewrite Hbuild. cbn [bind]. rewrite Hfile. reflexivity. }
  split; [exact Hctrl|].
  split; [rewrite Hanim, length_map; fold n; lia|].
  split.
  { cbn [track_obj files]. rewrite lines_unlines.
    - unfold GeometryObjects.obj_lines, mesh.
      cbn [GeometryObjects.vertices GeometryObjects.mappings GeometryObjects.normals
           GeometryObjects.groups flat_map].
      unfold GeometryObjects.group_lines.
      cbn [GeometryObjects.mtlName GeometryObjects.faces String.eqb app].
      rewrite !length_app, !length_map, Hfs.
      unfold GeometryObjects.positions_of, GeometryObjects.mappings_of,
        GeometryObjects.normals_of.
      rewrite !length_map, HlenW. cbn [length]. lia.
    - apply obj_lines_one_line; [exact Hshow|].
      unfold mesh. cbn [GeometryObjects.groups]. repeat constructor. }
  assert (Hscene : lines (scene_txt files)
                   = config_block ++ track_block "track.obj"
                     ++ carro_block "car.obj" "animation.txt"
                     ++ ["Type BSplineCurve Curve1"%string]
                     ++ map (control_point_line show_float) ctrl
                     ++ ["PointsPerSegment 100"; "Color 1.0 0.0 0.0 1.0"; "End"]%string).
  { cbn [scene_txt files].
    rewrite generateSceneFile_lines, <- map_map, leveled_points_aligned by lia.
    fold ctrl. apply lines_unlines.
    rewrite !Forall_app. repeat split; try (repeat constructor).
    apply Forall_forall. intros l Hl. apply in_map_iff in Hl. destruct Hl as (c & <- & _).
    unfold control_point_line. now rewrite !has_newline_app, !Hshow. }
  split; [exact Hscene|].
  split.
  { rewrite Hscene, !length_app, length_map, Hlc.
    unfold config_block, track_block, carro_block. cbn [length]. lia. }
  rewrite Htm, Hog, Hovao, Hta, Hcm, Hca, Hvc, Hvq, Hanim.
  cbn [flat_map GeometryObjects.faces].
  rewrite app_nil_r, !length_map, Hfs, length_seq.
  fold n k. repeat split; try reflexivity; try lia; exact Hlcp.
Qed.

Lemma X25_scene_files_witness :
  exists files track carro curve config',
    press_space (H0 := sample_trig) show_f32 (fun _ => None) sample_extract_vec3
      sample_extract_vec2 sample_extract_float_into sample_extract_vec3_into
      sample_extract_vec4_into sample_extract_uint_into 102 sample_editor
      (Binary32.of_int 1) (SceneReader.mkscene [] [] [] sample_config)
    = Returned (Normal
        (mkEditor false (editorControlPoints sample_editor)
                  (editorPointYellowLevels sample_editor)
                  (currentYellowLevel sample_editor),
         SceneReader.mkscene [("Track"%string, track); ("Carro"%string, carro)]
                             ["Track"; "Carro"]%string [("Curve1"%string, curve)] config',
         Some files))
    /\ length (lines (animation_txt files)) = 51%nat
    /\ length (lines (track_obj files)) = 714%nat
    /\ length (lines (scene_txt files)) = 44%nat
    /\ length (GeometryObjects.VAO (SceneObject.mesh track)) = 306%nat
    /\ length (SceneObject.animationPositions carro) = 51%nat
    /\ length (Curve.curvePoints curve) = 101%nat.
Proof.
  destruct (X25_scene_files sample_trig show_f32 (fun _ => None) sample_extract_vec3
              sample_extract_vec2 sample_extract_float_into sample_extract_vec3_into
              sample_extract_vec4_into sample_extract_uint_into 102 sample_editor
              (Binary32.of_int 1) sample_config (GeometryObjects.mkMesh [] [] [] [] []))
    as (files & ctrl & track & carro & curve & config' & Hrun & _ & Hanim & Hobj & _
        & Hscene & _ & Hvao & _ & _ & Hpos & _ & Hcurve).
  - exact show_f32_one_line.
  - intros old. reflexivity.
  - reflexivity.
  - reflexivity.
  - simpl. lia.
  - simpl. lia.
  - lia.
  - vm_compute. reflexivity.
  - reflexivity.
  - exists files, track, carro, curve, config'.
    split; [exact Hrun|]. split; [exact Hanim|]. split; [exact Hobj|].
    split; [exact Hscene|]. split; [exact Hvao|]. split; [exact Hpos|exact Hcurve].
Defined.

(** X26. The space bar with one, two or three control points: the curve
    needs four, so [generateBSplinePoints] returns no point and
    [generateTrackMesh] no vertex, and the program goes on: it writes an
    empty [track.obj] and an empty [animation.txt] and writes the scene
    file; [readSceneFile] (with a car file that is
    absent or read without fault) then returns with a track without
    vertices, a car without animation positions and a curve without
    points; and the editor is left for the viewer.  (The levels are aligned
    with the points, as the editor keeps them.) *)
Theorem X26_space_with_few_points {F : Type} `{Scalar F} `{Trig F} `{ScalarEq F}
    (show_float : F -> string) (disk : string -> option string)
    (extract_vec3 : string -> vec3 F) (extract_vec2 : string -> vec2 F)
    (extract_float_into : string -> F -> F)
    (extract_vec3_into : string -> vec3 F -> vec3 F)
    (extract_vec4_into : string -> vec4 F -> vec4 F)
    (extract_uint_into : string -> Z -> Z)
    (fuel : nat) (ed : Editor F) (trackWidth : F) (config : Config.GlobalConfig F)
    (carMesh : GeometryObjects.Mesh F) :
  (forall a, has_newline (show_float a) = false) ->
  editorMode ed = true ->
  length (editorPointYellowLevels ed) = length (editorControlPoints ed) ->
  (1 <= length (editorControlPoints ed) < 4)%nat ->
  SceneReader.load_mesh disk extract_vec3 extract_vec2 "Carro"%string "car.obj"%string
  = Normal carMesh ->
  exists track carro curve config',
    press_space show_float disk extract_vec3 extract_vec2 extract_float_into
      extract_vec3_into extract_vec4_into extract_uint_into fuel ed trackWidth
      (SceneReader.mkscene [] [] [] config)
    = Returned (Normal
        (mkEditor false (editorControlPoints ed) (editorPointYellowLevels ed)
                  (currentYellowLevel ed),
         SceneReader.mkscene [("Track"%string, track); ("Carro"%string, carro)]
                             ["Track"; "Carro"]%string [("Curve1"%string, curve)] config',
         Some (mkSceneFiles EmptyString EmptyString
                 (generateSceneFile show_float "track.obj" "car.obj" "animation.txt"
                    (editorControlPoints ed) (editorPointYellowLevels ed)))))
    /\ GeometryObjects.VAO (SceneObject.mesh track) = []
    /\ flat_map GeometryObjects.faces (GeometryObjects.groups (SceneObject.mesh track)) = []
    /\ SceneObject.mesh carro = carMesh
    /\ SceneObject.animationPositions carro = []
    /\ length (Curve.controlPoints curve) = length (editorControlPoints ed)
    /\ Curve.curvePoints curve = [].
Proof.
  intros Hshow Hmode Hlen Hk Hcar.
  set (files := mkSceneFiles EmptyString EmptyString
                  (generateSceneFile show_float "track.obj" "car.obj" "animation.txt"
                     (editorControlPoints ed) (editorPointYellowLevels ed))).
  assert (Hbuild : build_scene show_float fuel ed trackWidth = Returned (Some files)).
  { unfold build_scene. rewrite ctrlPoints3D_aligned by lia.
    rewrite generateBSplinePoints_few by (rewrite length_map, length_combine; lia).
    cbn [bind]. rewrite (generateTrackMesh_degenerate [] trackWidth [] [])
      by (simpl; lia).
    reflexivity. }
  set (points := map (fun i => extract_vec3 (control_point_fields show_float
                        (leveled_point (editorControlPoints ed)
                                       (editorPointYellowLevels ed) i)))
                     (seq 0 (length (editorControlPoints ed)))).
  assert (Hpl : length points = length (editorControlPoints ed))
    by (unfold points; now rewrite length_map, length_seq).
  destruct (generated_scene_read (written disk files) show_float extract_vec3 extract_vec2
              extract_float_into extract_vec3_into extract_vec4_into extract_uint_into
              fuel config
              (GeometryObjects.mkMesh [] [] [] [GeometryObjects.mkGroup "Track" "" []] [])
              carMesh EmptyString
              (editorControlPoints ed) (editorPointYellowLevels ed) [] Hshow eq_refl)
    as (track & carro & curve & Hfile & _ & Htm & _ & _ & _ & Hcm & _ & Hca
        & _ & Hvc & _ & Hvq).
  { reflexivity. }
  { unfold SceneReader.load_mesh, written. cbn [String.eqb Ascii.eqb Bool.eqb].
    exact Hcar. }
  { reflexivity. }
  { apply generateBSplinePoints_few. fold points. lia. }
  exists track, carro, curve. eexists.
  split.
  { unfold press_space. rewrite Hmode.
    destruct (Nat.eqb_spec (length (editorControlPoints ed)) 0) as [Hz|_]; [lia|].
    cbn [andb negb]. rewrite Hbuild. cbn [bind]. rewrite Hfile. reflexivity. }
  rewrite Htm, Hcm, Hca, Hvc, Hvq. fold points. rewrite Hpl.
  repeat split; reflexivity.
Qed.

Lemma X26_space_with_few_points_witness :
  exists track carro curve config' scene,
    press_space (H0 := sample_trig) show_f32 (fun _ => None) sample_extract_vec3
      sample_extract_vec2 sample_extract_float_into sample_extract_vec3_into
      sample_extract_vec4_into sample_extract_uint_into 0
      (mkEditor true [point32 1 2 0; point32 3 4 0]
                [Binary32.of_int 1; Binary32.of_int 2] (Binary32.of_int 2))
      (Binary32.of_int 1) (SceneReader.mkscene [] [] [] sample_config)
    = Returned (Normal
        (mkEditor false [point32 1 2 0; point32 3 4 0]
                  [Binary32.of_int 1; Binary32.of_int 2] (Binary32.of_int 2),
         SceneReader.mkscene [("Track"%string, track); ("Carro"%string, carro)]
                             ["Track"; "Carro"]%string [("Curve1"%string, curve)] config',
         Some (mkSceneFiles EmptyString EmptyString scene)))
    /\ SceneObject.animationPositions carro = []
    /\ length (Curve.controlPoints curve) = 2%nat
    /\ Curve.curvePoints curve = [].
Proof.
  destruct (X26_space_with_few_points (H0 := sample_trig) show_f32 (fun _ => None)
              sample_extract_vec3 sample_extract_vec2 sample_extract_float_into
              sample_extract_vec3_into sample_extract_vec4_into sample_extract_uint_into 0
              (mkEditor true [point32 1 2 0; point32 3 4 0]
                        [Binary32.of_int 1; Binary32.of_int 2] (Binary32.of_int 2))
              (Binary32.of_int 1) sample_config (GeometryObjects.mkMesh [] [] [] [] []))
    as (track & carro & curve & config' & Hrun & _ & _ & _ & Hanim & Hctrl & Hcurve).
  - exact show_f32_one_line.
  - reflexivity.
  - reflexivity.
  - simpl. lia.
  - reflexivity.
  - exists track, carro, curve, config'. eexists.
    split; [exact Hrun|]. split; [exact Hanim|]. split; [exact Hctrl|exact Hcurve].
Defined.
